(* ===== verification/_CoqProject ===== *)
-Q . S2P
Prelude.v
Words.v
RoundRobin.v
Capability.v
Syscall.v
Task.v
Scheduler.v
Switch.v
TaskEntry.v
Interrupts.v
Preempt.v
Exceptions.v
Serial.v
Ipc.v
WasmRuntime.v
Demos.v
Memory.v
Mmu.v
Arm.v
ArmBoot.v
ArmScheduler.v
ArmVectors.v
ArmTurns.v
Agreement.v
ArmDevices.v
ArmConsole.v
Benchmark.v
ArmKernel.v
ArmTasks.v
Boot.v
DemoTicks.v
DemoOrder.v
DemoProgress.v
Kernel.v
BuildScript.v
