(* ===== verification/Prelude.v ===== *)
(** * JerichoOS: a verification development

    JerichoOS is a capability-based microkernel in Rust that runs WebAssembly
    guests on x86-64 and AArch64.  This library is a shallow embedding of its
    kernel sources under [src/src/]: Rust functions are Rocq functions, structs
    are records, enums are inductive types, and the assembly of the context
    switches is run by small interpreters.  Everything is executable.

    ** Conventions

    - A function that can panic or spin for ever returns an [outcome] ([Ok],
      [Panic], [Hang]); [Result] and [Option] are [result] and [option].
    - Integers are [Z].  Where the code adds, subtracts or multiplies at a
      machine width, the model does so with [+u[w]], [-u[w]] and [*u[w]], whose
      overflow panics in a [Dev] build and wraps in a [Release] build; the
      development is parametric in the [Build].
    - Code outside the repository (the [wasmi] interpreter, the [x86_64] crate's
      frames, page tables and descriptor tables, the serial port) is a
      type class of operations and a second one of documented laws, each with a
      concrete instance.
    - Progress messages of the boot sequences are left out; what a guest, a task or an
      AArch64 interrupt prints and what the drivers write to device registers is kept.

    ** The files and what they model

    - [Prelude]: outcomes, machine integers, vectors searched by a key.
    - [Words]: memory as 64-bit words and [repr(C)] records in it.
    - [RoundRobin]: the interface both schedulers implement, and what tasks can
      count on from it alone, a fair share and the same order as any other
      implementation.
    - [Capability] ([capability.rs]): rights, tokens, capability spaces.  Tokens
      are only ever attenuated, ids are fresh.
    - [Syscall] ([syscall.rs]): the dispatcher and its handlers.  Confinement of
      any sequence of calls, panic-freedom, revocation, the rights encoding.
    - [Task] ([task.rs]) and [Scheduler] ([scheduler.rs]): tasks, the ready queue
      and round robin.  The invariant of all reachable states by induction on a
      step relation, the round-robin cycle, bounded waiting, frame properties.
    - [Switch] ([scheduler.rs]): the [asm!] block of [switch_context],
      [task_yield].  A switched-out task comes back as it was, whatever ran and was
      switched between meanwhile; a fresh task enters its wrapper.
    - [TaskEntry] ([scheduler.rs]): the naked [task_entry_wrapper], and what
      happens when a task returns.
    - [Interrupts] ([interrupts.rs]): the timer tick and the interval timer.
    - [Preempt] ([interrupts.rs], [scheduler.rs]): the timer handler and [task_yield] with
      the interrupt controller and the locks of preempted tasks, as a labelled step
      relation (ticks, yields, locking, new and woken tasks) and, over it, histories in
      which tasks also block and end: what one preemption stops, who brings the
      timer back, how it is lost, and an interrupt inside the switch.
    - [Exceptions] ([gdt.rs], [interrupts.rs], [serial.rs]): the descriptor tables,
      every exception handler, and the serial lock they share with the code
      they interrupt; [Serial] ([serial.rs]): the console behind that lock.
    - [Ipc] ([ipc.rs]): endpoints, the registry and its lock, blocking receive.
      A refinement of bounded mailboxes (the abstract specification), fifo
      order, access control, the wake-up of waiters, and the lock order.
    - [WasmRuntime] ([wasm_runtime.rs]): the seven host functions, module
      loading, and delivery.  The sandbox theorem for arbitrary guests, the exact
      behaviour of the host functions, termination and order of delivery.
    - [Demos] ([demos/wasm_tests.rs], [main.rs]): the five demos and the
      self-test, as programs over arbitrary guest modules.  The suite leaves
      only small messages for subscribed clients queued, and comes to its end.
    - [Memory] ([memory.rs], [allocator.rs]): the boot frame allocator behind the
      [FrameAllocator] interface, and the heap mapping that is its client.
    - [Mmu] ([arch/aarch64/mmu.rs]): the translation tables, and the table walk of
      the architecture over them.
    - [Arm] ([exceptions.S], [arch/aarch64/task.rs]): the exception frame and the
      naked [switch_context]; [ArmBoot] ([boot.S], [linker.ld]): the start-up
      code from reset to [kernel_main] and the layout of the image;
      [ArmScheduler] ([arch/aarch64/scheduler.rs], [exceptions.rs]): the task
      table, [handle_irq], the IRQ vector end to end; [ArmVectors]
      ([exceptions.S], [exceptions.rs]): the vector table and the other vectors;
      [ArmTurns]: runs of many timer ticks with arbitrary tasks in between;
      [ArmDevices] ([uart.rs], [gic.rs], [timer.rs]); [ArmConsole]: the copies of the
      UART routines in the other modules and what is printed through them;
      [ArmKernel] ([main_aarch64.rs], [arch/aarch64/mod.rs]): [kernel_main] as a
      composition of all of these; [ArmTasks] ([main_aarch64.rs]): the bodies of the
      demo tasks, compiled, and the console they share while the timer slices them.
    - [Agreement]: the core of [Preempt] and the AArch64 scheduler as instances of the
      round-robin interface, their tasks' fair share, and both run side by side.  A
      turn ends in a yield or a tick on x86-64 and in a tenth tick on AArch64.
    - [Benchmark] ([benchmark.rs], [arch/aarch64/benchmark.rs]): counters and unit
      conversions at 64 bits; the suite and its verdicts.
    - [Boot] ([main.rs]): the self-test of the capability system, and the IPC demo
      as a composition of the scheduler, [task_yield] and the registry.
    - [DemoTicks] ([main.rs], [interrupts.rs]): that demo operation by operation, with
      timer ticks in between and while locks are held; [DemoOrder]: the invariant of
      all its runs, what preemption cannot do to the messages and what it can;
      [DemoProgress]: what is delivered once the ticks stop, by a rank that every other
      move lowers.
    - [Kernel] ([main.rs], [memory.rs]): the x86-64 [kernel_main] as a composition
      of the components above, from power-on to the demo's last message, and what is
      left of that when timer ticks come during the demo.
    - [BuildScript] ([build.rs]): which kernel binary goes into the disk images, and what
      cargo is told.

    How they interact: [Syscall] runs on [Capability]; [Ipc] checks capabilities
    and wakes tasks of [Scheduler]; [Switch] and [Interrupts] drive [Scheduler];
    [Preempt] puts the two under the interrupt controller; [Boot] runs task bodies
    over [Ipc] and [Switch], [DemoTicks] the same bodies on the core of [Preempt]; on
    AArch64, [ArmScheduler] runs over the frames [Arm] saves and restores, [ArmTurns] iterates it, and
    [ArmKernel] starts in the state [ArmBoot] ends in and ends in the one
    [ArmTurns] starts from; [ArmTasks] goes on from there with the tasks' own code.

    ** Bounds and fuel

    - [receive_message_blocking] and [deliver_pending_messages] loop on events
      the kernel does not control; their models take a fuel and answer [None]
      when it runs out.  One more unit than there are pending messages suffices
      for every guest that queues nothing itself ([delivery_terminates]); the
      blocking receive on an empty endpoint never ends, for any fuel
      ([receive_blocking_starves]).
    - The boot code runs as long as its BSS loop needs, a number of steps the
      theorem computes from the layout.
    - The AArch64 [schedule] gets as many steps as there are tasks, which is
      enough ([arm_schedule_spec]).
    - The polling loop of the UART runs on the list of values the flag register
      will answer.

    ** Conditions

    The two theorems on a whole boot hold under conditions that other theorems show to
    be needed.  Guest activations return normally ([EndingGuest], [QuietGuest]): a
    guest can panic the kernel ([guest_panics_kernel]) and a delivery can go on for
    ever ([delivery_may_not_end]).  On x86-64 the heap can be mapped
    ([x86_boot_needs_memory]), and all messages arrive when no tick disturbs the demo
    ([timer_breaks_the_demo]).  On AArch64 no switching tick comes between enabling
    task switching and the jump into the first task ([launch_race]); other ticks there
    are covered.  The demo tasks there are taken as compiled code that keeps its
    state in registers ([ArmTasks.compiled]): a resumed task finds its stack pointer reset
    ([arm_cycle_resumes]).  What is shared fairly on x86-64 is shared among tasks that
    yield ([preempted_core_stalls]), and while none blocks or ends ([timer_lost]).

    ** Not modelled

    What [core::fmt] renders and the serial port's registers, the prebuilt demo
    modules, the machine code of tasks (a parameter that must do what the source's
    loops do), and cache and barrier effects.  The SIMD registers, which the kernel
    neither saves nor uses, are not part of the processor of [Arm], and the stack segment
    register is not part of [Exceptions].  The table walk of [Mmu] is that of
    TTBR0_EL1: addresses outside its range, which TTBR1_EL1 would translate, count as
    faults.  The two boot sequences are followed without their messages and, up to
    the unmasking of interrupts, without interrupts; ticks are followed in [Preempt],
    over arbitrary tasks, in [DemoTicks] for the x86-64 demo, and on AArch64 in
    [ArmKernel] up to the first task and in [ArmTurns] and [ArmTasks] after it.
    Task switching is followed on a single core, with memory as words: records
    that the theorems speak of are assumed not to overlap. *)

From Stdlib Require Strings.Ascii Strings.String.
From Stdlib Require Export ZArith Lia Bool.
From stdpp Require Export base tactics option list gmap.
#[export] Set Default Goal Selector "!".
#[global] Open Scope Z_scope.

(** ** Outcomes of a piece of kernel code

    [Ok a] is a normal return, [Panic] a Rust panic (the kernel's panic
    handlers halt the machine) and [Hang] a spin loop that can never be left,
    such as a [spin::Mutex] taken twice on the only core. *)
Inductive outcome (A : Type) : Type :=
  | Ok (a : A)
  | Panic
  | Hang.
Arguments Ok {A} a.
Arguments Panic {A}.
Arguments Hang {A}.

#[global] Instance outcome_ret : MRet outcome := @Ok.
#[global] Instance outcome_bind : MBind outcome :=
  λ A B f m, match m with Ok a => f a | Panic => Panic | Hang => Hang end.
#[global] Instance outcome_fmap : FMap outcome :=
  λ A B f m, match m with Ok a => Ok (f a) | Panic => Panic | Hang => Hang end.
#[global] Instance outcome_eq_dec {A} `{EqDecision A} : EqDecision (outcome A).
Proof. solve_decision. Defined.

(** [Option::unwrap] and [Option::expect]. *)
Definition unwrap {A} (o : option A) : outcome A :=
  match o with Some a => Ok a | None => Panic end.

Lemma bind_Ok {A B} (m : outcome A) (f : A → outcome B) b :
  (m ≫= f) = Ok b ↔ ∃ a, m = Ok a ∧ f a = Ok b.
Proof. destruct m; simpl; naive_solver. Qed.

Lemma unwrap_Ok {A} (o : option A) a : unwrap o = Ok a ↔ o = Some a.
Proof. destruct o; simpl; naive_solver. Qed.

(** Rust's [Result<T, E>], as a value: an error is not a panic. *)
Inductive result (E T : Type) : Type :=
  | ROk (t : T)
  | RErr (e : E).
Arguments ROk {E T} t.
Arguments RErr {E T} e.

(** ** Build profiles and machine integers

    [Cargo.toml] leaves [overflow-checks] at its default: on in [profile.dev],
    off in [profile.release].  An unsigned [+] that overflows therefore panics
    in one build and wraps in the other, and the development is parametric in
    the build. *)
Inductive profile := Dev | Release.

Class Build := build : profile.

Definition in_u (w z : Z) : Prop := 0 ≤ z < 2 ^ w.
Definition in_i (w z : Z) : Prop := - 2 ^ (w - 1) ≤ z < 2 ^ (w - 1).

Definition wrap (w z : Z) : Z := z mod 2 ^ w.

(** [a + b], [a - b] and [a * b] on a [w]-bit unsigned integer. *)
Definition overflow `{Build} (w z : Z) : outcome Z :=
  if decide (0 ≤ z < 2 ^ w) then Ok z
  else match build with Dev => Panic | Release => Ok (wrap w z) end.

Definition add_u `{Build} (w a b : Z) : outcome Z := overflow w (a + b).
Definition sub_u `{Build} (w a b : Z) : outcome Z := overflow w (a - b).
Definition mul_u `{Build} (w a b : Z) : outcome Z := overflow w (a * b).

(** [a.saturating_add(b)]. *)
Definition saturating_add (w a b : Z) : Z := Z.min (a + b) (2 ^ w - 1).

(** [x as usize] for [x : i32], and [x as i32] for an unsigned [x]. *)
Definition i32_as_usize (z : Z) : Z := wrap 64 z.
Definition as_i32 (z : Z) : Z :=
  let m := wrap 32 z in if decide (m < 2 ^ 31) then m else m - 2 ^ 32.

(** The development's hint and rewrite database. *)
Create HintDb jericho.
Create Rewrite HintDb jericho.

Declare Scope jericho_scope.
Delimit Scope jericho_scope with jericho.
Notation "a +u[ w ] b" := (add_u w a b)
  (at level 50, w at level 0, left associativity) : jericho_scope.
Notation "a -u[ w ] b" := (sub_u w a b)
  (at level 50, w at level 0, left associativity) : jericho_scope.
Notation "a *u[ w ] b" := (mul_u w a b)
  (at level 40, w at level 0, left associativity) : jericho_scope.
#[global] Open Scope jericho_scope.

Section arithmetic.
Context `{Build}.

Lemma overflow_fits w z : in_u w z → overflow w z = Ok z.
Proof. intros Hz. unfold overflow. by rewrite decide_True. Qed.

Lemma overflow_Ok w z v : overflow w z = Ok v → v = z ∨ (build = Release ∧ v = wrap w z).
Proof. unfold overflow. case_decide; [naive_solver|]. destruct build; naive_solver. Qed.

Lemma add_u_fits w a b : in_u w (a + b) → (a +u[w] b) = Ok (a + b).
Proof. apply overflow_fits. Qed.

Lemma sub_u_fits w a b : in_u w (a - b) → (a -u[w] b) = Ok (a - b).
Proof. apply overflow_fits. Qed.

Lemma mul_u_fits w a b : in_u w (a * b) → (a *u[w] b) = Ok (a * b).
Proof. apply overflow_fits. Qed.

Lemma add_u_cases w a b :
  (∃ v, (a +u[w] b) = Ok v) ∨ ((a +u[w] b) = Panic ∧ build = Dev ∧ ¬ in_u w (a + b)).
Proof. unfold add_u, overflow. case_decide; [by left; eexists|]. destruct build; eauto. Qed.

Lemma add_u_Release w a b :
  build = Release → ∃ v, (a +u[w] b) = Ok v.
Proof. unfold add_u, overflow. intros ->. case_decide; eauto. Qed.

Lemma add_u_not_Hang w a b : (a +u[w] b) ≠ Hang.
Proof. unfold add_u, overflow. case_decide; [done|]. by destruct build. Qed.
End arithmetic.

(** [|] of a multiple of a power of two and what fits below it is [+]. *)
Lemma lor_low a b k : 0 ≤ k → 0 ≤ b < 2 ^ k → Z.lor (a * 2 ^ k) b = a * 2 ^ k + b.
Proof.
  intros Hk Hb. rewrite <- (Z.add_lor_land (a * 2 ^ k) b).
  assert (Z.land (a * 2 ^ k) b = 0) as ->; [|lia].
  apply Z.bits_inj'. intros i Hi. rewrite Z.land_spec, Z.bits_0.
  destruct (decide (i < k)).
  - by rewrite Z.mul_pow2_bits_low.
  - rewrite <- (Z.mod_small b (2 ^ k)) by done. by rewrite Z.mod_pow2_bits_high, andb_false_r by lia.
Qed.

#[export] Hint Rewrite @add_u_fits @sub_u_fits @mul_u_fits
  using (unfold in_u; lia) : jericho.

(** The bytes of a string literal. *)
Definition bytes_of (s : Strings.String.string) : list Z :=
  (λ a, Z.of_nat (Strings.Ascii.nat_of_ascii a)) <$> Strings.String.list_ascii_of_string s.

(** ** Vectors searched by a key

    [iter().find(..)], [iter_mut().find(..)] followed by a mutation through the
    reference, and [iter().position(..)] followed by [Vec::remove]. *)

Fixpoint find_first {A} (p : A → bool) (l : list A) : option A :=
  match l with
  | [] => None
  | x :: l => if p x then Some x else find_first p l
  end.

Fixpoint modify_first {A} (p : A → bool) (f : A → A) (l : list A) : list A :=
  match l with
  | [] => []
  | x :: l => if p x then f x :: l else x :: modify_first p f l
  end.

Fixpoint position {A} (p : A → bool) (l : list A) : option nat :=
  match l with
  | [] => None
  | x :: l => if p x then Some O else S <$> position p l
  end.

Section keyed.
Context {A K : Type} `{EqDecision K} (key : A → K).
Implicit Types (l : list A) (k : K) (x y : A).

Definition has_key (k : K) (x : A) : bool := bool_decide (key x = k).
Definition find_key (k : K) (l : list A) : option A := find_first (has_key k) l.
Definition modify_key (k : K) (f : A → A) (l : list A) : list A :=
  modify_first (has_key k) f l.

Lemma find_key_Some k l x : find_key k l = Some x → x ∈ l ∧ key x = k.
Proof.
  unfold find_key, has_key. induction l as [|y l IH]; simpl; [done|].
  rewrite elem_of_cons. case_bool_decide; [naive_solver|]. intros [? ?]%IH. auto.
Qed.

Lemma find_key_None k l : find_key k l = None ↔ k ∉ key <$> l.
Proof.
  unfold find_key, has_key. induction l as [|y l IH]; simpl.
  { split; [|done]. intros _. apply not_elem_of_nil. }
  rewrite not_elem_of_cons. case_bool_decide; [naive_solver|]. rewrite IH. naive_solver.
Qed.

Lemma find_key_elem l x : NoDup (key <$> l) → x ∈ l → find_key (key x) l = Some x.
Proof.
  unfold find_key, has_key. induction l as [|y l IH]; simpl; [by intros _ ?%not_elem_of_nil|].
  intros [Hy Hl]%NoDup_cons [->|Hx]%elem_of_cons.
  - by rewrite bool_decide_eq_true_2.
  - rewrite bool_decide_eq_false_2; [by apply IH|].
    intros Heq. apply Hy. rewrite Heq. apply list_elem_of_fmap. by exists x.
Qed.

Lemma find_key_app k l l' :
  find_key k (l ++ l') = match find_key k l with Some x => Some x | None => find_key k l' end.
Proof.
  unfold find_key. induction l as [|y l IH]; simpl; [done|]. by destruct (has_key k y).
Qed.

Lemma modify_key_keys k f l : (∀ x, key (f x) = key x) → key <$> modify_key k f l = key <$> l.
Proof.
  intros Hf. unfold modify_key. induction l as [|y l IH]; simpl; [done|].
  destruct (has_key k y); csimpl; [by rewrite Hf | by rewrite IH].
Qed.

Lemma length_modify_key k f l : length (modify_key k f l) = length l.
Proof.
  unfold modify_key. induction l as [|y l IH]; simpl; [done|].
  destruct (has_key k y); simpl; [done | by rewrite IH].
Qed.

Lemma find_modify_key k f l :
  (∀ x, key (f x) = key x) → find_key k (modify_key k f l) = f <$> find_key k l.
Proof.
  intros Hf. unfold find_key, modify_key. induction l as [|y l IH]; simpl; [done|].
  destruct (has_key k y) eqn:E; simpl; [|by rewrite E].
  unfold has_key in *. by rewrite Hf, E.
Qed.

Lemma find_modify_key_ne k k' f l :
  (∀ x, key (f x) = key x) → k' ≠ k → find_key k' (modify_key k f l) = find_key k' l.
Proof.
  intros Hf Hne. unfold find_key, modify_key. induction l as [|y l IH]; simpl; [done|].
  destruct (has_key k y) eqn:E; simpl; [|by destruct (has_key k' y)].
  unfold has_key in *. rewrite Hf. rewrite bool_decide_eq_true in E. subst k.
  by rewrite bool_decide_eq_false_2 by done.
Qed.

Lemma modify_key_id k l : modify_key k (λ x, x) l = l.
Proof.
  unfold modify_key. induction l as [|y l IH]; simpl; [done|].
  destruct (has_key k y); [done | by rewrite IH].
Qed.

Lemma elem_of_modify_key k f l x :
  x ∈ modify_key k f l → x ∈ l ∨ ∃ y, find_key k l = Some y ∧ x = f y.
Proof.
  unfold find_key, modify_key. induction l as [|y l IH]; simpl; [auto|].
  destruct (has_key k y) eqn:E; rewrite !elem_of_cons; naive_solver.
Qed.

Lemma Forall_modify_key (P : A → Prop) k f l :
  Forall P l → (∀ x, P x → key x = k → P (f x)) → Forall P (modify_key k f l).
Proof.
  rewrite !Forall_forall. intros Hl Hf x [?|(y & Hy & ->)]%elem_of_modify_key; [by apply Hl|].
  apply find_key_Some in Hy as [? ?]. by apply Hf; [apply Hl|].
Qed.

(** [position] followed by [remove] deletes the element [find] returns. *)
Definition remove_at (i : nat) (l : list A) : list A := take i l ++ drop (S i) l.

Lemma position_remove k l :
  match position (has_key k) l with
  | Some i => ∃ x, l !! i = Some x ∧ find_key k l = Some x ∧
      (NoDup (key <$> l) → find_key k (remove_at i l) = None)
  | None => find_key k l = None
  end.
Proof.
  unfold find_key. induction l as [|y l IH]; simpl; [done|].
  destruct (has_key k y) eqn:E; simpl.
  - exists y. split_and!; [done..|]. intros [Hy _]%NoDup_cons. unfold remove_at. simpl.
    unfold has_key in E. rewrite bool_decide_eq_true in E. subst k.
    rewrite drop_0. by apply find_key_None.
  - destruct (position _ l) as [i|]; simpl; [|done].
    destruct IH as (x & ? & ? & Hnd). exists x. split_and!; [done..|].
    intros [_ ?]%NoDup_cons. unfold remove_at in *. simpl. rewrite E. by apply Hnd.
Qed.
End keyed.

#[export] Hint Rewrite @length_modify_key @modify_key_id : jericho.
