(* ===== verification/Words.v ===== *)
(** * Word-addressed memory

    Memory as 64-bit words, [repr(C)] records of [u64] fields in it, and the
    lemmas on them that the context-switch code of both architectures needs. *)
From S2P Require Import Prelude.

(** Address arithmetic is modulo 2^64; memory holds one word per address. *)
Definition addr_add (a off : Z) : Z := wrap 64 (a + off).
Definition load (m : gmap Z Z) (a off : Z) : Z := default 0 (m !! addr_add a off).
Definition store (m : gmap Z Z) (a off v : Z) : gmap Z Z := <[addr_add a off := v]> m.

(** Reading and writing a [repr(C)] record of [u64] fields through a pointer. *)
Definition load_words (m : gmap Z Z) (a : Z) (n : Z) : list Z :=
  (λ i, load m a (8 * i)) <$> seqZ 0 n.
Fixpoint store_words_from (i : Z) (m : gmap Z Z) (a : Z) (ws : list Z) : gmap Z Z :=
  match ws with
  | [] => m
  | w :: ws => store_words_from (i + 1) (store m a (8 * i) w) a ws
  end.
Definition store_words (m : gmap Z Z) (a : Z) (ws : list Z) : gmap Z Z :=
  store_words_from 0 m a ws.

(** ** Word arrays *)

Lemma addr_add_inj a i j :
  0 ≤ i < 2 ^ 64 → 0 ≤ j < 2 ^ 64 → addr_add a i = addr_add a j → i = j.
Proof.
  unfold addr_add, wrap. intros Hi Hj Heq.
  assert ((i - j) mod 2 ^ 64 = 0) as Hz.
  { replace (i - j) with ((a + i) - (a + j)) by lia.
    rewrite Zminus_mod, Heq, Z.sub_diag. done. }
  apply Z.mod_divide in Hz as [k Hk]; [|done]. lia.
Qed.

Lemma load_store_same m a o v : load (store m a o v) a o = v.
Proof. unfold load, store. by rewrite lookup_insert_eq. Qed.

Lemma load_store_other m a o a' o' v :
  addr_add a' o' ≠ addr_add a o → load (store m a o v) a' o' = load m a' o'.
Proof. intros Hne. unfold load, store. by rewrite lookup_insert_ne by congruence. Qed.

Lemma load_store_words_frame ws m a a' o' i :
  (∀ k, i ≤ k < i + Z.of_nat (length ws) → addr_add a' o' ≠ addr_add a (8 * k)) →
  load (store_words_from i m a ws) a' o' = load m a' o'.
Proof.
  revert m i. induction ws as [|w ws IH]; intros m i Hne; simpl; [done|].
  rewrite IH.
  - apply load_store_other, Hne. simpl. lia.
  - intros k Hk. apply Hne. simpl. lia.
Qed.

Lemma load_store_words_from ws m a i k :
  0 ≤ i → i + Z.of_nat (length ws) < 2 ^ 32 → (k < length ws)%nat →
  load (store_words_from i m a ws) a (8 * (i + Z.of_nat k)) = default 0 (ws !! k).
Proof.
  revert m i k. induction ws as [|w ws IH]; intros m i k Hi Hlen Hk; simpl in *; [lia|].
  destruct k as [|k]; simpl.
  - rewrite Z.add_0_r, load_store_words_frame; [apply load_store_same|].
    intros j Hj Heq. apply addr_add_inj in Heq; lia.
  - replace (i + Z.of_nat (S k)) with (i + 1 + Z.of_nat k) by lia. apply IH; lia.
Qed.

Lemma load_store_words ws m a k :
  Z.of_nat (length ws) < 2 ^ 32 → (k < length ws)%nat →
  load (store_words m a ws) a (8 * Z.of_nat k) = default 0 (ws !! k).
Proof. intros. by apply (load_store_words_from ws m a 0). Qed.

Lemma load_words_store m a ws :
  Z.of_nat (length ws) < 2 ^ 32 →
  load_words (store_words m a ws) a (Z.of_nat (length ws)) = ws.
Proof.
  intros Hlen. unfold load_words. apply list_eq. intros k. rewrite list_lookup_fmap.
  destruct (decide (k < length ws)%nat) as [Hk|Hk].
  - rewrite lookup_seqZ_lt, Z.add_0_l by lia. cbn [fmap option_fmap option_map].
    rewrite load_store_words by done. by destruct (lookup_lt_is_Some_2 ws k Hk) as [w ->].
  - rewrite lookup_seqZ_ge by lia. simpl. symmetry. apply lookup_ge_None. lia.
Qed.

Lemma addr_add_0 a : in_u 64 a → addr_add a 0 = a.
Proof. unfold in_u, addr_add, wrap. intros. rewrite Z.add_0_r, Z.mod_small; lia. Qed.

Lemma addr_add_add a i j : addr_add (addr_add a i) j = addr_add a (i + j).
Proof. unfold addr_add, wrap. rewrite Zplus_mod_idemp_l. f_equal. lia. Qed.

Lemma load_words_lookup m a n k :
  0 ≤ k < n → load_words m a n !! Z.to_nat k = Some (load m a (8 * k)).
Proof.
  intros Hk. unfold load_words. rewrite list_lookup_fmap, lookup_seqZ_lt by lia.
  cbn [fmap option_fmap option_map]. do 2 f_equal. lia.
Qed.

(** ** Alignment *)

(** The first multiple of [n] at or after [a]. *)
Definition align_up (a n : Z) : Z := (a + n - 1) / n * n.

Lemma align_up_spec a n : 0 < n → a ≤ align_up a n < a + n ∧ align_up a n mod n = 0.
Proof.
  intros Hn. unfold align_up. split; [|by apply Z.mod_mul; lia].
  pose proof (Z.div_mod (a + n - 1) n) as Hdiv. pose proof (Z.mod_pos_bound (a + n - 1) n Hn). lia.
Qed.

Lemma align_up_divide a n m : 0 < n → (m | n) → align_up a n mod m = 0.
Proof.
  intros Hn Hm. apply Z.mod_divide; [intros ->; destruct Hm; lia|]. unfold align_up. by apply Z.divide_mul_r.
Qed.

Lemma align_up_least a b n : 0 < n → a ≤ b → b mod n = 0 → align_up a n ≤ b.
Proof.
  intros Hn Hab Hb. unfold align_up. apply Z.div_exact in Hb; [|lia].
  rewrite Hb, (Z.mul_comm n). apply Z.mul_le_mono_nonneg_r; [lia|].
  apply Z.lt_succ_r, Z.div_lt_upper_bound; lia.
Qed.
