(* ===== verification/RoundRobin.v ===== *)
(** * Round robin, as an interface

    What a scheduler promises to the tasks it runs, whatever its data structure: a
    ring of tasks whose head gets the next turn and then goes to the back.  The
    x86-64 queue and the AArch64 slot table both implement it; what tasks can count
    on follows from the interface alone. *)
From S2P Require Import Prelude.

(** [rr_ok n s] says that [s] is well-formed and good for [n] more turns. *)
Class RoundRobin (S I : Type) := {
  rr_ok : nat → S → Prop;
  rr_ring : S → list I;
  rr_current : S → option I;
  rr_turn : S → S → Prop
}.

Class RoundRobinLaws (S I : Type) `{!RoundRobin S I} : Prop := {
  rr_ring_ok n s : rr_ok n s → rr_ring s ≠ [] ∧ NoDup (rr_ring s);
  rr_turn_ok n s : rr_ok (Datatypes.S n) s → ∃ s', rr_turn s s';
  rr_turn_head n s s' i ring :
    rr_ok (Datatypes.S n) s → rr_ring s = i :: ring → rr_turn s s' →
    rr_ok n s' ∧ rr_ring s' = ring ++ [i] ∧ rr_current s' = Some i
}.

(** A run, with the tasks it gave turns to. *)
Inductive rr_run {S I} `{!RoundRobin S I} : list I → S → S → Prop :=
  | rr_stop s : rr_run [] s s
  | rr_step s s1 s' i tr :
      rr_turn s s1 → rr_current s1 = Some i → rr_run tr s1 s' → rr_run (i :: tr) s s'.

(** How often [i] got a turn. *)
Definition turns_of {I} `{!EqDecision I} (i : I) (tr : list I) : nat :=
  length (filter (λ j, j = i) tr).

(** The ring, gone around [k] times. *)
Fixpoint laps {I} (k : nat) (ring : list I) : list I :=
  match k with O => [] | Datatypes.S k => ring ++ laps k ring end.

Lemma turns_of_app {I} `{!EqDecision I} (i : I) l1 l2 :
  turns_of i (l1 ++ l2) = (turns_of i l1 + turns_of i l2)%nat.
Proof. unfold turns_of. by rewrite filter_app, length_app. Qed.

Lemma turns_of_none {I} `{!EqDecision I} (i : I) l : i ∉ l → turns_of i l = O.
Proof.
  unfold turns_of. induction l as [|j l IH]; [done|]. rewrite not_elem_of_cons. intros [Hne Hl].
  rewrite filter_cons. rewrite decide_False by done. by apply IH.
Qed.

Lemma turns_of_once {I} `{!EqDecision I} (i : I) l : NoDup l → i ∈ l → turns_of i l = 1%nat.
Proof.
  unfold turns_of. induction 1 as [|j l Hj Hl IH]; [by intros ?%not_elem_of_nil|].
  intros Hi. rewrite filter_cons. case_decide as Hd.
  - subst j. simpl. f_equal. by apply turns_of_none.
  - apply IH. apply elem_of_cons in Hi as [->|]; done.
Qed.

Lemma turns_of_laps {I} `{!EqDecision I} (i : I) k l :
  NoDup l → i ∈ l → turns_of i (laps k l) = k.
Proof.
  intros Hnd Hi. induction k as [|k IH]; [done|]. simpl.
  by rewrite turns_of_app, turns_of_once, IH.
Qed.

Lemma length_laps {I} k (l : list I) : length (laps k l) = (k * length l)%nat.
Proof. induction k as [|k IH]; [done|]. simpl. by rewrite length_app, IH. Qed.

Section fairness.
Context {S I : Type} `{!RoundRobin S I, !RoundRobinLaws S I}.

(** Every state that is good for [n] turns has a run of [n] turns, and the turns
    of a run go to the ring in order, the rest of the ring moving up. *)
Lemma rr_run_exists n s : rr_ok n s → ∃ tr s', rr_run tr s s' ∧ length tr = n.
Proof.
  revert s. induction n as [|n IH]; intros s Hs; [exists [], s; split; [constructor|done]|].
  destruct (rr_turn_ok n s Hs) as [s1 Hturn].
  destruct (rr_ring_ok (Datatypes.S n) s Hs) as [Hne _].
  destruct (rr_ring s) as [|i ring] eqn:Hring; [done|].
  destruct (rr_turn_head n s s1 i ring Hs Hring Hturn) as (Hs1 & _ & Hcur).
  destruct (IH s1 Hs1) as (tr & s' & Hrun & Hlen). exists (i :: tr), s'.
  split; [by econstructor|simpl; by rewrite Hlen].
Qed.

Lemma rr_run_prefix l rest s s' tr :
  rr_ok (length tr) s → rr_ring s = l ++ rest → rr_run tr s s' → (length tr <= length l)%nat →
  tr = take (length tr) l.
Proof.
  intros Hok Hring Hrun. revert l rest Hok Hring.
  induction Hrun as [|s s1 s' i tr Hturn Hcur _ IH]; intros l rest Hok Hring Hlen; [done|].
  destruct l as [|j l]; simpl in *; [lia|].
  destruct (rr_turn_head _ s s1 j (l ++ rest) Hok Hring Hturn) as (Hok1 & Hring1 & Hcur1).
  f_equal; [congruence|]. apply (IH l (rest ++ [j])); [done| |lia]. by rewrite Hring1, app_assoc.
Qed.

(** A full lap brings the ring back. *)
Lemma rr_run_lap l rest s s' tr n :
  rr_ok (length tr + n) s → rr_ring s = l ++ rest → rr_run tr s s' → length tr = length l →
  tr = l ∧ rr_ok n s' ∧ rr_ring s' = rest ++ l.
Proof.
  intros Hok Hring Hrun. revert l rest Hok Hring.
  induction Hrun as [s|s s1 s' i tr Hturn Hcur _ IH]; intros l rest Hok Hring Hlen.
  { destruct l; [|done]. by rewrite app_nil_r. }
  destruct l as [|j l]; simpl in *; [done|].
  destruct (rr_turn_head _ s s1 j (l ++ rest) Hok Hring Hturn) as (Hok1 & Hring1 & Hcur1).
  destruct (IH l (rest ++ [j])) as (-> & Hok' & Hring'); [done| |lia|].
  { by rewrite Hring1, app_assoc. }
  split_and!; [congruence|done|]. by rewrite Hring', <- app_assoc.
Qed.

Lemma rr_run_split tr1 tr2 s s' :
  rr_run (tr1 ++ tr2) s s' → ∃ s1, rr_run tr1 s s1 ∧ rr_run tr2 s1 s'.
Proof.
  revert s. induction tr1 as [|i tr1 IH]; intros s Hrun; [exists s; split; [constructor|done]|].
  inversion_clear Hrun as [|? s1 ? ? ? Hturn Hcur Hrest].
  apply IH in Hrest as (s2 & H1 & H2). exists s2. split; [by econstructor|done].
Qed.

(** [k] laps of a run are [k] copies of the ring. *)
Lemma rr_run_laps k s s' tr :
  rr_ok (length tr) s → rr_run tr s s' → length tr = (k * length (rr_ring s))%nat →
  tr = laps k (rr_ring s).
Proof.
  revert s tr. induction k as [|k IH]; intros s tr Hok Hrun Hlen; simpl in *.
  { by destruct tr. }
  set (ring := rr_ring s) in *.
  rewrite <- (take_drop (length ring) tr) in Hrun, Hok |- *.
  apply rr_run_split in Hrun as (s1 & H1 & H2).
  assert (length (take (length ring) tr) = length ring) as Hl by (rewrite length_take; lia).
  rewrite length_app in Hok.
  destruct (rr_run_lap ring [] s s1 _ _ Hok (eq_sym (app_nil_r _)) H1 Hl) as (Htr & Hok1 & Hring1).
  cbn [app] in Hring1. rewrite Htr. f_equal.
  replace (laps k ring) with (laps k (rr_ring s1)) by congruence. apply IH; [done|done|].
  rewrite length_drop, Hring1. lia.
Qed.
End fairness.

(** The guarantee tasks can count on: in [k] laps every task gets exactly [k]
    turns, and no other one any. *)
Definition fair_share (S I : Type) `{!RoundRobin S I, !EqDecision I} (k : nat) (s : S) : Prop :=
  (∃ tr s', rr_run tr s s' ∧ length tr = (k * length (rr_ring s))%nat) ∧
  ∀ tr s', rr_run tr s s' → length tr = (k * length (rr_ring s))%nat →
    ∀ i, turns_of i tr = if decide (i ∈ rr_ring s) then k else O.

Lemma fair_share_ok {S I} `{!RoundRobin S I, !RoundRobinLaws S I, !EqDecision I} k (s : S) :
  rr_ok (k * length (rr_ring s)) s → fair_share S I k s.
Proof.
  intros Hok. split; [by apply rr_run_exists|]. intros tr s' Hrun Hlen i.
  rewrite (rr_run_laps k s s' tr) by (done || by rewrite Hlen).
  destruct (rr_ring_ok _ s Hok) as [_ Hnd]. case_decide as Hi; [by apply turns_of_laps|].
  apply turns_of_none. contradict Hi. rename Hi into Hj. clear -Hj.
  induction k as [|k IH]; [by apply not_elem_of_nil in Hj|].
  simpl in Hj. apply elem_of_app in Hj as [?|?]; [done|by apply IH].
Qed.

(** ** Two schedulers side by side *)
Section agreement.
Context {S1 I1 S2 I2 : Type} `{!RoundRobin S1 I1, !RoundRobinLaws S1 I1}.
Context `{!RoundRobin S2 I2, !RoundRobinLaws S2 I2}.
Context (R : I1 → I2 → Prop).

(** Corresponding rings give corresponding tasks their turns, one by one, and
    stay in correspondence. *)
Lemma rr_agree s1 s2 tr1 tr2 s1' s2' :
  rr_ok (length tr1) s1 → rr_ok (length tr2) s2 → Forall2 R (rr_ring s1) (rr_ring s2) →
  rr_run tr1 s1 s1' → rr_run tr2 s2 s2' → length tr1 = length tr2 →
  Forall2 R tr1 tr2 ∧ Forall2 R (rr_ring s1') (rr_ring s2').
Proof.
  intros Hok1 Hok2 Hrings Hrun1. revert s2 tr2 Hok1 Hok2 Hrings.
  induction Hrun1 as [s|s t s' i tr1 Hturn1 Hcur1 _ IH]; intros s2 tr2 Hok1 Hok2 Hrings Hrun2 Hlen.
  { destruct tr2; [|done]. inversion Hrun2; subst. split; [apply Forall2_nil_2|done]. }
  destruct Hrun2 as [s2|s2 t2 s2' j tr2 Hturn2 Hcur2 Hrun2]; [done|].
  cbn [length] in Hok1, Hok2, Hlen. injection Hlen as Hlen.
  destruct (rr_ring_ok _ s Hok1) as [Hne1 _], (rr_ring_ok _ s2 Hok2) as [Hne2 _].
  destruct (rr_ring s) as [|a q1] eqn:Hq1, (rr_ring s2) as [|b q2] eqn:Hq2; try done.
  apply Forall2_cons_1 in Hrings as [Hab Hrings].
  destruct (rr_turn_head _ s t a q1 Hok1 Hq1 Hturn1) as (Hok1' & Hq1' & Hc1).
  destruct (rr_turn_head _ s2 t2 b q2 Hok2 Hq2 Hturn2) as (Hok2' & Hq2' & Hc2).
  assert (i = a) as -> by congruence. assert (j = b) as -> by congruence.
  destruct (IH t2 tr2) as [Htr Hend]; [done|done| |done|done|by split; [constructor|]].
  rewrite Hq1', Hq2'. apply Forall2_app; [done|]. by apply Forall2_cons_2.
Qed.
End agreement.
