(* ===== verification/Capability.v ===== *)
(** * The capability system ([src/src/capability.rs])

    Rights, capability tokens and capability spaces.  A capability space is a
    [BTreeMap] from ids to tokens and a counter from which [create] and
    [derive] take fresh ids. *)
From S2P Require Import Prelude.

(** ** Data *)

(** [struct CapabilityId(u64)] and its accessors. *)
Record CapabilityId := CapabilityId_new { CapabilityId_value : Z }.

#[global] Instance CapabilityId_eq_dec : EqDecision CapabilityId.
Proof. solve_decision. Defined.
#[global] Program Instance CapabilityId_countable : Countable CapabilityId :=
  inj_countable' CapabilityId_value CapabilityId_new _.
Next Obligation. by intros []. Qed.

Record Rights := mkRights {
  Rights_read : bool;
  Rights_write : bool;
  Rights_execute : bool;
  Rights_grant : bool
}.

#[global] Instance Rights_eq_dec : EqDecision Rights.
Proof. solve_decision. Defined.

Definition Rights_NONE : Rights := mkRights false false false false.
Definition Rights_READ : Rights := mkRights true false false false.
Definition Rights_READ_WRITE : Rights := mkRights true true false false.
Definition Rights_ALL : Rights := mkRights true true true true.

(** [Rights::has]: every right asked for in [other] is present in [self]. *)
Definition Rights_has (self other : Rights) : bool :=
  (negb (Rights_read other) || Rights_read self)
    && (negb (Rights_write other) || Rights_write self)
    && (negb (Rights_execute other) || Rights_execute self)
    && (negb (Rights_grant other) || Rights_grant self).

Definition Rights_derive (self requested : Rights) : option Rights :=
  if Rights_has self requested then Some requested else None.

Inductive ResourceType :=
  | ResourceType_Memory
  | ResourceType_Interrupt
  | ResourceType_Thread
  | ResourceType_Endpoint
  | ResourceType_WasmModule.

#[global] Instance ResourceType_eq_dec : EqDecision ResourceType.
Proof. solve_decision. Defined.

(** [struct Capability]; its getters are the projections. *)
Record Capability := Capability_new {
  Capability_id : CapabilityId;
  Capability_resource_type : ResourceType;
  Capability_resource_id : Z;
  Capability_rights : Rights
}.

#[global] Instance Capability_eq_dec : EqDecision Capability.
Proof. solve_decision. Defined.

Definition Capability_derive (self : Capability) (new_id : CapabilityId)
    (new_rights : Rights) : option Capability :=
  (λ r, Capability_new new_id (Capability_resource_type self)
    (Capability_resource_id self) r)
    <$> Rights_derive (Capability_rights self) new_rights.

(** [struct CSpace] *)
Record CSpace := mkCSpace {
  capabilities : gmap CapabilityId Capability;
  next_id : Z
}.

(** ** Operations *)

Definition CSpace_new : CSpace := mkCSpace ∅ 1.

Definition CSpace_insert (self : CSpace) (capability : Capability)
    : CSpace * CapabilityId :=
  let i := Capability_id capability in
  (mkCSpace (<[i := capability]> (capabilities self)) (next_id self), i).

Definition CSpace_get (self : CSpace) (i : CapabilityId) : option Capability :=
  capabilities self !! i.

Definition CSpace_revoke (self : CSpace) (i : CapabilityId)
    : CSpace * option Capability :=
  (mkCSpace (delete i (capabilities self)) (next_id self), capabilities self !! i).

Definition CSpace_create `{Build} (self : CSpace) (rt : ResourceType) (rid : Z)
    (r : Rights) : outcome (CSpace * CapabilityId) :=
  let i := CapabilityId_new (next_id self) in
  n ← next_id self +u[64] 1;
  let self := mkCSpace (capabilities self) n in
  let cap := Capability_new i rt rid r in
  let '(self, _) := CSpace_insert self cap in
  Ok (self, i).

Definition CSpace_derive `{Build} (self : CSpace) (source_id : CapabilityId)
    (new_rights : Rights) : outcome (CSpace * option CapabilityId) :=
  match CSpace_get self source_id with
  | None => Ok (self, None)
  | Some source_cap =>
      let new_id := CapabilityId_new (next_id self) in
      n ← next_id self +u[64] 1;
      let self := mkCSpace (capabilities self) n in
      match Capability_derive source_cap new_id new_rights with
      | None => Ok (self, None)
      | Some derived_cap =>
          let '(self, _) := CSpace_insert self derived_cap in
          Ok (self, Some new_id)
      end
  end.

Definition CSpace_len (self : CSpace) : nat := size (capabilities self).

Definition CSpace_is_empty (self : CSpace) : bool :=
  bool_decide (capabilities self = ∅).

(** The global [KERNEL_CSPACE : Once<Mutex<CSpace>>]: [None] before [init]. *)
Definition capability_init (kernel : option CSpace) : option CSpace :=
  match kernel with Some c => Some c | None => Some CSpace_new end.

Definition kernel_cspace (kernel : option CSpace) : outcome CSpace := unwrap kernel.

Definition create_user_cspace : CSpace := CSpace_new.

(** ** Rights form a preorder under [has] *)

Definition rights_le (r1 r2 : Rights) : Prop := Rights_has r2 r1 = true.

#[global] Instance rights_le_dec r1 r2 : Decision (rights_le r1 r2).
Proof. unfold rights_le. apply _. Defined.

#[global] Instance rights_le_preorder : PreOrder rights_le.
Proof.
  split.
  - by intros [[] [] [] []].
  - intros [[] [] [] []] [[] [] [] []] [[] [] [] []]; by unfold rights_le.
Qed.

#[global] Instance rights_le_antisymm : AntiSymm (=) rights_le.
Proof. intros [[] [] [] []] [[] [] [] []]; by unfold rights_le. Qed.

Lemma Rights_derive_Some (r req r' : Rights) :
  Rights_derive r req = Some r' ↔ r' = req ∧ rights_le req r.
Proof.
  unfold Rights_derive, rights_le. destruct (Rights_has r req); naive_solver.
Qed.

Lemma Capability_derive_Some (c d : Capability) i r :
  Capability_derive c i r = Some d ↔
  d = Capability_new i (Capability_resource_type c) (Capability_resource_id c) r ∧
  rights_le r (Capability_rights c).
Proof.
  unfold Capability_derive. rewrite fmap_Some. setoid_rewrite Rights_derive_Some.
  naive_solver.
Qed.

Lemma Capability_derive_None (c : Capability) i r :
  Capability_derive c i r = None ↔ ¬ rights_le r (Capability_rights c).
Proof.
  unfold Capability_derive, Rights_derive, rights_le.
  destruct (Rights_has (Capability_rights c) r); naive_solver.
Qed.

(** ** Lookups after each operation *)

Lemma CSpace_get_insert cs c :
  CSpace_get (CSpace_insert cs c).1 (Capability_id c) = Some c.
Proof. apply lookup_insert_eq. Qed.

Lemma CSpace_get_insert_ne cs c i :
  i ≠ Capability_id c → CSpace_get (CSpace_insert cs c).1 i = CSpace_get cs i.
Proof. intros. by apply lookup_insert_ne. Qed.

Lemma CSpace_get_revoke cs i : CSpace_get (CSpace_revoke cs i).1 i = None.
Proof. apply lookup_delete_eq. Qed.

Lemma CSpace_get_revoke_ne cs i j :
  i ≠ j → CSpace_get (CSpace_revoke cs i).1 j = CSpace_get cs j.
Proof. intros. by apply lookup_delete_ne. Qed.

#[export] Hint Rewrite CSpace_get_insert CSpace_get_revoke : jericho.
#[export] Hint Rewrite CSpace_get_insert_ne CSpace_get_revoke_ne
  using (done || congruence) : jericho.

(** ** Well-formedness

    Every token is stored under its own id, every id is below the counter,
    and the counter fits the [u64] it is declared with. *)
Definition CSpace_wf (cs : CSpace) : Prop :=
  in_u 64 (next_id cs) ∧
  ∀ i c, CSpace_get cs i = Some c →
    Capability_id c = i ∧ 0 ≤ CapabilityId_value i < next_id cs.

(** The id the next [create] or [derive] hands out. *)
Definition CSpace_fresh (cs : CSpace) : CapabilityId := CapabilityId_new (next_id cs).

Lemma CSpace_wf_fresh cs : CSpace_wf cs → CSpace_get cs (CSpace_fresh cs) = None.
Proof.
  intros [_ Hwf]. destruct (CSpace_get cs (CSpace_fresh cs)) eqn:E; [|done].
  apply Hwf in E as [_ E]. unfold CSpace_fresh in E. simpl in E. lia.
Qed.

(** What [create] and a successful [derive] do to the space: store a token
    under the fresh id and advance the counter to [n]. *)
Definition CSpace_store (cs : CSpace) (n : Z) rt rid r : CSpace :=
  (CSpace_insert (mkCSpace (capabilities cs) n)
     (Capability_new (CSpace_fresh cs) rt rid r)).1.

Lemma CSpace_get_store cs n rt rid r :
  CSpace_get (CSpace_store cs n rt rid r) (CSpace_fresh cs) =
  Some (Capability_new (CSpace_fresh cs) rt rid r).
Proof. apply lookup_insert_eq. Qed.

Lemma CSpace_get_store_ne cs n rt rid r i :
  i ≠ CSpace_fresh cs → CSpace_get (CSpace_store cs n rt rid r) i = CSpace_get cs i.
Proof. intros. by apply lookup_insert_ne. Qed.

Lemma CSpace_wf_store cs n rt rid r :
  CSpace_wf cs → n = next_id cs + 1 → in_u 64 n →
  CSpace_wf (CSpace_store cs n rt rid r).
Proof.
  intros [Hn Hwf] -> Hn'. split; [done|]. intros i c.
  destruct (decide (i = CSpace_fresh cs)) as [->|Hi].
  - rewrite CSpace_get_store. intros [= <-].
    unfold CSpace_fresh, in_u in *; simpl. split; [done | lia].
  - rewrite CSpace_get_store_ne by done. intros Hc.
    apply Hwf in Hc. simpl. split; [naive_solver | lia].
Qed.

(** [create] and [derive] in terms of [CSpace_store]. *)
Lemma CSpace_create_store `{Build} cs rt rid r n :
  (next_id cs +u[64] 1) = Ok n →
  CSpace_create cs rt rid r = Ok (CSpace_store cs n rt rid r, CSpace_fresh cs).
Proof. intros Hn. unfold CSpace_create. by rewrite Hn. Qed.

(** [CSpace::derive] on every branch.  A missing source leaves the space
    alone; otherwise an id is taken from the counter, also when the rights are
    refused, and on success the new token names the resource of the source
    with exactly the rights asked for. *)
Theorem CSpace_derive_spec `{Build} cs src r :
  CSpace_derive cs src r =
    match CSpace_get cs src with
    | None => Ok (cs, None)
    | Some c =>
        n ← next_id cs +u[64] 1;
        if decide (rights_le r (Capability_rights c)) then
          Ok (CSpace_store cs n (Capability_resource_type c) (Capability_resource_id c) r,
              Some (CSpace_fresh cs))
        else Ok (mkCSpace (capabilities cs) n, None)
    end.
Proof.
  unfold CSpace_derive. destruct (CSpace_get cs src) as [c|]; [|done].
  destruct (next_id cs +u[64] 1) as [n| |]; simpl; [|done|done].
  unfold Capability_derive, Rights_derive. unfold rights_le.
  case_decide as Hr; [by rewrite Hr|]. by rewrite (not_true_is_false _ Hr).
Qed.

(** ** Authority

    What a space lets its owner do: the rights it holds on each resource.  An
    operation attenuates when it adds no authority. *)
Definition authority (cs : CSpace) (rt : ResourceType) (rid : Z) (r : Rights) : Prop :=
  ∃ i c, CSpace_get cs i = Some c ∧ Capability_resource_type c = rt ∧
         Capability_resource_id c = rid ∧ rights_le r (Capability_rights c).

Definition attenuates (cs' cs : CSpace) : Prop :=
  ∀ rt rid r, authority cs' rt rid r → authority cs rt rid r.

#[global] Instance attenuates_preorder : PreOrder attenuates.
Proof. split; [by intros ????|]. intros x y z Hxy Hyz rt rid r H. by apply Hyz, Hxy. Qed.

Lemma authority_new rt rid r : ¬ authority CSpace_new rt rid r.
Proof. intros (i & c & Hc & _). unfold CSpace_get in Hc. simpl in Hc. by rewrite lookup_empty in Hc. Qed.

Lemma attenuates_same_caps cs n : attenuates (mkCSpace (capabilities cs) n) cs.
Proof. by intros ???. Qed.

Lemma attenuates_revoke cs i : attenuates (CSpace_revoke cs i).1 cs.
Proof.
  intros rt rid r (j & c & Hc & ?). exists j, c. split; [|done].
  destruct (decide (i = j)) as [->|].
  - by rewrite CSpace_get_revoke in Hc.
  - by rewrite CSpace_get_revoke_ne in Hc.
Qed.

Lemma attenuates_store cs n src c r :
  CSpace_get cs src = Some c → rights_le r (Capability_rights c) →
  attenuates
    (CSpace_store cs n (Capability_resource_type c) (Capability_resource_id c) r) cs.
Proof.
  intros Hsrc Hr rt rid r' (i & d & Hd & Hrt & Hrid & Hr').
  destruct (decide (i = CSpace_fresh cs)) as [->|Hi].
  - rewrite CSpace_get_store in Hd. simplify_eq; simpl in *.
    exists src, c. split_and!; [done..|]. by transitivity r.
  - rewrite CSpace_get_store_ne in Hd by done. by exists i, d.
Qed.

#[export] Hint Resolve attenuates_same_caps attenuates_revoke : jericho.

(** [derive] can only hand out authority the space already had, whatever the
    state of the id counter. *)
Lemma CSpace_derive_attenuates `{Build} cs src r cs' o :
  CSpace_derive cs src r = Ok (cs', o) → attenuates cs' cs.
Proof.
  rewrite CSpace_derive_spec. destruct (CSpace_get cs src) as [c|] eqn:Hc.
  - intros (n & _ & Hn)%bind_Ok. case_decide; simplify_eq.
    + by apply (attenuates_store cs n src).
    + auto with jericho.
  - by intros [= <- <-].
Qed.

(** On a well-formed space whose counter is not exhausted, [derive] never
    panics, keeps the space well formed and every existing token in place, and
    the id it returns was unused and now names a token for the source's
    resource with the requested rights, a subset of the source's. *)
Theorem CSpace_derive_fresh `{Build} cs src r :
  CSpace_wf cs → next_id cs + 1 < 2 ^ 64 →
  ∃ cs' o, CSpace_derive cs src r = Ok (cs', o) ∧ CSpace_wf cs' ∧
    (∀ i c, CSpace_get cs i = Some c → CSpace_get cs' i = Some c) ∧
    (∀ i, o = Some i → CSpace_get cs i = None ∧
       ∃ c, CSpace_get cs src = Some c ∧ rights_le r (Capability_rights c) ∧
         CSpace_get cs' i = Some (Capability_new i (Capability_resource_type c)
                                    (Capability_resource_id c) r)).
Proof.
  intros Hwf Hn. assert (in_u 64 (next_id cs + 1)) as Hin.
  { destruct Hwf as [[??] _]. unfold in_u. lia. }
  rewrite CSpace_derive_spec. destruct (CSpace_get cs src) as [c|] eqn:Hc.
  2: { exists cs, None. naive_solver. }
  rewrite add_u_fits by done. simpl. case_decide as Hr.
  - eexists _, _. split_and!; [done | by apply CSpace_wf_store | |].
    + intros i c' Hc'. rewrite CSpace_get_store_ne; [done|]. intros ->.
      by rewrite CSpace_wf_fresh in Hc'.
    + intros i [= <-]. split; [by apply CSpace_wf_fresh|].
      exists c. split_and!; [done..|]. apply CSpace_get_store.
  - eexists _, _. split_and!; [done | | done | done].
    destruct Hwf as [_ Hwf]. split; [done|]. simpl. intros i c' Hc'.
    apply Hwf in Hc'. split; [naive_solver | lia].
Qed.

(** [insert] stores a token under the id the caller chose without moving
    the counter.  A token inserted at the counter's value, as the boot code
    does for the IPC tasks, is therefore overwritten by the first derivation
    from it: [derive] returns the source's own id, and the source's rights are
    gone. *)
Theorem CSpace_insert_then_derive_loses_source `{Build} cs c r :
  CSpace_wf cs → next_id cs + 1 < 2 ^ 64 →
  Capability_id c = CSpace_fresh cs → rights_le r (Capability_rights c) →
  ∃ cs', CSpace_derive (CSpace_insert cs c).1 (Capability_id c) r
           = Ok (cs', Some (Capability_id c)) ∧
    CSpace_get cs' (Capability_id c) =
      Some (Capability_new (Capability_id c) (Capability_resource_type c)
              (Capability_resource_id c) r) ∧
    ¬ CSpace_wf (CSpace_insert cs c).1.
Proof.
  intros [[? ?] Hwf] Hn Hid Hr. rewrite CSpace_derive_spec, CSpace_get_insert.
  rewrite add_u_fits by (unfold in_u; simpl; lia). simpl. rewrite decide_True by done.
  eexists. split_and!.
  - by rewrite Hid.
  - rewrite Hid. apply lookup_insert_eq.
  - intros [_ Hbad]. specialize (Hbad _ _ (CSpace_get_insert cs c)).
    rewrite Hid in Hbad. unfold CSpace_fresh in Hbad. simpl in Hbad. lia.
Qed.

(** [capability::init] runs its initialiser at most once. *)
Lemma capability_init_once k : capability_init (capability_init k) = capability_init k.
Proof. by destruct k. Qed.

(** ** A concrete space *)

(** One token, with all rights on a memory region. *)
Definition sample_cap : Capability :=
  Capability_new (CapabilityId_new 1) ResourceType_Memory 4096 Rights_ALL.
Definition sample_cspace : CSpace := mkCSpace {[ CapabilityId_new 1 := sample_cap ]} 2.

Lemma sample_cspace_wf : CSpace_wf sample_cspace.
Proof.
  split; [done|]. intros i c. unfold CSpace_get. simpl.
  intros [<- <-]%lookup_singleton_Some. done.
Qed.

Lemma CSpace_derive_fresh_witness :
  ∃ cs' o, CSpace_derive (H := Dev) sample_cspace (CapabilityId_new 1) Rights_READ = Ok (cs', o) ∧
    o = Some (CapabilityId_new 2) ∧ CSpace_wf cs'.
Proof.
  destruct (CSpace_derive_fresh (H := Dev) sample_cspace (CapabilityId_new 1) Rights_READ
    sample_cspace_wf) as (cs' & o & Hrun & Hwf & _); [done|].
  exists cs', o. split; [done|]. split; [|done].
  revert Hrun. vm_compute. by intros [= _ <-].
Defined.
