(* ===== verification/Syscall.v ===== *)
(** * The system call interface ([src/src/syscall.rs])

    A [SyscallContext] holds the capability space of the calling process; the
    dispatcher decodes the call number and runs one handler.  Handlers that
    print return the line they print as a [SyscallLog]. *)
From S2P Require Import Prelude Capability.

(** ** Data *)

Inductive SyscallNumber :=
  | SyscallNumber_CapCreate
  | SyscallNumber_CapDerive
  | SyscallNumber_CapRevoke
  | SyscallNumber_CapInvoke
  | SyscallNumber_Print.

Definition SyscallNumber_from_u64 (n : Z) : option SyscallNumber :=
  match n with
  | 0 => Some SyscallNumber_CapCreate
  | 1 => Some SyscallNumber_CapDerive
  | 2 => Some SyscallNumber_CapRevoke
  | 3 => Some SyscallNumber_CapInvoke
  | 100 => Some SyscallNumber_Print
  | _ => None
  end.

Inductive SyscallError :=
  | SyscallError_InvalidSyscall
  | SyscallError_InvalidCapability
  | SyscallError_PermissionDenied
  | SyscallError_InvalidArgument.

Inductive SyscallResult :=
  | SyscallResult_Success (v : Z)
  | SyscallResult_Error (e : SyscallError).

#[global] Instance SyscallError_eq_dec : EqDecision SyscallError.
Proof. solve_decision. Defined.
#[global] Instance SyscallResult_eq_dec : EqDecision SyscallResult.
Proof. solve_decision. Defined.

(** The lines the handlers print, with the values they format. *)
Inductive SyscallLog :=
  | Log_Invoked (cap_id : Z) (rt : ResourceType) (rid : Z)
  | Log_Print (value : Z).

Record SyscallContext := mkSyscallContext { cspace : CSpace }.

Definition SyscallContext_new : SyscallContext := mkSyscallContext CSpace_new.

(** What a handler leaves behind: the context, the result, the output. *)
Definition sys_outcome : Type := outcome (SyscallContext * SyscallResult * list SyscallLog).

(** ** Handlers *)
Section handlers.
Context `{Build}.

Definition sys_cap_create (self : SyscallContext) (_resource_type _resource_id _rights_bits : Z)
    : sys_outcome :=
  Ok (self, SyscallResult_Error SyscallError_PermissionDenied, []).

(** The [Rights { read: (rights_bits & 0x1) != 0, .. }] of [sys_cap_derive]. *)
Definition decode_rights (rights_bits : Z) : Rights :=
  mkRights
    (negb (Z.land rights_bits 0x1 =? 0))
    (negb (Z.land rights_bits 0x2 =? 0))
    (negb (Z.land rights_bits 0x4 =? 0))
    (negb (Z.land rights_bits 0x8 =? 0)).

Definition sys_cap_derive (self : SyscallContext) (source_id rights_bits : Z)
    : sys_outcome :=
  let source_cap_id := CapabilityId_new source_id in
  let new_rights := decode_rights rights_bits in
  '(cs, o) ← CSpace_derive (cspace self) source_cap_id new_rights;
  let self := mkSyscallContext cs in
  match o with
  | Some new_id => Ok (self, SyscallResult_Success (CapabilityId_value new_id), [])
  | None => Ok (self, SyscallResult_Error SyscallError_PermissionDenied, [])
  end.

Definition sys_cap_revoke (self : SyscallContext) (cap_id : Z) : sys_outcome :=
  let '(cs, o) := CSpace_revoke (cspace self) (CapabilityId_new cap_id) in
  let self := mkSyscallContext cs in
  match o with
  | Some _ => Ok (self, SyscallResult_Success 0, [])
  | None => Ok (self, SyscallResult_Error SyscallError_InvalidCapability, [])
  end.

Definition sys_cap_invoke (self : SyscallContext) (cap_id _arg2 _arg3 _arg4 : Z)
    : sys_outcome :=
  match CSpace_get (cspace self) (CapabilityId_new cap_id) with
  | Some cap =>
      Ok (self, SyscallResult_Success 1,
          [Log_Invoked (CapabilityId_value (Capability_id cap))
             (Capability_resource_type cap) (Capability_resource_id cap)])
  | None => Ok (self, SyscallResult_Error SyscallError_InvalidCapability, [])
  end.

Definition sys_print (self : SyscallContext) (value : Z) : sys_outcome :=
  Ok (self, SyscallResult_Success 0, [Log_Print value]).

Definition syscall (self : SyscallContext) (syscall_num arg1 arg2 arg3 arg4 : Z)
    : sys_outcome :=
  match SyscallNumber_from_u64 syscall_num with
  | None => Ok (self, SyscallResult_Error SyscallError_InvalidSyscall, [])
  | Some SyscallNumber_CapCreate => sys_cap_create self arg1 arg2 arg3
  | Some SyscallNumber_CapDerive => sys_cap_derive self arg1 arg2
  | Some SyscallNumber_CapRevoke => sys_cap_revoke self arg1
  | Some SyscallNumber_CapInvoke => sys_cap_invoke self arg1 arg2 arg3 arg4
  | Some SyscallNumber_Print => sys_print self arg1
  end.

Definition capability_count (self : SyscallContext) : nat := CSpace_len (cspace self).

(** A user process: a sequence of calls [(num, arg1, arg2, arg3, arg4)]. *)
Fixpoint run_syscalls (self : SyscallContext) (calls : list (Z * Z * Z * Z * Z))
    : outcome (SyscallContext * list SyscallResult) :=
  match calls with
  | [] => Ok (self, [])
  | (n, a1, a2, a3, a4) :: calls =>
      '(self, r, _) ← syscall self n a1 a2 a3 a4;
      '(self, rs) ← run_syscalls self calls;
      Ok (self, r :: rs)
  end.
End handlers.

Definition encode_rights (r : Rights) : Z :=
  let bits := 0 in
  let bits := if Rights_read r then Z.lor bits 0x1 else bits in
  let bits := if Rights_write r then Z.lor bits 0x2 else bits in
  let bits := if Rights_execute r then Z.lor bits 0x4 else bits in
  let bits := if Rights_grant r then Z.lor bits 0x8 else bits in
  bits.

(** ** Rights on the wire *)

Lemma land_pow2_testbit b k : 0 ≤ k → negb (Z.land b (2 ^ k) =? 0) = Z.testbit b k.
Proof.
  intros Hk. destruct (Z.testbit b k) eqn:E.
  - apply negb_true_iff, Z.eqb_neq. intros Hz.
    assert (Z.testbit (Z.land b (2 ^ k)) k = true) as Ht.
    { rewrite Z.land_spec, E, Z.pow2_bits_true by lia. done. }
    by rewrite Hz, Z.bits_0 in Ht.
  - apply negb_false_iff, Z.eqb_eq, Z.bits_inj'. intros i Hi.
    rewrite Z.land_spec, Z.bits_0. destruct (decide (i = k)) as [->|].
    + by rewrite E.
    + rewrite Z.pow2_bits_false by lia. apply andb_false_r.
Qed.

Lemma decode_rights_testbit b :
  decode_rights b =
  mkRights (Z.testbit b 0) (Z.testbit b 1) (Z.testbit b 2) (Z.testbit b 3).
Proof.
  unfold decode_rights.
  by rewrite <- (land_pow2_testbit b 0), <- (land_pow2_testbit b 1),
    <- (land_pow2_testbit b 2), <- (land_pow2_testbit b 3) by lia.
Qed.

(** [encode_rights] and the decoding in [sys_cap_derive] are inverse on
    rights, and decoding looks at the low four bits only. *)
Theorem rights_roundtrip r b :
  decode_rights (encode_rights r) = r ∧
  0 ≤ encode_rights r < 16 ∧
  encode_rights (decode_rights b) = Z.land b 15.
Proof.
  split_and!; [by destruct r as [[] [] [] []] | by destruct r as [[] [] [] []]..|].
  rewrite decode_rights_testbit. apply Z.bits_inj'. intros i Hi.
  rewrite Z.land_spec.
  assert (i = 0 ∨ i = 1 ∨ i = 2 ∨ i = 3 ∨ 4 ≤ i) as [->|[->|[->|[->|Hge]]]] by lia.
  all: try by destruct (Z.testbit b 0), (Z.testbit b 1), (Z.testbit b 2), (Z.testbit b 3).
  change 15 with (Z.ones 4). rewrite Z.ones_spec_high, andb_false_r by lia.
  rewrite <- (Z.mod_small (encode_rights _) (2 ^ 4)).
  - apply Z.mod_pow2_bits_high. lia.
  - by destruct (Z.testbit b 0), (Z.testbit b 1), (Z.testbit b 2), (Z.testbit b 3).
Qed.

(** ** Behaviour of the dispatcher *)
Section properties.
Context `{Build}.

Definition ctx_attenuates (c' c : SyscallContext) : Prop :=
  attenuates (cspace c') (cspace c).

Lemma sys_cap_derive_cases ctx src b ctx' r log :
  sys_cap_derive ctx src b = Ok (ctx', r, log) →
  ∃ o, CSpace_derive (cspace ctx) (CapabilityId_new src) (decode_rights b)
         = Ok (cspace ctx', o) ∧ log = [] ∧
       r = match o with
           | Some i => SyscallResult_Success (CapabilityId_value i)
           | None => SyscallResult_Error SyscallError_PermissionDenied
           end.
Proof.
  unfold sys_cap_derive. intros ([cs o] & Hd & Hm)%bind_Ok.
  exists o. destruct o; naive_solver.
Qed.

Lemma syscall_attenuates ctx n a1 a2 a3 a4 ctx' r log :
  syscall ctx n a1 a2 a3 a4 = Ok (ctx', r, log) → ctx_attenuates ctx' ctx.
Proof.
  unfold syscall, ctx_attenuates. destruct (SyscallNumber_from_u64 n) as [[]|].
  - by intros [= <- <- <-].
  - intros (o & Hd & _)%sys_cap_derive_cases. by eapply CSpace_derive_attenuates.
  - unfold sys_cap_revoke. pose proof (attenuates_revoke (cspace ctx) (CapabilityId_new a1)).
    destruct (CSpace_revoke _ _) as [cs [c|]]; by intros [= <- <- <-].
  - unfold sys_cap_invoke. destruct (CSpace_get _ _); by intros [= <- <- <-].
  - by intros [= <- <- <-].
  - by intros [= <- <- <-].
Qed.

(** C2: confinement.  Whatever sequence of system calls a process makes, with
    whatever numbers and arguments, and also when the id counter wraps, every
    right it ends up holding on a resource is a right it held on that resource
    at the start: there is no amplification and no forgery. *)
Theorem syscalls_confined ctx calls ctx' rs :
  run_syscalls ctx calls = Ok (ctx', rs) → ctx_attenuates ctx' ctx.
Proof.
  unfold ctx_attenuates.
  revert ctx rs. induction calls as [|[[[[n a1] a2] a3] a4] calls IH]; intros ctx rs.
  - by intros [= <- <-].
  - simpl. intros ([[ctx1 r] log] & Hs & ([ctx2 rs'] & Hrun & [= <- <-])%bind_Ok)%bind_Ok.
    transitivity (cspace ctx1); [by eapply IH|]. by eapply syscall_attenuates.
Qed.

(** A call that reports an error leaves every token in place, and the only
    error that changes the context at all is a refused derivation, which burns
    an id. *)
Theorem syscall_error_keeps_capabilities ctx n a1 a2 a3 a4 ctx' e log :
  syscall ctx n a1 a2 a3 a4 = Ok (ctx', SyscallResult_Error e, log) →
  capabilities (cspace ctx') = capabilities (cspace ctx) ∧ log = [] ∧
  (n ≠ 1 → ctx' = ctx).
Proof.
  unfold syscall. destruct (SyscallNumber_from_u64 n) as [[]|] eqn:En.
  - by intros [= <- _ <-].
  - intros (o & Hd & -> & Hr)%sys_cap_derive_cases. destruct o; [done|].
    split_and!; [|done|].
    + rewrite CSpace_derive_spec in Hd. destruct (CSpace_get _ _).
      * apply bind_Ok in Hd as (k & _ & Hd). by case_decide; injection Hd as <-.
      * by injection Hd as <-.
    + intros Hn. exfalso. apply Hn. unfold SyscallNumber_from_u64 in En.
      repeat case_match; by simplify_eq.
  - unfold sys_cap_revoke, CSpace_revoke. destruct (_ !! _) eqn:E; [done|].
    intros [= <- _ <-]. simpl. rewrite delete_id by done.
    by destruct ctx as [[]].
  - unfold sys_cap_invoke. destruct (CSpace_get _ _); [done|]. by intros [= <- _ <-].
  - done.
  - by intros [= <- _ <-].
Qed.

(** The dispatcher never hangs and only ever panics in a build with
    overflow checks, on a derivation from an existing token when the id
    counter is at [u64::MAX]. *)
Theorem syscall_no_panic ctx n a1 a2 a3 a4 :
  in_u 64 (next_id (cspace ctx)) →
  (∃ out, syscall ctx n a1 a2 a3 a4 = Ok out) ∨
  (syscall ctx n a1 a2 a3 a4 = Panic ∧ build = Dev ∧ n = 1 ∧
   next_id (cspace ctx) = 2 ^ 64 - 1 ∧
   is_Some (CSpace_get (cspace ctx) (CapabilityId_new a1))).
Proof.
  intros Hin. unfold syscall. destruct (SyscallNumber_from_u64 n) as [[]|] eqn:En.
  - left. eexists. reflexivity.
  - assert (n = 1) as ->.
    { unfold SyscallNumber_from_u64 in En. repeat case_match; by simplify_eq. }
    unfold sys_cap_derive. rewrite CSpace_derive_spec.
    destruct (CSpace_get _ _) as [c|] eqn:Hc; simpl; [|left; eexists; reflexivity].
    destruct (add_u_cases 64 (next_id (cspace ctx)) 1) as [[v ->]|(-> & ? & Hov)]; simpl.
    + left. case_decide; eexists; reflexivity.
    + right. unfold in_u in *. split_and!; [done..| lia | done].
  - left. unfold sys_cap_revoke. destruct (CSpace_revoke _ _) as [? []]; eexists; reflexivity.
  - left. unfold sys_cap_invoke. destruct (CSpace_get _ _); eexists; reflexivity.
  - left. eexists. reflexivity.
  - left. eexists. reflexivity.
Qed.

(** Revocation is immediate for the revoked id and for nothing else: the
    call succeeds exactly when the token existed, the id is unusable
    afterwards, and every other token, those derived from it included, still
    answers as before. *)
Theorem sys_cap_revoke_spec ctx i :
  ∃ ctx' r, sys_cap_revoke ctx i = Ok (ctx', r, []) ∧
    (r = SyscallResult_Success 0 ↔
       is_Some (CSpace_get (cspace ctx) (CapabilityId_new i))) ∧
    (∀ a2 a3 a4, sys_cap_invoke ctx' i a2 a3 a4 =
       Ok (ctx', SyscallResult_Error SyscallError_InvalidCapability, [])) ∧
    (∀ j, j ≠ CapabilityId_new i →
       CSpace_get (cspace ctx') j = CSpace_get (cspace ctx) j).
Proof.
  unfold sys_cap_revoke, sys_cap_invoke, CSpace_revoke, CSpace_get.
  destruct (capabilities (cspace ctx) !! CapabilityId_new i) as [c|] eqn:E.
  all: eexists (mkSyscallContext (mkCSpace _ _)), _; split_and!; [done| | |].
  all: simpl.
  - split; [by eexists | done].
  - intros. by rewrite lookup_delete_eq.
  - intros. by rewrite lookup_delete_ne.
  - split; [done | by intros []].
  - intros. by rewrite lookup_delete_eq.
  - intros. by rewrite lookup_delete_ne.
Qed.

(** [sys_cap_invoke] asks only whether the token exists: its answer, its
    output and its effect do not depend on the rights the token carries, so a
    token with no rights at all can be invoked. *)
Theorem sys_cap_invoke_ignores_rights ctx i a2 a3 a4 c r :
  CSpace_get (cspace ctx) (CapabilityId_new i) = Some c →
  let ctx0 := mkSyscallContext
    (mkCSpace (<[CapabilityId_new i := Capability_new (Capability_id c)
        (Capability_resource_type c) (Capability_resource_id c) r]>
        (capabilities (cspace ctx))) (next_id (cspace ctx))) in
  ∃ log, sys_cap_invoke ctx i a2 a3 a4 = Ok (ctx, SyscallResult_Success 1, log) ∧
         sys_cap_invoke ctx0 i a2 a3 a4 = Ok (ctx0, SyscallResult_Success 1, log).
Proof.
  intros Hc ctx0. unfold sys_cap_invoke. rewrite Hc.
  unfold ctx0, CSpace_get. simpl. rewrite lookup_insert_eq. by eexists.
Qed.
End properties.

(** ** Concrete calls *)

Definition sample_calls : list (Z * Z * Z * Z * Z) :=
  [(1, 1, 1, 0, 0); (3, 2, 0, 0, 0); (2, 2, 0, 0, 0); (1, 1, 31, 0, 0); (77, 0, 0, 0, 0)].

Lemma syscalls_confined_witness :
  ∃ ctx' rs, run_syscalls (H := Dev) (mkSyscallContext sample_cspace) sample_calls = Ok (ctx', rs) ∧
    ctx_attenuates ctx' (mkSyscallContext sample_cspace).
Proof.
  eexists _, _. split; [vm_compute; reflexivity|].
  eapply (syscalls_confined (H := Dev) _ sample_calls). vm_compute. reflexivity.
Defined.

Lemma syscall_no_panic_witness :
  in_u 64 (next_id sample_cspace) ∧
  ∃ out, syscall (H := Dev) (mkSyscallContext sample_cspace) 1 1 1 0 0 = Ok out.
Proof.
  split; [done|].
  destruct (syscall_no_panic (H := Dev) (mkSyscallContext sample_cspace) 1 1 1 0 0)
    as [Hok|(_ & _ & _ & Hn & _)]; [done|exact Hok|discriminate Hn].
Defined.
