(* ===== verification/Task.v ===== *)
(** * Tasks of the x86-64 kernel ([src/src/task.rs])

    Task identity, execution state, saved CPU context, and the list of tasks
    the scheduler owns.  The 64 KB stack is represented by the address of its
    first byte: no Rust code reads or writes its contents. *)
From stdpp Require Import strings.
From S2P Require Import Prelude Capability.

(** ** Data *)

Record TaskId := TaskId_new { TaskId_value : Z }.

#[global] Instance TaskId_eq_dec : EqDecision TaskId.
Proof. solve_decision. Defined.
#[global] Program Instance TaskId_countable : Countable TaskId :=
  inj_countable' TaskId_value TaskId_new _.
Next Obligation. by intros []. Qed.

Inductive TaskState :=
  | TaskState_Ready
  | TaskState_Running
  | TaskState_Blocked
  | TaskState_Terminated.

#[global] Instance TaskState_eq_dec : EqDecision TaskState.
Proof. solve_decision. Defined.

Inductive Priority := Priority_Low | Priority_Normal | Priority_High | Priority_Realtime.

#[global] Instance Priority_eq_dec : EqDecision Priority.
Proof. solve_decision. Defined.

(** The discriminants that the derived [PartialOrd] compares. *)
Definition Priority_discriminant (p : Priority) : Z :=
  match p with
  | Priority_Low => 0
  | Priority_Normal => 1
  | Priority_High => 2
  | Priority_Realtime => 3
  end.

(** [#[repr(C)] struct TaskContext] *)
Record TaskContext := mkTaskContext {
  ctx_rsp : Z; ctx_rbp : Z;
  ctx_rax : Z; ctx_rbx : Z; ctx_rcx : Z; ctx_rdx : Z; ctx_rsi : Z; ctx_rdi : Z;
  ctx_r8 : Z; ctx_r9 : Z; ctx_r10 : Z; ctx_r11 : Z;
  ctx_r12 : Z; ctx_r13 : Z; ctx_r14 : Z; ctx_r15 : Z;
  ctx_rflags : Z; ctx_rip : Z
}.

Definition TaskContext_new : TaskContext :=
  mkTaskContext 0 0 0 0 0 0 0 0 0 0 0 0 0 0 0 0 0x200 0.

Definition TASK_STACK_SIZE : Z := 64 * 1024.

Record Task := mkTask {
  task_id : TaskId;
  task_state : TaskState;
  task_context : TaskContext;
  task_stack : Z;
  task_cspace : CSpace;
  task_priority : Priority;
  task_name : string
}.

(** ** Operations on a task *)

Definition set_state (st : TaskState) (t : Task) : Task :=
  mkTask (task_id t) st (task_context t) (task_stack t) (task_cspace t)
    (task_priority t) (task_name t).

Definition with_cspace (f : CSpace → CSpace) (t : Task) : Task :=
  mkTask (task_id t) (task_state t) (task_context t) (task_stack t)
    (f (task_cspace t)) (task_priority t) (task_name t).

(** The getters.  [context_mut] is given the change made through the reference. *)
Definition Task_id (self : Task) : TaskId := task_id self.
Definition Task_state (self : Task) : TaskState := task_state self.
Definition Task_context (self : Task) : TaskContext := task_context self.
Definition Task_priority (self : Task) : Priority := task_priority self.
Definition Task_name (self : Task) : string := task_name self.
Definition Task_cspace (self : Task) : CSpace := task_cspace self.

Definition with_context (f : TaskContext → TaskContext) (t : Task) : Task :=
  mkTask (task_id t) (task_state t) (f (task_context t)) (task_stack t) (task_cspace t)
    (task_priority t) (task_name t).

Definition TaskContext_default : TaskContext := TaskContext_new.

(** [Task::new].  [NEXT_ID] is the function's static counter, [stack] the
    address of the boxed stack, [wrapper] the address of
    [task_entry_wrapper]; [fetch_add] wraps in every build. *)
Definition Task_new `{Build} (NEXT_ID stack wrapper : Z) (name : string)
    (entry_point : Z) (priority : Priority) : outcome (Z * Task) :=
  let context := TaskContext_new in
  rsp ← stack +u[64] TASK_STACK_SIZE;
  let context := mkTaskContext
    rsp rsp
    (ctx_rax context) (ctx_rbx context) (ctx_rcx context) (ctx_rdx context)
    (ctx_rsi context) entry_point
    (ctx_r8 context) (ctx_r9 context) (ctx_r10 context) (ctx_r11 context)
    (ctx_r12 context) (ctx_r13 context) (ctx_r14 context) (ctx_r15 context)
    0x200 wrapper in
  let id := TaskId_new NEXT_ID in
  Ok (wrap 64 (NEXT_ID + 1),
      mkTask id TaskState_Ready context stack CSpace_new priority name).

(** ** The task list *)

Record TaskList := mkTaskList { tasks : list Task }.

Definition TaskList_new : TaskList := mkTaskList [].

Definition TaskList_add (self : TaskList) (task : Task) : TaskList * TaskId :=
  (mkTaskList (tasks self ++ [task]), task_id task).

Definition TaskList_get (self : TaskList) (i : TaskId) : option Task :=
  find_key task_id i (tasks self).

(** [get_mut(id)] followed by the mutation [f] when the task is found. *)
Definition TaskList_get_mut (self : TaskList) (i : TaskId) (f : Task → Task) : TaskList :=
  mkTaskList (modify_key task_id i f (tasks self)).

Definition TaskList_remove (self : TaskList) (i : TaskId) : TaskList * option Task :=
  match position (has_key task_id i) (tasks self) with
  | Some pos => (mkTaskList (remove_at pos (tasks self)), tasks self !! pos)
  | None => (self, None)
  end.

Definition TaskList_len (self : TaskList) : nat := length (tasks self).

Definition TaskList_is_empty (self : TaskList) : bool := bool_decide (tasks self = []).

(** [iter], and [iter_mut] with what the caller makes of each task. *)
Definition TaskList_iter (self : TaskList) : list Task := tasks self.
Definition TaskList_iter_mut (self : TaskList) (f : Task → Task) : TaskList :=
  mkTaskList (f <$> tasks self).
Definition TaskList_default : TaskList := TaskList_new.

Definition TaskList_ids (self : TaskList) : list TaskId := task_id <$> tasks self.

(** ** Lemmas *)

(** A mutation through [get_mut] keeps the id. *)
Class KeepsId (f : Task → Task) : Prop := keeps_id t : task_id (f t) = task_id t.

#[global] Instance set_state_keeps_id st : KeepsId (set_state st).
Proof. done. Qed.
#[global] Instance with_cspace_keeps_id f : KeepsId (with_cspace f).
Proof. done. Qed.
#[global] Instance with_context_keeps_id f : KeepsId (with_context f).
Proof. done. Qed.
#[global] Instance if_keeps_id (b : Task → bool) f `{!KeepsId f} :
  KeepsId (λ t, if b t then f t else t).
Proof. intros t. destruct (b t); [apply keeps_id | done]. Qed.

Lemma TaskList_get_get_mut l i f `{!KeepsId f} :
  TaskList_get (TaskList_get_mut l i f) i = f <$> TaskList_get l i.
Proof. apply find_modify_key, keeps_id. Qed.

Lemma TaskList_get_get_mut_ne l i j f `{!KeepsId f} :
  j ≠ i → TaskList_get (TaskList_get_mut l i f) j = TaskList_get l j.
Proof. apply find_modify_key_ne, keeps_id. Qed.

Lemma TaskList_ids_get_mut l i f `{!KeepsId f} :
  TaskList_ids (TaskList_get_mut l i f) = TaskList_ids l.
Proof. apply modify_key_keys, keeps_id. Qed.

Lemma TaskList_get_add l t i :
  TaskList_get l (task_id t) = None →
  TaskList_get (TaskList_add l t).1 i =
    if decide (i = task_id t) then Some t else TaskList_get l i.
Proof.
  intros Hfresh. unfold TaskList_get, TaskList_add in *. simpl. rewrite find_key_app.
  case_decide as Hi.
  - subst i. rewrite Hfresh. unfold find_key, has_key. simpl.
    by rewrite bool_decide_eq_true_2.
  - destruct (find_key task_id i (tasks l)); [done|]. unfold find_key, has_key. simpl.
    by rewrite bool_decide_eq_false_2 by congruence.
Qed.

(** A change of every task is a change of the one that is looked up. *)
Lemma TaskList_get_iter_mut l i f `{!KeepsId f} :
  TaskList_get (TaskList_iter_mut l f) i = f <$> TaskList_get l i.
Proof.
  unfold TaskList_get, TaskList_iter_mut, find_key. simpl.
  induction (tasks l) as [|t ts IH]; [done|]. simpl. unfold has_key at 1 3. rewrite keeps_id.
  by case_bool_decide.
Qed.

Lemma TaskList_get_id l i t : TaskList_get l i = Some t → task_id t = i.
Proof. by intros [_ ?]%find_key_Some. Qed.

#[export] Hint Rewrite TaskList_ids_get_mut TaskList_get_get_mut using apply _ : jericho.

(** [TaskList::remove] returns the task [get] would, and with distinct ids
    the removed id is gone while the list loses exactly that one task. *)
Theorem TaskList_remove_spec l i :
  NoDup (TaskList_ids l) →
  (TaskList_remove l i).2 = TaskList_get l i ∧
  TaskList_get (TaskList_remove l i).1 i = None ∧
  tasks (TaskList_remove l i).1 ⊆ tasks l ∧
  TaskList_len l = (TaskList_len (TaskList_remove l i).1 +
     match TaskList_get l i with Some _ => 1 | None => 0 end)%nat.
Proof.
  intros Hnd. unfold TaskList_remove, TaskList_get, TaskList_len in *.
  pose proof (position_remove task_id i (tasks l)) as Hp.
  destruct (position _ _) as [pos|].
  - destruct Hp as (x & Hx & Hf & Hnone). simpl. rewrite Hf. split_and!; [done | by apply Hnone | |].
    + unfold remove_at. intros y [?%subseteq_take|?%subseteq_drop]%elem_of_app; done.
    + apply lookup_lt_Some in Hx. unfold remove_at.
      rewrite length_app, length_take, length_drop. lia.
  - simpl. rewrite Hp. split_and!; [done..|lia].
Qed.

(** A task created by [Task::new] is ready, holds no capability, and its
    saved context starts the entry wrapper at the top of its own stack with
    the entry point in [rdi] and interrupts enabled. *)
Theorem Task_new_spec `{Build} NEXT_ID stack wrapper name entry prio :
  in_u 64 (stack + TASK_STACK_SIZE) →
  ∃ t, Task_new NEXT_ID stack wrapper name entry prio = Ok (wrap 64 (NEXT_ID + 1), t) ∧
    task_id t = TaskId_new NEXT_ID ∧ task_state t = TaskState_Ready ∧
    (∀ rt rid r, ¬ authority (task_cspace t) rt rid r) ∧
    ctx_rip (task_context t) = wrapper ∧ ctx_rdi (task_context t) = entry ∧
    ctx_rsp (task_context t) = stack + TASK_STACK_SIZE ∧
    ctx_rbp (task_context t) = ctx_rsp (task_context t) ∧
    Z.testbit (ctx_rflags (task_context t)) 9 = true.
Proof.
  intros Hfit. unfold Task_new. rewrite add_u_fits by done.
  eexists. split_and!; try done. apply authority_new.
Qed.
