(* ===== verification/Scheduler.v ===== *)
(** * The x86-64 round-robin scheduler ([src/src/scheduler.rs])

    The scheduler owns the task list, the id of the current task and the queue
    of ready tasks.  [schedule] pops the queue, demotes the current task and
    promotes the popped one, which goes back to the end of the queue. *)
From stdpp Require Import strings.
From S2P Require Import Prelude Capability Task.

(** ** State and operations *)

Record Scheduler := mkScheduler {
  sched_tasks : TaskList;
  current_task : option TaskId;
  ready_queue : list TaskId
}.

Definition Scheduler_new : Scheduler := mkScheduler TaskList_new None [].

Definition add_task (self : Scheduler) (task : Task) : Scheduler * TaskId :=
  let i := task_id task in
  let '(ts, _) := TaskList_add (sched_tasks self) task in
  (mkScheduler ts (current_task self) (ready_queue self ++ [i]), i).

Definition task_count (self : Scheduler) : nat := TaskList_len (sched_tasks self).

Definition get_task (self : Scheduler) (i : TaskId) : option Task :=
  TaskList_get (sched_tasks self) i.

Definition is_state (st : TaskState) (t : Task) : bool := bool_decide (task_state t = st).

(** The demotion of the current task at the top of [schedule]. *)
Definition demote_current (self : Scheduler) : Scheduler :=
  match current_task self with
  | Some current_id =>
      mkScheduler
        (TaskList_get_mut (sched_tasks self) current_id
           (λ t, if is_state TaskState_Running t then set_state TaskState_Ready t else t))
        (current_task self) (ready_queue self)
  | None => self
  end.

Definition schedule (self : Scheduler) : Scheduler * option TaskId :=
  match ready_queue self with
  | next_id :: rest =>
      let self := mkScheduler (sched_tasks self) (current_task self) rest in
      let self := demote_current self in
      match get_task self next_id with
      | Some next =>
          if is_state TaskState_Ready next then
            (mkScheduler
               (TaskList_get_mut (sched_tasks self) next_id (set_state TaskState_Running))
               (Some next_id) (ready_queue self ++ [next_id]),
             Some next_id)
          else (self, None)
      | None => (self, None)
      end
  | [] => (self, None)
  end.

Definition yield_cpu (self : Scheduler) : Scheduler := (schedule self).1.

(** Set the state of the current task to [st] and take it off the ready queue:
    the common part of [block_current] and [terminate_current]. *)
Definition retire (self : Scheduler) (current_id : TaskId) (st : TaskState)
    (current : option TaskId) : Scheduler :=
  mkScheduler
    (TaskList_get_mut (sched_tasks self) current_id (set_state st))
    current (filter (λ i, i ≠ current_id) (ready_queue self)).

Definition block_current (self : Scheduler) : Scheduler :=
  match current_task self with
  | Some current_id =>
      (schedule (retire self current_id TaskState_Blocked (current_task self))).1
  | None => self
  end.

Definition unblock_task (self : Scheduler) (i : TaskId) : Scheduler :=
  match get_task self i with
  | Some task =>
      if is_state TaskState_Blocked task then
        mkScheduler (TaskList_get_mut (sched_tasks self) i (set_state TaskState_Ready))
          (current_task self) (ready_queue self ++ [i])
      else self
  | None => self
  end.

Definition terminate_current (self : Scheduler) : Scheduler :=
  match current_task self with
  | Some current_id =>
      (schedule (retire self current_id TaskState_Terminated None)).1
  | None => self
  end.

(** [current_task_cspace] and [current_task_id] on the global
    [SCHEDULER : Mutex<Option<Scheduler>>]. *)
Definition current_task_cspace (guard : option Scheduler) : option CSpace :=
  scheduler ← guard;
  current_id ← current_task scheduler;
  task ← get_task scheduler current_id;
  Some (task_cspace task).

Definition current_task_id (guard : option Scheduler) : option TaskId :=
  guard ≫= current_task.

(** ** The invariant *)

Definition state_of (self : Scheduler) (i : TaskId) : option TaskState :=
  task_state <$> get_task self i.

Definition runnable (st : TaskState) : Prop :=
  st = TaskState_Ready ∨ st = TaskState_Running.

(** Task ids are distinct, the ready queue lists every runnable task exactly
    once and nothing else, only the current task is marked running, and the
    current task is in the task list and not terminated. *)
Record sched_inv (s : Scheduler) : Prop := {
  inv_ids : NoDup (TaskList_ids (sched_tasks s));
  inv_queue : NoDup (ready_queue s);
  inv_runnable i : i ∈ ready_queue s ↔ ∃ st, state_of s i = Some st ∧ runnable st;
  inv_running i : state_of s i = Some TaskState_Running → current_task s = Some i;
  inv_current i : current_task s = Some i →
    ∃ st, state_of s i = Some st ∧ st ≠ TaskState_Terminated
}.

(** What [schedule] does to the state of task [i] when it picks [next]. *)
Definition promote (next i : TaskId) (st : TaskState) : TaskState :=
  if decide (i = next) then TaskState_Running
  else if decide (st = TaskState_Running) then TaskState_Ready else st.

Lemma state_of_get_mut s i j f c q `{!KeepsId f} :
  state_of (mkScheduler (TaskList_get_mut (sched_tasks s) i f) c q) j =
  if decide (j = i) then task_state ∘ f <$> get_task s i else state_of s j.
Proof.
  unfold state_of, get_task. simpl. case_decide as Hj.
  - subst j. rewrite TaskList_get_get_mut by apply _. by destruct (TaskList_get _ _).
  - by rewrite TaskList_get_get_mut_ne.
Qed.

Lemma state_of_Some s i st :
  state_of s i = Some st ↔ ∃ t, get_task s i = Some t ∧ task_state t = st.
Proof. unfold state_of. rewrite fmap_Some. naive_solver. Qed.

Lemma state_of_demote s :
  (∀ i, state_of s i = Some TaskState_Running → current_task s = Some i) →
  ∀ i, get_task (demote_current s) i =
    (λ t, if is_state TaskState_Running t then set_state TaskState_Ready t else t)
      <$> get_task s i.
Proof.
  intros Hrun i. unfold demote_current, get_task.
  assert (current_task s ≠ Some i →
    TaskList_get (sched_tasks s) i =
    (λ t, if is_state TaskState_Running t then set_state TaskState_Ready t else t)
      <$> TaskList_get (sched_tasks s) i) as Hother.
  { intros Hne. destruct (TaskList_get (sched_tasks s) i) as [t|] eqn:Ht; [|done]. simpl.
    unfold is_state. rewrite bool_decide_eq_false_2; [done|]. intros Hst.
    apply Hne, Hrun, state_of_Some. by exists t. }
  destruct (current_task s) as [c|]; [|by apply Hother]. simpl.
  destruct (decide (i = c)) as [->|].
  - by rewrite TaskList_get_get_mut by apply _.
  - rewrite TaskList_get_get_mut_ne by (apply _ || done). apply Hother. congruence.
Qed.

(** The effect of promoting [next] on the task with id [i]. *)
Definition promote_task (next i : TaskId) (t : Task) : Task :=
  set_state (promote next i (task_state t)) t.

Lemma set_state_same t : set_state (task_state t) t = t.
Proof. by destruct t. Qed.

Lemma demoted_is_promoted next i t :
  i ≠ next →
  (if is_state TaskState_Running t then set_state TaskState_Ready t else t) =
  promote_task next i t.
Proof.
  intros Hi. unfold promote_task, promote, is_state. rewrite decide_False by done.
  case_bool_decide; [by rewrite decide_True|]. by rewrite decide_False, set_state_same.
Qed.

Lemma schedule_nil s : ready_queue s = [] → schedule s = (s, None).
Proof. unfold schedule. by intros ->. Qed.

Lemma queue_head_runnable s next rest :
  sched_inv s → ready_queue s = next :: rest →
  ∃ t, get_task s next = Some t ∧ runnable (task_state t).
Proof.
  intros Hinv Hq. destruct (proj1 (inv_runnable s Hinv next)) as (st & Hst & Hr).
  { rewrite Hq. apply list_elem_of_here. }
  apply state_of_Some in Hst as (t & Ht & <-). by exists t.
Qed.

(** With a non-empty queue, [schedule] always succeeds with its head. *)
Lemma schedule_cons s next rest :
  sched_inv s → ready_queue s = next :: rest →
  ∃ s', schedule s = (s', Some next) ∧
    ready_queue s' = rest ++ [next] ∧ current_task s' = Some next ∧
    TaskList_ids (sched_tasks s') = TaskList_ids (sched_tasks s) ∧
    ∀ i, get_task s' i = promote_task next i <$> get_task s i.
Proof.
  intros Hinv Hq. unfold schedule. rewrite Hq.
  set (s1 := mkScheduler (sched_tasks s) (current_task s) rest).
  pose proof (state_of_demote s1 (inv_running s Hinv)) as Hdem.
  destruct (queue_head_runnable s next rest Hinv Hq) as (t & Ht & Hrunnable).
  assert (get_task s1 next = Some t) as Ht1 by done.
  rewrite Hdem, Ht1. simpl.
  assert (is_state TaskState_Ready
    (if is_state TaskState_Running t then set_state TaskState_Ready t else t) = true) as ->.
  { unfold is_state. destruct Hrunnable;
      repeat (case_bool_decide; simpl in *); congruence. }
  eexists. split_and!; [done| | done | |].
  - unfold demote_current. by destruct (current_task s1).
  - simpl. rewrite TaskList_ids_get_mut by apply _. unfold demote_current.
    destruct (current_task s1); [|done]. simpl. by rewrite TaskList_ids_get_mut by apply _.
  - intros i. unfold get_task at 1. simpl. destruct (decide (i = next)) as [->|Hi].
    + rewrite TaskList_get_get_mut by apply _.
      change (TaskList_get (sched_tasks (demote_current s1)) next)
        with (get_task (demote_current s1) next).
      rewrite Hdem, Ht1, Ht. simpl. unfold promote_task, promote. rewrite decide_True by done.
      by destruct (is_state TaskState_Running t).
    + rewrite TaskList_get_get_mut_ne by (apply _ || done).
      change (TaskList_get (sched_tasks (demote_current s1)) i)
        with (get_task (demote_current s1) i). rewrite Hdem.
      change (get_task s1 i) with (get_task s i). destruct (get_task s i); simpl; [|done].
      by rewrite (demoted_is_promoted next i).
Qed.

Lemma runnable_promote next i st : runnable (promote next i st) ↔ i = next ∨ runnable st.
Proof.
  unfold promote, runnable. case_decide; [naive_solver|]. case_decide; naive_solver.
Qed.

Lemma schedule_inv s : sched_inv s → sched_inv (schedule s).1.
Proof.
  intros Hinv. destruct (ready_queue s) as [|next rest] eqn:Hq.
  { by rewrite schedule_nil. }
  destruct (schedule_cons s next rest Hinv Hq) as (s' & -> & Hq' & Hc & Hids & Hget). simpl.
  assert (∀ i, state_of s' i = promote next i <$> state_of s i) as Hst.
  { intros i. unfold state_of. rewrite Hget. by destruct (get_task s i). }
  assert (next ∈ ready_queue s) as Hnext by (rewrite Hq; apply list_elem_of_here).
  split.
  - rewrite Hids. apply Hinv.
  - rewrite Hq'. pose proof (inv_queue s Hinv) as Hnd. rewrite Hq in Hnd.
    by rewrite <- Permutation_cons_append.
  - intros i. rewrite Hq', <- Permutation_cons_append, <- Hq, (inv_runnable s Hinv), Hst.
    split; intros (st & Hs & Hr).
    + exists (promote next i st). rewrite Hs, runnable_promote. auto.
    + apply fmap_Some in Hs as (st0 & Hs & ->). apply runnable_promote in Hr as [->|Hr].
      * by apply (inv_runnable s Hinv).
      * by exists st0.
  - intros i Hrun. rewrite Hc. f_equal. rewrite Hst in Hrun.
    apply fmap_Some in Hrun as (st0 & _ & Hp). unfold promote in Hp.
    repeat case_decide; naive_solver.
  - intros i. rewrite Hc. intros [= <-]. rewrite Hst.
    apply (inv_runnable s Hinv) in Hnext as (st & -> & _). simpl. eexists.
    split; [done|]. unfold promote. by rewrite decide_True.
Qed.

(** The scheduler state between [retire] and [schedule]. *)
Lemma state_of_retire s c st cur i :
  sched_inv s → current_task s = Some c →
  state_of (retire s c st cur) i = if decide (i = c) then Some st else state_of s i.
Proof.
  intros Hinv Hc. unfold retire. rewrite state_of_get_mut by apply _.
  apply (inv_current s Hinv) in Hc as (? & (t & -> & _)%state_of_Some & _).
  by case_decide.
Qed.

(** The new state and current task that [block_current] and
    [terminate_current] pass to [retire]. *)
Definition retires (s : Scheduler) (st : TaskState) (cur : option TaskId) : Prop :=
  ¬ runnable st ∧
  ((cur = current_task s ∧ st ≠ TaskState_Terminated) ∨ cur = None).

Lemma retires_block s c :
  current_task s = Some c → retires s TaskState_Blocked (Some c).
Proof. intros Hc. split; [by intros []|]. rewrite Hc. by left. Qed.

Lemma retires_terminate s : retires s TaskState_Terminated None.
Proof. split; [by intros []|by right]. Qed.

#[export] Hint Resolve retires_block retires_terminate : jericho.

Lemma retire_inv s c st cur :
  sched_inv s → current_task s = Some c → retires s st cur →
  sched_inv (retire s c st cur).
Proof.
  intros Hinv Hc [Hst Hcur].
  pose proof (λ i, state_of_retire s c st cur i Hinv Hc) as Hs.
  unfold retire in *. split; simpl.
  - rewrite TaskList_ids_get_mut by apply _. apply Hinv.
  - apply NoDup_filter, Hinv.
  - intros i. rewrite list_elem_of_filter, (inv_runnable s Hinv), Hs.
    case_decide; naive_solver.
  - intros i. rewrite Hs. case_decide as Hi.
    + intros [= ->]. exfalso. apply Hst. by right.
    + intros Hr%(inv_running s Hinv). congruence.
  - intros i Hi. rewrite Hs. case_decide.
    + exists st. destruct Hcur as [[??]|?]; [done | congruence].
    + apply (inv_current s Hinv). destruct Hcur as [[??]|?]; congruence.
Qed.

Lemma add_task_inv s t :
  sched_inv s → get_task s (task_id t) = None → task_state t = TaskState_Ready →
  sched_inv (add_task s t).1.
Proof.
  intros Hinv Hfresh Hready. unfold add_task.
  assert (∀ i, state_of (mkScheduler (mkTaskList (tasks (sched_tasks s) ++ [t]))
      (current_task s) (ready_queue s ++ [task_id t])) i =
    if decide (i = task_id t) then Some TaskState_Ready else state_of s i) as Hs.
  { intros i. pose proof (TaskList_get_add (sched_tasks s) t i Hfresh) as Hadd.
    unfold state_of, get_task. simpl in *. rewrite Hadd.
    case_decide; [|done]. simpl. by rewrite Hready. }
  assert (state_of s (task_id t) = None) as Hnone by (unfold state_of; by rewrite Hfresh).
  split; simpl.
  - unfold TaskList_ids. simpl. rewrite fmap_app. apply NoDup_app. split_and!.
    + apply Hinv.
    + intros i Hi ->%list_elem_of_singleton.
      by apply find_key_None in Hfresh.
    + apply NoDup_singleton.
  - apply NoDup_app. split_and!; [apply Hinv| |apply NoDup_singleton].
    intros i (st & Hi & _)%(inv_runnable s Hinv) ->%list_elem_of_singleton. congruence.
  - intros i. rewrite elem_of_app, list_elem_of_singleton, (inv_runnable s Hinv), Hs.
    unfold runnable. case_decide; [|naive_solver]. split; [|by right].
    intros _. eexists. split; [done|]. by left.
  - intros i. rewrite Hs. case_decide; [done|]. apply (inv_running s Hinv).
  - intros i Hi. rewrite Hs. case_decide; [by exists TaskState_Ready|]. by apply (inv_current s Hinv).
Qed.

(** [unblock_task] on a blocked task: it becomes ready at the back of the
    queue.  On any other id nothing happens. *)
Lemma unblock_task_blocked s i :
  state_of s i = Some TaskState_Blocked →
  unblock_task s i =
    mkScheduler (TaskList_get_mut (sched_tasks s) i (set_state TaskState_Ready))
      (current_task s) (ready_queue s ++ [i]).
Proof.
  intros (t & Ht & Hst)%state_of_Some. unfold unblock_task, is_state. rewrite Ht.
  by rewrite bool_decide_eq_true_2.
Qed.

Lemma unblock_task_other s i :
  state_of s i ≠ Some TaskState_Blocked → unblock_task s i = s.
Proof.
  intros Hst. unfold unblock_task, is_state. destruct (get_task s i) as [t|] eqn:Ht; [|done].
  rewrite bool_decide_eq_false_2; [done|]. intros Hb. apply Hst, state_of_Some. by exists t.
Qed.

Lemma state_of_unblock s i j :
  state_of s i = Some TaskState_Blocked →
  state_of (unblock_task s i) j = if decide (j = i) then Some TaskState_Ready else state_of s j.
Proof.
  intros Hb. rewrite unblock_task_blocked, state_of_get_mut by (done || apply _).
  case_decide; [|done]. apply state_of_Some in Hb as (t & -> & _). done.
Qed.

Lemma unblock_task_inv s i : sched_inv s → sched_inv (unblock_task s i).
Proof.
  intros Hinv. destruct (decide (state_of s i = Some TaskState_Blocked)) as [Hb|Hb].
  2: { by rewrite unblock_task_other. }
  pose proof (state_of_unblock s i) as Hs. specialize (Hs) with (1 := Hb).
  rewrite unblock_task_blocked in * by done. split; simpl.
  - rewrite TaskList_ids_get_mut by apply _. apply Hinv.
  - apply NoDup_app. split_and!; [apply Hinv| |apply NoDup_singleton].
    intros j (st & Hj & Hr)%(inv_runnable s Hinv) ->%list_elem_of_singleton.
    rewrite Hb in Hj. simplify_eq. by destruct Hr.
  - intros j. rewrite elem_of_app, list_elem_of_singleton, (inv_runnable s Hinv), Hs.
    unfold runnable. case_decide; [|naive_solver]. split; [|by right].
    intros _. eexists. split; [done|]. by left.
  - intros j. rewrite Hs. case_decide; [done|]. apply (inv_running s Hinv).
  - intros j Hj. rewrite Hs. case_decide; [by exists TaskState_Ready|]. by apply (inv_current s Hinv).
Qed.

Lemma block_current_inv s : sched_inv s → sched_inv (block_current s).
Proof.
  intros Hinv. unfold block_current. destruct (current_task s) as [c|] eqn:Hc; [|done].
  apply schedule_inv, retire_inv; auto with jericho.
Qed.

Lemma terminate_current_inv s : sched_inv s → sched_inv (terminate_current s).
Proof.
  intros Hinv. unfold terminate_current. destruct (current_task s) as [c|] eqn:Hc; [|done].
  apply schedule_inv, retire_inv; auto with jericho.
Qed.

#[export] Hint Resolve schedule_inv block_current_inv unblock_task_inv
  terminate_current_inv : jericho.

(** ** Reachable states *)

(** Ids come from [Task::new]'s counter, so an added task is new. *)
Inductive sched_step : Scheduler → Scheduler → Prop :=
  | step_add s t :
      get_task s (task_id t) = None → task_state t = TaskState_Ready →
      sched_step s (add_task s t).1
  | step_schedule s : sched_step s (schedule s).1
  | step_yield s : sched_step s (yield_cpu s)
  | step_block s : sched_step s (block_current s)
  | step_unblock s i : sched_step s (unblock_task s i)
  | step_terminate s : sched_step s (terminate_current s).

Definition sched_reachable (s : Scheduler) : Prop := rtc sched_step Scheduler_new s.

Lemma sched_step_inv s s' : sched_step s s' → sched_inv s → sched_inv s'.
Proof. destruct 1; intros; [by apply add_task_inv | auto with jericho..]. by apply schedule_inv. Qed.

Lemma Scheduler_new_inv : sched_inv Scheduler_new.
Proof.
  split; simpl; try (apply NoDup_nil_2 || done).
  intros i. split; [by intros ?%not_elem_of_nil | by intros (? & ? & _)].
Qed.

Lemma sched_reachable_inv s : sched_reachable s → sched_inv s.
Proof.
  apply (rtc_ind_r (λ s, sched_inv s)); [apply Scheduler_new_inv|].
  intros. by eapply sched_step_inv.
Qed.

(** C3: in every reachable scheduler state at most one task is running and it
    is the current one, task ids are distinct, and the ready queue holds every
    runnable task exactly once and no blocked, terminated or unknown one. *)
Theorem scheduler_safety s :
  sched_reachable s →
  (∀ t1 t2, t1 ∈ tasks (sched_tasks s) → t2 ∈ tasks (sched_tasks s) →
     task_state t1 = TaskState_Running → task_state t2 = TaskState_Running →
     t1 = t2 ∧ current_task s = Some (task_id t1)) ∧
  NoDup (TaskList_ids (sched_tasks s)) ∧ NoDup (ready_queue s) ∧
  (∀ t, t ∈ tasks (sched_tasks s) →
     task_id t ∈ ready_queue s ↔ runnable (task_state t)) ∧
  (∀ i, i ∈ ready_queue s → i ∈ TaskList_ids (sched_tasks s)).
Proof.
  intros Hinv%sched_reachable_inv.
  assert (∀ t, t ∈ tasks (sched_tasks s) → get_task s (task_id t) = Some t) as Hget.
  { intros t Ht. apply find_key_elem; [apply Hinv | done]. }
  split_and!; [| apply Hinv | apply Hinv | |].
  - intros t1 t2 H1%Hget H2%Hget Hr1 Hr2.
    assert (current_task s = Some (task_id t1)) as Hc1.
    { apply (inv_running s Hinv), state_of_Some. eauto. }
    assert (current_task s = Some (task_id t2)) as Hc2.
    { apply (inv_running s Hinv), state_of_Some. eauto. }
    assert (task_id t1 = task_id t2) as Heq by congruence. rewrite Heq in *. naive_solver.
  - intros t Ht%Hget. rewrite (inv_runnable s Hinv). unfold state_of. rewrite Ht. simpl.
    naive_solver.
  - intros i (st & (t & Ht & _)%state_of_Some & _)%(inv_runnable s Hinv).
    apply find_key_Some in Ht as [Hin <-]. apply list_elem_of_fmap. by exists t.
Qed.

(** ** Round robin *)

(** [n] consecutive calls of [schedule] and what they return. *)
Fixpoint schedule_n (n : nat) (s : Scheduler) : Scheduler * list (option TaskId) :=
  match n with
  | O => (s, [])
  | S n =>
      let '(s, o) := schedule s in
      let '(s, os) := schedule_n n s in
      (s, o :: os)
  end.

Lemma schedule_n_inv n s : sched_inv s → sched_inv (schedule_n n s).1.
Proof.
  revert s. induction n as [|n IH]; intros s Hs; simpl; [done|].
  apply schedule_inv in Hs. destruct (schedule s) as [s1 o]. apply IH in Hs. simpl in *.
  by destruct (schedule_n n s1).
Qed.

Lemma schedule_n_queue (picked rest : list TaskId) s :
  sched_inv s → ready_queue s = picked ++ rest →
  (schedule_n (length picked) s).2 = (Some <$> picked) ∧
  ready_queue (schedule_n (length picked) s).1 = rest ++ picked.
Proof.
  revert rest s. induction picked as [|next picked IH]; intros rest s Hinv Hq; simpl.
  { by rewrite app_nil_r. }
  destruct (schedule_cons s next (picked ++ rest) Hinv Hq) as (s' & Hs & Hq' & _).
  pose proof (schedule_inv s Hinv) as Hinv'. rewrite Hs in *. simpl in *.
  destruct (IH (rest ++ [next]) s') as [Hout Hqueue]; [done| by rewrite Hq', app_assoc|].
  destruct (schedule_n (length picked) s') as [s2 out]. simpl in *.
  by rewrite Hout, Hqueue, <- app_assoc.
Qed.

(** Whose turn it is after any number of calls. *)
Lemma rotate_lookup (q : list TaskId) next rest n :
  q = next :: rest → (rest ++ [next]) !! (n mod length q)%nat = q !! (S n mod length q)%nat.
Proof.
  intros ->. set (N := length (next :: rest)). assert (N = S (length rest)) as HN by done.
  pose proof (Nat.mod_upper_bound n N ltac:(lia)) as Hb.
  replace (S n mod N)%nat with (if decide (S (n mod N) = N) then O else S (n mod N))%nat.
  2: { case_decide as Hd.
       - replace (S n) with (n + 1)%nat by lia. rewrite <- Nat.Div0.add_mod_idemp_l.
         replace (n mod N + 1)%nat with N by lia. by rewrite Nat.Div0.mod_same.
       - replace (S n) with (n + 1)%nat by lia. rewrite <- Nat.Div0.add_mod_idemp_l, (Nat.mod_small (n mod N + 1)); lia. }
  case_decide as Hd.
  - rewrite lookup_app_r by lia. by replace (n mod N - length rest)%nat with O by lia.
  - rewrite lookup_app_l by lia. done.
Qed.

Lemma schedule_n_turn n s :
  sched_inv s → ready_queue s ≠ [] →
  current_task (schedule_n (S n) s).1 = ready_queue s !! (n mod length (ready_queue s))%nat.
Proof.
  revert s. induction n as [|n IH]; intros s Hinv Hne;
    destruct (ready_queue s) as [|next rest] eqn:Hq; try done;
    destruct (schedule_cons s next rest Hinv Hq) as (s' & Hs & Hq' & Hc & _).
  - rewrite Nat.Div0.mod_0_l. cbn [schedule_n]. by rewrite Hs.
  - pose proof (schedule_inv s Hinv) as Hinv'. rewrite Hs in Hinv'. cbn [fst] in Hinv'.
    assert ((schedule_n (S (S n)) s).1 = (schedule_n (S n) s').1) as ->.
    { change (schedule_n (S (S n)) s) with
        (let '(s, o) := schedule s in let '(s, os) := schedule_n (S n) s in (s, o :: os)).
      rewrite Hs. by destruct (schedule_n (S n) s'). }
    rewrite IH by (done || rewrite Hq'; by destruct rest). rewrite Hq', length_app, Nat.add_1_r.
    by apply (rotate_lookup (next :: rest)).
Qed.

(** Round robin.  From any reachable state, calling [schedule] once per
    queued task hands out every runnable task exactly once, in queue order,
    and brings the queue back to where it was. *)
Theorem round_robin_cycle s :
  sched_reachable s →
  (schedule_n (length (ready_queue s)) s).2 = (Some <$> ready_queue s) ∧
  ready_queue (schedule_n (length (ready_queue s)) s).1 = ready_queue s.
Proof.
  intros Hinv%sched_reachable_inv.
  by apply (schedule_n_queue (ready_queue s) []); [|rewrite app_nil_r].
Qed.

(** Bounded waiting.  A task that is [k]-th in the ready queue is the
    running task after exactly [k + 1] calls of [schedule]. *)
Theorem bounded_waiting s k i :
  sched_reachable s → ready_queue s !! k = Some i →
  let s' := (schedule_n (S k) s).1 in
  current_task s' = Some i ∧ state_of s' i = Some TaskState_Running.
Proof.
  intros Hinv%sched_reachable_inv Hk. cbv zeta.
  assert (∀ n s0, (schedule_n (S n) s0).1 = (schedule (schedule_n n s0).1).1) as Hsnoc.
  { induction n as [|n IH]; intros s0; simpl; [by destruct (schedule s0)|].
    destruct (schedule s0) as [s1 o1]. specialize (IH s1). simpl in IH.
    destruct (schedule s1) as [s2 o2], (schedule_n n s2) as [s3 os]. simpl in *.
    rewrite IH. by destruct (schedule_n n s1). }
  rewrite Hsnoc. apply take_drop_middle in Hk as Hq.
  assert (k = length (take k (ready_queue s))) as Hlen.
  { apply lookup_lt_Some in Hk. rewrite length_take. lia. }
  destruct (schedule_n_queue (take k (ready_queue s)) (i :: drop (S k) (ready_queue s)) s)
    as [_ Hqueue]; [done|by rewrite Hq|]. rewrite <- Hlen in Hqueue.
  pose proof (schedule_n_inv k s Hinv) as Hk'.
  destruct (schedule_cons _ _ _ Hk' Hqueue) as (s' & -> & _ & Hc & _ & Hget). simpl.
  split; [done|]. unfold state_of. rewrite Hget.
  destruct (queue_head_runnable _ _ _ Hk' Hqueue) as (t & -> & _).
  simpl. unfold promote. by rewrite decide_True.
Qed.

(** ** Blocking, waking and terminating *)

(** What [schedule] does after [retire], whichever task it picks. *)
Lemma schedule_state s i :
  sched_inv s →
  state_of (schedule s).1 i =
  match ready_queue s with
  | next :: _ => promote next i <$> state_of s i
  | [] => state_of s i
  end.
Proof.
  intros Hinv. destruct (ready_queue s) as [|next rest] eqn:Hq.
  { by rewrite schedule_nil. }
  destruct (schedule_cons s next rest Hinv Hq) as (s' & -> & _ & _ & _ & Hget).
  unfold state_of. simpl. rewrite Hget. by destruct (get_task s i).
Qed.

Lemma promote_absorbs next i st :
  i ≠ next → st ≠ TaskState_Running → promote next i st = st.
Proof. intros. unfold promote. by rewrite !decide_False. Qed.

(** Only a runnable task is ever promoted. *)
Lemma schedule_keeps_parked s i st :
  sched_inv s → state_of s i = Some st → ¬ runnable st →
  state_of (schedule s).1 i = Some st.
Proof.
  intros Hinv Hi Hnr. rewrite schedule_state by done.
  destruct (ready_queue s) as [|next rest] eqn:Hq; [done|]. rewrite Hi. simpl. f_equal.
  apply promote_absorbs; [|by intros ->; apply Hnr; right]. intros ->.
  destruct (queue_head_runnable s next rest Hinv Hq) as (t & Ht & Hrun).
  unfold state_of in Hi. rewrite Ht in Hi. naive_solver.
Qed.

(** [block_current] marks the current task blocked, takes it off the
    queue, and runs the next ready task if there is one; otherwise the blocked
    task stays current.  No other task's blocked or terminated state changes. *)
Theorem block_current_spec s c :
  sched_reachable s → current_task s = Some c →
  let s' := block_current s in
  state_of s' c = Some TaskState_Blocked ∧ (c ∉ ready_queue s') ∧
  match filter (λ i, i ≠ c) (ready_queue s) with
  | [] => ready_queue s' = [] ∧ current_task s' = Some c
  | next :: rest =>
      ready_queue s' = rest ++ [next] ∧ current_task s' = Some next ∧
      state_of s' next = Some TaskState_Running
  end ∧
  (∀ i st, i ≠ c → state_of s i = Some st → ¬ runnable st → state_of s' i = Some st).
Proof.
  intros Hinv%sched_reachable_inv Hc. unfold block_current. rewrite Hc. cbv zeta.
  set (r := retire s c TaskState_Blocked (Some c)).
  assert (sched_inv r) as Hr by (apply retire_inv; auto with jericho).
  assert (∀ i, state_of r i = if decide (i = c) then Some TaskState_Blocked else state_of s i)
    as Hst by (intros; by apply state_of_retire).
  assert (state_of (schedule r).1 c = Some TaskState_Blocked) as Hblocked.
  { apply schedule_keeps_parked; [done | by rewrite Hst, decide_True | by intros []]. }
  split_and!; [done| | |].
  - intros (st & Hs & Hrun)%(inv_runnable _ (schedule_inv r Hr)).
    rewrite Hblocked in Hs. simplify_eq. by destruct Hrun.
  - change (filter (λ i, i ≠ c) (ready_queue s)) with (ready_queue r).
    destruct (ready_queue r) as [|next rest] eqn:Hq.
    + rewrite schedule_nil by done. done.
    + destruct (schedule_cons r next rest Hr Hq) as (s' & -> & ? & ? & _ & Hget). simpl.
      split_and!; [done..|]. unfold state_of. rewrite Hget.
      destruct (queue_head_runnable r next rest Hr Hq) as (t & -> & _).
      simpl. unfold promote. by rewrite decide_True.
  - intros i st Hne Hi. apply schedule_keeps_parked; [done|]. by rewrite Hst, decide_False.
Qed.

(** A wake-up is never lost and never duplicated.  Unblocking a blocked
    task makes it ready and puts it once, last, in the queue; unblocking
    anything else (ready, running, terminated, unknown) changes nothing, so a
    second wake-up is harmless. *)
Theorem unblock_task_spec s i :
  sched_reachable s →
  (state_of s i = Some TaskState_Blocked →
     state_of (unblock_task s i) i = Some TaskState_Ready ∧
     ready_queue (unblock_task s i) = ready_queue s ++ [i] ∧ (i ∉ ready_queue s)) ∧
  (state_of s i ≠ Some TaskState_Blocked → unblock_task s i = s) ∧
  unblock_task (unblock_task s i) i = unblock_task s i.
Proof.
  intros Hinv%sched_reachable_inv. split_and!.
  - intros Hb. rewrite state_of_unblock, decide_True by done. split_and!; [done| |].
    + rewrite unblock_task_blocked by done. done.
    + intros (st & Hst & Hr)%(inv_runnable s Hinv). rewrite Hb in Hst. simplify_eq.
      by destruct Hr.
  - apply unblock_task_other.
  - destruct (decide (state_of s i = Some TaskState_Blocked)) as [Hb|Hb].
    + apply unblock_task_other. rewrite state_of_unblock, decide_True by done. congruence.
    + by rewrite !(unblock_task_other s i).
Qed.

(** Every operation leaves each task's identity, context, stack, name and
    capability space alone: only the state field is written. *)
Definition sched_frame (s s' : Scheduler) : Prop :=
  ∀ i t, get_task s i = Some t → ∃ st, get_task s' i = Some (set_state st t).

Lemma sched_frame_refl s : sched_frame s s.
Proof. intros i t Ht. exists (task_state t). by rewrite set_state_same. Qed.

Lemma sched_frame_trans s1 s2 s3 : sched_frame s1 s2 → sched_frame s2 s3 → sched_frame s1 s3.
Proof. intros H12 H23 i t [st Ht]%H12. apply H23 in Ht as [st' Ht]. by exists st'. Qed.

Lemma sched_frame_set s i st c q :
  sched_frame s (mkScheduler (TaskList_get_mut (sched_tasks s) i (set_state st)) c q).
Proof.
  intros j t Ht. unfold get_task in *. simpl. destruct (decide (j = i)) as [->|Hj].
  - rewrite TaskList_get_get_mut by apply _. rewrite Ht. by exists st.
  - rewrite TaskList_get_get_mut_ne by (apply _ || done).
    exists (task_state t). by rewrite set_state_same.
Qed.

Lemma sched_frame_schedule s : sched_inv s → sched_frame s (schedule s).1.
Proof.
  intros Hinv. destruct (ready_queue s) as [|next rest] eqn:Hq.
  { rewrite schedule_nil by done. apply sched_frame_refl. }
  destruct (schedule_cons s next rest Hinv Hq) as (s' & -> & _ & _ & _ & Hget).
  intros i t Ht. simpl. rewrite Hget, Ht. by eexists.
Qed.

#[export] Hint Resolve sched_frame_refl sched_frame_set sched_frame_schedule : jericho.

Lemma sched_frame_retire_schedule s c st cur :
  sched_inv s → current_task s = Some c → retires s st cur →
  sched_frame s (schedule (retire s c st cur)).1.
Proof.
  intros. eapply sched_frame_trans; [apply sched_frame_set|].
  by apply sched_frame_schedule, retire_inv.
Qed.

(** Scheduling never touches a security context or a saved register file:
    along any execution a task keeps its identity, context, stack, priority,
    name and capability space. *)
Theorem scheduling_frame s s' i t :
  sched_reachable s → rtc sched_step s s' → get_task s i = Some t →
  ∃ st, get_task s' i = Some (set_state st t).
Proof.
  intros Hinv%sched_reachable_inv Hsteps.
  cut (sched_inv s' ∧ sched_frame s s'); [intros [_ H]; apply H|].
  revert Hinv. induction Hsteps as [s|s s1 s' Hstep _ IH]; intros Hinv.
  { split; [done | apply sched_frame_refl]. }
  destruct IH as [? Hf]; [by eapply sched_step_inv|]. split; [done|].
  eapply sched_frame_trans; [|exact Hf]. destruct Hstep as [s t' Hnew _|s|s|s|s j|s].
  - intros j u Hj. unfold get_task, add_task in *. exists (task_state u).
    rewrite set_state_same. pose proof (TaskList_get_add (sched_tasks s) t' j Hnew) as Ha.
    simpl in *. rewrite Ha. case_decide; [congruence|done].
  - auto with jericho.
  - apply sched_frame_schedule, Hinv.
  - unfold block_current. destruct (current_task s) eqn:Hc; [|auto with jericho].
    apply sched_frame_retire_schedule; auto with jericho.
  - destruct (decide (state_of s j = Some TaskState_Blocked)).
    + rewrite unblock_task_blocked by done. auto with jericho.
    + rewrite unblock_task_other by done. auto with jericho.
  - unfold terminate_current. destruct (current_task s) eqn:Hc; [|auto with jericho].
    apply sched_frame_retire_schedule; auto with jericho.
Qed.

(** Termination is final.  Once a task is terminated no sequence of
    scheduler operations ever makes it ready, running or queued again. *)
Theorem terminated_is_final s s' i :
  sched_reachable s → rtc sched_step s s' →
  state_of s i = Some TaskState_Terminated →
  state_of s' i = Some TaskState_Terminated ∧ (i ∉ ready_queue s').
Proof.
  intros Hinv%sched_reachable_inv Hsteps Hdead.
  cut (sched_inv s' ∧ state_of s' i = Some TaskState_Terminated).
  { intros [Hinv' Hi]. split; [done|]. intros (st & Hst & Hr)%(inv_runnable s' Hinv').
    rewrite Hi in Hst. simplify_eq. by destruct Hr. }
  revert Hinv Hdead. induction Hsteps as [s|s s1 s' Hstep _ IH]; intros Hinv Hdead; [done|].
  apply IH; [by eapply sched_step_inv|].
  assert (∀ c, current_task s = Some c → c ≠ i) as Hnot_current.
  { intros c Hc ->. apply (inv_current s Hinv) in Hc as (st & ? & ?). congruence. }
  assert (∀ c st cur, current_task s = Some c → retires s st cur →
    state_of (schedule (retire s c st cur)).1 i = Some TaskState_Terminated) as Hretire.
  { intros c st cur Hc Hr. apply schedule_keeps_parked; [by apply retire_inv| |by intros []].
    rewrite state_of_retire by done. case_decide; [|done]. by destruct (Hnot_current c). }
  destruct Hstep as [s t' Hnew _|s|s|s|s j|s].
  - unfold state_of, get_task, add_task in *.
    pose proof (TaskList_get_add (sched_tasks s) t' i Hnew) as Ha.
    simpl in *. rewrite Ha. case_decide; [|done]. subst i. by rewrite Hnew in Hdead.
  - apply schedule_keeps_parked; [done..|]. by intros [].
  - apply schedule_keeps_parked; [done..|]. by intros [].
  - unfold block_current. destruct (current_task s) as [c|] eqn:Hc; [|done].
    apply Hretire; auto with jericho.
  - destruct (decide (state_of s j = Some TaskState_Blocked)) as [Hb|].
    + rewrite state_of_unblock by done. case_decide; [congruence|done].
    + by rewrite unblock_task_other.
  - unfold terminate_current. destruct (current_task s) as [c|] eqn:Hc; [|done].
    apply Hretire; auto with jericho.
Qed.

(** ** A concrete scheduler: two tasks, the first one running *)

Definition sample_task (i : Z) : Task :=
  mkTask (TaskId_new i) TaskState_Ready TaskContext_new 0 CSpace_new Priority_Normal "t".

Definition two_tasks : Scheduler :=
  (schedule (add_task (add_task Scheduler_new (sample_task 1)).1 (sample_task 2)).1).1.

Lemma two_tasks_reachable : sched_reachable two_tasks.
Proof.
  eapply rtc_l; [by apply (step_add _ (sample_task 1))|].
  eapply rtc_l; [by apply (step_add _ (sample_task 2))|].
  apply rtc_once, step_schedule.
Qed.

#[export] Hint Resolve two_tasks_reachable : jericho.

Lemma scheduler_safety_witness : sched_reachable two_tasks ∧ NoDup (ready_queue two_tasks).
Proof.
  split; [apply two_tasks_reachable|]. apply (scheduler_safety two_tasks two_tasks_reachable).
Defined.

Lemma round_robin_cycle_witness :
  sched_reachable two_tasks ∧
  (schedule_n 2 two_tasks).2 = [Some (TaskId_new 2); Some (TaskId_new 1)].
Proof.
  split; [apply two_tasks_reachable|]. apply (round_robin_cycle two_tasks two_tasks_reachable).
Defined.

Lemma bounded_waiting_witness :
  ready_queue two_tasks !! 1%nat = Some (TaskId_new 1) ∧
  current_task (schedule_n 2 two_tasks).1 = Some (TaskId_new 1).
Proof.
  split; [reflexivity|].
  apply (bounded_waiting two_tasks 1 (TaskId_new 1) two_tasks_reachable). reflexivity.
Defined.

Lemma scheduling_frame_witness :
  ∃ st, get_task (block_current two_tasks) (TaskId_new 2) =
    Some (set_state st (sample_task 2)).
Proof.
  apply (scheduling_frame two_tasks (block_current two_tasks) (TaskId_new 2) (sample_task 2)).
  - apply two_tasks_reachable.
  - apply rtc_once, step_block.
  - reflexivity.
Defined.
