(* ===== verification/Switch.v ===== *)
(** * The x86-64 context switch and [task_yield] ([src/src/scheduler.rs])

    An interpreter for the instructions of [switch_context], over the register
    file and word memory, and [task_yield] with the interrupt flag, the lock and
    the decision whether to switch. *)
From stdpp Require Import strings.
From S2P Require Import Prelude Words Capability Task Scheduler.

(** ** The machine *)

Inductive Reg :=
  | RSP | RBP | RAX | RBX | RCX | RDX | RSI | RDI
  | R8 | R9 | R10 | R11 | R12 | R13 | R14 | R15.

(** Registers are numbered in the order of the fields of [TaskContext]. *)
Definition reg_index (r : Reg) : nat :=
  match r with
  | RSP => 0 | RBP => 1 | RAX => 2 | RBX => 3 | RCX => 4 | RDX => 5 | RSI => 6 | RDI => 7
  | R8 => 8 | R9 => 9 | R10 => 10 | R11 => 11 | R12 => 12 | R13 => 13 | R14 => 14 | R15 => 15
  end.

Record X86 := mkX86 { regs : list Z; rflags : Z; rip : Z; x86_mem : gmap Z Z }.

Definition get_reg (c : X86) (r : Reg) : Z := default 0 (regs c !! reg_index r).
Definition set_reg (c : X86) (r : Reg) (v : Z) : X86 :=
  mkX86 (<[reg_index r := v]> (regs c)) (rflags c) (rip c) (x86_mem c).
Definition set_x86_mem (c : X86) (m : gmap Z Z) : X86 := mkX86 (regs c) (rflags c) (rip c) m.

Inductive Instr :=
  | MovStore (base : Reg) (off : Z) (src : Reg)   (* mov [base + off], src *)
  | MovLoad (dst base : Reg) (off : Z)            (* mov dst, [base + off] *)
  | Mov (dst src : Reg)                           (* mov dst, src *)
  | Lea (dst : Reg) (label : Z)                   (* lea dst, [rip + label] *)
  | Push (r : Reg)
  | PushMem (base : Reg) (off : Z)                (* push qword ptr [base + off] *)
  | Pop (r : Reg)
  | Pushfq
  | Popfq
  | Ret.

Definition push (c : X86) (v : Z) : X86 :=
  let sp := addr_add (get_reg c RSP) (-8) in
  set_x86_mem (set_reg c RSP sp) (store (x86_mem c) sp 0 v).
Definition top (c : X86) : Z := load (x86_mem c) (get_reg c RSP) 0.
Definition drop_top (c : X86) : X86 := set_reg c RSP (addr_add (get_reg c RSP) 8).

Definition exec_instr (c : X86) (i : Instr) : X86 :=
  match i with
  | MovStore base off src =>
      set_x86_mem c (store (x86_mem c) (get_reg c base) off (get_reg c src))
  | MovLoad dst base off => set_reg c dst (load (x86_mem c) (get_reg c base) off)
  | Mov dst src => set_reg c dst (get_reg c src)
  | Lea dst label => set_reg c dst label
  | Push r => push c (get_reg c r)
  | PushMem base off => push c (load (x86_mem c) (get_reg c base) off)
  | Pop r => set_reg (drop_top c) r (top c)
  | Pushfq => push c (rflags c)
  | Popfq => let v := top c in mkX86 (regs (drop_top c)) v (rip c) (x86_mem c)
  | Ret => let v := top c in mkX86 (regs (drop_top c)) (rflags c) v (x86_mem c)
  end.

Definition run (c : X86) (code : list Instr) : X86 := foldl exec_instr c code.

(** ** [switch_context] *)

Definition switch_save (label : Z) : list Instr :=
  [ MovStore RDI 0 RSP;
    MovStore RDI 8 RBP;
    MovStore RDI 16 RAX;
    MovStore RDI 24 RBX;
    MovStore RDI 32 RCX;
    MovStore RDI 40 RDX;
    MovStore RDI 48 RSI;
    MovStore RDI 56 RDI;
    MovStore RDI 64 R8;
    MovStore RDI 72 R9;
    MovStore RDI 80 R10;
    MovStore RDI 88 R11;
    MovStore RDI 96 R12;
    MovStore RDI 104 R13;
    MovStore RDI 112 R14;
    MovStore RDI 120 R15;
    Pushfq;
    Pop RAX;
    MovStore RDI 128 RAX;
    Lea RAX label;
    MovStore RDI 136 RAX ].

Definition switch_restore : list Instr :=
  [ MovLoad RSP RSI 0;
    MovLoad RBP RSI 8;
    MovLoad RAX RSI 16;
    MovLoad RBX RSI 24;
    MovLoad RCX RSI 32;
    MovLoad RDX RSI 40;
    MovLoad R8 RSI 64;
    MovLoad R9 RSI 72;
    MovLoad R10 RSI 80;
    MovLoad R11 RSI 88;
    MovLoad R12 RSI 96;
    MovLoad R13 RSI 104;
    MovLoad R14 RSI 112;
    MovLoad R15 RSI 120;
    MovLoad RDI RSI 128;
    Push RDI;
    Popfq;
    MovLoad RDI RSI 56;
    MovLoad RAX RSI 48;
    PushMem RSI 136;
    Mov RSI RAX;
    Ret ].

(** The [asm!] block; [label] is the address of its label [2:]. *)
Definition switch_context (label : Z) (c : X86) (old_context new_context : Z) : X86 :=
  run (set_reg (set_reg c RDI old_context) RSI new_context) (switch_save label ++ switch_restore).

(** The eighteen words of a [repr(C)] [TaskContext]. *)
Definition context_words (t : TaskContext) : list Z :=
  [ ctx_rsp t; ctx_rbp t; ctx_rax t; ctx_rbx t; ctx_rcx t; ctx_rdx t; ctx_rsi t; ctx_rdi t;
    ctx_r8 t; ctx_r9 t; ctx_r10 t; ctx_r11 t; ctx_r12 t; ctx_r13 t; ctx_r14 t; ctx_r15 t;
    ctx_rflags t; ctx_rip t ].

(** ** [task_yield] *)

(** What [task_yield] does before and after the assembly: the scheduler it
    leaves, the contexts it switches between, the interrupt flag at that
    point, and the flag when it returns. *)
Record Yield := mkYield {
  y_scheduler : option Scheduler;
  y_switch : option (TaskId * TaskId);
  y_if_switching : bool;
  y_if_returning : bool
}.

(** [locked]: somebody holds [SCHEDULER]; [interrupt_flag]: IF on entry. *)
Definition task_yield (locked interrupt_flag : bool) (guard : option Scheduler) : outcome Yield :=
  let interrupts_enabled := interrupt_flag in
  let flag := false in
  let restored := if interrupts_enabled then true else flag in
  if locked then Hang
  else match guard with
  | None => Ok (mkYield None None flag restored)
  | Some scheduler =>
      match current_task scheduler with
      | None => Ok (mkYield (Some scheduler) None flag restored)
      | Some old_id =>
          match schedule scheduler with
          | (scheduler, None) => Ok (mkYield (Some scheduler) None flag restored)
          | (scheduler, Some new_id) =>
              if decide (old_id = new_id) then
                Ok (mkYield (Some scheduler) None flag restored)
              else
                _ ← unwrap (get_task scheduler old_id);
                _ ← unwrap (get_task scheduler new_id);
                Ok (mkYield (Some scheduler) (Some (old_id, new_id)) flag restored)
          end
      end
  end.

(** [terminate_current_task], up to its final [hlt] loop. *)
Definition terminate_current_task (locked : bool) (guard : option Scheduler)
    : outcome (option Scheduler) :=
  if locked then Hang else Ok (terminate_current <$> guard).

(** ** Running the code *)

Lemma list_16 (l : list Z) : length l = 16%nat → ∃ f : nat → Z, l = f <$> seq 0 16.
Proof.
  intros Hl. exists (λ n, default 0 (l !! n)). apply list_eq. intros i. rewrite list_lookup_fmap.
  destruct (decide (i < 16)%nat).
  - rewrite lookup_seq_lt by done. simpl.
    destruct (lookup_lt_is_Some_2 l i) as [v ->]; [lia|done].
  - rewrite lookup_seq_ge by lia. apply lookup_ge_None. lia.
Qed.

Ltac run_code := cbv -[addr_add store load].

Lemma push_pop sp : in_u 64 sp → addr_add (addr_add sp (-8)) 8 = sp.
Proof. intros. rewrite addr_add_add. by apply addr_add_0. Qed.

(** The word just below a stack pointer, as an absolute address. *)
Definition below (sp : Z) : Z := addr_add sp (-8).

(** The memory after the save: sixteen registers, the scratch word of [pushfq],
    then flags and resumption address. *)
Definition saved_mem (m : gmap Z Z) (old sp fl label : Z) (rs : list Z) : gmap Z Z :=
  store_words_from 16 (store (store_words m old rs) (below sp) 0 fl) old [fl; label].

Lemma save_run c label :
  length (regs c) = 16%nat → in_u 64 (get_reg c RSP) →
  run c (switch_save label) =
    mkX86 (<[reg_index RAX := label]> (regs c)) (rflags c) (rip c)
      (saved_mem (x86_mem c) (get_reg c RDI) (get_reg c RSP) (rflags c) label (regs c)).
Proof.
  destruct c as [rs fl ip m]. cbn [regs]. intros [f ->]%list_16 Hsp.
  change (get_reg _ RSP) with (f 0%nat) in *. run_code.
  rewrite load_store_same, (push_pop (f 0%nat) Hsp). reflexivity.
Qed.

(** Reading a context, word by word. *)
Definition word (m : gmap Z Z) (ctx k : Z) : Z := load m ctx (8 * k).

Definition restored_regs (m : gmap Z Z) (ctx : Z) : list Z :=
  word m ctx <$> [0; 1; 6; 3; 4; 5; 6; 7; 8; 9; 10; 11; 12; 13; 14; 15].

Definition outside (ctx a : Z) : Prop := ∀ k, 0 ≤ k < 18 → addr_add ctx (8 * k) ≠ addr_add a 0.

Lemma restore_run c :
  length (regs c) = 16%nat →
  let m := x86_mem c in let ctx := get_reg c RSI in
  in_u 64 (word m ctx 0) → outside ctx (below (word m ctx 0)) →
  run c switch_restore =
    mkX86 (restored_regs m ctx) (word m ctx 16) (word m ctx 17)
      (store (store m (below (word m ctx 0)) 0 (word m ctx 16)) (below (word m ctx 0)) 0
         (word m ctx 17)).
Proof.
  destruct c as [rs fl ip m]. cbn [regs x86_mem]. intros [f ->]%list_16 Hsp Hout.
  change (get_reg _ RSI) with (f 6%nat) in *.
  unfold outside, word, below, restored_regs in *. run_code.
  change (8 * 0) with 0 in *.
  assert (∀ k, 0 ≤ k < 144 → k mod 8 = 0 →
    addr_add (f 6%nat) k ≠ addr_add (addr_add (load m (f 6%nat) 0) (-8)) 0) as Hne.
  { intros k Hk Hk8. apply Z.mod_divide in Hk8 as [j ->]; [|done].
    rewrite (Z.mul_comm j). apply Hout. lia. }
  rewrite !(push_pop (load m (f 6%nat) 0) Hsp). rewrite !load_store_same.
  rewrite !load_store_other by (apply Hne; [lia|reflexivity]). reflexivity.
Qed.

Definition apart_contexts (p q : Z) : Prop :=
  ∀ i j, 0 ≤ i < 18 → 0 ≤ j < 18 → addr_add p (8 * i) ≠ addr_add q (8 * j).

Lemma saved_mem_other m old sp fl label rs ctx k :
  length rs = 16%nat → apart_contexts ctx old → outside ctx (below sp) → 0 ≤ k < 18 →
  word (saved_mem m old sp fl label rs) ctx k = word m ctx k.
Proof.
  intros Hl Hap Hout Hk. unfold word, saved_mem.
  rewrite load_store_words_frame by (simpl; intros; apply Hap; lia).
  rewrite load_store_other by (by apply Hout).
  unfold store_words. rewrite load_store_words_frame; [done|].
  rewrite Hl. intros j Hj. apply Hap; lia.
Qed.

Lemma saved_mem_words m old sp fl label rs k :
  length rs = 16%nat → outside old (below sp) → (k < 18)%nat →
  word (saved_mem m old sp fl label rs) old (Z.of_nat k) = default 0 ((rs ++ [fl; label]) !! k).
Proof.
  intros Hl Hout Hk. unfold word, saved_mem. destruct (decide (k < 16)%nat) as [H16|H16].
  - rewrite load_store_words_frame.
    2: { simpl. intros j Hj Heq. apply addr_add_inj in Heq; lia. }
    rewrite load_store_other by (apply Hout; lia).
    rewrite load_store_words by (rewrite Hl; done). by rewrite lookup_app_l by lia.
  - rewrite lookup_app_r, Hl by lia.
    replace (Z.of_nat k) with (16 + Z.of_nat (k - 16)) by lia.
    by rewrite load_store_words_from by (simpl; lia).
Qed.

(** No byte of the [n] at [p] is one of the [m] at [q]. *)
Definition bytes_apart (p n q m : Z) : Prop :=
  ∀ i j, 0 ≤ i < n → 0 ≤ j < m → addr_add p i ≠ addr_add q j.

Lemma bytes_apart_contexts p q : bytes_apart p 144 q 144 → apart_contexts p q.
Proof. intros Hap i j Hi Hj. apply Hap; lia. Qed.

Lemma bytes_apart_outside p q : bytes_apart p 144 q 8 → outside p q.
Proof. intros Hap k Hk. apply Hap; lia. Qed.

(** Where the two contexts and the words pushed on the two stacks lie: apart. *)
Record switch_ok (c : X86) (old new : Z) : Prop := {
  sw_regs : length (regs c) = 16%nat;
  sw_sp : in_u 64 (get_reg c RSP);
  sw_new_sp : in_u 64 (word (x86_mem c) new 0);
  sw_apart : bytes_apart new 144 old 144;
  sw_old_stack : bytes_apart old 144 (below (get_reg c RSP)) 8;
  sw_new_stack : bytes_apart new 144 (below (get_reg c RSP)) 8;
  sw_old_top : bytes_apart old 144 (below (word (x86_mem c) new 0)) 8;
  sw_new_top : bytes_apart new 144 (below (word (x86_mem c) new 0)) 8
}.

(** The register file as [switch_context] finds it: its arguments in place. *)
Definition entry_regs (c : X86) (old new : Z) : list Z :=
  regs (set_reg (set_reg c RDI old) RSI new).

Lemma length_entry_regs c old new : length (regs c) = 16%nat → length (entry_regs c old new) = 16%nat.
Proof. intros Hl. unfold entry_regs, set_reg. cbn [regs]. by rewrite !length_insert. Qed.

(** A third context that a switch leaves alone: apart from the one it saves to and
    from the words it pushes. *)
Record undisturbed (c : X86) (old new p : Z) : Prop := {
  un_old : bytes_apart p 144 old 144;
  un_stack : bytes_apart p 144 (below (get_reg c RSP)) 8;
  un_top : bytes_apart p 144 (below (word (x86_mem c) new 0)) 8
}.

Lemma switch_run_frame label c old new :
  switch_ok c old new →
  let c' := switch_context label c old new in
  regs c' = restored_regs (x86_mem c) new ∧ rflags c' = word (x86_mem c) new 16 ∧
  rip c' = word (x86_mem c) new 17 ∧
  (∀ k, (k < 18)%nat → word (x86_mem c') old (Z.of_nat k) =
    default 0 ((entry_regs c old new ++ [rflags c; label]) !! k)) ∧
  ∀ p k, undisturbed c old new p → 0 ≤ k < 18 → word (x86_mem c') p k = word (x86_mem c) p k.
Proof.
  intros [Hl Hsp Hsp' Hap%bytes_apart_contexts Ho1%bytes_apart_outside Ho2%bytes_apart_outside
    Ho3%bytes_apart_outside Ho4%bytes_apart_outside] c'.
  set (c0 := set_reg (set_reg c RDI old) RSI new).
  assert (length (regs c0) = 16%nat) as Hl0 by (by apply length_entry_regs).
  assert (get_reg c0 RSP = get_reg c RSP ∧ get_reg c0 RDI = old) as [Hsp0 Hdi].
  { unfold get_reg, c0, set_reg. cbn [regs reg_index]. split.
    - by rewrite !list_lookup_insert_ne by done.
    - rewrite list_lookup_insert_ne, list_lookup_insert_eq by (done || lia). done. }
  set (m1 := saved_mem (x86_mem c) old (get_reg c RSP) (rflags c) label (regs c0)).
  assert (run c0 (switch_save label) =
    mkX86 (<[reg_index RAX := label]> (regs c0)) (rflags c) (rip c) m1) as Hsave.
  { rewrite save_run, Hsp0, Hdi by (rewrite ?Hsp0; done). reflexivity. }
  assert (∀ k, 0 ≤ k < 18 → word m1 new k = word (x86_mem c) new k) as Hnew.
  { intros k Hk. by apply saved_mem_other. }
  set (c1 := mkX86 (<[reg_index RAX := label]> (regs c0)) (rflags c) (rip c) m1) in *.
  assert (get_reg c1 RSI = new) as Hsi.
  { unfold get_reg, c1, c0, set_reg. cbn [regs reg_index].
    rewrite list_lookup_insert_ne, list_lookup_insert_eq by (rewrite ?length_insert; lia). done. }
  pose proof (restore_run c1) as Hrest. rewrite Hsi in Hrest. cbn [x86_mem c1] in Hrest.
  rewrite (Hnew 0), (Hnew 16), (Hnew 17) in Hrest by lia.
  assert (restored_regs m1 new = restored_regs (x86_mem c) new) as Hregs.
  { unfold restored_regs. apply map_ext_in. intros k Hk. apply Hnew. simpl in Hk. lia. }
  rewrite Hregs in Hrest.
  specialize (Hrest ltac:(unfold c1; cbn [regs]; rewrite length_insert; done) Hsp' Ho4).
  assert (c' = run c1 switch_restore) as ->.
  { unfold c', switch_context. fold c0. unfold run at 1. rewrite foldl_app. fold (run c0 (switch_save label)).
    by rewrite Hsave. }
  rewrite Hrest. cbn [regs rflags rip x86_mem]. split_and!; [done..| |].
  - intros k Hk. unfold word at 1. rewrite !load_store_other by (apply Ho3; lia).
    apply saved_mem_words; [done|done|done].
  - intros p k [Hp1%bytes_apart_contexts Hp2%bytes_apart_outside Hp3%bytes_apart_outside] Hk.
    unfold word at 1. rewrite !load_store_other by (apply Hp3; lia). by apply saved_mem_other.
Qed.

Lemma switch_run label c old new :
  switch_ok c old new →
  let c' := switch_context label c old new in
  regs c' = restored_regs (x86_mem c) new ∧ rflags c' = word (x86_mem c) new 16 ∧
  rip c' = word (x86_mem c) new 17 ∧
  ∀ k, (k < 18)%nat → word (x86_mem c') old (Z.of_nat k) =
    default 0 ((entry_regs c old new ++ [rflags c; label]) !! k).
Proof.
  intros Hsw c'. destruct (switch_run_frame label c old new Hsw) as (? & ? & ? & ? & _). done.
Qed.


(** [task_yield] while task [o] is current. *)
Lemma schedule_switch s o flag :
  sched_inv s → current_task s = Some o →
  ∃ y, task_yield false flag (Some s) = Ok y ∧ y_scheduler y = Some (schedule s).1 ∧
    y_if_switching y = false ∧ y_if_returning y = flag ∧
    y_switch y = match ready_queue s with
                 | [] => None
                 | m :: _ => if decide (o = m) then None else Some (o, m)
                 end.
Proof.
  intros Hinv Hc. unfold task_yield. rewrite Hc.
  assert ((if flag then true else false) = flag) as -> by (by destruct flag).
  destruct (ready_queue s) as [|next rest] eqn:Hq.
  { rewrite schedule_nil by done. by eexists. }
  destruct (schedule_cons s next rest Hinv Hq) as (s' & -> & _ & _ & _ & Hget).
  case_decide as Heq; [by eexists|].
  apply (inv_current s Hinv) in Hc as (st & (t & Ht & _)%state_of_Some & _).
  destruct (queue_head_runnable s next rest Hinv Hq) as (t' & Ht' & _).
  rewrite !Hget, Ht, Ht'. simpl. by eexists.
Qed.

(** The registers after the first switch to a new task. *)
Lemma fresh_switch_run `{Build} NEXT_ID stack wrapper name entry prio t n label c old new :
  Task_new NEXT_ID stack wrapper name entry prio = Ok (n, t) →
  in_u 64 (stack + TASK_STACK_SIZE) → switch_ok c old new →
  load_words (x86_mem c) new 18 = context_words (task_context t) →
  let c' := switch_context label c old new in
  rip c' = wrapper ∧ get_reg c' RDI = entry ∧ get_reg c' RSP = stack + TASK_STACK_SIZE ∧
  Z.testbit (rflags c') 9 = true ∧ length (regs c') = 16%nat.
Proof.
  intros Ht Hfit Hsw Hwords c'. unfold Task_new in Ht. rewrite add_u_fits in Ht by done.
  injection Ht as <- <-.
  destruct (switch_run label c old new Hsw) as (Hregs & Hfl & Hip & _). fold c' in Hregs, Hfl, Hip.
  assert (∀ k, 0 ≤ k < 18 → Some (word (x86_mem c) new k) =
    load_words (x86_mem c) new 18 !! Z.to_nat k) as Hk.
  { intros k Hk. by rewrite load_words_lookup. }
  rewrite Hwords in Hk.
  pose proof (Hk 0 ltac:(lia)) as K0. pose proof (Hk 7 ltac:(lia)) as K7.
  pose proof (Hk 16 ltac:(lia)) as K16. pose proof (Hk 17 ltac:(lia)) as K17.
  injection K0 as K0. injection K7 as K7. injection K16 as K16. injection K17 as K17.
  unfold get_reg. rewrite Hregs, Hfl, Hip, K16, K17. split_and!; [done|exact K7|exact K0|done|done].
Qed.

(** What can happen while a task is switched out, its context at [a]: tasks
    run, whose code does not write into that context, and [switch_context] goes from one
    of them to the next. *)
Inductive meanwhile (a : Z) : X86 → X86 → Prop :=
  | mw_task c c' :
      (∀ k, 0 ≤ k < 18 → word (x86_mem c') a k = word (x86_mem c) a k) → meanwhile a c c'
  | mw_switch label c old new :
      switch_ok c old new → undisturbed c old new a →
      meanwhile a c (switch_context label c old new)
  | mw_trans c1 c2 c3 : meanwhile a c1 c2 → meanwhile a c2 c3 → meanwhile a c1 c3.

Lemma meanwhile_keeps a c c' :
  meanwhile a c c' → ∀ k, 0 ≤ k < 18 → word (x86_mem c') a k = word (x86_mem c) a k.
Proof.
  induction 1 as [c c' Hk|label c old new Hsw Hun|c1 c2 c3 _ IH1 _ IH2]; intros k Hk'; [by apply Hk| |].
  - destruct (switch_run_frame label c old new Hsw) as (_ & _ & _ & _ & Hframe). by apply Hframe.
  - by rewrite IH2, IH1.
Qed.

(** ** What the component promises *)

(** C21: a task that is switched away from resumes exactly where it stopped.  If
    [switch_context] saves a task and later, after any number of other tasks have run and
    been switched between, switches back to it, then every register the task had,
    its stack pointer and its flags are back and execution continues after the
    assembly block.  The one exception is rax, which comes back holding the saved
    rsi. *)
Theorem switch_context_roundtrip label c a b label' c2 old2 :
  switch_ok c a b →
  let c1 := switch_context label c a b in
  switch_ok c2 old2 a →
  meanwhile a c1 c2 →
  let c3 := switch_context label' c2 old2 a in
  regs c3 = <[reg_index RAX := b]> (entry_regs c a b) ∧ rflags c3 = rflags c ∧ rip c3 = label.
Proof.
  intros Hsw c1 Hsw2 Hmw c3. pose proof (meanwhile_keeps a c1 c2 Hmw) as Hmem.
  destruct (switch_run label c a b Hsw) as (_ & _ & _ & Hsaved). fold c1 in Hsaved.
  destruct (switch_run label' c2 old2 a Hsw2) as (Hregs & Hfl & Hip & _). fold c3 in Hregs, Hfl, Hip.
  pose proof (length_entry_regs c a b (sw_regs _ _ _ Hsw)) as Hlen.
  assert (∀ k, 0 ≤ k < 18 → word (x86_mem c2) a k =
    default 0 ((entry_regs c a b ++ [rflags c; label]) !! Z.to_nat k)) as Hk.
  { intros k Hk. rewrite Hmem by lia. rewrite <- Hsaved by lia. f_equal. lia. }
  assert (entry_regs c a b !! 6%nat = Some b) as Hrsi.
  { unfold entry_regs, set_reg. cbn [regs reg_index].
    apply list_lookup_insert_eq. rewrite length_insert, (sw_regs _ _ _ Hsw). lia. }
  rewrite Hregs, Hfl, Hip. split_and!.
  - apply list_16 in Hlen as [f Hf]. rewrite Hf in *. injection Hrsi as Hrsi.
    unfold restored_regs. cbn [fmap list_fmap]. rewrite !Hk by lia. rewrite <- Hrsi. reflexivity.
  - rewrite (Hk 16) by lia. rewrite lookup_app_r, Hlen by lia. done.
  - rewrite (Hk 17) by lia. rewrite lookup_app_r, Hlen by lia. done.
Qed.

(** The first switch to a task created by [Task::new] enters
    [task_entry_wrapper] with the entry point in rdi, on the top of the task's
    own stack, with interrupts enabled. *)
Theorem switch_to_fresh_task `{Build} NEXT_ID stack wrapper name entry prio t n label c old new :
  Task_new NEXT_ID stack wrapper name entry prio = Ok (n, t) →
  in_u 64 (stack + TASK_STACK_SIZE) → switch_ok c old new →
  load_words (x86_mem c) new 18 = context_words (task_context t) →
  let c' := switch_context label c old new in
  rip c' = wrapper ∧ get_reg c' RDI = entry ∧ get_reg c' RSP = stack + TASK_STACK_SIZE ∧
  Z.testbit (rflags c') 9 = true.
Proof.
  intros Ht Hfit Hsw Hwords c'.
  destruct (fresh_switch_run NEXT_ID stack wrapper name entry prio t n label c old new Ht Hfit Hsw Hwords)
    as (? & ? & ? & ? & _). done.
Qed.

(** C25: [task_yield] under the scheduler's invariant.  It never panics; it runs
    [schedule] exactly once when a task is current; it switches exactly when
    another task was picked, with interrupts off; and on every path it returns
    with the interrupt flag it was called with.  With the lock held by the
    interrupted code it spins forever. *)
Theorem task_yield_spec s flag :
  sched_reachable s →
  (∃ y, task_yield false flag (Some s) = Ok y ∧
     y_if_switching y = false ∧ y_if_returning y = flag ∧
     y_scheduler y = Some (match current_task s with Some _ => (schedule s).1 | None => s end) ∧
     ∀ o n, y_switch y = Some (o, n) ↔
       current_task s = Some o ∧ (schedule s).2 = Some n ∧ o ≠ n) ∧
  task_yield true flag (Some s) = Hang.
Proof.
  intros Hinv%sched_reachable_inv. split; [|done].
  destruct (current_task s) as [old|] eqn:Hc.
  2: { unfold task_yield. rewrite Hc. eexists. split_and!; [done|done|by destruct flag|done|].
    intros o n. split; [done|]. by intros [? _]. }
  destruct (schedule_switch s old flag Hinv Hc) as (y & Hy & Hs & Hf & Hr & Hsw).
  exists y. split_and!; [done..|]. intros o n. rewrite Hsw.
  destruct (ready_queue s) as [|next rest] eqn:Hq.
  { rewrite schedule_nil by done. split; [done|]. by intros (_ & ? & _). }
  destruct (schedule_cons s next rest Hinv Hq) as (s' & -> & _). simpl. case_decide; naive_solver.
Qed.

(** ** A concrete run: contexts at 0x1000, 0x2000 and 0x3000, stacks at 0x8000, 0x9000 and 0xa000 *)

Lemma switch_ok_at c old new sp sp' :
  length (regs c) = 16%nat → get_reg c RSP = sp → word (x86_mem c) new 0 = sp' →
  in_u 64 sp → in_u 64 sp' → bytes_apart new 144 old 144 →
  bytes_apart old 144 (below sp) 8 → bytes_apart new 144 (below sp) 8 →
  bytes_apart old 144 (below sp') 8 → bytes_apart new 144 (below sp') 8 →
  switch_ok c old new.
Proof. intros Hl <- <-. by split. Qed.

Lemma undisturbed_at c old new p sp sp' :
  get_reg c RSP = sp → word (x86_mem c) new 0 = sp' → bytes_apart p 144 old 144 →
  bytes_apart p 144 (below sp) 8 → bytes_apart p 144 (below sp') 8 →
  undisturbed c old new p.
Proof. intros <- <-. by split. Qed.

(** Side conditions of a concrete switch: the values by evaluation, the ranges by
    arithmetic. *)
Ltac solve_apart :=
  let i := fresh in let j := fresh in
  intros i j ? ?; unfold addr_add, wrap; rewrite !Z.mod_small by lia; lia.

Ltac solve_switch :=
  repeat match goal with |- context [below ?a] =>
    let v := eval vm_compute in (below a) in change (below a) with v end;
  match goal with
  | |- bytes_apart _ _ _ _ => solve_apart
  | |- in_u _ _ => done
  | |- _ => vm_compute; reflexivity
  end.

Definition sample_machine : X86 :=
  mkX86 (<[reg_index RSP := 0x8000]> (Z.of_nat <$> seq 100 16)) 0x202 0x400000
    (store_words (store_words ∅ 0x3000 (<[0%nat := 0xa000]> (Z.of_nat <$> seq 300 18)))
      0x2000 (<[0%nat := 0x9000]> (Z.of_nat <$> seq 200 18))).

Definition sample_switched : X86 := switch_context 0x401000 sample_machine 0x1000 0x2000.

(** A third task in between. *)
Definition sample_third : X86 := switch_context 0x403000 sample_switched 0x2000 0x3000.

Lemma sample_switch_ok : switch_ok sample_machine 0x1000 0x2000.
Proof. apply (switch_ok_at _ _ _ 0x8000 0x9000); solve_switch. Qed.

Lemma sample_third_ok : switch_ok sample_switched 0x2000 0x3000.
Proof. apply (switch_ok_at _ _ _ 0x9000 0xa000); solve_switch. Qed.

Lemma sample_undisturbed : undisturbed sample_switched 0x2000 0x3000 0x1000.
Proof. apply (undisturbed_at _ _ _ _ 0x9000 0xa000); solve_switch. Qed.

Lemma sample_switch_back_ok : switch_ok sample_third 0x3000 0x1000.
Proof. apply (switch_ok_at _ _ _ 0xa000 0x8000); solve_switch. Qed.

Lemma sample_meanwhile : meanwhile 0x1000 sample_switched sample_third.
Proof. unfold sample_third. exact (mw_switch _ _ _ _ _ sample_third_ok sample_undisturbed). Qed.

Lemma switch_context_roundtrip_witness :
  let c3 := switch_context 0x404000 sample_third 0x3000 0x1000 in
  rip c3 = 0x401000 ∧ rflags c3 = 0x202.
Proof.
  destruct (switch_context_roundtrip 0x401000 sample_machine 0x1000 0x2000 0x404000
    sample_third 0x3000 sample_switch_ok sample_switch_back_ok) as (_ & Hfl & Hip).
  - exact sample_meanwhile.
  - split; [exact Hip|exact Hfl].
Defined.

Definition sample_fresh : TaskContext :=
  mkTaskContext 0x19000 0x19000 0 0 0 0 0 0x500000 0 0 0 0 0 0 0 0 0x200 0x600000.

Definition fresh_machine : X86 :=
  mkX86 (<[reg_index RSP := 0x8000]> (Z.of_nat <$> seq 100 16)) 0x202 0x400000
    (store_words ∅ 0x2000 (context_words sample_fresh)).

Lemma fresh_switch_ok : switch_ok fresh_machine 0x1000 0x2000.
Proof. apply (switch_ok_at _ _ _ 0x8000 0x19000); solve_switch. Qed.

Lemma switch_to_fresh_task_witness :
  let c' := switch_context 0x401000 fresh_machine 0x1000 0x2000 in
  rip c' = 0x600000 ∧ get_reg c' RDI = 0x500000.
Proof.
  destruct (switch_to_fresh_task (H := Dev) 1 0x9000 0x600000 "t" 0x500000 Priority_Normal
    (mkTask (TaskId_new 1) TaskState_Ready sample_fresh 0x9000 CSpace_new Priority_Normal "t") 2
    0x401000 fresh_machine 0x1000 0x2000) as (Hip & Hdi & _).
  - reflexivity.
  - done.
  - apply fresh_switch_ok.
  - vm_compute. reflexivity.
  - split; [exact Hip|exact Hdi].
Defined.

Lemma task_yield_spec_witness :
  sched_reachable two_tasks ∧ task_yield true true (Some two_tasks) = Hang.
Proof.
  split; [apply two_tasks_reachable|]. apply (task_yield_spec two_tasks true two_tasks_reachable).
Defined.
