(* ===== verification/TaskEntry.v ===== *)
(** * Where tasks begin and end on x86-64 ([src/src/scheduler.rs])

    The naked [task_entry_wrapper], which a task's first switch enters, the call
    of the task's entry point, and what happens when that returns. *)
From stdpp Require Import strings.
From S2P Require Import Prelude Words Capability Task Scheduler Switch.

(** ** [task_entry_wrapper] *)

Inductive EntryInstr :=
  | CallReg (r : Reg)     (* call r *)
  | CallSym (f : Z)       (* call f *)
  | Hlt
  | Jmp (target : Z).     (* jmp target, an offset from the first instruction *)

(** The listing, at the offsets of its instructions; [terminate_task] is the
    address of [terminate_current_task]. *)
Definition task_entry_wrapper (terminate_task : Z) : list (Z * EntryInstr) :=
  [ (0, CallReg RDI);
    (2, CallSym terminate_task);
    (7, Hlt);
    (8, Jmp 7) ].

Definition instr_length (i : EntryInstr) : Z :=
  match i with CallReg _ => 2 | CallSym _ => 5 | Hlt => 1 | Jmp _ => 2 end.

Definition set_rip (c : X86) (a : Z) : X86 := mkX86 (regs c) (rflags c) a (x86_mem c).

(** [hlt] goes on with the next instruction after an interrupt. *)
Definition exec_entry (base : Z) (c : X86) (i : EntryInstr) : X86 :=
  let next := addr_add (rip c) (instr_length i) in
  match i with
  | CallReg r => set_rip (push c next) (get_reg c r)
  | CallSym f => set_rip (push c next) f
  | Hlt => set_rip c next
  | Jmp target => set_rip c (addr_add base target)
  end.

(** One step inside the wrapper at [base]; [None] outside of it. *)
Definition step_entry (base terminate_task : Z) (c : X86) : option X86 :=
  exec_entry base c ∘ snd <$>
    find_first (λ e, bool_decide (addr_add base e.1 = rip c)) (task_entry_wrapper terminate_task).

(** A function body that returns: it pops its return address, with the stack
    pointer where it found it; the other registers are its own business. *)
Definition returned_from (c c' : X86) : Prop :=
  get_reg c' RSP = addr_add (get_reg c RSP) 8 ∧ rip c' = load (x86_mem c) (get_reg c RSP) 0.

(** ** Running the wrapper *)

Lemma small_offset base i j : 0 ≤ i < 16 → 0 ≤ j < 16 → i ≠ j → addr_add base i ≠ addr_add base j.
Proof. intros Hi Hj Hne Heq%addr_add_inj; lia. Qed.

Lemma step_entry_at base terminate_task c off i :
  (off, i) ∈ task_entry_wrapper terminate_task → rip c = addr_add base off →
  step_entry base terminate_task c = Some (exec_entry base c i).
Proof.
  intros Hin Hrip. unfold step_entry, task_entry_wrapper in *. rewrite Hrip. cbn [find_first fst].
  rewrite !elem_of_cons in Hin.
  destruct Hin as [[= -> ->]|[[= -> ->]|[[= -> ->]|[[= -> ->]|[]%not_elem_of_nil]]]];
    repeat (rewrite bool_decide_false by (apply small_offset; lia)); by rewrite bool_decide_true.
Qed.

Section entry.
Context (base terminate_task : Z).

(** The call of the entry point, from the first instruction. *)
Lemma step_call c :
  rip c = addr_add base 0 → length (regs c) = 16%nat →
  ∃ c', step_entry base terminate_task c = Some c' ∧ rip c' = get_reg c RDI ∧
    get_reg c' RSP = below (get_reg c RSP) ∧
    load (x86_mem c') (get_reg c' RSP) 0 = addr_add base 2.
Proof.
  intros Hrip Hl. eexists. split; [apply (step_entry_at _ _ _ 0 (CallReg RDI)); [by left|done]|].
  unfold exec_entry, set_rip, push, set_x86_mem, set_reg, get_reg. cbn [regs rip x86_mem instr_length].
  rewrite list_lookup_insert_eq by (rewrite Hl; simpl; lia). cbn [default].
  split_and!; [done|done|]. rewrite load_store_same, Hrip, addr_add_add. done.
Qed.

(** The call of [terminate_current_task] after the body has returned. *)
Lemma step_terminate c :
  rip c = addr_add base 2 → 
  ∃ c', step_entry base terminate_task c = Some c' ∧ rip c' = terminate_task ∧ regs c' !! reg_index RDI = regs c !! reg_index RDI.
Proof.
  intros Hrip. eexists. split; [apply (step_entry_at _ _ _ 2 (CallSym terminate_task)); [by right; left|done]|].
  split; [done|]. unfold exec_entry, set_rip, push, set_x86_mem, set_reg. cbn [regs].
  by rewrite list_lookup_insert_ne.
Qed.

(** Should that return, the loop is never left. *)
Lemma step_halts c :
  rip c = addr_add base 7 →
  ∃ c1 c2, step_entry base terminate_task c = Some c1 ∧ step_entry base terminate_task c1 = Some c2 ∧
    rip c2 = addr_add base 7 ∧ regs c2 = regs c ∧ x86_mem c2 = x86_mem c.
Proof.
  intros Hrip. eexists. eexists. split; [apply (step_entry_at _ _ _ 7 Hlt); [by do 2 right; left|done]|].
  split; [apply (step_entry_at _ _ _ 8 (Jmp 7)); [by do 3 right; left|]|done].
  cbn [exec_entry set_rip rip instr_length]. by rewrite Hrip, addr_add_add.
Qed.
End entry.

(** ** What the wrapper promises *)

(** C29: a task starts in its entry point and ends in its own termination.  After
    the first switch to a task made by [Task::new], one step of the wrapper
    enters its entry point, one word below the top of its stack, where the
    return address leads back; if the entry point returns, the next step calls
    [terminate_current_task].  The stack is aligned as the calling convention
    asks exactly when the allocator placed it on a 16-byte boundary. *)
Theorem task_runs_and_ends `{Build} NEXT_ID stack base terminate_task name entry prio t n label c old new :
  Task_new NEXT_ID stack (addr_add base 0) name entry prio = Ok (n, t) →
  0 ≤ stack → in_u 64 (stack + TASK_STACK_SIZE) → switch_ok c old new →
  load_words (x86_mem c) new 18 = context_words (task_context t) →
  let c0 := switch_context label c old new in
  ∃ c1, step_entry base terminate_task c0 = Some c1 ∧ rip c1 = entry ∧
    get_reg c1 RSP = stack + TASK_STACK_SIZE - 8 ∧
    (get_reg c1 RSP mod 16 = 8 ↔ stack mod 16 = 0) ∧
    ∀ c2, returned_from c1 c2 →
      get_reg c2 RSP = stack + TASK_STACK_SIZE ∧
      ∃ c3, step_entry base terminate_task c2 = Some c3 ∧ rip c3 = terminate_task.
Proof.
  intros Ht Hpos Hfit Hsw Hwords c0.
  destruct (fresh_switch_run NEXT_ID stack _ name entry prio t n label c old new Ht Hfit Hsw Hwords)
    as (Hip & Hdi & Hsp & _ & Hl). fold c0 in Hip, Hdi, Hsp, Hl.
  destruct (step_call base terminate_task c0 Hip Hl) as (c1 & Hstep & Hrip & Hrsp & Hret).
  assert (get_reg c1 RSP = stack + TASK_STACK_SIZE - 8) as Hsp1.
  { rewrite Hrsp, Hsp. unfold below, addr_add, wrap, in_u, TASK_STACK_SIZE in *. rewrite Z.mod_small; lia. }
  exists c1. split_and!; [done|congruence|done| |].
  - rewrite Hsp1. replace (stack + TASK_STACK_SIZE - 8) with (stack + 8 + 4095 * 16) by (unfold TASK_STACK_SIZE; lia).
    rewrite Z.mod_add by lia. pose proof (Z.div_mod stack 16). pose proof (Z.mod_pos_bound stack 16).
    split; intros Hm; [|rewrite Z.add_mod, Hm by lia; done].
    pose proof (Z.div_mod (stack + 8) 16). lia.
  - intros c2 [Hsp2 Hrip2]. split.
    + rewrite Hsp2, Hsp1. unfold addr_add, wrap, in_u in *. rewrite Z.mod_small; lia.
    + destruct (step_terminate base terminate_task c2) as (c3 & H3 & Hr3 & _); [congruence|]. by exists c3.
Qed.

(** The switches of one [task_yield] after the other, each with interrupts on or
    off when it is called. *)
Fixpoint yield_switches (flags : list bool) (s : Scheduler) : outcome (list (option (TaskId * TaskId))) :=
  match flags with
  | [] => Ok []
  | flag :: flags =>
      y ← task_yield false flag (Some s);
      s ← unwrap (y_scheduler y);
      l ← yield_switches flags s;
      Ok (y_switch y :: l)
  end.

(** A task alone in the queue is handed the core over and over. *)
Lemma alone_never_switches n flags s :
  sched_inv s → current_task s = Some n → ready_queue s = [n] →
  yield_switches flags s = Ok (replicate (length flags) None).
Proof.
  revert s. induction flags as [|flag flags IH]; intros s Hinv Hc Hq; [done|].
  destruct (schedule_switch s n flag Hinv Hc) as (y & Hy & Hs & _ & _ & Hsw).
  destruct (schedule_cons s n [] Hinv Hq) as (s' & Hs' & Hq' & Hc' & _). pose proof (schedule_inv s Hinv) as Hinv'.
  rewrite Hs' in Hs, Hinv'. cbn [fst] in Hs, Hinv'. rewrite Hq, decide_True in Hsw by done.
  cbn [yield_switches length replicate]. rewrite Hy. cbn [mbind outcome_bind]. rewrite Hs.
  cbn [unwrap mbind outcome_bind]. rewrite (IH s') by done. cbn [mbind outcome_bind]. by rewrite Hsw.
Qed.

(** C30: a task that returns takes over another one.  [terminate_current_task]
    schedules, but does not switch: the dead task's loop goes on under the
    identity of the next runnable task [n], which is marked running.  When more
    tasks are runnable, the next [task_yield] saves the loop over the context
    of [n], which is lost.  When [n] is the only one left, no switch ever enters
    it: however many times the timer calls [task_yield] in the loop, which
    itself does nothing but halt, none of these calls switches. *)
Theorem returned_task_usurps s c n rest :
  sched_reachable s → current_task s = Some c → filter (λ i, i ≠ c) (ready_queue s) = n :: rest →
  ∃ s' y, terminate_current_task false (Some s) = Ok (Some s') ∧
    state_of s' c = Some TaskState_Terminated ∧ state_of s' n = Some TaskState_Running ∧
    current_task s' = Some n ∧ task_yield false true (Some s') = Ok y ∧
    y_switch y = match rest with [] => None | m :: _ => Some (n, m) end ∧
    (rest = [] → ∀ flags, yield_switches flags s' = Ok (replicate (length flags) None)).
Proof.
  intros Hinv%sched_reachable_inv Hc Hq. set (s1 := retire s c TaskState_Terminated None).
  assert (sched_inv s1) as Hinv1 by (apply retire_inv; auto with jericho).
  destruct (schedule_cons s1 n rest Hinv1 Hq) as (s' & Hs & Hq' & Hc' & _ & Hget).
  assert (sched_inv s') as Hinv' by (pose proof (schedule_inv s1 Hinv1) as Hi; by rewrite Hs in Hi).
  assert (∀ i, state_of s' i = promote n i <$> state_of s1 i) as Hstate.
  { intros i. unfold state_of. rewrite Hget. by destruct (get_task s1 i). }
  assert (c ≠ n) as Hcn.
  { assert (n ∈ filter (λ i, i ≠ c) (ready_queue s)) as Hin by (rewrite Hq; by left).
    apply list_elem_of_filter in Hin. naive_solver. }
  destruct (queue_head_runnable s1 n rest Hinv1 Hq) as (tn & Htn & _).
  destruct (schedule_switch s' n true Hinv' Hc') as (y & Hy & _ & _ & _ & Hsw).
  exists s', y. split_and!; [| | |done|done| |].
  - unfold terminate_current_task, terminate_current. simpl. rewrite Hc. fold s1. by rewrite Hs.
  - rewrite Hstate. unfold s1. rewrite state_of_retire, decide_True by done. simpl. unfold promote.
    by rewrite !decide_False.
  - rewrite Hstate. unfold state_of. rewrite Htn. simpl. unfold promote. by rewrite decide_True.
  - rewrite Hsw, Hq'. destruct rest as [|m rest']; simpl; [by rewrite decide_True|].
    rewrite decide_False; [done|]. intros <-. pose proof (inv_queue s1 Hinv1) as Hnd.
    change (ready_queue s1) with (filter (λ i, i ≠ c) (ready_queue s)) in Hnd. rewrite Hq in Hnd.
    apply NoDup_cons in Hnd as [Hnd _]. apply Hnd. by left.
  - intros -> flags. by apply (alone_never_switches n).
Qed.

(** ** Concrete runs *)

Lemma task_runs_and_ends_witness :
  ∃ c1, step_entry 0x600000 0x700000 (switch_context 0x401000 fresh_machine 0x1000 0x2000) = Some c1 ∧
    rip c1 = 0x500000 ∧ get_reg c1 RSP = 0x18ff8.
Proof.
  destruct (task_runs_and_ends (H := Dev) 1 0x9000 0x600000 0x700000 "t" 0x500000 Priority_Normal
    (mkTask (TaskId_new 1) TaskState_Ready sample_fresh 0x9000 CSpace_new Priority_Normal "t") 2
    0x401000 fresh_machine 0x1000 0x2000) as (c1 & Hstep & Hrip & Hsp & _).
  - reflexivity.
  - lia.
  - done.
  - apply fresh_switch_ok.
  - vm_compute. reflexivity.
  - exists c1. split; [exact Hstep|]. split; [exact Hrip|exact Hsp].
Defined.

Definition three_tasks : Scheduler := (add_task two_tasks (sample_task 3)).1.

Lemma three_tasks_reachable : sched_reachable three_tasks.
Proof. eapply rtc_r; [apply two_tasks_reachable|]. by apply (step_add _ (sample_task 3)). Qed.

Lemma returned_task_usurps_witness :
  (∃ s' y, terminate_current_task false (Some three_tasks) = Ok (Some s') ∧
    task_yield false true (Some s') = Ok y ∧ y_switch y = Some (TaskId_new 2, TaskId_new 3)) ∧
  ∃ s', terminate_current_task false (Some two_tasks) = Ok (Some s') ∧
    yield_switches [true; false; true] s' = Ok [None; None; None].
Proof.
  split.
  - destruct (returned_task_usurps three_tasks (TaskId_new 1) (TaskId_new 2) [TaskId_new 3]
      three_tasks_reachable) as (s' & y & Hs & _ & _ & _ & Hy & Hsw & _).
    + reflexivity.
    + reflexivity.
    + exists s', y. split; [exact Hs|]. split; [exact Hy|exact Hsw].
  - destruct (returned_task_usurps two_tasks (TaskId_new 1) (TaskId_new 2) []
      two_tasks_reachable) as (s' & y & Hs & _ & _ & _ & _ & _ & Halone).
    + reflexivity.
    + reflexivity.
    + exists s'. split; [exact Hs|]. apply (Halone eq_refl [true; false; true]).
Defined.
