(* ===== verification/Interrupts.v ===== *)
(** * The x86-64 timer interrupt ([src/src/interrupts.rs])

    The tick counter, the handler that yields on every tick, and the programming
    of the interval timer.  Interrupt gates enter the handler with interrupts
    off. *)
From stdpp Require Import strings.
From S2P Require Import Prelude Capability Task Scheduler Switch.

Definition PIC_1_OFFSET : Z := 32.
Definition PIC_2_OFFSET : Z := PIC_1_OFFSET + 8.

Inductive InterruptIndex := InterruptIndex_Timer | InterruptIndex_Keyboard.

(** [InterruptIndex::as_u8]: the second variant's discriminant follows the first. *)
Definition as_u8 (i : InterruptIndex) : Z :=
  match i with
  | InterruptIndex_Timer => PIC_1_OFFSET
  | InterruptIndex_Keyboard => PIC_1_OFFSET + 1
  end.

(** What the handlers do to the outside, in order: a context switch, and the end
    of interrupt sent to the interrupt controller for a vector. *)
Inductive IrqEvent := SwitchedTo (new_id : TaskId) | NotifyEndOfInterrupt (vector : Z).

(** [timer_interrupt_handler]; [locked] as for [task_yield].  The events after a
    [SwitchedTo] happen only when the interrupted task is switched back to. *)
Definition timer_interrupt_handler (locked : bool) (TIMER_TICKS : Z) (guard : option Scheduler)
    : outcome (Z * option Scheduler * list IrqEvent) :=
  let ticks := TIMER_TICKS in
  let TIMER_TICKS := wrap 64 (TIMER_TICKS + 1) in
  '(guard, events) ←
    (if 0 <? ticks then
       y ← task_yield locked false guard;
       Ok (y_scheduler y,
           match y_switch y with Some (_, n) => [SwitchedTo n] | None => [] end)
     else Ok (guard, []));
  Ok (TIMER_TICKS, guard, events ++ [NotifyEndOfInterrupt (as_u8 InterruptIndex_Timer)]).

Definition keyboard_interrupt_handler (scancode : Z) : list IrqEvent :=
  [NotifyEndOfInterrupt (as_u8 InterruptIndex_Keyboard)].

(** Port writes of [init_timer], and the interrupt flag it leaves. *)
Definition PIT_FREQUENCY : Z := 1193182.

Definition init_timer (frequency_hz : Z) : outcome (list (Z * Z) * bool) :=
  if decide (frequency_hz = 0) then Panic
  else
    let divisor := PIT_FREQUENCY / frequency_hz in
    Ok ([(0x43, 0x36);
         (0x40, wrap 8 (Z.land divisor 0xFF));
         (0x40, wrap 8 (Z.land (Z.shiftr divisor 8) 0xFF))], true).

(** The reload value the timer takes from the two data bytes. *)
Definition programmed (writes : list (Z * Z)) : Z :=
  match writes with
  | [_; (_, lo); (_, hi)] => lo + 256 * hi
  | _ => 0
  end.

(** ** What the component promises *)

(** One tick, in the form the theorems below share. *)
Lemma timer_interrupt_run ticks s :
  sched_reachable s → in_u 64 ticks →
  ∃ s' events, timer_interrupt_handler false ticks (Some s) =
      Ok (wrap 64 (ticks + 1), Some s', events ++ [NotifyEndOfInterrupt 32]) ∧
    (ticks = 0 ∨ current_task s = None → s' = s ∧ events = []) ∧
    (∀ o, 0 < ticks → current_task s = Some o → s' = (schedule s).1 ∧
       events = match (schedule s).2 with
                | Some n => if decide (o = n) then [] else [SwitchedTo n]
                | None => []
                end).
Proof.
  intros Hinv%sched_reachable_inv Hticks. unfold timer_interrupt_handler, task_yield, in_u in *.
  destruct (0 <? ticks) eqn:Hpos; [apply Z.ltb_lt in Hpos|apply Z.ltb_ge in Hpos].
  2: { exists s, []. split_and!; [done|done|]. intros. lia. }
  destruct (current_task s) as [o|] eqn:Hc.
  2: { exists s, []. by split_and!. }
  assert (∀ s' events, (s' = (schedule s).1 ∧ events = match (schedule s).2 with
      | Some n => if decide (o = n) then [] else [SwitchedTo n] | None => [] end) →
    (ticks = 0 ∨ Some o = None → s' = s ∧ events = []) ∧
    (∀ o', 0 < ticks → Some o = Some o' → s' = (schedule s).1 ∧
       events = match (schedule s).2 with
                | Some n => if decide (o' = n) then [] else [SwitchedTo n] | None => [] end)) as Hfin.
  { intros s' ev Hs. split; [intros [?|?]; [lia|done]|]. by intros o' _ [= <-]. }
  destruct (ready_queue s) as [|next rest] eqn:Hq.
  { rewrite schedule_nil in * by done. exists s, []. split; [done|]. by apply Hfin. }
  destruct (schedule_cons s next rest Hinv Hq) as (s' & Hs & _ & _ & _ & Hget). rewrite Hs in *.
  destruct (decide (o = next)) as [->|Hne]; simpl.
  { exists s', []. split; [done|]. apply Hfin. simpl. by rewrite decide_True. }
  apply (inv_current s Hinv) in Hc as (st & (t & Ht & _)%state_of_Some & _).
  destruct (queue_head_runnable s next rest Hinv Hq) as (t' & Ht' & _).
  rewrite !Hget, Ht, Ht'. simpl. exists s', [SwitchedTo next]. split; [done|]. apply Hfin. simpl. by rewrite decide_False.
Qed.

(** One timer tick.  Under the scheduler's invariant the handler never
    panics; the first tick only counts, every later one runs the round-robin
    scheduler once.  The end of interrupt is sent exactly once, but last: when
    the tick switches to another task, that task starts running before the
    interrupt controller has been told the interrupt is over. *)
Theorem timer_interrupt_spec ticks s :
  sched_reachable s → in_u 64 ticks →
  ∃ s' events, timer_interrupt_handler false ticks (Some s) =
      Ok (wrap 64 (ticks + 1), Some s', events ++ [NotifyEndOfInterrupt 32]) ∧
    (ticks = 0 ∨ current_task s = None → s' = s ∧ events = []) ∧
    (∀ o, 0 < ticks → current_task s = Some o → s' = (schedule s).1 ∧
       events = match (schedule s).2 with
                | Some n => if decide (o = n) then [] else [SwitchedTo n]
                | None => []
                end).
Proof. apply timer_interrupt_run. Qed.

(** The interval timer is programmed as asked from 19 Hz to the base
    frequency: the 16-bit reload value is the whole divisor.  Below 19 Hz the
    divisor does not fit and its upper bits are dropped; 0 Hz panics. *)
Theorem init_timer_spec frequency_hz :
  0 ≤ frequency_hz →
  (frequency_hz = 0 → init_timer frequency_hz = Panic) ∧
  (0 < frequency_hz → ∃ writes, init_timer frequency_hz = Ok (writes, true) ∧
     (19 ≤ frequency_hz → programmed writes = 1193182 / frequency_hz) ∧
     (frequency_hz < 19 → programmed writes = 1193182 / frequency_hz mod 65536 ∧
        programmed writes ≠ 1193182 / frequency_hz)).
Proof.
  intros H0. unfold init_timer. split; [intros ->; done|]. intros Hpos.
  rewrite decide_False by lia. eexists. split; [done|]. cbn [programmed].
  set (d := PIT_FREQUENCY / frequency_hz).
  assert (0 ≤ d) as Hd by (apply Z.div_pos; unfold PIT_FREQUENCY; lia).
  assert (wrap 8 (Z.land d 0xFF) + 256 * wrap 8 (Z.land (Z.shiftr d 8) 0xFF) = d mod 65536) as ->.
  { unfold wrap. change 0xFF with (Z.ones 8). rewrite !Z.land_ones, Z.shiftr_div_pow2 by lia.
    rewrite !Z.mod_mod by lia. change 65536 with (2 ^ 8 * 2 ^ 8).
    rewrite Z.rem_mul_r by lia. done. }
  change 1193182 with PIT_FREQUENCY. fold d. split.
  - intros Hf. apply Z.mod_small. split; [done|]. unfold d, PIT_FREQUENCY.
    apply Z.div_lt_upper_bound; lia.
  - intros Hf. split; [done|]. assert (65536 ≤ d).
    { unfold d, PIT_FREQUENCY. apply Z.div_le_lower_bound; lia. }
    pose proof (Z.mod_pos_bound d 65536). lia.
Qed.

Lemma timer_interrupt_spec_witness :
  ∃ s' events, timer_interrupt_handler false 5 (Some two_tasks) =
      Ok (6, Some s', events ++ [NotifyEndOfInterrupt 32]) ∧
    events = [SwitchedTo (TaskId_new 2)].
Proof.
  destruct (timer_interrupt_spec 5 two_tasks two_tasks_reachable) as (s' & ev & Hrun & _ & Hev);
    [done|]. exists s', ev. split; [exact Hrun|].
  destruct (Hev (TaskId_new 1)) as [_ ->]; [lia|reflexivity|]. reflexivity.
Defined.
