(* ===== verification/Preempt.v ===== *)
(** * Preemption on x86-64 ([src/src/interrupts.rs], [scheduler.rs])

    The timer handler and [task_yield] together with what they rely on outside the
    kernel: the interrupt controller, which holds further ticks back until it is
    told that the last one is over, and the locks a preempted task may hold.  A
    switch leaves the rest of the handler to be done when the task comes back, so
    the end of interrupt can be a long time coming.  The last part looks at the
    instructions of [switch_context] between its [popfq] and its [ret]. *)
From stdpp Require Import strings.
From S2P Require Import Prelude Words Capability Task Scheduler Switch Interrupts.

(** ** The core between interrupts *)

(** The two spin locks tasks take with interrupts on. *)
Inductive TaskLock := SchedulerLock | RegistryLock.

#[global] Instance TaskLock_eq_dec : EqDecision TaskLock.
Proof. solve_decision. Defined.
#[global] Program Instance TaskLock_countable : Countable TaskLock :=
  inj_countable' (λ l, match l with SchedulerLock => true | RegistryLock => false end)
    (λ b, if b then SchedulerLock else RegistryLock) _.
Next Obligation. by intros []. Qed.

(** [pending]: what a task that was switched away from has still to do of the
    handler it was interrupted in; nothing, when it yielded itself.  A task without an
    entry has not run yet.  [in_service]: the controller waits for the end of
    the timer interrupt. *)
Record Core := mkCore {
  core_scheduler : Scheduler;
  core_ticks : Z;
  in_service : bool;
  pending : gmap TaskId (list IrqEvent);
  lock_owner : gmap TaskLock TaskId
}.

Definition timer_eoi : IrqEvent := NotifyEndOfInterrupt (as_u8 InterruptIndex_Timer).
Definition ends_interrupt (e : IrqEvent) : bool :=
  match e with NotifyEndOfInterrupt v => v =? as_u8 InterruptIndex_Timer | SwitchedTo _ => false end.

(** The controller after a stretch of handler code. *)
Definition after_events (events : list IrqEvent) (serving : bool) : bool :=
  serving && negb (existsb ends_interrupt events).

(** Task [o] goes through [events]; a switch in them leaves the rest pending and
    goes on with what is pending for the other task. *)
Definition play (o : TaskId) (events : list IrqEvent) (s : Scheduler) (ticks : Z) (serving : bool)
    (c : Core) : Core :=
  match events with
  | SwitchedTo n :: rest =>
      mkCore s ticks (after_events (default [] (pending c !! n)) serving)
        (<[o := rest]> (delete n (pending c))) (lock_owner c)
  | _ => mkCore s ticks (after_events events serving) (pending c) (lock_owner c)
  end.

Definition is_locked (l : TaskLock) (c : Core) : bool := bool_decide (is_Some (lock_owner c !! l)).

(** A tick, and a task's own call of [task_yield]. *)
Definition core_tick (o : TaskId) (c : Core) : outcome Core :=
  '(ticks, guard, events) ← timer_interrupt_handler (is_locked SchedulerLock c) (core_ticks c)
                              (Some (core_scheduler c));
  s ← unwrap guard;
  Ok (play o events s ticks true c).

Definition core_yield (o : TaskId) (c : Core) : outcome Core :=
  y ← task_yield (is_locked SchedulerLock c) true (Some (core_scheduler c));
  s ← unwrap (y_scheduler y);
  Ok (play o match y_switch y with Some (_, n) => [SwitchedTo n] | None => [] end
        s (core_ticks c) (in_service c) c).

Definition set_owner (l : TaskLock) (o : option TaskId) (c : Core) : Core :=
  mkCore (core_scheduler c) (core_ticks c) (in_service c) (pending c) (partial_alter (λ _, o) l (lock_owner c)).

Definition set_core_scheduler (s : Scheduler) (c : Core) : Core :=
  mkCore s (core_ticks c) (in_service c) (pending c) (lock_owner c).

Inductive Label :=
  | Tick
  | Yield
  | Acquire (l : TaskLock)
  | Release (l : TaskLock)
  | Spawn (t : Task)        (* add_task *)
  | Wake (i : TaskId).      (* unblock_task *)

(** What can happen next while task [o] has the core.  The controller delivers no
    tick while it waits for the end of the last one; a lock that is held is waited
    for by spinning, which is no step.  New tasks come from [Task::new], ready and
    under a new id; [add_task] and [unblock_task] run under the scheduler lock. *)
Inductive core_step : Label → Core → Core → Prop :=
  | step_tick o c c' :
      current_task (core_scheduler c) = Some o → in_service c = false →
      core_tick o c = Ok c' → core_step Tick c c'
  | step_own_yield o c c' :
      current_task (core_scheduler c) = Some o → core_yield o c = Ok c' → core_step Yield c c'
  | step_acquire o l c :
      current_task (core_scheduler c) = Some o → lock_owner c !! l = None →
      core_step (Acquire l) c (set_owner l (Some o) c)
  | step_release o l c :
      current_task (core_scheduler c) = Some o → lock_owner c !! l = Some o →
      core_step (Release l) c (set_owner l None c)
  | step_spawn o t c :
      current_task (core_scheduler c) = Some o → lock_owner c !! SchedulerLock = None →
      get_task (core_scheduler c) (task_id t) = None → task_state t = TaskState_Ready →
      core_step (Spawn t) c (set_core_scheduler (add_task (core_scheduler c) t).1 c)
  | step_wake o i c :
      current_task (core_scheduler c) = Some o → lock_owner c !! SchedulerLock = None →
      core_step (Wake i) c (set_core_scheduler (unblock_task (core_scheduler c) i) c).

Inductive core_run : list Label → Core → Core → Prop :=
  | run_stop c : core_run [] c c
  | run_step l ls c c1 c' : core_step l c c1 → core_run ls c1 c' → core_run (l :: ls) c c'.

Lemma core_run_app ls1 ls2 c c1 c' :
  core_run ls1 c c1 → core_run ls2 c1 c' → core_run (ls1 ++ ls2) c c'.
Proof. induction 1; intros; [done|]. by econstructor; [|auto]. Qed.

Lemma core_run_split ls1 ls2 c c' :
  core_run (ls1 ++ ls2) c c' → ∃ c1, core_run ls1 c c1 ∧ core_run ls2 c1 c'.
Proof.
  revert c. induction ls1 as [|l ls1 IH]; intros c Hrun; [exists c; split; [constructor|done]|].
  inversion_clear Hrun as [|? ? ? c1 ? Hstep Hrest]. apply IH in Hrest as (c2 & H1 & H2).
  exists c2. split; [by econstructor|done].
Qed.

(** A task can also block, in [receive_message_blocking], or end, in
    [terminate_current_task].  Both make another task the current one without
    switching to it: the code that runs goes on under the name, and over the saved
    context, of that other task.  The steps of the core after that are steps in
    that name. *)
Inductive Event := Does (l : Label) | Blocks | Ends.

Inductive core_event : Event → Core → Core → Prop :=
  | event_step l c c' : core_step l c c' → core_event (Does l) c c'
  | event_block o c :
      current_task (core_scheduler c) = Some o → lock_owner c !! SchedulerLock = None →
      core_event Blocks c (set_core_scheduler (block_current (core_scheduler c)) c)
  | event_end o c :
      current_task (core_scheduler c) = Some o → lock_owner c !! SchedulerLock = None →
      core_event Ends c (set_core_scheduler (terminate_current (core_scheduler c)) c).

Inductive core_history : list Event → Core → Core → Prop :=
  | history_stop c : core_history [] c c
  | history_step e es c c1 c' : core_event e c c1 → core_history es c1 c' → core_history (e :: es) c c'.

(** ** One switch *)

(** The schedulers of the core: task [o] runs, and the queue has somebody. *)
Definition hands_over (c : Core) (o n : TaskId) : Prop :=
  sched_inv (core_scheduler c) ∧ current_task (core_scheduler c) = Some o ∧
  head (ready_queue (core_scheduler c)) = Some n ∧ lock_owner c !! SchedulerLock = None.

Lemma hands_over_split c o n :
  hands_over c o n → ∃ rest, ready_queue (core_scheduler c) = n :: rest.
Proof. intros (_ & _ & Hq & _). destruct (ready_queue _) as [|m rest]; simplify_eq/=. by exists rest. Qed.

Lemma hands_over_unlocked c o n : hands_over c o n → is_locked SchedulerLock c = false.
Proof. intros (_ & _ & _ & Hl). unfold is_locked. rewrite Hl. apply bool_decide_false. by intros []. Qed.

(** What a switch to [n] makes of the controller and of the pending work. *)
Definition switched (o n : TaskId) (rest : list IrqEvent) (ticks : Z) (serving : bool) (c : Core) : Core :=
  if decide (o = n) then mkCore (schedule (core_scheduler c)).1 ticks (after_events rest serving) (pending c) (lock_owner c)
  else mkCore (schedule (core_scheduler c)).1 ticks (after_events (default [] (pending c !! n)) serving)
         (<[o := rest]> (delete n (pending c))) (lock_owner c).

Lemma core_yield_run c o n :
  hands_over c o n → core_yield o c = Ok (switched o n [] (core_ticks c) (in_service c) c).
Proof.
  intros Hc. destruct (hands_over_split c o n Hc) as [rest Hq]. unfold core_yield.
  rewrite (hands_over_unlocked c o n Hc). destruct Hc as (Hinv & Hcur & _ & _).
  destruct (schedule_switch _ o true Hinv Hcur) as (y & -> & Hs & _ & _ & Hsw).
  cbn [mbind outcome_bind]. rewrite Hs, Hsw, Hq. cbn [unwrap mbind outcome_bind].
  unfold switched. by case_decide.
Qed.

Lemma core_tick_run c o n :
  hands_over c o n → 0 < core_ticks c →
  core_tick o c = Ok (switched o n [timer_eoi] (wrap 64 (core_ticks c + 1)) true c).
Proof.
  intros Hc Hpos. destruct (hands_over_split c o n Hc) as [rest Hq]. unfold core_tick, timer_interrupt_handler.
  rewrite (hands_over_unlocked c o n Hc). destruct Hc as (Hinv & Hcur & _ & _).
  rewrite (proj2 (Z.ltb_lt _ _)) by done.
  destruct (schedule_switch _ o false Hinv Hcur) as (y & -> & Hs & _ & _ & Hsw).
  cbn [mbind outcome_bind]. rewrite Hs, Hsw, Hq. cbn [unwrap mbind outcome_bind].
  unfold switched. by case_decide.
Qed.

(** The first tick only counts. *)
Lemma core_tick_first c o :
  core_ticks c ≤ 0 →
  core_tick o c = Ok (mkCore (core_scheduler c) (wrap 64 (core_ticks c + 1)) false (pending c) (lock_owner c)).
Proof.
  intros Ht. unfold core_tick, timer_interrupt_handler. by rewrite (proj2 (Z.ltb_ge _ _)).
Qed.

Lemma core_scheduler_switched o n rest ticks serving c :
  core_scheduler (switched o n rest ticks serving c) = (schedule (core_scheduler c)).1 ∧
  lock_owner (switched o n rest ticks serving c) = lock_owner c.
Proof. unfold switched. by case_decide. Qed.

(** ** The stall *)

Lemma current_add_task s t : current_task (add_task s t).1 = current_task s.
Proof. done. Qed.

Lemma current_unblock_task s i : current_task (unblock_task s i) = current_task s.
Proof. unfold unblock_task. destruct (get_task s i) as [t|]; [|done]. by destruct (is_state _ t). Qed.

(** Without a yield nothing but locking goes on in a core whose timer interrupt is
    being served. *)
Lemma stalled_run c n ls c' :
  current_task (core_scheduler c) = Some n → in_service c = true → core_run ls c c' → Yield ∉ ls →
  current_task (core_scheduler c') = Some n ∧ in_service c' = true ∧ (Tick ∉ ls) ∧
  ∀ l o, lock_owner c !! l = Some o → o ≠ n → (Acquire l ∉ ls) ∧ lock_owner c' !! l = Some o.
Proof.
  intros Hcur Hserv Hrun. revert Hcur Hserv.
  induction Hrun as [c|l0 ls c c1 c' Hstep _ IH]; intros Hcur Hserv Hno.
  { split_and!; [done|done|apply not_elem_of_nil|]. intros l o Ho _. split; [apply not_elem_of_nil|done]. }
  apply not_elem_of_cons in Hno as [Hl0 Hno].
  assert (∀ s, current_task s = current_task (core_scheduler c) → c1 = set_core_scheduler s c → l0 ≠ Tick →
    (∀ l, l0 ≠ Acquire l) →
    current_task (core_scheduler c') = Some n ∧ in_service c' = true ∧ (Tick ∉ l0 :: ls) ∧
    ∀ l o, lock_owner c !! l = Some o → o ≠ n → (Acquire l ∉ l0 :: ls) ∧ lock_owner c' !! l = Some o) as Hsame.
  { intros s Hs -> Ht Ha. destruct (IH ltac:(by rewrite <- Hcur) Hserv Hno) as (? & ? & ? & Hlocks).
    split_and!; [done|done|by apply not_elem_of_cons|]. intros l o Hl Hne.
    destruct (Hlocks l o Hl Hne). split; [by apply not_elem_of_cons|done]. }
  destruct Hstep as [o c0 c1 _ Hoff|o c0 c1 _ _|o l c0 Ho Hfree|o l c0 Ho Hown|o t c0 _ _ _ _|o i c0 _ _];
    [congruence|done| | | |].
  3: by eapply Hsame; [apply current_add_task|done..].
  3: by eapply Hsame; [apply current_unblock_task|done..].
  all: clear Hsame; destruct (IH Hcur Hserv Hno) as (Hcur' & Hserv' & Htick & Hlocks).
  all: split_and!; [done|done|by apply not_elem_of_cons|].
  all: intros l' o' Hl' Hne; cbn [lock_owner set_owner] in Hlocks.
  all: destruct (decide (l' = l)) as [->|Hll]; [|specialize (Hlocks l' o')].
  1,3: congruence.
  all: rewrite lookup_partial_alter_ne in Hlocks by done; destruct (Hlocks Hl' Hne) as [Hacq ?].
  all: split; [apply not_elem_of_cons; split; [congruence|done]|done].
Qed.

(** ** The invariant *)

(** The timer interrupt [i] owes: it was switched away from inside the handler. *)
Definition owes (c : Core) (i : TaskId) : Prop :=
  ∃ events, pending c !! i = Some events ∧ existsb ends_interrupt events = true.

(** A core that starts out: one task runs and nothing is pending. *)
Record core_boot (c : Core) : Prop := {
  boot_sched : sched_inv (core_scheduler c);
  boot_current o : current_task (core_scheduler c) = Some o → o ∈ ready_queue (core_scheduler c);
  boot_serving : in_service c = false;
  boot_pending : pending c = ∅
}.

Definition core_reachable (c : Core) : Prop := ∃ c0 ls, core_boot c0 ∧ core_run ls c0 c.

(** Tasks with unfinished handlers are runnable and not the current one; while the
    controller waits, one of them owes the end of the interrupt. *)
Record core_inv (c : Core) : Prop := {
  core_sched : sched_inv (core_scheduler c);
  core_current o : current_task (core_scheduler c) = Some o → o ∈ ready_queue (core_scheduler c);
  core_pending i : is_Some (pending c !! i) →
    i ∈ ready_queue (core_scheduler c) ∧ current_task (core_scheduler c) ≠ Some i;
  core_owed : in_service c = true → ∃ i, owes c i
}.

Lemma owes_pending c i : owes c i → is_Some (pending c !! i).
Proof. intros (ev & -> & _). by eexists. Qed.

Lemma switched_inv c o n rest ticks serving :
  core_inv c → hands_over c o n →
  (serving = true → existsb ends_interrupt rest = true ∨ ∃ i, owes c i) →
  core_inv (switched o n rest ticks serving c).
Proof.
  intros [Hinv Hcurq Hpend Howed] Hc Hserv. destruct (hands_over_split c o n Hc) as [q Hq].
  destruct Hc as (_ & Hcur & _ & _).
  destruct (schedule_cons _ _ _ Hinv Hq) as (s' & Hs & Hq' & Hcur' & _).
  pose proof (schedule_inv _ Hinv) as Hinv'. rewrite Hs in Hinv'. cbn [fst] in Hinv'.
  assert (∀ i, i ∈ ready_queue s' ↔ i ∈ ready_queue (core_scheduler c)) as Hmem.
  { intros i. rewrite Hq, Hq'. set_solver. }
  unfold switched. case_decide as Hon; rewrite Hs; cbn [fst]; split; cbn [core_scheduler pending in_service].
  - done.
  - intros o'. rewrite Hcur', Hmem. intros [= <-]. rewrite Hq. by left.
  - intros i Hi. rewrite Hmem, Hcur'. destruct (Hpend i Hi). split; congruence.
  - unfold after_events. intros [-> Hno%negb_true_iff]%andb_true_iff.
    destruct (Hserv eq_refl) as [?|[i Hi]]; [congruence|by exists i].
  - done.
  - intros o'. rewrite Hcur', Hmem. intros [= <-]. rewrite Hq. by left.
  - intros i. rewrite Hmem, Hcur'. intros Hi. destruct (decide (i = o)) as [->|Hio].
    { split; [by apply Hcurq|congruence]. }
    rewrite lookup_insert_ne in Hi by done. apply lookup_delete_is_Some in Hi as [Hin Hi].
    split; [by apply Hpend|congruence].
  - unfold after_events. intros [-> Hno%negb_true_iff]%andb_true_iff.
    destruct (Hserv eq_refl) as [?|[i (ev & Hev & Heoi)]].
    { exists o, rest. split; [apply lookup_insert_eq|done]. }
    exists i, ev. split; [|done]. cbn [pending].
    assert (i ≠ n) by (intros ->; rewrite Hev in Hno; cbn in Hno; congruence).
    assert (i ≠ o) by (intros ->; apply (Hpend o); [by eexists|done]).
    by rewrite lookup_insert_ne, lookup_delete_ne by done.
Qed.

Lemma queue_unblock s i : ∃ more, ready_queue (unblock_task s i) = ready_queue s ++ more.
Proof.
  unfold unblock_task. destruct (get_task s i) as [t|]; [|exists []; by rewrite app_nil_r].
  destruct (is_state _ t); [by exists [i]|exists []; by rewrite app_nil_r].
Qed.

(** A step that is no switch: at most the queue gets longer at its end. *)
Record keeps_core (c c' : Core) : Prop := {
  keeps_sched : sched_inv (core_scheduler c');
  keeps_current : current_task (core_scheduler c') = current_task (core_scheduler c);
  keeps_queue : ∃ more, ready_queue (core_scheduler c') = ready_queue (core_scheduler c) ++ more;
  keeps_pending : pending c' = pending c;
  keeps_serving : in_service c' = in_service c
}.

Lemma keeps_queue_same s c c' :
  core_scheduler c' = core_scheduler c → pending c' = pending c → in_service c' = in_service c →
  sched_inv s → s = core_scheduler c → keeps_core c c'.
Proof. intros Hs ? ? Hinv ->. split; rewrite ?Hs; try done. exists []. by rewrite app_nil_r. Qed.

Lemma keeps_core_inv c c' : keeps_core c c' → core_inv c → core_inv c'.
Proof.
  intros [Hs Hcur [more Hq] Hp Hserv] [_ Hcurq Hpend Howed]. split; [done| | |].
  - intros o. rewrite Hcur, Hq, elem_of_app. intros Ho. left. by apply Hcurq.
  - intros i. rewrite Hp, Hcur, Hq, elem_of_app. intros Hi. destruct (Hpend i Hi). auto.
  - rewrite Hserv. unfold owes. rewrite Hp. exact Howed.
Qed.

Lemma free_hands_over c o :
  core_inv c → current_task (core_scheduler c) = Some o → lock_owner c !! SchedulerLock = None →
  ∃ n, hands_over c o n.
Proof.
  intros Hinv Ho Hl. pose proof (core_current c Hinv o Ho) as Hin. pose proof (core_sched c Hinv).
  destruct (ready_queue (core_scheduler c)) as [|n q] eqn:Hq; [by apply not_elem_of_nil in Hin|].
  exists n. unfold hands_over. by rewrite Hq.
Qed.

(** A step switches tasks, in a yield or a tick, or keeps the core. *)
Lemma core_step_cases l c c' :
  core_step l c c' → core_inv c →
  (l ≠ Yield ∧ keeps_core c c' ∧
   (l = Tick → core_ticks c ≤ 0 ∧ core_scheduler c' = core_scheduler c ∧ lock_owner c' = lock_owner c)) ∨
  ∃ o n, hands_over c o n ∧
    ((l = Yield ∧ c' = switched o n [] (core_ticks c) (in_service c) c) ∨
     (l = Tick ∧ in_service c = false ∧ 0 < core_ticks c ∧
      c' = switched o n [timer_eoi] (wrap 64 (core_ticks c + 1)) true c)).
Proof.
  intros Hstep Hinv. pose proof (core_sched c Hinv) as Hs.
  assert (∀ o, current_task (core_scheduler c) = Some o → is_locked SchedulerLock c = false →
    ∃ n, hands_over c o n) as Hover.
  { intros o Ho Hl%bool_decide_eq_false. apply free_hands_over; [done..|]. by apply eq_None_not_Some. }
  destruct Hstep as [o c0 c1 Ho Hoff Htick|o c0 c1 Ho Hy|o l c0 Ho Hf|o l c0 Ho Hf|o t c0 Ho Hf Hnew Hr|o i c0 Ho Hf].
  - destruct (decide (core_ticks c0 ≤ 0)) as [Ht|Ht].
    { rewrite core_tick_first in Htick by done. injection Htick as <-. left.
      split_and!; [done|by eapply keeps_queue_same|done]. }
    destruct (is_locked SchedulerLock c0) eqn:Hl.
    { exfalso. unfold core_tick, timer_interrupt_handler in Htick. rewrite Hl in Htick.
      by rewrite (proj2 (Z.ltb_lt _ _)) in Htick by lia. }
    destruct (Hover o Ho eq_refl) as [n Hn]. rewrite (core_tick_run c0 o n) in Htick by (done || lia).
    injection Htick as <-. right. exists o, n. split; [done|]. right. split_and!; [done..|lia|done].
  - destruct (is_locked SchedulerLock c0) eqn:Hl.
    { exfalso. unfold core_yield in Hy. by rewrite Hl in Hy. }
    destruct (Hover o Ho eq_refl) as [n Hn]. rewrite (core_yield_run c0 o n Hn) in Hy.
    injection Hy as <-. right. exists o, n. split; [done|by left].
  - left. split_and!; [done|by eapply keeps_queue_same|done].
  - left. split_and!; [done|by eapply keeps_queue_same|done].
  - left. split_and!; [done| |done]. split; [by apply add_task_inv|done|by exists [task_id t]|done..].
  - left. split_and!; [done| |done]. split; [by apply unblock_task_inv|by apply current_unblock_task|by apply queue_unblock|done..].
Qed.

Lemma core_step_inv l c c' : core_step l c c' → core_inv c → core_inv c'.
Proof.
  intros Hstep Hinv. destruct (core_step_cases l c c' Hstep Hinv) as [(_ & Hk & _)|(o & n & Hn & Hsw)].
  { by eapply keeps_core_inv. }
  destruct Hsw as [[_ ->]|(_ & _ & _ & ->)]; (apply switched_inv; [done..|]); [|by left].
  intros Hserv. right. by apply (core_owed c Hinv).
Qed.

Lemma boot_inv c : core_boot c → core_inv c.
Proof.
  intros [Hs Hc Hf Hp]. split; [done|done| |congruence]. intros i. rewrite Hp, lookup_empty. by intros [].
Qed.

Lemma core_reachable_inv c : core_reachable c → core_inv c.
Proof.
  intros (c0 & ls & H0%boot_inv & Hrun). induction Hrun as [|l ls c0 c1 c Hstep _ IH]; [done|].
  apply IH. by eapply core_step_inv.
Qed.

(** ** The debt

    The end of at most one timer interrupt is owed at a time, and none while the
    controller does not wait for it. *)
Record debt_ok (c : Core) : Prop := {
  debt_unique i j : owes c i → owes c j → i = j;
  debt_served : in_service c = false → ∀ i, ¬ owes c i
}.

Lemma owes_switched c o n rest ticks serving i :
  o ≠ n → owes (switched o n rest ticks serving c) i ↔
    if decide (i = o) then existsb ends_interrupt rest = true else i ≠ n ∧ owes c i.
Proof.
  intros Hne. unfold owes, switched. rewrite decide_False by done. cbn [pending]. case_decide as Hi.
  - subst i. rewrite lookup_insert_eq. naive_solver.
  - rewrite lookup_insert_ne by done. destruct (decide (i = n)) as [->|Hin].
    + rewrite lookup_delete_eq. naive_solver.
    + rewrite lookup_delete_ne by done. naive_solver.
Qed.

Lemma owes_same_pending c c' i : pending c' = pending c → owes c' i ↔ owes c i.
Proof. unfold owes. by intros ->. Qed.

Lemma same_pending_debt c c' :
  pending c' = pending c → in_service c' = in_service c → debt_ok c → debt_ok c'.
Proof.
  intros Hp Hs [Hu Hn]. split.
  - intros i j. rewrite !(owes_same_pending c c') by done. apply Hu.
  - rewrite Hs. intros Hoff i. rewrite (owes_same_pending c c') by done. by apply Hn.
Qed.

(** The task switched to pays, when it owes; otherwise the debt stays. *)
Lemma in_service_switched c o n rest ticks serving :
  o ≠ n → in_service (switched o n rest ticks serving c) = true ↔ serving = true ∧ ¬ owes c n.
Proof.
  intros Hne. unfold switched, after_events, owes. rewrite decide_False by done. cbn [in_service].
  rewrite andb_true_iff, negb_true_iff, <- not_true_iff_false.
  destruct (pending c !! n) as [ev|]; cbn; naive_solver.
Qed.

Lemma yield_debt c o n :
  debt_ok c → ¬ owes c o →
  debt_ok (switched o n [] (core_ticks c) (in_service c) c).
Proof.
  intros Hd Hnot. destruct (decide (o = n)) as [->|Hne].
  { apply (same_pending_debt c); [| |done]; unfold switched; rewrite decide_True by done; [done|].
    cbn [in_service]. unfold after_events. cbn. by destruct (in_service c). }
  split.
  - intros i j. rewrite !owes_switched by done. repeat case_decide; try done.
    intros [_ Hi] [_ Hj]. by apply (debt_unique c Hd).
  - intros Hoff%not_true_iff_false i. rewrite in_service_switched in Hoff by done.
    rewrite owes_switched by done. case_decide; [done|]. intros [Hin Hi]. destruct (in_service c) eqn:Hserv.
    + apply Hoff. split; [done|]. intros Hn. by apply Hin, (debt_unique c Hd).
    + by apply (debt_served c Hd Hserv i).
Qed.

Lemma tick_debt c o n ticks :
  debt_ok c → in_service c = false → debt_ok (switched o n [timer_eoi] ticks true c).
Proof.
  intros Hd Hoff. pose proof (debt_served c Hd Hoff) as Hnone.
  destruct (decide (o = n)) as [->|Hne].
  { apply (same_pending_debt c); [| |done]; unfold switched; by rewrite decide_True by done. }
  split.
  - intros i j. rewrite !owes_switched by done. repeat case_decide; try congruence.
    1,2: intros; exfalso; naive_solver.
    intros [_ Hi]. by destruct (Hnone i).
  - intros Hserv%not_true_iff_false. by rewrite in_service_switched in Hserv by done; destruct Hserv.
Qed.

Lemma core_step_debt l c c' : core_step l c c' → core_inv c → debt_ok c → debt_ok c'.
Proof.
  intros Hstep Hinv Hd. destruct (core_step_cases l c c' Hstep Hinv) as [(_ & Hk & _)|(o & n & Hn & Hl)].
  { apply (same_pending_debt c); [apply Hk|apply Hk|done]. }
  destruct Hl as [[_ ->]|(_ & Hoff & _ & ->)].
  - apply yield_debt; [done|]. intros Hi%owes_pending%(core_pending c Hinv). by destruct Hi, Hn as (_ & ? & _).
  - by apply tick_debt.
Qed.

Lemma core_reachable_debt c : core_reachable c → debt_ok c.
Proof.
  intros (c0 & ls & H0 & Hrun).
  pose proof (boot_inv c0 H0) as Hinv.
  assert (debt_ok c0) as Hd.
  { assert (∀ i, ¬ owes c0 i) as Hnone.
    { intros i (ev & Hev & _). by rewrite (boot_pending c0 H0), lookup_empty in Hev. }
    split; [|done]. intros i j Hi. by destruct (Hnone i). }
  clear H0. induction Hrun as [|l ls c0 c1 c Hstep _ IH]; [done|].
  apply IH; [by eapply core_step_inv|by eapply core_step_debt].
Qed.

(** ** The way back *)

Definition is_yield (l : Label) : bool := match l with Yield => true | _ => false end.
Definition yields (ls : list Label) : nat := length (List.filter is_yield ls).

Lemma queue_switched c o n q rest ticks serving :
  sched_inv (core_scheduler c) → ready_queue (core_scheduler c) = n :: q →
  ready_queue (core_scheduler (switched o n rest ticks serving c)) = q ++ [n] ∧
  current_task (core_scheduler (switched o n rest ticks serving c)) = Some n.
Proof.
  intros Hinv Hq. destruct (core_scheduler_switched o n rest ticks serving c) as [-> _].
  by destruct (schedule_cons _ _ _ Hinv Hq) as (s' & -> & ? & ? & _).
Qed.

(** A yield to [n] while [i] owes the interrupt: [i] pays, anybody else leaves it
    owed. *)
Lemma yield_pays c o n i :
  core_inv c → debt_ok c → hands_over c o n → owes c i → in_service c = true →
  let c1 := switched o n [] (core_ticks c) (in_service c) c in
  if decide (n = i) then in_service c1 = false else owes c1 i ∧ in_service c1 = true.
Proof.
  intros Hinv Hd (_ & Ho & _) Hi Hserv c1.
  assert (o ≠ i) as Hoi by (intros ->; by destruct (core_pending c Hinv i (owes_pending c i Hi))).
  destruct (decide (n = i)) as [->|Hni].
  - apply not_true_iff_false. unfold c1. rewrite in_service_switched by done. by intros [_ []].
  - destruct (decide (o = n)) as [Hon|Hon].
    + unfold c1, switched. rewrite decide_True by done. split; [by apply (owes_same_pending c)|].
      cbn [in_service]. unfold after_events. by rewrite Hserv.
    + unfold c1. rewrite in_service_switched, owes_switched, decide_False by done. split_and!; [done..|].
      intros Hn. by apply Hni, (debt_unique c Hd).
Qed.

Lemma yields_replicate k : yields (replicate k Yield) = k.
Proof. unfold yields. induction k as [|k IH]; [done|]. cbn. by rewrite IH. Qed.

Lemma replicate_prefix {A} k (x : A) l1 l2 :
  l1 ++ l2 = replicate k x → l1 = replicate (length l1) x ∧ (length l1 <= k)%nat.
Proof.
  intros Heq. split.
  - symmetry. apply replicate_as_elem_of. split; [done|]. intros y Hy.
    symmetry in Heq. apply replicate_as_elem_of in Heq as [_ Heq]. apply Heq, elem_of_app. by left.
  - apply (f_equal length) in Heq. rewrite length_app, length_replicate in Heq. lia.
Qed.

(** [i] has paid after as many yields as there are tasks before it. *)
Lemma yields_pay ls c c' i mid rest :
  core_inv c → debt_ok c → owes c i → in_service c = true →
  ready_queue (core_scheduler c) = mid ++ i :: rest → core_run ls c c' → (length mid < yields ls)%nat →
  ∃ ls1 ls2 c1, ls = ls1 ++ ls2 ∧ core_run ls1 c c1 ∧ core_run ls2 c1 c' ∧ in_service c1 = false.
Proof.
  intros Hinv Hd Hi Hserv Hq Hrun. revert mid rest Hinv Hd Hi Hserv Hq.
  induction Hrun as [c|l ls c c1 c' Hstep Hrun IH]; intros mid rest Hinv Hd Hi Hserv Hq Hlen; [by inversion Hlen|].
  pose proof (core_step_inv l c c1 Hstep Hinv) as Hinv1. pose proof (core_step_debt l c c1 Hstep Hinv Hd) as Hd1.
  assert (∀ mid' rest', owes c1 i → in_service c1 = true →
    ready_queue (core_scheduler c1) = mid' ++ i :: rest' → (length mid' < yields ls)%nat →
    ∃ ls1 ls2 c2, l :: ls = ls1 ++ ls2 ∧ core_run ls1 c c2 ∧ core_run ls2 c2 c' ∧ in_service c2 = false) as Hgo.
  { intros mid' rest' Hi1 Hs1 Hq1 Hl1. destruct (IH mid' rest' Hinv1 Hd1 Hi1 Hs1 Hq1 Hl1) as (ls1 & ls2 & c2 & -> & ? & ? & ?).
    exists (l :: ls1), ls2, c2. split_and!; [done|by econstructor|done..]. }
  destruct (core_step_cases l c c1 Hstep Hinv) as [(Hl & Hk & _)|(o & n & Hn & [[-> Hc1]|(_ & Hoff & _)])]; [| |congruence].
  - destruct (keeps_queue c c1 Hk) as [more Hmore].
    apply (Hgo mid (rest ++ more)); [by apply (owes_same_pending c c1), Hi; apply Hk|by rewrite (keeps_serving c c1 Hk)| |].
    + by rewrite Hmore, Hq, <- app_assoc.
    + by destruct l.
  - pose proof (yield_pays c o n i Hinv Hd Hn Hi Hserv) as Hpay. cbv zeta in Hpay. rewrite <- Hc1 in Hpay.
    destruct (hands_over_split c o n Hn) as [q Hq']. rewrite Hq in Hq'.
    destruct mid as [|m mid]; injection Hq' as -> <-.
    + rewrite decide_True in Hpay by done. exists [Yield], ls, c1.
      split_and!; [done|by econstructor; [|constructor]|done..].
    + pose proof (inv_queue _ (core_sched c Hinv)) as Hnd. rewrite Hq in Hnd. cbn [app] in Hnd.
      apply NoDup_cons in Hnd as [Hnd _]. rewrite decide_False in Hpay by set_solver. destruct Hpay as [Hi1 Hs1].
      apply (Hgo mid (rest ++ [n])); [done|done| |unfold yields in *; cbn in Hlen; lia].
      rewrite Hc1. destruct (queue_switched c o n (mid ++ i :: rest) [] (core_ticks c) (in_service c)) as [-> _];
        [apply Hinv|done|]. by rewrite <- app_assoc.
Qed.

(** Tasks can yield as often as they like. *)
Lemma yields_run k c :
  core_inv c → is_Some (current_task (core_scheduler c)) → lock_owner c !! SchedulerLock = None →
  ∃ c', core_run (replicate k Yield) c c'.
Proof.
  revert c. induction k as [|k IH]; intros c Hinv [o Ho] Hfree; [eexists; constructor|].
  destruct (free_hands_over c o Hinv Ho Hfree) as [n Hn]. destruct (hands_over_split c o n Hn) as [q Hq].
  set (c1 := switched o n [] (core_ticks c) (in_service c) c).
  assert (core_step Yield c c1) as Hstep by (eapply step_own_yield; [done|by apply core_yield_run]).
  destruct (IH c1) as [c' Hrun].
  - by eapply core_step_inv.
  - eexists. apply (queue_switched c o n q); [apply Hinv|done].
  - unfold c1. by destruct (core_scheduler_switched o n [] (core_ticks c) (in_service c) c) as [_ ->].
  - exists c'. by econstructor.
Qed.

(** ** No way back *)

(** The controller waits and nobody owes it the end of the interrupt. *)
Definition dead_timer (c : Core) : Prop := in_service c = true ∧ ∀ i, ¬ owes c i.

Lemma dead_timer_play o events s ticks c :
  dead_timer c → (∀ e, e ∈ events → ∃ n, e = SwitchedTo n) →
  dead_timer (play o events s ticks (in_service c) c).
Proof.
  intros [Hserv Hnone] Hev. assert (∀ p, existsb ends_interrupt p = false → after_events p (in_service c) = true) as Hstay.
  { intros p Hp. unfold after_events. by rewrite Hserv, Hp. }
  assert (∀ n, existsb ends_interrupt (default [] (pending c !! n)) = false) as Hpend.
  { intros n. apply not_true_iff_false. intros Heoi. apply (Hnone n). unfold owes.
    destruct (pending c !! n) as [p|]; [by exists p|done]. }
  assert (∀ l, (∀ e, e ∈ l → ∃ n, e = SwitchedTo n) → existsb ends_interrupt l = false) as Hsw.
  { induction l as [|e l IH]; intros Hl; [done|]. destruct (Hl e ltac:(by left)) as [n ->]. apply IH. intros e' ?. apply Hl. by right. }
  destruct events as [|[n|v] rest]; cbn [play].
  - split; [by apply Hstay|done].
  - split; [by apply Hstay|]. intros i (p & Hp & Heoi). cbn [pending] in Hp.
    apply lookup_insert_Some in Hp as [[<- <-]|[_ [_ Hp]%lookup_delete_Some]]; [|by apply (Hnone i); exists p].
    rewrite Hsw in Heoi; [done|]. intros e He. apply Hev. by right.
  - destruct (Hev (NotifyEndOfInterrupt v) ltac:(by left)) as [n ?]. done.
Qed.

Lemma dead_timer_event e c c' : core_event e c c' → dead_timer c → e ≠ Does Tick ∧ dead_timer c'.
Proof.
  intros Hev Hdead. destruct Hev as [l c c' Hstep|o c _ _|o c _ _]; [|done..].
  destruct Hstep as [o c c' _ Hoff _|o c c' _ Hy|o l c _ _|o l c _ _|o t c _ _ _ _|o i c _ _]; [|split; [done|]..];
    [destruct Hdead; congruence| |done..].
  unfold core_yield, mbind, outcome_bind in Hy. destruct (task_yield _ _ _) as [y| |]; [|done..].
  destruct (unwrap (y_scheduler y)) as [s| |]; [|done..]. injection Hy as <-. apply dead_timer_play; [done|].
  destruct (y_switch y) as [[? n]|]; intros e He; [|by apply not_elem_of_nil in He].
  apply list_elem_of_singleton in He as ->. by exists n.
Qed.

Lemma dead_timer_history es c c' : core_history es c c' → dead_timer c → (Does Tick ∉ es) ∧ dead_timer c'.
Proof.
  induction 1 as [c|e es c c1 c' Hev _ IH]; intros Hdead; [split; [apply not_elem_of_nil|done]|].
  destruct (dead_timer_event e c c1 Hev Hdead) as [He Hdead1]. destruct (IH Hdead1) as [Hes Hdead'].
  split; [by apply not_elem_of_cons|done].
Qed.

(** The task after the one that blocks or ends becomes the current one. *)
Lemma retires_to s n i rest e :
  sched_inv s → current_task s = Some n → filter (λ j, j ≠ n) (ready_queue s) = i :: rest →
  (e = Blocks ∨ e = Ends) →
  ∃ s', (∀ c, core_scheduler c = s → lock_owner c !! SchedulerLock = None → core_event e c (set_core_scheduler s' c)) ∧
    sched_inv s' ∧ ready_queue s' = rest ++ [i] ∧ current_task s' = Some i.
Proof.
  intros Hinv Hn Hq He. set (st := match e with Ends => TaskState_Terminated | _ => TaskState_Blocked end).
  set (cur := match e with Ends => None | _ => Some n end).
  assert (sched_inv (retire s n st cur)) as Hr.
  { apply retire_inv; [done..|]. unfold st, cur. destruct He as [-> | ->]; auto with jericho. }
  destruct (schedule_cons _ i rest Hr Hq) as (s' & Hs & Hq' & Hc' & _). pose proof (schedule_inv _ Hr) as Hinv'.
  rewrite Hs in Hinv'. exists s'. split_and!; [|done..]. intros c <- Hfree.
  destruct He as [-> | ->]; [pose proof (event_block n c Hn Hfree) as Hev|pose proof (event_end n c Hn Hfree) as Hev];
    unfold block_current, terminate_current in Hev; rewrite Hn in Hev; unfold st, cur in Hs; rewrite ?Hn, Hs in Hev; exact Hev.
Qed.

(** Until a yield, a core that serves an interrupt goes on serving it, also when
    tasks block and end. *)
Lemma serving_history es c c' :
  core_history es c c' → in_service c = true → Does Yield ∉ es → (Does Tick ∉ es) ∧ in_service c' = true.
Proof.
  induction 1 as [c|e es c c1 c' Hev _ IH]; intros Hserv Hno; [split; [apply not_elem_of_nil|done]|].
  apply not_elem_of_cons in Hno as [He Hno].
  assert (e ≠ Does Tick ∧ in_service c1 = true) as [Hnt Hserv1].
  { destruct Hev as [l c c1 Hstep|o c _ _|o c _ _]; [|done..].
    destruct Hstep; [congruence|done|..]; by split. }
  destruct (IH Hserv1 Hno) as [Hes Hserv']. split; [by apply not_elem_of_cons|done].
Qed.

(** ** Interrupts inside the switch

    [popfq] turns interrupts on when the new task's flags say so, as those of a task
    that has not run yet do.  Five instructions of the block are still to come. *)
Definition before_window (label : Z) : list Instr := switch_save label ++ take 17 switch_restore.
Definition window : list Instr := drop 17 switch_restore.

Example window_opens : last (take 17 switch_restore) = Some Popfq.
Proof. reflexivity. Qed.

Lemma window_run c :
  length (regs c) = 16%nat →
  rip (run c window) = word (x86_mem c) (get_reg c RSI) 17 ∧
  get_reg (run c window) RDI = word (x86_mem c) (get_reg c RSI) 7.
Proof.
  destruct c as [rs fl ip m]. cbn [regs]. intros [f ->]%list_16. unfold word.
  split; [|reflexivity]. run_code. by rewrite load_store_same.
Qed.

Lemma window_entry label c old new :
  switch_ok c old new →
  let w := run (set_reg (set_reg c RDI old) RSI new) (before_window label) in
  length (regs w) = 16%nat ∧ get_reg w RSI = new ∧ rflags w = word (x86_mem c) new 16.
Proof.
  intros [Hl Hsp Hsp' Hap%bytes_apart_contexts _ Ho%bytes_apart_outside _ _].
  set (c0 := set_reg (set_reg c RDI old) RSI new).
  assert (length (regs c0) = 16%nat) as Hl0 by (by apply length_entry_regs).
  assert (get_reg c0 RSP = get_reg c RSP ∧ get_reg c0 RDI = old) as [Hsp0 Hdi].
  { unfold get_reg, c0, set_reg. cbn [regs reg_index]. split.
    - by rewrite !list_lookup_insert_ne by done.
    - rewrite list_lookup_insert_ne, list_lookup_insert_eq by (done || lia). done. }
  unfold before_window, run. rewrite foldl_app. fold (run c0 (switch_save label)).
  rewrite save_run, Hsp0, Hdi by (rewrite ?Hsp0; done). change (x86_mem c0) with (x86_mem c).
  rewrite <- (saved_mem_other (x86_mem c) old (get_reg c RSP) (rflags c0) label (regs c0)) by (done || lia).
  assert ((<[reg_index RAX:=label]> (regs c0)) !! 6%nat = Some new) as Hsi.
  { unfold c0, set_reg. cbn [regs reg_index].
    rewrite list_lookup_insert_ne, list_lookup_insert_eq by (rewrite ?length_insert; lia). done. }
  assert (length (<[reg_index RAX:=label]> (regs c0)) = 16%nat) as Hl1 by (by rewrite length_insert).
  revert Hsi Hl1. generalize (<[reg_index RAX:=label]> (regs c0)) as rs.
  generalize (saved_mem (x86_mem c) old (get_reg c RSP) (rflags c0) label (regs c0)) as m.
  intros m rs Hsi [f ->]%list_16. injection Hsi as <-. unfold word.
  split_and!; [reflexivity|reflexivity|]. run_code. by rewrite load_store_same.
Qed.

(** An interrupt in the window that switches away, and back later. *)
Lemma interrupted_window w label new h other m :
  length (regs w) = 16%nat → get_reg w RSI = new → switch_ok h new other →
  (∀ k, 0 ≤ k < 18 → word m new k = word (x86_mem (switch_context label h new other)) new k) →
  rip (run (set_x86_mem w m) window) = label ∧ get_reg (run (set_x86_mem w m) window) RDI = new.
Proof.
  intros Hl Hsi Hh Hm. destruct (window_run (set_x86_mem w m) Hl) as [-> ->].
  change (get_reg (set_x86_mem w m) RSI) with (get_reg w RSI). rewrite Hsi.
  change (x86_mem (set_x86_mem w m)) with m. rewrite !Hm by lia.
  destruct (switch_run label h new other Hh) as (_ & _ & _ & Hsaved).
  pose proof (length_entry_regs h new other (sw_regs _ _ _ Hh)) as Hlen.
  pose proof (Hsaved 17%nat ltac:(lia)) as H17. pose proof (Hsaved 7%nat ltac:(lia)) as H7.
  change (Z.of_nat 17) with 17 in H17. change (Z.of_nat 7) with 7 in H7. rewrite H17, H7.
  rewrite lookup_app_r, lookup_app_l, Hlen by lia.
  split; [done|]. unfold entry_regs, set_reg. cbn [regs reg_index].
  by rewrite list_lookup_insert_ne, list_lookup_insert_eq by (rewrite ?(sw_regs _ _ _ Hh); lia).
Qed.

(** ** What preemption on x86-64 comes to *)

(** C12: preemption happens once and then waits for a yield.  A tick that takes the
    core from task [o] and gives it to [n], which was not itself interrupted by a
    tick before, leaves the timer interrupt unfinished: as long as [n] does not
    call [task_yield] no further tick is delivered and [n] keeps the core, and a
    lock that [o] was preempted with, other than one [n] would have to hold
    itself, can never be taken: if [n] needs it, the kernel spins for ever. *)
Theorem preempted_core_stalls c o n :
  hands_over c o n → o ≠ n → in_service c = false → 0 < core_ticks c →
  ¬ owes c n →
  ∃ c1, core_step Tick c c1 ∧ owes c1 o ∧
    ∀ ls c', core_run ls c1 c' → Yield ∉ ls →
      current_task (core_scheduler c') = Some n ∧ in_service c' = true ∧ (Tick ∉ ls) ∧
      ∀ l, lock_owner c !! l = Some o → (Acquire l ∉ ls) ∧ lock_owner c' !! l = Some o.
Proof.
  intros Hc Hne Hoff Hpos Hnot. pose proof Hc as (Hinv & Hcur & _ & _).
  destruct (hands_over_split c o n Hc) as [rest Hq].
  destruct (schedule_cons _ _ _ Hinv Hq) as (s' & Hs & _ & Hcur' & _).
  eexists. split; [eapply step_tick; [done|done|by apply core_tick_run]|].
  destruct (core_scheduler_switched o n [timer_eoi] (wrap 64 (core_ticks c + 1)) true c) as [Hs1 Hl1].
  set (c1 := switched o n _ _ _ c) in *.
  assert (in_service c1 = true) as Hserv.
  { unfold c1, switched. rewrite decide_False by done. cbn [in_service]. unfold after_events.
    rewrite andb_true_l. apply negb_true_iff, not_true_iff_false. intros Heoi. apply Hnot.
    destruct (pending c !! n) as [ev|] eqn:Hev; [by exists ev|done]. }
  split.
  { exists [timer_eoi]. split; [|done]. unfold c1, switched. rewrite decide_False by done.
    apply lookup_insert_eq. }
  intros ls c' Hrun Hno. destruct (stalled_run c1 n ls c') as (? & ? & ? & Hlocks);
    [by rewrite Hs1, Hs|done..|].
  split_and!; [done..|]. intros l Hl. apply Hlocks; [by rewrite Hl1|done].
Qed.

(** C27: the timer comes back, as long as tasks only lock, yield, are ticked, and add
    and wake others, and none blocks or ends.  In every reachable state in which
    the controller waits for the end of an interrupt while some task is current,
    exactly one task owes it, and that task is runnable.  In every run from there with as
    many yields as there are runnable tasks the debt is paid on the way, however
    the other steps come in between; and with the scheduler lock free there is
    such a run of yields alone. *)
Theorem timer_comes_back c :
  core_reachable c → in_service c = true → is_Some (current_task (core_scheduler c)) →
  ∃ i, i ∈ ready_queue (core_scheduler c) ∧ owes c i ∧ (∀ j, owes c j → j = i) ∧
    (∀ ls c', core_run ls c c' → (length (ready_queue (core_scheduler c)) <= yields ls)%nat →
       ∃ ls1 ls2 c1, ls = ls1 ++ ls2 ∧ core_run ls1 c c1 ∧ core_run ls2 c1 c' ∧ in_service c1 = false) ∧
    (lock_owner c !! SchedulerLock = None →
       ∃ k c', (k <= length (ready_queue (core_scheduler c)))%nat ∧
         core_run (replicate k Yield) c c' ∧ in_service c' = false).
Proof.
  intros Hc Hserv Hcur. pose proof (core_reachable_inv c Hc) as Hinv. pose proof (core_reachable_debt c Hc) as Hd.
  destruct (core_owed c Hinv Hserv) as [i Hi]. destruct (core_pending c Hinv i (owes_pending c i Hi)) as [Hin _].
  destruct (list_elem_of_split _ _ Hin) as (mid & rest & Hq).
  assert (length (ready_queue (core_scheduler c)) = S (length mid + length rest)) as Hlen
    by (rewrite Hq, length_app; simpl; lia).
  assert (∀ ls c', core_run ls c c' → (length (ready_queue (core_scheduler c)) <= yields ls)%nat →
    ∃ ls1 ls2 c1, ls = ls1 ++ ls2 ∧ core_run ls1 c c1 ∧ core_run ls2 c1 c' ∧ in_service c1 = false) as Hpay.
  { intros ls c' Hrun Hls. apply (yields_pay ls c c' i mid rest); [done..|lia]. }
  exists i. split_and!; [done|done|intros j Hj; by apply (debt_unique c Hd)|done|]. intros Hfree.
  set (k := length (ready_queue (core_scheduler c))) in *.
  destruct (yields_run k c Hinv Hcur Hfree) as [c' Hrun].
  destruct (Hpay _ c' Hrun) as (ls1 & ls2 & c1 & Hls & Hrun1 & _ & Hoff); [by rewrite yields_replicate|].
  symmetry in Hls. apply replicate_prefix in Hls as [Hls1 Hk]. rewrite Hls1 in Hrun1. by exists (length ls1), c1.
Qed.

(** C15: a task that blocks or ends can take the timer with it.  Let the task that
    has the core block or end while the controller waits for the end of an
    interrupt, and let [i] be the next in the queue: the code that ran goes on
    under the name of [i], and until it yields, which neither the loop of a
    blocked receive nor the halting loop of an ended task does, no tick is
    delivered, however many more tasks it blocks.  If [i] was the one that owed
    the interrupt, a yield does not help either: it saves other code over the
    rest of the handler in the context of [i], and from then on no tick is ever
    delivered, whatever tasks do. *)
Theorem timer_lost c n i rest e :
  core_reachable c → in_service c = true → lock_owner c !! SchedulerLock = None →
  current_task (core_scheduler c) = Some n →
  filter (λ j, j ≠ n) (ready_queue (core_scheduler c)) = i :: rest → (e = Blocks ∨ e = Ends) →
  ∃ c1, core_event e c c1 ∧ current_task (core_scheduler c1) = Some i ∧ in_service c1 = true ∧
    (∀ es c', core_history es c1 c' → Does Yield ∉ es → (Does Tick ∉ es) ∧ in_service c' = true) ∧
    (owes c i → rest ≠ [] →
       ∃ c2, core_step Yield c1 c2 ∧
         ∀ es c3, core_history es c2 c3 → (Does Tick ∉ es) ∧ in_service c3 = true).
Proof.
  intros Hc Hserv Hfree Hcur Hq He. pose proof (core_reachable_debt c Hc) as Hd.
  destruct (retires_to (core_scheduler c) n i rest e) as (s & Hev & Hs & Hq' & Hcur');
    [by apply core_sched, core_reachable_inv|done..|].
  exists (set_core_scheduler s c). split_and!; [by apply Hev|done|done|intros es c' Hes; by apply (serving_history es _ c' Hes)|].
  intros Hi Hrest. destruct rest as [|m rest]; [done|]. set (c1 := set_core_scheduler s c).
  assert (i ≠ m) as Him.
  { pose proof (inv_queue s Hs) as Hnd. rewrite Hq' in Hnd. cbn in Hnd. apply NoDup_cons in Hnd as [Hnd _]. set_solver. }
  assert (hands_over c1 i m) as Hover by (unfold hands_over; cbn; by rewrite Hq').
  eexists. split; [eapply step_own_yield; [done|by apply core_yield_run]|].
  intros es c3 Hes. assert (dead_timer (switched i m [] (core_ticks c1) (in_service c1) c1)) as Hdead.
  { split.
    - rewrite in_service_switched by done. split; [done|]. intros Hm. by apply Him, (debt_unique c Hd).
    - intros j. rewrite owes_switched by done. case_decide as Hji; [done|]. intros [_ Hj].
      by apply Hji, (debt_unique c Hd). }
  destruct (dead_timer_history es _ c3 Hes Hdead) as [? [? _]]. done.
Qed.

(** C28: the switch to a new task is open to the timer before it is over.  A task made by
    [Task::new] enters the wrapper with its entry point in rdi when nothing
    happens between [popfq] and [ret]; but interrupts are on in between, and if a tick
    comes there and switches away (machine [h], inside the handler), then when the
    handler returns the rest of the block reads the context that this switch
    has overwritten: it jumps to the label behind the block, with the address of
    the context in rdi, and the entry point is nowhere. *)
Theorem switch_window_race `{Build} NEXT_ID stack wrapper name entry prio t n label c old new :
  Task_new NEXT_ID stack wrapper name entry prio = Ok (n, t) →
  in_u 64 (stack + TASK_STACK_SIZE) → switch_ok c old new →
  load_words (x86_mem c) new 18 = context_words (task_context t) →
  let w := run (set_reg (set_reg c RDI old) RSI new) (before_window label) in
  Z.testbit (rflags w) 9 = true ∧
  rip (run w window) = wrapper ∧ get_reg (run w window) RDI = entry ∧
  ∀ h other m, switch_ok h new other →
    (∀ k, 0 ≤ k < 18 → word m new k = word (x86_mem (switch_context label h new other)) new k) →
    rip (run (set_x86_mem w m) window) = label ∧ get_reg (run (set_x86_mem w m) window) RDI = new.
Proof.
  intros Ht Hfit Hsw Hwords w.
  destruct (fresh_switch_run NEXT_ID stack wrapper name entry prio t n label c old new Ht Hfit Hsw Hwords)
    as (Hip & Hdi & _ & Hfl & _).
  destruct (window_entry label c old new Hsw) as (Hl & Hsi & Hflags). fold w in Hl, Hsi, Hflags.
  assert (switch_context label c old new = run w window) as Hall.
  { unfold switch_context, w, before_window, run. rewrite <- foldl_app, <- app_assoc. unfold window.
    by rewrite take_drop. }
  destruct (switch_run label c old new Hsw) as (_ & Hfl' & _). rewrite Hall in Hip, Hdi.
  split_and!; [by rewrite Hflags, <- Hfl'|done|done|].
  intros h other m Hh Hm. by apply (interrupted_window w label new h other m).
Qed.

(** ** Concrete runs: task 1 is interrupted while it holds the registry *)

Definition sample_core : Core :=
  mkCore two_tasks 5 false ∅ {[RegistryLock := TaskId_new 1]}.

Lemma sample_hands_over : hands_over sample_core (TaskId_new 1) (TaskId_new 2).
Proof. split; [apply sched_reachable_inv, two_tasks_reachable|]. split_and!; reflexivity. Qed.

Lemma preempted_core_stalls_witness :
  ∃ c1, core_step Tick sample_core c1 ∧
    ∀ ls c', core_run ls c1 c' → Yield ∉ ls → (Tick ∉ ls) ∧ (Acquire RegistryLock ∉ ls).
Proof.
  destruct (preempted_core_stalls sample_core (TaskId_new 1) (TaskId_new 2)) as (c1 & Hstep & _ & Hrun).
  - apply sample_hands_over.
  - done.
  - reflexivity.
  - reflexivity.
  - intros (ev & Hev & _). discriminate Hev.
  - exists c1. split; [exact Hstep|]. intros ls c' Hls Hno.
    destruct (Hrun ls c' Hls Hno) as (_ & _ & Htick & Hlock). split; [exact Htick|].
    apply Hlock. reflexivity.
Defined.

Definition stalled_core : Core :=
  switched (TaskId_new 1) (TaskId_new 2) [timer_eoi] 6 true sample_core.

Lemma stalled_core_reachable : core_reachable stalled_core.
Proof.
  exists sample_core, [Tick]. split.
  - split; [apply sched_reachable_inv, two_tasks_reachable| |done|done].
    intros o Ho. change (Some (TaskId_new 1) = Some o) in Ho. injection Ho as <-. right. left.
  - eapply run_step; [|constructor]. eapply step_tick; [reflexivity|done|].
    rewrite (core_tick_run _ _ (TaskId_new 2)); [reflexivity|apply sample_hands_over|done].
Qed.

Lemma timer_comes_back_witness :
  ∃ k c', (k <= 2)%nat ∧ core_run (replicate k Yield) stalled_core c' ∧ in_service c' = false.
Proof.
  destruct (timer_comes_back stalled_core stalled_core_reachable) as (i & _ & _ & _ & _ & Hrun).
  - reflexivity.
  - by eexists.
  - destruct (Hrun ltac:(reflexivity)) as (k & c' & Hk & Hc' & Hoff).
    exists k, c'. split; [exact Hk|]. split; [exact Hc'|exact Hoff].
Defined.

(** Task 3 is added, task 1 is interrupted, and task 2 has the core; then it ends. *)
Definition spawned_core : Core := mkCore (add_task two_tasks (sample_task 3)).1 5 false ∅ ∅.
Definition three_stalled : Core := switched (TaskId_new 1) (TaskId_new 2) [timer_eoi] 6 true spawned_core.

Lemma three_stalled_reachable : core_reachable three_stalled.
Proof.
  exists (mkCore two_tasks 5 false ∅ ∅), [Spawn (sample_task 3); Tick]. split.
  - split; [apply sched_reachable_inv, two_tasks_reachable| |done|done].
    intros o Ho. change (Some (TaskId_new 1) = Some o) in Ho. injection Ho as <-. right. left.
  - eapply run_step; [by eapply (step_spawn (TaskId_new 1) (sample_task 3))|].
    eapply run_step; [|constructor]. eapply step_tick; [reflexivity|done|].
    rewrite (core_tick_run _ _ (TaskId_new 2)); [reflexivity| |done]. split_and!; [|reflexivity..].
    apply add_task_inv; [apply sched_reachable_inv, two_tasks_reachable|reflexivity..].
Qed.

Lemma timer_lost_witness :
  ∃ c1, core_event Ends three_stalled c1 ∧ current_task (core_scheduler c1) = Some (TaskId_new 1) ∧
    ∃ c2, core_step Yield c1 c2 ∧ ∀ es c3, core_history es c2 c3 → (Does Tick ∉ es) ∧ in_service c3 = true.
Proof.
  destruct (timer_lost three_stalled (TaskId_new 2) (TaskId_new 1) [TaskId_new 3] Ends three_stalled_reachable)
    as (c1 & Hev & Hcur & _ & _ & Hlost).
  - reflexivity.
  - reflexivity.
  - reflexivity.
  - reflexivity.
  - by right.
  - exists c1. split; [exact Hev|]. split; [exact Hcur|]. apply Hlost; [|done].
    exists [timer_eoi]. split; reflexivity.
Defined.

(** The handler on the stack of the new task, about to switch to a third context. *)
Definition handler_machine : X86 :=
  mkX86 (<[reg_index RSP := 0x18f00]> (Z.of_nat <$> seq 300 16)) 0x2 0x400100
    (store_words ∅ 0x3000 (<[0%nat := 0x29000]> (Z.of_nat <$> seq 400 18))).

Lemma handler_switch_ok : switch_ok handler_machine 0x2000 0x3000.
Proof.
  assert (word (x86_mem handler_machine) 0x3000 0 = 0x29000) as Hw by reflexivity.
  assert (get_reg handler_machine RSP = 0x18f00) as Hsp by reflexivity.
  split; rewrite ?Hw, ?Hsp; try done.
  all: unfold below; try change (addr_add 0x18f00 (-8)) with 0x18ef8;
    try change (addr_add 0x29000 (-8)) with 0x28ff8; solve_apart.
Qed.

Lemma switch_window_race_witness :
  let w := run (set_reg (set_reg fresh_machine RDI 0x1000) RSI 0x2000) (before_window 0x401000) in
  rip (run w window) = 0x600000 ∧
  rip (run (set_x86_mem w (x86_mem (switch_context 0x401000 handler_machine 0x2000 0x3000))) window) = 0x401000.
Proof.
  destruct (switch_window_race (H := Dev) 1 0x9000 0x600000 "t" 0x500000 Priority_Normal
    (mkTask (TaskId_new 1) TaskState_Ready sample_fresh 0x9000 CSpace_new Priority_Normal "t") 2
    0x401000 fresh_machine 0x1000 0x2000) as (_ & Hip & _ & Hrace).
  - reflexivity.
  - done.
  - apply fresh_switch_ok.
  - vm_compute. reflexivity.
  - destruct (Hrace handler_machine 0x3000 (x86_mem (switch_context 0x401000 handler_machine 0x2000 0x3000)))
      as [Hlost _]; [apply handler_switch_ok|done|]. split; [exact Hip|exact Hlost].
Defined.
