(* ===== verification/Exceptions.v ===== *)
(** * Descriptor tables and exception handlers on x86-64
    ([src/src/gdt.rs], [src/src/interrupts.rs], [src/src/serial.rs])

    The segments and the double fault stack, the interrupt descriptor table, and
    every handler in it, with the lock of the serial port that the handlers and
    the code they interrupt share.  Gates are interrupt gates: a handler runs
    with interrupts off. *)
From S2P Require Import Prelude Task Scheduler Switch Interrupts.

(** ** What the kernel uses of the [x86_64] crate *)

(** A global descriptor table under construction; virtual addresses, made from
    an integer and by adding an offset. *)
Class Descriptors (T Descriptor : Type) := {
  GlobalDescriptorTable_new : T;
  kernel_code_segment : Descriptor;
  kernel_data_segment : Descriptor;
  tss_segment : list Z → Descriptor;
  append : T → Descriptor → outcome (T * Z);
  descriptor_at : T → Z → option Descriptor
}.

Class VirtAddrs := {
  virt_new : Z → outcome Z;
  virt_add : Z → Z → outcome Z
}.

Definition canonical (a : Z) : Prop := 0 ≤ a < 2 ^ 47 ∨ 2 ^ 64 - 2 ^ 47 ≤ a < 2 ^ 64.

Class VirtAddrsLaws `{!VirtAddrs} : Prop := {
  virt_new_canonical a : canonical a → virt_new a = Ok a;
  virt_add_canonical a b : canonical a → canonical (a + b) → 0 ≤ b → virt_add a b = Ok (a + b)
}.

(** [append] hands out a selector for the descriptor and moves no other; a fresh
    table has room for the code, data and task state descriptors, which take
    four of its seven free slots. *)
Class DescriptorsLaws (T Descriptor : Type) `{!Descriptors T Descriptor} : Prop := {
  append_lookup (g : T) (d : Descriptor) g' s : append g d = Ok (g', s) → descriptor_at g' s = Some d;
  append_frame (g : T) (d : Descriptor) g' s s' d' :
    append g d = Ok (g', s) → descriptor_at g s' = Some d' → descriptor_at g' s' = Some d';
  append_three (tss : list Z) : ∃ g1 s1 g2 s2 g3 s3,
    append (GlobalDescriptorTable_new (T := T)) kernel_code_segment = Ok (g1, s1) ∧
    append g1 kernel_data_segment = Ok (g2, s2) ∧ append g2 (tss_segment tss) = Ok (g3, s3)
}.

(** ** [gdt.rs] *)

Definition DOUBLE_FAULT_IST_INDEX : Z := 0.
Definition STACK_SIZE : Z := 4096 * 5.

Record Selectors := mkSelectors { code_selector : Z; data_selector : Z; tss_selector : Z }.

(** The registers [gdt::init] loads. *)
Record Segments (T : Type) := mkSegments { gdtr : T; cs : Z; ds : Z; tr : Z; tss : list Z }.
Arguments mkSegments {T}.
Arguments gdtr {T}. Arguments cs {T}. Arguments ds {T}. Arguments tr {T}. Arguments tss {T}.

Section gdt.
Context {T Descriptor : Type} `{!Descriptors T Descriptor, !VirtAddrs}.

(** The seven interrupt stacks of the task state segment; [STACK] is the address
    of the static array. *)
Definition TSS (STACK : Z) : outcome (list Z) :=
  let stack_start := STACK in
  stack_end ← virt_add stack_start STACK_SIZE;
  Ok (<[Z.to_nat DOUBLE_FAULT_IST_INDEX := stack_end]> (replicate 7 0)).

Definition GDT (tss : list Z) : outcome (T * Selectors) :=
  let gdt := GlobalDescriptorTable_new in
  '(gdt, code_selector) ← append gdt kernel_code_segment;
  '(gdt, data_selector) ← append gdt kernel_data_segment;
  '(gdt, tss_selector) ← append gdt (tss_segment tss);
  Ok (gdt, mkSelectors code_selector data_selector tss_selector).

Definition gdt_init (STACK : Z) : outcome (Segments T) :=
  tss ← TSS STACK;
  '(gdt, s) ← GDT tss;
  Ok (mkSegments gdt (code_selector s) (data_selector s) (tss_selector s) tss).
End gdt.

(** ** [serial.rs] *)

(** [_print]: [locked] says whether the lock of [SERIAL1] is held, and on one core
    a lock that is held here is held for ever. *)
Definition _print (locked : bool) : outcome () := if locked then Hang else Ok tt.

(** ** The interrupt descriptor table *)

Inductive Handler :=
  | breakpoint_handler | page_fault_handler | general_protection_fault_handler
  | invalid_opcode_handler | segment_not_present_handler | stack_segment_fault_handler
  | divide_error_handler | double_fault_handler
  | timer_handler | keyboard_handler.

(** A gate: the handler, the code selector it runs with, and its index into the
    interrupt stacks, if it has one. *)
Record Gate := mkGate { gate_handler : Handler; gate_selector : Z; gate_stack : option Z }.

(** [set_handler_fn] makes a present gate for the current code segment. *)
Definition set_handler_fn (cs : Z) (vector : Z) (h : Handler) (idt : gmap Z Gate) : gmap Z Gate :=
  <[vector := mkGate h cs None]> idt.
Definition set_stack_index (vector index : Z) (idt : gmap Z Gate) : gmap Z Gate :=
  alter (λ g, mkGate (gate_handler g) (gate_selector g) (Some index)) vector idt.

(** The vectors behind the fields of the table. *)
Definition divide_error : Z := 0.
Definition breakpoint : Z := 3.
Definition invalid_opcode : Z := 6.
Definition double_fault : Z := 8.
Definition segment_not_present : Z := 11.
Definition stack_segment_fault : Z := 12.
Definition general_protection_fault : Z := 13.
Definition page_fault : Z := 14.

(** [IDT], built on first use: by [interrupts::init]. *)
Definition IDT (cs : Z) : gmap Z Gate :=
  let idt := ∅ in
  let idt := set_handler_fn cs breakpoint breakpoint_handler idt in
  let idt := set_handler_fn cs page_fault page_fault_handler idt in
  let idt := set_handler_fn cs general_protection_fault general_protection_fault_handler idt in
  let idt := set_handler_fn cs invalid_opcode invalid_opcode_handler idt in
  let idt := set_handler_fn cs segment_not_present segment_not_present_handler idt in
  let idt := set_handler_fn cs stack_segment_fault stack_segment_fault_handler idt in
  let idt := set_handler_fn cs divide_error divide_error_handler idt in
  let idt := set_stack_index double_fault DOUBLE_FAULT_IST_INDEX
               (set_handler_fn cs double_fault double_fault_handler idt) in
  let idt := set_handler_fn cs (as_u8 InterruptIndex_Timer) timer_handler idt in
  set_handler_fn cs (as_u8 InterruptIndex_Keyboard) keyboard_handler idt.

(** ** Handlers *)

(** What handlers find: the two locks, the tick counter, the scheduler. *)
Record IrqState := mkIrqState {
  serial_locked : bool;
  scheduler_locked : bool;
  irq_ticks : Z;
  irq_scheduler : option Scheduler
}.

(** How a handler ends when it does not panic: back in the interrupted code, or
    in a [hlt] loop with interrupts off. *)
Inductive HandlerEnd :=
  | Returns (ticks : Z) (guard : option Scheduler) (events : list IrqEvent)
  | Halts.

Section handlers.
Context `{Build}.

(** [#[cfg(debug_assertions)]] *)
Definition debug_assertions : bool := match build with Dev => true | Release => false end.

(** [panic!]: the panic handler prints and halts. *)
Definition panic (st : IrqState) : outcome HandlerEnd := _ ← _print (serial_locked st); Panic.

(** [task_yield] calls [schedule] and that picks a task. *)
Definition schedules (guard : option Scheduler) : bool :=
  match guard with
  | None => false
  | Some s =>
      match current_task s with
      | None => false
      | Some _ => match (schedule s).2 with Some _ => true | None => false end
      end
  end.

(** [timer_interrupt_handler] with the messages of debug builds: one every
    hundred ticks, and those of [schedule] and [task_yield] when a task was
    picked, before anything else can go wrong. *)
Definition timer_messages (st : IrqState) : outcome HandlerEnd :=
  let ticks := irq_ticks st in
  _ ← (if debug_assertions && (ticks mod 100 =? 0) then _print (serial_locked st) else Ok tt);
  _ ← (if scheduler_locked st then Ok tt
       else if debug_assertions && (0 <? ticks) && schedules (irq_scheduler st)
       then _print (serial_locked st) else Ok tt);
  '(ticks, guard, events) ←
    timer_interrupt_handler (scheduler_locked st) ticks (irq_scheduler st);
  Ok (Returns ticks guard events).

Definition run_handler (h : Handler) (scancode : Z) (st : IrqState) : outcome HandlerEnd :=
  match h with
  | breakpoint_handler =>
      _ ← _print (serial_locked st); Ok (Returns (irq_ticks st) (irq_scheduler st) [])
  | page_fault_handler => _ ← _print (serial_locked st); Ok Halts
  | double_fault_handler | general_protection_fault_handler | invalid_opcode_handler
  | segment_not_present_handler | stack_segment_fault_handler | divide_error_handler => panic st
  | timer_handler => timer_messages st
  | keyboard_handler =>
      _ ← _print (serial_locked st);
      Ok (Returns (irq_ticks st) (irq_scheduler st) (keyboard_interrupt_handler scancode))
  end.

(** ** Delivery, by the processor *)

(** A vector without a gate raises a segment-not-present exception instead. *)
Definition gate_for (idt : gmap Z Gate) (vector : Z) : option Gate :=
  match idt !! vector with Some g => Some g | None => idt !! segment_not_present end.

(** Where the frame of five words and the error code go: on the gate's stack or
    the current one, aligned to 16 bytes. *)
Definition frame_address (tss : list Z) (g : Gate) (rsp : Z) (error_code : bool) : Z :=
  let top := match gate_stack g with
             | Some i => default 0 (tss !! Z.to_nat i)
             | None => rsp
             end in
  top / 16 * 16 - (if error_code then 48 else 40).

(** [None] is a gate missing for the segment-not-present exception too. *)
Definition interrupt (idt : gmap Z Gate) (vector scancode : Z) (st : IrqState) : option (outcome HandlerEnd) :=
  (λ g, run_handler (gate_handler g) scancode st) <$> gate_for idt vector.
End handlers.

(** ** The table, looked up *)

Lemma idt_lookup cs v :
  IDT cs !! v =
    if decide (v = 33) then Some (mkGate keyboard_handler cs None)
    else if decide (v = 32) then Some (mkGate timer_handler cs None)
    else if decide (v = 8) then Some (mkGate double_fault_handler cs (Some 0))
    else if decide (v = 0) then Some (mkGate divide_error_handler cs None)
    else if decide (v = 12) then Some (mkGate stack_segment_fault_handler cs None)
    else if decide (v = 11) then Some (mkGate segment_not_present_handler cs None)
    else if decide (v = 6) then Some (mkGate invalid_opcode_handler cs None)
    else if decide (v = 13) then Some (mkGate general_protection_fault_handler cs None)
    else if decide (v = 14) then Some (mkGate page_fault_handler cs None)
    else if decide (v = 3) then Some (mkGate breakpoint_handler cs None)
    else None.
Proof.
  repeat (case_decide; [subst v; reflexivity|]).
  unfold IDT, set_handler_fn, set_stack_index. cbv zeta.
  do 2 (rewrite lookup_insert_ne by (intros Heq; cbv in Heq; lia)).
  rewrite lookup_alter_ne by (intros Heq; cbv in Heq; lia).
  do 8 (rewrite lookup_insert_ne by (intros Heq; cbv in Heq; lia)). apply lookup_empty.
Qed.

Lemma idt_selectors cs v g : IDT cs !! v = Some g → gate_selector g = cs.
Proof. rewrite idt_lookup. intros Hg. repeat case_decide; by inversion Hg. Qed.

(** ** What the tables promise *)
Section tables.
Context {T Descriptor : Type} `{!Descriptors T Descriptor, !DescriptorsLaws T Descriptor}.
Context `{!VirtAddrs, !VirtAddrsLaws}.

Lemma TSS_run STACK :
  canonical STACK → canonical (STACK + STACK_SIZE) →
  TSS STACK = Ok (<[0%nat := STACK + STACK_SIZE]> (replicate 7 0)).
Proof. intros Hs He. unfold TSS. rewrite virt_add_canonical by (done || (unfold STACK_SIZE; lia)). done. Qed.

Lemma GDT_run l :
  ∃ g s, GDT (T := T) l = Ok (g, s) ∧
    descriptor_at g (code_selector s) = Some kernel_code_segment ∧
    descriptor_at g (data_selector s) = Some kernel_data_segment ∧
    descriptor_at g (tss_selector s) = Some (tss_segment l).
Proof.
  destruct (append_three l) as (g1 & s1 & g2 & s2 & g3 & s3 & H1 & H2 & H3).
  unfold GDT. rewrite H1. cbn [mbind outcome_bind]. rewrite H2. cbn [mbind outcome_bind]. rewrite H3.
  cbn [mbind outcome_bind]. do 2 eexists. split; [done|]. cbn [code_selector data_selector tss_selector].
  apply append_lookup in H1 as L1. apply append_lookup in H2 as L2. apply append_lookup in H3 as L3.
  split_and!; [|by eapply append_frame|done].
  eapply append_frame; [exact H3|]. by eapply append_frame.
Qed.

(** C31: the descriptor tables are consistent.  After [gdt::init] the code and data
    segment registers select the kernel's code and data segments and the task
    register its task state segment (SS is not modelled); every gate of the interrupt descriptor table, built
    after that, runs with the kernel's code segment; and a double fault pushes its
    48 bytes inside the static 20 KB stack, aligned, wherever the faulting
    code's stack pointer was. *)
Theorem tables_consistent STACK :
  canonical STACK → canonical (STACK + 20480) → 0 ≤ STACK →
  ∃ seg : Segments T, gdt_init STACK = Ok seg ∧
    descriptor_at (gdtr seg) (cs seg) = Some kernel_code_segment ∧
    descriptor_at (gdtr seg) (ds seg) = Some kernel_data_segment ∧
    descriptor_at (gdtr seg) (tr seg) = Some (tss_segment (tss seg)) ∧
    (∀ v g, IDT (cs seg) !! v = Some g → gate_selector g = cs seg) ∧
    ∃ g, IDT (cs seg) !! double_fault = Some g ∧ gate_handler g = double_fault_handler ∧
      ∀ rsp, let a := frame_address (tss seg) g rsp true in
        STACK ≤ a ∧ a + 48 ≤ STACK + 20480 ∧ a mod 16 = 0.
Proof.
  intros Hs He Hpos. destruct (GDT_run (<[0%nat := STACK + STACK_SIZE]> (replicate 7 0)))
    as (g & s & Hg & Hc & Hd & Ht).
  unfold gdt_init. rewrite TSS_run by done. cbn [mbind outcome_bind]. rewrite Hg. cbn [mbind outcome_bind].
  eexists. split; [done|]. cbn [gdtr cs ds tr tss]. split_and!; [done..|apply idt_selectors|].
  eexists. split; [by rewrite idt_lookup|]. split; [done|]. intros rsp.
  unfold frame_address. cbn [gate_stack default].
  change (default 0 _) with (STACK + 20480).
  pose proof (Z.div_mod (STACK + 20480) 16 ltac:(lia)). pose proof (Z.mod_pos_bound (STACK + 20480) 16).
  split_and!; [lia|lia|]. replace (_ - 48) with (((STACK + 20480) / 16 - 3) * 16) by lia.
  apply Z.mod_mul. lia.
Qed.
End tables.

(** ** What the handlers promise *)
Section handler_theorems.
Context `{Build}.

Lemma interrupt_run cs v scancode st :
  ∃ g, gate_for (IDT cs) v = Some g ∧
    interrupt (IDT cs) v scancode st = Some (run_handler (gate_handler g) scancode st) ∧
    (v ≠ 3 → v ≠ 32 → v ≠ 33 →
       run_handler (gate_handler g) scancode st =
       if decide (v = 14) then _ ← _print (serial_locked st); Ok Halts else panic st).
Proof.
  assert (∃ g, gate_for (IDT cs) v = Some g ∧ (v ≠ 3 → v ≠ 32 → v ≠ 33 →
       run_handler (gate_handler g) scancode st =
       if decide (v = 14) then _ ← _print (serial_locked st); Ok Halts else panic st)) as (g & Hg & Hrun).
  { assert (IDT cs !! segment_not_present = Some (mkGate segment_not_present_handler cs None)) as Hnp
      by (by rewrite idt_lookup).
    unfold gate_for. rewrite Hnp, (idt_lookup cs v).
    repeat (case_decide; [eexists; split; [done|]; intros; subst v; (done || lia)|]).
    by eexists. }
  exists g. split_and!; [done| |done]. unfold interrupt. by rewrite Hg.
Qed.

(** Only breakpoints, the timer and the keyboard are survived.  Whatever
    vector is raised, some handler runs; unless it is one of these three, the
    kernel prints and stops, in a panic or for a page fault in a halt loop.  That
    includes the fourteen other lines of the interrupt controllers, spurious
    interrupts among them, which have no gate. *)
Theorem other_interrupts_stop cs v scancode st :
  serial_locked st = false → v ≠ 3 → v ≠ 32 → v ≠ 33 →
  interrupt (IDT cs) v scancode st = Some (if decide (v = 14) then Ok Halts else Panic).
Proof.
  intros Hs H3 H32 H33. destruct (interrupt_run cs v scancode st) as (g & _ & -> & Hrun).
  rewrite Hrun by done. unfold panic. rewrite Hs. by case_decide.
Qed.

(** A tick that hands the core to a task, be it the same one. *)
Definition tick_schedules (ticks : Z) (s : Scheduler) : Prop :=
  0 < ticks ∧ is_Some (current_task s) ∧ is_Some (schedule s).2.

Lemma tick_schedules_spec ticks s :
  (0 <? ticks) && schedules (Some s) = true ↔ tick_schedules ticks s.
Proof.
  unfold tick_schedules, schedules. rewrite andb_true_iff, Z.ltb_lt.
  destruct (current_task s) as [o|]; [|by split; [intros [_ ?]|intros (_ & [? ?] & _)]].
  destruct ((schedule s).2) as [i|]; [by split; [intros [? _]|intros [? _]]|].
  split; [by intros [_ ?]|by intros (_ & _ & [? ?])].
Qed.

(** When a tick hangs: it needs a lock that the interrupted code holds. *)
Definition tick_hangs (serial scheduler : bool) (ticks : Z) (s : Scheduler) : Prop :=
  (scheduler = true ∧ 0 < ticks) ∨
  (serial = true ∧ build = Dev ∧ (ticks mod 100 = 0 ∨ (scheduler = false ∧ tick_schedules ticks s))).

Lemma timer_messages_run serial scheduler ticks s :
  sched_reachable s → in_u 64 ticks →
  let st := mkIrqState serial scheduler ticks (Some s) in
  (timer_messages st = Hang ↔ tick_hangs serial scheduler ticks s) ∧ timer_messages st ≠ Panic.
Proof.
  intros Hs Ht. destruct (timer_interrupt_run ticks s Hs Ht) as (s' & events & Hrun & _).
  unfold tick_hangs, timer_messages, debug_assertions, _print. cbn [irq_ticks serial_locked scheduler_locked irq_scheduler].
  destruct scheduler.
  - unfold timer_interrupt_handler, task_yield. rewrite <- Z.ltb_lt.
    destruct (0 <? ticks), serial, build, (Z.eqb_spec (ticks mod 100) 0); simpl; (split; [|done]); naive_solver.
  - rewrite Hrun, <- tick_schedules_spec. destruct serial, build, (Z.eqb_spec (ticks mod 100) 0);
      simpl; destruct (_ && _); simpl; (split; [|done]); naive_solver.
Qed.

(** C32: interrupts and locks do not mix.  The lock of the serial port is taken with
    interrupts on, so an interrupt can come while it is held, and so can the
    lock of the scheduler be.  A key press hangs the kernel exactly when the serial
    lock is held, in every build.  A timer tick hangs it exactly when it finds the
    scheduler lock held, the very first tick excepted, or, in debug builds,
    when it finds the serial lock held and is a hundredth tick or one that
    schedules a task.  A tick never panics. *)
Theorem print_deadlock cs scancode serial scheduler ticks s :
  sched_reachable s → in_u 64 ticks →
  let st := mkIrqState serial scheduler ticks (Some s) in
  (interrupt (IDT cs) 33 scancode st = Some Hang ↔ serial = true) ∧
  (interrupt (IDT cs) 32 scancode st = Some Hang ↔
     (scheduler = true ∧ 0 < ticks) ∨
     (serial = true ∧ build = Dev ∧
      (ticks mod 100 = 0 ∨ (scheduler = false ∧ tick_schedules ticks s)))) ∧
  interrupt (IDT cs) 32 scancode st ≠ Some Panic.
Proof.
  intros Hs Ht st.
  assert (interrupt (IDT cs) 32 scancode st = Some (timer_messages st)) as ->
    by (unfold interrupt, gate_for; by rewrite idt_lookup).
  split.
  { unfold interrupt, gate_for. rewrite idt_lookup. by destruct serial. }
  destruct (timer_messages_run serial scheduler ticks s Hs Ht) as [Hhang Hpanic].
  subst st. unfold tick_hangs in Hhang. split; [|intros Heq; by injection Heq].
  rewrite <- Hhang. split; [by intros [= ->]|by intros ->].
Qed.
End handler_theorems.

(** ** A concrete table: eight slots, the first one empty *)

Inductive FlatDescriptor := FlatCode | FlatData | FlatTss (stacks : list Z).

Definition slots (d : FlatDescriptor) : list (option FlatDescriptor) :=
  match d with FlatTss _ => [Some d; None] | _ => [Some d] end.

#[global] Instance flat_descriptors : Descriptors (list (option FlatDescriptor)) FlatDescriptor := {
  GlobalDescriptorTable_new := [None];
  kernel_code_segment := FlatCode;
  kernel_data_segment := FlatData;
  tss_segment := FlatTss;
  append g d :=
    if decide (length g + length (slots d) <= 8)%nat then Ok (g ++ slots d, 8 * Z.of_nat (length g))
    else Panic;
  descriptor_at g s := mjoin (g !! Z.to_nat (s / 8))
}.

#[global] Instance flat_descriptors_laws : DescriptorsLaws (list (option FlatDescriptor)) FlatDescriptor.
Proof.
  split.
  - intros g d g' s. simpl. case_decide; [|done]. intros [= <- <-].
    rewrite Z.mul_comm, Z.div_mul, Nat2Z.id by done.
    rewrite lookup_app_r, Nat.sub_diag by done. by destruct d.
  - intros g d g' s s' d'. simpl. case_decide; [|done]. intros [= <- <-].
    destruct (g !! Z.to_nat (s' / 8)) as [o|] eqn:Hg; [|done].
    by rewrite (lookup_app_l_Some _ _ _ _ Hg).
  - intros l. do 6 eexists. simpl. done.
Qed.

#[global] Instance flat_virt_addrs : VirtAddrs := {
  virt_new a := if decide (canonical a) then Ok a else Panic;
  virt_add a b := if decide (canonical (a + b)) then Ok (a + b) else Panic
}.

#[global] Instance flat_virt_addrs_laws : VirtAddrsLaws.
Proof. split; simpl; intros; by rewrite decide_True. Qed.

Lemma tables_consistent_witness :
  ∃ seg : Segments (list (option FlatDescriptor)), gdt_init 0x300000 = Ok seg ∧
    descriptor_at (gdtr seg) (cs seg) = Some FlatCode.
Proof.
  destruct (tables_consistent 0x300000) as (seg & Hinit & Hcs & _).
  - left. lia.
  - left. lia.
  - lia.
  - exists seg. split; [exact Hinit|exact Hcs].
Defined.

Lemma other_interrupts_stop_witness :
  interrupt (H := Release) (IDT 8) 39 0 (mkIrqState false false 7 None) = Some Panic.
Proof. apply (other_interrupts_stop (H := Release) 8 39 0 (mkIrqState false false 7 None)); done. Defined.

Lemma print_deadlock_witness :
  interrupt (H := Dev) (IDT 8) 32 0 (mkIrqState true false 200 (Some two_tasks)) = Some Hang ∧
  interrupt (H := Release) (IDT 8) 32 0 (mkIrqState false true 1 (Some two_tasks)) = Some Hang.
Proof.
  split.
  - apply (print_deadlock (H := Dev) 8 0 true false 200 two_tasks two_tasks_reachable); [done|].
    right. split; [done|]. split; [done|]. by left.
  - apply (print_deadlock (H := Release) 8 0 false true 1 two_tasks two_tasks_reachable); [done|].
    left. split; [done|lia].
Defined.
