(* ===== verification/Serial.v ===== *)
(** * The serial console of the x86-64 kernel ([src/src/serial.rs])

    The lazily initialised global port behind its lock, and [_print].  The port itself
    comes from the [uart_16550] crate; what [core::fmt] renders is the list of
    strings it passes to [write_str]. *)
From S2P Require Import Prelude Exceptions.

(** [uart_16550::SerialPort]: creation, initialisation, and [write_str] with its
    answer. *)
Class SerialPorts (P : Type) := {
  SerialPort_new : Z → P;
  SerialPort_init : P → P;
  SerialPort_write_str : P → list Z → P * bool
}.

(** Documented behaviour: a port sends what it is given, in order, and writing to it
    never fails. *)
Class SerialPortsLaws (P : Type) `{!SerialPorts P} := {
  sent : P → list Z;
  init_sends base : sent (SerialPort_init (SerialPort_new base)) = [];
  write_sends p s : sent (SerialPort_write_str p s).1 = sent p ++ s;
  write_succeeds p s : (SerialPort_write_str p s).2 = true
}.

(** ** [SERIAL1] *)

(** [None] until the first use. *)
Record Console (P : Type) := mkConsole { port : option P; locked : bool }.
Arguments mkConsole {P}. Arguments port {P}. Arguments locked {P}.

Section console.
Context {P : Type} `{!SerialPorts P}.

Definition SERIAL1 (s : Console P) : P :=
  match port s with
  | Some serial_port => serial_port
  | None => SerialPort_init (SerialPort_new 0x3F8)
  end.

(** [fmt::write]: the pieces one by one, up to the first error. *)
Fixpoint write_fmt (serial_port : P) (args : list (list Z)) : P * bool :=
  match args with
  | [] => (serial_port, true)
  | piece :: args =>
      let '(serial_port, ok) := SerialPort_write_str serial_port piece in
      if ok then write_fmt serial_port args else (serial_port, false)
  end.

(** [_print].  When [expect] panics the lock is still held, and the panic handler
    prints: it spins. *)
Definition _print (args : list (list Z)) (s : Console P) : outcome (Console P) :=
  let serial_port := SERIAL1 s in
  if locked s then Hang
  else
    let '(serial_port, ok) := write_fmt serial_port args in
    if ok then Ok (mkConsole (Some serial_port) false) else Hang.

Definition serial_print (args : list (list Z)) (s : Console P) : outcome (Console P) := _print args s.
Definition serial_println (args : list (list Z)) (s : Console P) : outcome (Console P) :=
  serial_print (args ++ [[10]]) s.

(** The messages of a program, one after the other. *)
Fixpoint print_all (messages : list (list (list Z))) (s : Console P) : outcome (Console P) :=
  match messages with
  | [] => Ok s
  | m :: messages => s ← _print m s; print_all messages s
  end.

(** The static before its first use. *)
Definition fresh_console : Console P := mkConsole None false.
End console.

(** ** What the console promises *)
Section theorems.
Context {P : Type} `{!SerialPorts P, !SerialPortsLaws P}.

Lemma write_fmt_sends args (p : P) :
  sent (write_fmt p args).1 = sent p ++ concat args ∧ (write_fmt p args).2 = true.
Proof.
  revert p. induction args as [|a args IH]; intros p; simpl; [by rewrite app_nil_r|].
  pose proof (write_sends p a) as Hs. pose proof (write_succeeds p a) as Hok.
  destruct (SerialPort_write_str p a) as [p' ok]. simpl in *. subst ok.
  destruct (IH p') as [-> ->]. by rewrite Hs, app_assoc.
Qed.

Lemma print_run args (s : Console P) :
  locked s = false → ∃ p, _print args s = Ok (mkConsole (Some p) false) ∧
    sent p = sent (SERIAL1 s) ++ concat args.
Proof.
  intros Hl. unfold _print. rewrite Hl. destruct (write_fmt_sends args (SERIAL1 s)) as [Hs Hok].
  destruct (write_fmt (SERIAL1 s) args) as [p ok]. simpl in *. subst ok. by exists p.
Qed.

(** What is printed is sent: from the first use on, every message goes out
    complete and in order, and the port is set up exactly once. *)
Theorem console_prints messages :
  ∃ p, print_all messages (fresh_console (P := P)) =
      Ok (mkConsole (if decide (messages = []) then None else Some p) false) ∧
    sent p = concat (concat (A:=Z) <$> messages).
Proof.
  assert (∀ messages (s : Console P), locked s = false → messages ≠ [] →
    ∃ p, print_all messages s = Ok (mkConsole (Some p) false) ∧
      sent p = sent (SERIAL1 s) ++ concat (concat (A:=Z) <$> messages)) as Hrun.
  { clear messages. induction messages as [|m messages IH]; intros s Hl Hne; [done|]. cbn [print_all].
    destruct (print_run m s Hl) as (p & -> & Hp). cbn [mbind outcome_bind].
    destruct messages as [|m' messages].
    { exists p. split; [done|]. rewrite Hp. simpl. by rewrite app_nil_r. }
    destruct (IH (mkConsole (Some p) false)) as (p' & -> & Hp'); [done..|]. exists p'. split; [done|].
    rewrite Hp'. cbn [SERIAL1 port]. by rewrite Hp, <- app_assoc. }
  destruct (decide (messages = [])) as [->|Hne].
  { exists (SerialPort_init (SerialPort_new 0x3F8)). split; [done|]. apply init_sends. }
  destruct (Hrun messages fresh_console eq_refl Hne) as (p & -> & Hp). exists p. split; [done|].
  rewrite Hp. cbn [SERIAL1 port fresh_console]. by rewrite init_sends.
Qed.

(** The lock is all that decides whether printing returns, which is how
    the interrupt handlers see it. *)
Theorem print_refines_lock args (s : Console P) :
  (λ _, tt) <$> _print args s = Exceptions._print (locked s).
Proof.
  unfold Exceptions._print. destruct (locked s) eqn:Hl; [by unfold _print; rewrite Hl|].
  destruct (print_run args s Hl) as (p & -> & _). done.
Qed.
End theorems.

(** ** A port that keeps what it sends *)

#[global] Instance log_port : SerialPorts (list Z) := {
  SerialPort_new _ := [];
  SerialPort_init p := p;
  SerialPort_write_str p s := (p ++ s, true)
}.

#[global] Program Instance log_port_laws : SerialPortsLaws (list Z) := { sent p := p }.
Solve All Obligations with done.

Example two_lines :
  (s ← serial_println [[72; 105]] (fresh_console (P := list Z)); serial_println [[33]; [63]] s)
    = Ok (mkConsole (Some [72; 105; 10; 33; 63; 10]) false).
Proof. reflexivity. Qed.
