(* ===== verification/Ipc.v ===== *)
(** * Message passing with capability checks ([src/src/ipc.rs])

    Endpoints are bounded queues of messages kept in a global registry.  The
    registry and the scheduler each sit behind a [spin::Mutex]; the operations
    run in a small state monad over both globals and the locks held, so that
    the order in which the code takes and drops its guards is part of what is
    modelled.  Progress messages on the serial line are left out. *)
From stdpp Require Import strings.
From S2P Require Import Prelude Capability Task Scheduler.

(** ** Data *)

Definition MAX_MESSAGE_SIZE : nat := 4096.

Inductive IpcError :=
  | IpcError_MessageTooLarge
  | IpcError_QueueFull
  | IpcError_EndpointNotFound
  | IpcError_PermissionDenied
  | IpcError_NoMessage.

#[global] Instance IpcError_eq_dec : EqDecision IpcError.
Proof. solve_decision. Defined.

(** [struct Message]; a byte is an integer below 256. *)
Record Message := mkMessage {
  msg_sender : TaskId;
  msg_data : list Z;
  transferred_cap : option CapabilityId
}.

Definition Message_new (sender : TaskId) (data : list Z) : result IpcError Message :=
  if decide (MAX_MESSAGE_SIZE < length data)%nat then RErr IpcError_MessageTooLarge
  else ROk (mkMessage sender data None).

Definition Message_with_capability (sender : TaskId) (data : list Z) (cap : CapabilityId)
    : result IpcError Message :=
  if decide (MAX_MESSAGE_SIZE < length data)%nat then RErr IpcError_MessageTooLarge
  else ROk (mkMessage sender data (Some cap)).

Record IpcEndpoint := mkIpcEndpoint {
  ep_id : CapabilityId;
  ep_messages : list Message;
  ep_waiting : list TaskId;
  ep_max_queue_size : nat
}.

Definition IpcEndpoint_new (i : CapabilityId) : IpcEndpoint := mkIpcEndpoint i [] [] 16.

Definition IpcEndpoint_send (self : IpcEndpoint) (message : Message)
    : IpcEndpoint * result IpcError () :=
  if decide (ep_max_queue_size self <= length (ep_messages self))%nat then
    (self, RErr IpcError_QueueFull)
  else
    (mkIpcEndpoint (ep_id self) (ep_messages self ++ [message]) (ep_waiting self)
       (ep_max_queue_size self), ROk tt).

Definition IpcEndpoint_try_receive (self : IpcEndpoint) : IpcEndpoint * option Message :=
  match ep_messages self with
  | m :: rest =>
      (mkIpcEndpoint (ep_id self) rest (ep_waiting self) (ep_max_queue_size self), Some m)
  | [] => (self, None)
  end.

Definition IpcEndpoint_has_messages (self : IpcEndpoint) : bool :=
  negb (bool_decide (ep_messages self = [])).

Definition IpcEndpoint_add_waiter (self : IpcEndpoint) (task : TaskId) : IpcEndpoint :=
  if bool_decide (task ∈ ep_waiting self) then self
  else mkIpcEndpoint (ep_id self) (ep_messages self) (ep_waiting self ++ [task])
         (ep_max_queue_size self).

Definition IpcEndpoint_take_waiters (self : IpcEndpoint) : IpcEndpoint * list TaskId :=
  (mkIpcEndpoint (ep_id self) (ep_messages self) [] (ep_max_queue_size self),
   ep_waiting self).

Record IpcRegistry := mkIpcRegistry { endpoints : list IpcEndpoint }.

Definition IpcRegistry_new : IpcRegistry := mkIpcRegistry [].

Definition IpcRegistry_create_endpoint (self : IpcRegistry) (cap_id : CapabilityId)
    : IpcRegistry * CapabilityId :=
  (mkIpcRegistry (endpoints self ++ [IpcEndpoint_new cap_id]), cap_id).

Definition IpcRegistry_get_endpoint (self : IpcRegistry) (cap_id : CapabilityId)
    : option IpcEndpoint := find_key ep_id cap_id (endpoints self).

(** [get_endpoint_mut(id)] followed by storing [ep] through the reference. *)
Definition IpcRegistry_set_endpoint (self : IpcRegistry) (cap_id : CapabilityId)
    (ep : IpcEndpoint) : IpcRegistry :=
  mkIpcRegistry (modify_key ep_id cap_id (λ _, ep) (endpoints self)).

(** ** The globals, their locks and the kernel monad *)

Inductive Lock := IPC_REGISTRY | SCHEDULER.

#[global] Instance Lock_eq_dec : EqDecision Lock.
Proof. solve_decision. Defined.

Inductive LockEvent := Acquired (l : Lock) | Released (l : Lock).

Record Kernel := mkKernel {
  k_registry : option IpcRegistry;
  k_scheduler : option Scheduler;
  k_held : list Lock;
  k_trace : list LockEvent
}.

Definition K (A : Type) : Type := Kernel → outcome (A * Kernel).

#[global] Instance K_ret : MRet K := λ A a k, Ok (a, k).
#[global] Instance K_bind : MBind K := λ A B f m k,
  match m k with Ok (a, k) => f a k | Panic => Panic | Hang => Hang end.

Definition k_lift {A} (m : outcome A) : K A :=
  λ k, match m with Ok a => Ok (a, k) | Panic => Panic | Hang => Hang end.

(** [spin::Mutex::lock] on the only core: a lock that is already held is never
    released while we spin. *)
Definition k_lock (l : Lock) : K () := λ k,
  if decide (l ∈ k_held k) then Hang
  else Ok (tt, mkKernel (k_registry k) (k_scheduler k) (l :: k_held k)
                 (k_trace k ++ [Acquired l])).

Definition k_unlock (l : Lock) : K () := λ k,
  Ok (tt, mkKernel (k_registry k) (k_scheduler k) (filter (λ l', l' ≠ l) (k_held k))
            (k_trace k ++ [Released l])).

(** A guard: taken before [body], dropped on every way out of it. *)
Definition with_guard {A} (l : Lock) (body : K A) : K A :=
  _ ← k_lock l; a ← body; _ ← k_unlock l; mret a.

Definition get_registry : K (option IpcRegistry) := λ k, Ok (k_registry k, k).
Definition set_registry (r : IpcRegistry) : K () := λ k,
  Ok (tt, mkKernel (Some r) (k_scheduler k) (k_held k) (k_trace k)).
Definition get_scheduler : K (option Scheduler) := λ k, Ok (k_scheduler k, k).
Definition set_scheduler (s : Scheduler) : K () := λ k,
  Ok (tt, mkKernel (k_registry k) (Some s) (k_held k) (k_trace k)).

(** [SCHEDULER.lock().as_mut().unwrap().f()], one statement. *)
Definition on_scheduler (f : Scheduler → Scheduler) : K () :=
  with_guard SCHEDULER (
    guard ← get_scheduler;
    s ← k_lift (unwrap guard);
    set_scheduler (f s)).

Fixpoint k_for {A} (l : list A) (body : A → K ()) : K () :=
  match l with
  | [] => mret tt
  | x :: l => _ ← body x; k_for l body
  end.

(** ** Operations on the globals *)

Definition ipc_init : K () := with_guard IPC_REGISTRY (set_registry IpcRegistry_new).

Definition create_endpoint (cap_id : CapabilityId) : K (result IpcError CapabilityId) :=
  with_guard IPC_REGISTRY (
    registry ← get_registry;
    match registry with
    | None => mret (RErr IpcError_EndpointNotFound)
    | Some registry =>
        let '(registry, i) := IpcRegistry_create_endpoint registry cap_id in
        _ ← set_registry registry;
        mret (ROk i)
    end).

(** [send_message].  The registry guard lives to the end of the function: the
    statement [let _ = registry;] does not drop it. *)
Definition send_message (sender : TaskId) (sender_cspace : CSpace)
    (endpoint_cap : CapabilityId) (data : list Z) : K (result IpcError ()) :=
  match CSpace_get sender_cspace endpoint_cap with
  | None => mret (RErr IpcError_PermissionDenied)
  | Some cap =>
      if negb (bool_decide (Capability_resource_type cap = ResourceType_Endpoint)) then
        mret (RErr IpcError_PermissionDenied)
      else if negb (Rights_write (Capability_rights cap)) then
        mret (RErr IpcError_PermissionDenied)
      else
        let target := CapabilityId_new (Capability_resource_id cap) in
        with_guard IPC_REGISTRY (
          registry ← get_registry;
          match registry with
          | None => mret (RErr IpcError_EndpointNotFound)
          | Some registry =>
              match IpcRegistry_get_endpoint registry target with
              | None => mret (RErr IpcError_EndpointNotFound)
              | Some endpoint =>
                  match Message_new sender data with
                  | RErr e => mret (RErr e)
                  | ROk message =>
                      match IpcEndpoint_send endpoint message with
                      | (_, RErr e) => mret (RErr e)
                      | (endpoint, ROk _) =>
                          let '(endpoint, waiters) := IpcEndpoint_take_waiters endpoint in
                          _ ← set_registry (IpcRegistry_set_endpoint registry target endpoint);
                          _ ← k_for waiters (λ task_id,
                                on_scheduler (λ s, unblock_task s task_id));
                          mret (ROk tt)
                      end
                  end
              end
          end)
  end.

Definition try_receive_message (_receiver : TaskId) (receiver_cspace : CSpace)
    (endpoint_cap : CapabilityId) : K (result IpcError (option Message)) :=
  match CSpace_get receiver_cspace endpoint_cap with
  | None => mret (RErr IpcError_PermissionDenied)
  | Some cap =>
      if negb (bool_decide (Capability_resource_type cap = ResourceType_Endpoint)) then
        mret (RErr IpcError_PermissionDenied)
      else if negb (Rights_read (Capability_rights cap)) then
        mret (RErr IpcError_PermissionDenied)
      else
        let target := CapabilityId_new (Capability_resource_id cap) in
        with_guard IPC_REGISTRY (
          registry ← get_registry;
          match registry with
          | None => mret (RErr IpcError_EndpointNotFound)
          | Some registry =>
              match IpcRegistry_get_endpoint registry target with
              | None => mret (RErr IpcError_EndpointNotFound)
              | Some endpoint =>
                  let '(endpoint, m) := IpcEndpoint_try_receive endpoint in
                  _ ← set_registry (IpcRegistry_set_endpoint registry target endpoint);
                  mret (ROk m)
              end
          end)
  end.

(** The loop of [receive_message_blocking]: [None] when [fuel] iterations went
    by without a return, with the state they leave. *)
Fixpoint receive_loop (fuel : nat) (receiver : TaskId) (receiver_cspace : CSpace)
    (endpoint_cap target : CapabilityId) : K (option (result IpcError Message)) :=
  match fuel with
  | O => mret None
  | S fuel =>
      r ← try_receive_message receiver receiver_cspace endpoint_cap;
      match r with
      | RErr e => mret (Some (RErr e))
      | ROk (Some msg) => mret (Some (ROk msg))
      | ROk None =>
          registered ← with_guard IPC_REGISTRY (
            registry ← get_registry;
            match registry with
            | None => mret (RErr IpcError_EndpointNotFound)
            | Some registry =>
                match IpcRegistry_get_endpoint registry target with
                | None => mret (RErr IpcError_EndpointNotFound)
                | Some endpoint =>
                    let endpoint := IpcEndpoint_add_waiter endpoint receiver in
                    _ ← set_registry (IpcRegistry_set_endpoint registry target endpoint);
                    mret (ROk tt)
                end
            end);
          match registered with
          | RErr e => mret (Some (RErr e))
          | ROk _ =>
              _ ← on_scheduler block_current;
              receive_loop fuel receiver receiver_cspace endpoint_cap target
          end
      end
  end.

Definition receive_message_blocking (fuel : nat) (receiver : TaskId)
    (receiver_cspace : CSpace) (endpoint_cap : CapabilityId)
    : K (option (result IpcError Message)) :=
  match CSpace_get receiver_cspace endpoint_cap with
  | None => mret (Some (RErr IpcError_PermissionDenied))
  | Some cap =>
      if negb (bool_decide (Capability_resource_type cap = ResourceType_Endpoint)) then
        mret (Some (RErr IpcError_PermissionDenied))
      else if negb (Rights_read (Capability_rights cap)) then
        mret (Some (RErr IpcError_PermissionDenied))
      else
        let target := CapabilityId_new (Capability_resource_id cap) in
        receive_loop fuel receiver receiver_cspace endpoint_cap target
  end.

#[global] Arguments create_endpoint : simpl never.
#[global] Arguments send_message : simpl never.
#[global] Arguments try_receive_message : simpl never.

(** ** Running the operations on an idle kernel

    A kernel whose registry and scheduler are initialised and whose locks are
    free. *)
Definition idle (r : IpcRegistry) (s : Scheduler) (tr : list LockEvent) : Kernel :=
  mkKernel (Some r) (Some s) [] tr.

(** The endpoint a capability of [cspace] names for an operation that needs
    [right]: the check both [send_message] and [try_receive_message] begin
    with. *)
Definition ipc_target (right : Rights → bool) (cspace : CSpace) (endpoint_cap : CapabilityId)
    : option CapabilityId :=
  cap ← CSpace_get cspace endpoint_cap;
  if decide (Capability_resource_type cap = ResourceType_Endpoint) then
    if right (Capability_rights cap) then
      Some (CapabilityId_new (Capability_resource_id cap))
    else None
  else None.

Lemma ipc_target_Some right cspace c t :
  ipc_target right cspace c = Some t ↔
  ∃ cap, CSpace_get cspace c = Some cap ∧
    Capability_resource_type cap = ResourceType_Endpoint ∧
    right (Capability_rights cap) = true ∧ t = CapabilityId_new (Capability_resource_id cap).
Proof.
  unfold ipc_target. split.
  - destruct (CSpace_get cspace c) as [cap|]; simpl; [|done]. case_decide; [|done].
    destruct (right _) eqn:Hr; [|done]. intros [= <-]. by exists cap.
  - intros (cap & -> & Ht & Hr & ->). simpl. by rewrite decide_True, Hr.
Qed.

(** What waking the tasks [l] writes to the lock trace. *)
Definition wake_events (l : list TaskId) : list LockEvent :=
  l ≫= λ _, [Acquired SCHEDULER; Released SCHEDULER].

Definition deliver (ep : IpcEndpoint) (m : Message) : IpcEndpoint :=
  mkIpcEndpoint (ep_id ep) (ep_messages ep ++ [m]) [] (ep_max_queue_size ep).

Definition registry_section (tr : list LockEvent) : list LockEvent :=
  tr ++ [Acquired IPC_REGISTRY; Released IPC_REGISTRY].

Lemma k_for_unblock l r s tr :
  k_for l (λ i, on_scheduler (λ s, unblock_task s i))
    (mkKernel r (Some s) [IPC_REGISTRY] tr) =
  Ok (tt, mkKernel r (Some (foldl unblock_task s l)) [IPC_REGISTRY] (tr ++ wake_events l)).
Proof.
  revert s tr. induction l as [|i l IH]; intros s tr; simpl.
  { by rewrite app_nil_r. }
  unfold mbind, K_bind in *. simpl. rewrite IH. by rewrite <- !app_assoc.
Qed.

Lemma send_message_run sender cspace c data r s tr :
  send_message sender cspace c data (idle r s tr) =
  match ipc_target Rights_write cspace c with
  | None => Ok (RErr IpcError_PermissionDenied, idle r s tr)
  | Some target =>
      match IpcRegistry_get_endpoint r target with
      | None => Ok (RErr IpcError_EndpointNotFound, idle r s (registry_section tr))
      | Some ep =>
          if decide (MAX_MESSAGE_SIZE < length data)%nat then
            Ok (RErr IpcError_MessageTooLarge, idle r s (registry_section tr))
          else if decide (ep_max_queue_size ep <= length (ep_messages ep))%nat then
            Ok (RErr IpcError_QueueFull, idle r s (registry_section tr))
          else
            Ok (ROk tt,
                idle (IpcRegistry_set_endpoint r target
                        (deliver ep (mkMessage sender data None)))
                  (foldl unblock_task s (ep_waiting ep))
                  (tr ++ [Acquired IPC_REGISTRY] ++ wake_events (ep_waiting ep) ++
                     [Released IPC_REGISTRY]))
      end
  end.
Proof.
  unfold send_message, ipc_target, registry_section.
  destruct (CSpace_get cspace c) as [cap|]; [|done]. simpl.
  case_bool_decide; [rewrite decide_True by done | by rewrite decide_False].
  simpl. destruct (Rights_write _); [|done]. simpl.
  unfold with_guard, mbind, K_bind, get_registry, idle. simpl.
  destruct (IpcRegistry_get_endpoint r _) as [ep|]; simpl; [|by rewrite <- app_assoc].
  unfold Message_new. case_decide; simpl; [by rewrite <- app_assoc|].
  unfold IpcEndpoint_send. case_decide; simpl; [by rewrite <- app_assoc|].
  unfold K_bind. rewrite k_for_unblock. simpl. by rewrite <- !app_assoc.
Qed.

Definition popped (ep : IpcEndpoint) : IpcEndpoint := (IpcEndpoint_try_receive ep).1.

Lemma try_receive_run receiver cspace c r s tr :
  try_receive_message receiver cspace c (idle r s tr) =
  match ipc_target Rights_read cspace c with
  | None => Ok (RErr IpcError_PermissionDenied, idle r s tr)
  | Some target =>
      match IpcRegistry_get_endpoint r target with
      | None => Ok (RErr IpcError_EndpointNotFound, idle r s (registry_section tr))
      | Some ep =>
          Ok (ROk (head (ep_messages ep)),
              idle (IpcRegistry_set_endpoint r target (popped ep)) s (registry_section tr))
      end
  end.
Proof.
  unfold try_receive_message, ipc_target, registry_section.
  destruct (CSpace_get cspace c) as [cap|]; [|done]. simpl.
  case_bool_decide; [rewrite decide_True by done | by rewrite decide_False].
  simpl. destruct (Rights_read _); [|done]. simpl.
  unfold with_guard, mbind, K_bind, get_registry, idle. simpl.
  destruct (IpcRegistry_get_endpoint r _) as [ep|]; simpl; [|by rewrite <- app_assoc].
  unfold popped, IpcEndpoint_try_receive. destruct (ep_messages ep); simpl; by rewrite <- app_assoc.
Qed.

Lemma create_endpoint_run c r s tr :
  create_endpoint c (idle r s tr) =
  Ok (ROk c, idle (IpcRegistry_create_endpoint r c).1 s (registry_section tr)).
Proof.
  unfold create_endpoint, with_guard, mbind, K_bind, idle, registry_section. simpl.
  by rewrite <- app_assoc.
Qed.

(** ** The abstract specification: mailboxes

    To its clients the registry is a finite map from endpoint ids to bounded
    queues of messages. *)
Abbreviation Mailboxes := (gmap CapabilityId (list Message)).

Definition mailbox_capacity : nat := 16.

Definition spec_create (m : Mailboxes) (c : CapabilityId) : Mailboxes :=
  match m !! c with Some _ => m | None => <[c := []]> m end.

Definition spec_send (m : Mailboxes) (target : CapabilityId) (msg : Message)
    : Mailboxes * result IpcError () :=
  match m !! target with
  | None => (m, RErr IpcError_EndpointNotFound)
  | Some q =>
      if decide (MAX_MESSAGE_SIZE < length (msg_data msg))%nat then
        (m, RErr IpcError_MessageTooLarge)
      else if decide (mailbox_capacity <= length q)%nat then (m, RErr IpcError_QueueFull)
      else (<[target := q ++ [msg]]> m, ROk tt)
  end.

Definition spec_receive (m : Mailboxes) (target : CapabilityId)
    : Mailboxes * result IpcError (option Message) :=
  match m !! target with
  | None => (m, RErr IpcError_EndpointNotFound)
  | Some q => (<[target := tail q]> m, ROk (head q))
  end.

Inductive ipc_request :=
  | Req_create (c : CapabilityId)
  | Req_send (sender : TaskId) (cspace : CSpace) (c : CapabilityId) (data : list Z)
  | Req_receive (receiver : TaskId) (cspace : CSpace) (c : CapabilityId).

Inductive ipc_reply :=
  | Rep_create (r : result IpcError CapabilityId)
  | Rep_send (r : result IpcError ())
  | Rep_receive (r : result IpcError (option Message)).

Definition spec_step (m : Mailboxes) (q : ipc_request) : Mailboxes * ipc_reply :=
  match q with
  | Req_create c => (spec_create m c, Rep_create (ROk c))
  | Req_send sender cspace c data =>
      match ipc_target Rights_write cspace c with
      | None => (m, Rep_send (RErr IpcError_PermissionDenied))
      | Some t =>
          let '(m, r) := spec_send m t (mkMessage sender data None) in (m, Rep_send r)
      end
  | Req_receive _ cspace c =>
      match ipc_target Rights_read cspace c with
      | None => (m, Rep_receive (RErr IpcError_PermissionDenied))
      | Some t => let '(m, r) := spec_receive m t in (m, Rep_receive r)
      end
  end.

Fixpoint spec_run (m : Mailboxes) (l : list ipc_request) : Mailboxes * list ipc_reply :=
  match l with
  | [] => (m, [])
  | q :: l =>
      let '(m, r) := spec_step m q in
      let '(m, rs) := spec_run m l in (m, r :: rs)
  end.

(** The same requests on the code. *)
Definition ipc_call (q : ipc_request) : K ipc_reply :=
  match q with
  | Req_create c => r ← create_endpoint c; mret (Rep_create r)
  | Req_send sender cspace c data =>
      r ← send_message sender cspace c data; mret (Rep_send r)
  | Req_receive receiver cspace c =>
      r ← try_receive_message receiver cspace c; mret (Rep_receive r)
  end.

Fixpoint ipc_calls (l : list ipc_request) : K (list ipc_reply) :=
  match l with
  | [] => mret []
  | q :: l => r ← ipc_call q; rs ← ipc_calls l; mret (r :: rs)
  end.

(** The abstraction function: the first endpoint with an id is the one every
    operation reaches. *)
Definition mailboxes (r : IpcRegistry) : Mailboxes :=
  list_to_map ((λ ep, (ep_id ep, ep_messages ep)) <$> endpoints r).

Lemma mailboxes_lookup r c :
  mailboxes r !! c = ep_messages <$> IpcRegistry_get_endpoint r c.
Proof.
  unfold mailboxes, IpcRegistry_get_endpoint, find_key, has_key.
  induction (endpoints r) as [|ep l IH]; [apply lookup_empty|].
  csimpl. case_bool_decide as Hc; simpl.
  - rewrite <- Hc. apply lookup_insert_eq.
  - by rewrite lookup_insert_ne.
Qed.

Lemma get_create_endpoint r c c' :
  IpcRegistry_get_endpoint (IpcRegistry_create_endpoint r c).1 c' =
  match IpcRegistry_get_endpoint r c' with
  | Some ep => Some ep
  | None => if decide (c' = c) then Some (IpcEndpoint_new c) else None
  end.
Proof.
  unfold IpcRegistry_get_endpoint. simpl. rewrite find_key_app.
  destruct (find_key _ _ _); [done|]. unfold find_key, has_key. simpl.
  destruct (decide (c' = c)) as [->|Hne]; [by rewrite bool_decide_eq_true_2|].
  by rewrite bool_decide_eq_false_2 by congruence.
Qed.

Lemma get_set_endpoint r c c' ep ep' :
  IpcRegistry_get_endpoint r c = Some ep → ep_id ep' = c →
  IpcRegistry_get_endpoint (IpcRegistry_set_endpoint r c ep') c' =
  if decide (c' = c) then Some ep' else IpcRegistry_get_endpoint r c'.
Proof.
  intros Hep Hid. unfold IpcRegistry_get_endpoint, IpcRegistry_set_endpoint in *. simpl.
  unfold find_key, modify_key, has_key in *.
  induction (endpoints r) as [|e l IH]; simpl in *; [done|].
  destruct (decide (ep_id e = c)) as [He|He].
  - rewrite (bool_decide_eq_true_2 (ep_id e = c)) by done. simpl. rewrite Hid, He.
    destruct (decide (c' = c)) as [->|Hne]; [by rewrite bool_decide_eq_true_2|].
    by rewrite !bool_decide_eq_false_2 by congruence.
  - rewrite (bool_decide_eq_false_2 (ep_id e = c)) in * by done. simpl. rewrite IH by done.
    destruct (decide (c' = c)) as [->|Hne]; [|done]. by rewrite bool_decide_eq_false_2.
Qed.

Lemma mailboxes_create r c :
  mailboxes (IpcRegistry_create_endpoint r c).1 = spec_create (mailboxes r) c.
Proof.
  apply map_eq. intros c'.
  rewrite mailboxes_lookup, get_create_endpoint. unfold spec_create. rewrite mailboxes_lookup.
  destruct (decide (c' = c)) as [->|Hne].
  - destruct (IpcRegistry_get_endpoint r c) eqn:Hc; simpl.
    + by rewrite mailboxes_lookup, Hc.
    + by rewrite lookup_insert_eq.
  - destruct (IpcRegistry_get_endpoint r c) eqn:Hc; simpl;
      rewrite ?lookup_insert_ne by done; rewrite mailboxes_lookup;
      by destruct (IpcRegistry_get_endpoint r c').
Qed.

Lemma mailboxes_set r c ep ep' :
  IpcRegistry_get_endpoint r c = Some ep → ep_id ep' = c →
  mailboxes (IpcRegistry_set_endpoint r c ep') = <[c := ep_messages ep']> (mailboxes r).
Proof.
  intros Hep Hid. apply map_eq. intros c'.
  rewrite mailboxes_lookup, (get_set_endpoint r c c' ep ep') by done.
  destruct (decide (c' = c)) as [->|Hne].
  - by rewrite lookup_insert_eq.
  - by rewrite lookup_insert_ne, mailboxes_lookup.
Qed.

Lemma get_endpoint_id r c ep : IpcRegistry_get_endpoint r c = Some ep → ep_id ep = c.
Proof. by intros [_ ?]%find_key_Some. Qed.

(** ** Well-formed registries *)

Definition message_ok (m : Message) : Prop := (length (msg_data m) <= MAX_MESSAGE_SIZE)%nat.

Record endpoint_ok (ep : IpcEndpoint) : Prop := {
  ok_capacity : ep_max_queue_size ep = mailbox_capacity;
  ok_queue : (length (ep_messages ep) <= mailbox_capacity)%nat;
  ok_messages : Forall message_ok (ep_messages ep);
  ok_waiters : NoDup (ep_waiting ep)
}.

Definition registry_ok (r : IpcRegistry) : Prop := Forall endpoint_ok (endpoints r).

Lemma registry_ok_new : registry_ok IpcRegistry_new.
Proof. apply Forall_nil_2. Qed.

Lemma endpoint_ok_new c : endpoint_ok (IpcEndpoint_new c).
Proof. split; simpl; [done | lia | apply Forall_nil_2 | apply NoDup_nil_2]. Qed.

Lemma endpoint_ok_deliver ep m :
  endpoint_ok ep → message_ok m → (length (ep_messages ep) < mailbox_capacity)%nat →
  endpoint_ok (deliver ep m).
Proof.
  intros [? ? ? ?] Hm Hlen. split; simpl; [done| | |apply NoDup_nil_2].
  - rewrite length_app. simpl. lia.
  - apply Forall_app. auto.
Qed.

Lemma popped_eq ep :
  popped ep = mkIpcEndpoint (ep_id ep) (tail (ep_messages ep)) (ep_waiting ep)
    (ep_max_queue_size ep).
Proof. unfold popped, IpcEndpoint_try_receive. by destruct ep as [? [] ? ?]. Qed.

Lemma endpoint_ok_popped ep : endpoint_ok ep → endpoint_ok (popped ep).
Proof.
  intros [? ? ? ?]. rewrite popped_eq. split; simpl; [done| | |done].
  - destruct (ep_messages ep); simpl in *; lia.
  - by destruct (ok_messages0).
Qed.

Lemma endpoint_ok_add_waiter ep i : endpoint_ok ep → endpoint_ok (IpcEndpoint_add_waiter ep i).
Proof.
  intros [? ? ? ?]. unfold IpcEndpoint_add_waiter. case_bool_decide; [done|].
  split; simpl; [done..|]. apply NoDup_app. split_and!; [done| |apply NoDup_singleton].
  by intros j Hj ->%list_elem_of_singleton.
Qed.

Lemma registry_ok_get r c ep :
  registry_ok r → IpcRegistry_get_endpoint r c = Some ep → endpoint_ok ep.
Proof.
  intros Hr [Hin _]%find_key_Some. by apply (proj1 (Forall_forall _ _) Hr).
Qed.

Lemma registry_ok_set r c ep :
  registry_ok r → endpoint_ok ep → registry_ok (IpcRegistry_set_endpoint r c ep).
Proof. intros Hr Hep. by apply Forall_modify_key. Qed.

Lemma registry_ok_create r c :
  registry_ok r → registry_ok (IpcRegistry_create_endpoint r c).1.
Proof.
  intros Hr. apply Forall_app. split; [done|]. apply Forall_singleton, endpoint_ok_new.
Qed.

#[export] Hint Resolve registry_ok_new endpoint_ok_new endpoint_ok_deliver endpoint_ok_popped
  endpoint_ok_add_waiter registry_ok_get registry_ok_set registry_ok_create : jericho.

Lemma foldl_unblock_inv l s : sched_inv s → sched_inv (foldl unblock_task s l).
Proof. revert s. induction l; simpl; auto with jericho. Qed.

(** ** One request *)

Lemma ipc_call_refines q r s tr :
  registry_ok r →
  ∃ r' s' tr', ipc_call q (idle r s tr) =
      Ok ((spec_step (mailboxes r) q).2, idle r' s' tr') ∧
    registry_ok r' ∧ mailboxes r' = (spec_step (mailboxes r) q).1 ∧
    (sched_inv s → sched_inv s').
Proof.
  intros Hr. unfold ipc_call, mbind, K_bind. destruct q as [c|snd cspace c data|rcv cspace c]; simpl.
  - do 3 eexists.
    split; [reflexivity|]. split_and!; [by apply registry_ok_create | apply (mailboxes_create r c) | done].
  - rewrite send_message_run. destruct (ipc_target _ _ _) as [t|]; simpl; [|by eauto 10].
    unfold spec_send. rewrite mailboxes_lookup.
    destruct (IpcRegistry_get_endpoint r t) as [ep|] eqn:Hep; simpl; [|by eauto 10].
    pose proof (registry_ok_get _ _ _ Hr Hep) as Hok. rewrite (ok_capacity _ Hok).
    case_decide; [by eauto 10|]. case_decide; [by eauto 10|].
    do 3 eexists. split; [reflexivity|]. simpl. split_and!.
    + apply registry_ok_set; [done|]. apply endpoint_ok_deliver; [done| |lia].
      unfold message_ok. simpl. lia.
    + rewrite (mailboxes_set r t ep); [done..|]. exact (get_endpoint_id _ _ _ Hep).
    + apply foldl_unblock_inv.
  - rewrite try_receive_run. destruct (ipc_target _ _ _) as [t|]; simpl; [|by eauto 10].
    unfold spec_receive. rewrite mailboxes_lookup.
    destruct (IpcRegistry_get_endpoint r t) as [ep|] eqn:Hep; simpl; [|by eauto 10].
    do 3 eexists. split; [reflexivity|]. split_and!; [eauto with jericho| |done].
    rewrite (mailboxes_set r t ep); [by rewrite popped_eq|done|].
    rewrite popped_eq. exact (get_endpoint_id _ _ _ Hep).
Qed.

Lemma ipc_calls_refine l r s tr :
  registry_ok r →
  ∃ r' s' tr', ipc_calls l (idle r s tr) =
      Ok ((spec_run (mailboxes r) l).2, idle r' s' tr') ∧
    registry_ok r' ∧ mailboxes r' = (spec_run (mailboxes r) l).1 ∧
    (sched_inv s → sched_inv s').
Proof.
  revert r s tr. induction l as [|q l IH]; intros r s tr Hr.
  { exists r, s, tr. done. }
  destruct (ipc_call_refines q r s tr Hr) as (r1 & s1 & tr1 & Hq & Hr1 & Hm1 & Hs1).
  destruct (IH r1 s1 tr1 Hr1) as (r2 & s2 & tr2 & Hl & Hr2 & Hm2 & Hs2).
  exists r2, s2, tr2. simpl. unfold mbind, K_bind in *. rewrite Hq, Hl. rewrite Hm1 in *.
  destruct (spec_step (mailboxes r) q) as [m1 rep]. simpl in *.
  destruct (spec_run m1 l) as [m2 reps]. simpl in *. split_and!; auto.
Qed.

(** ** What the component promises *)

(** C1: the endpoint registry implements a map of bounded mailboxes.  On a
    kernel whose locks are free, any sequence of endpoint creations, sends and
    receives answers exactly what the specification answers, leaves the
    specified mailboxes, releases both locks again, never panics or spins, and
    keeps the scheduler's invariant. *)
Theorem ipc_refines_mailboxes l r s tr :
  registry_ok r → sched_inv s →
  ∃ r' s' tr', ipc_calls l (idle r s tr) =
      Ok ((spec_run (mailboxes r) l).2, idle r' s' tr') ∧
    registry_ok r' ∧ mailboxes r' = (spec_run (mailboxes r) l).1 ∧ sched_inv s'.
Proof.
  intros Hr Hs. destruct (ipc_calls_refine l r s tr Hr) as (r' & s' & tr' & H1 & H2 & H3 & H4).
  exists r', s', tr'. auto.
Qed.

(** The messages that request [q], answered [rep], adds to and takes from
    endpoint [t]. *)
Definition accepted (t : CapabilityId) (q : ipc_request) (rep : ipc_reply) : list Message :=
  match q, rep with
  | Req_send sender cspace c data, Rep_send (ROk _) =>
      if decide (ipc_target Rights_write cspace c = Some t) then [mkMessage sender data None]
      else []
  | _, _ => []
  end.

Definition received (t : CapabilityId) (q : ipc_request) (rep : ipc_reply) : list Message :=
  match q, rep with
  | Req_receive _ cspace c, Rep_receive (ROk (Some m)) =>
      if decide (ipc_target Rights_read cspace c = Some t) then [m] else []
  | _, _ => []
  end.

Definition along {A} (f : ipc_request → ipc_reply → list A) (l : list ipc_request)
    (reps : list ipc_reply) : list A := concat (zip_with f l reps).

Lemma spec_step_fifo m q t q0 :
  m !! t = Some q0 →
  ∃ q1, (spec_step m q).1 !! t = Some q1 ∧
    q0 ++ accepted t q (spec_step m q).2 = received t q (spec_step m q).2 ++ q1.
Proof.
  intros Hm. assert (∃ q1, m !! t = Some q1 ∧ q0 ++ [] = [] ++ q1) as Hsame.
  { exists q0. by rewrite app_nil_r. }
  destruct q as [c|snd cspace c data|rcv cspace c]; simpl.
  - unfold spec_create. destruct (decide (c = t)) as [->|Hne]; [by rewrite Hm|].
    destruct (m !! c); [done|]. by rewrite lookup_insert_ne.
  - destruct (ipc_target _ _ _) as [t'|]; simpl; [|done]. unfold spec_send.
    destruct (m !! t') as [q'|] eqn:Hm'; simpl; [|done].
    case_decide; [done|]. case_decide; [done|]. simpl.
    destruct (decide (t' = t)) as [->|Hne].
    + rewrite decide_True, lookup_insert_eq by done. rewrite Hm in Hm'. injection Hm' as <-.
      by eexists.
    + rewrite decide_False by congruence. by rewrite lookup_insert_ne.
  - destruct (ipc_target _ _ _) as [t'|]; simpl; [|done]. unfold spec_receive.
    destruct (m !! t') as [q'|] eqn:Hm'; simpl; [|done].
    destruct (decide (t' = t)) as [->|Hne].
    + rewrite lookup_insert_eq. rewrite Hm in Hm'. injection Hm' as <-. exists (tail q0).
      split; [done|]. destruct q0; simpl; [done|]. by rewrite decide_True, app_nil_r.
    + rewrite lookup_insert_ne by done. destruct (head q'); [|done].
      by rewrite decide_False by congruence.
Qed.

Lemma spec_run_fifo l m t q0 :
  m !! t = Some q0 →
  ∃ q1, (spec_run m l).1 !! t = Some q1 ∧
    q0 ++ along (accepted t) l (spec_run m l).2 = along (received t) l (spec_run m l).2 ++ q1.
Proof.
  unfold along. revert m q0. induction l as [|q l IH]; intros m q0 Hm; simpl.
  { exists q0. by rewrite app_nil_r. }
  destruct (spec_step_fifo m q t q0 Hm) as (q1 & Hq1 & Heq).
  destruct (spec_step m q) as [m1 rep]. simpl in *.
  destruct (IH m1 q1 Hq1) as (q2 & Hq2 & Heq2).
  destruct (spec_run m1 l) as [m2 reps]. simpl in *. exists q2. split; [done|].
  by rewrite (assoc_L (++)), Heq, <- (assoc_L (++)), Heq2, (assoc_L (++)).
Qed.

(** End-to-end FIFO delivery.  Over any sequence of requests the messages
    an endpoint held at the start, followed by those it accepted, are exactly
    the messages it delivered, in that order, followed by those it still
    holds: nothing is lost, duplicated, reordered or forged. *)
Theorem ipc_fifo l r s tr t ep :
  registry_ok r → IpcRegistry_get_endpoint r t = Some ep →
  ∃ reps r' s' tr' ep', ipc_calls l (idle r s tr) = Ok (reps, idle r' s' tr') ∧
    IpcRegistry_get_endpoint r' t = Some ep' ∧
    ep_messages ep ++ along (accepted t) l reps =
      along (received t) l reps ++ ep_messages ep'.
Proof.
  intros Hr Hep. destruct (ipc_calls_refine l r s tr Hr) as (r' & s' & tr' & Hl & _ & Hm & _).
  destruct (spec_run_fifo l (mailboxes r) t (ep_messages ep)) as (q1 & Hq1 & Heq).
  { by rewrite mailboxes_lookup, Hep. }
  rewrite <- Hm, mailboxes_lookup in Hq1. apply fmap_Some in Hq1 as (ep' & Hep' & ->).
  by exists (spec_run (mailboxes r) l).2, r', s', tr', ep'.
Qed.

(** C40: bounded memory.  From [ipc_init] on, whatever the requests, no endpoint
    ever holds more than 16 messages and no message more than 4096 bytes. *)
Theorem ipc_bounded l r0 s tr0 :
  ∃ reps r' s' tr',
    (_ ← ipc_init; ipc_calls l) (mkKernel r0 (Some s) [] tr0) = Ok (reps, idle r' s' tr') ∧
    ∀ ep, ep ∈ endpoints r' →
      (length (ep_messages ep) <= 16)%nat ∧
      ∀ m, m ∈ ep_messages ep → (length (msg_data m) <= 4096)%nat.
Proof.
  destruct (ipc_calls_refine l IpcRegistry_new s
    ((tr0 ++ [Acquired IPC_REGISTRY]) ++ [Released IPC_REGISTRY]) registry_ok_new)
    as (r' & s' & tr' & Hl & Hr & _ & _).
  eexists _, r', s', tr'. split; [exact Hl|]. intros ep Hep.
  destruct (proj1 (Forall_forall _ _) Hr ep Hep) as [_ Hq Hms _]. split; [done|].
  intros m Hm. by apply (proj1 (Forall_forall _ _) Hms).
Qed.

(** A receive is denied exactly without a token that allows it. *)
Lemma try_receive_denied receiver cspace c k k' :
  try_receive_message receiver cspace c k = Ok (RErr IpcError_PermissionDenied, k') ↔
    ipc_target Rights_read cspace c = None ∧ k' = k.
Proof.
  unfold try_receive_message, ipc_target.
  destruct (CSpace_get cspace c) as [cap|]; simpl; [|unfold mret, K_ret; intuition congruence].
  case_bool_decide; [rewrite !decide_True by done | rewrite !decide_False by done; simpl].
  2: { unfold mret, K_ret. intuition congruence. }
  unfold with_guard, mbind, K_bind, get_registry, k_lock, mret, K_ret. simpl.
  destruct (Rights_read _); simpl; [|intuition congruence].
  split; [|by intros [? _]].
  destruct (decide _); [done|]. simpl.
  destruct (k_registry k) as [r|]; [|done]. simpl.
  destruct (IpcRegistry_get_endpoint r _) as [ep|]; [|done]. simpl.
  by destruct (IpcEndpoint_try_receive ep).
Qed.

(** Neither is a blocking one that got past the check, in any of its rounds. *)
Lemma receive_loop_granted fuel receiver cspace c target granted k k' :
  ipc_target Rights_read cspace c = Some granted →
  receive_loop fuel receiver cspace c target k ≠ Ok (Some (RErr IpcError_PermissionDenied), k').
Proof.
  intros Hc. revert k k'. induction fuel as [|fuel IH]; intros k k'; [done|].
  cbn [receive_loop]. unfold mbind, K_bind.
  destruct (try_receive_message receiver cspace c k) as [[[[msg|]|e] k1]| |] eqn:Hr; [done| |..]; [|intros [= -> ->]|done..].
  2: { apply try_receive_denied in Hr as [Hnone _]. congruence. }
  unfold with_guard at 1, mbind, K_bind, get_registry, set_registry, mret, K_ret.
  destruct (k_lock IPC_REGISTRY k1) as [[[] k2]| |]; [|done..].
  destruct (k_registry k2) as [r|]; [|done].
  destruct (IpcRegistry_get_endpoint r target) as [ep|]; [|done].
  cbv zeta. cbn [k_unlock].
  match goal with |- context [on_scheduler block_current ?k3] => destruct (on_scheduler block_current k3) as [[[] k4]| |] end;
    [apply IH|done..].
Qed.

(** C22: complete mediation.  On any kernel state, an operation on an endpoint,
    blocking or not, answers [PermissionDenied] exactly when the capability named
    is absent, of another resource type or without the right the operation
    needs, and then it takes no lock and changes nothing. *)
Theorem ipc_access_control sender cspace c data k k' fuel :
  (send_message sender cspace c data k = Ok (RErr IpcError_PermissionDenied, k') ↔
     ipc_target Rights_write cspace c = None ∧ k' = k) ∧
  (try_receive_message sender cspace c k = Ok (RErr IpcError_PermissionDenied, k') ↔
     ipc_target Rights_read cspace c = None ∧ k' = k) ∧
  (receive_message_blocking fuel sender cspace c k =
       Ok (Some (RErr IpcError_PermissionDenied), k') ↔
     ipc_target Rights_read cspace c = None ∧ k' = k).
Proof.
  split_and!; [|apply try_receive_denied|].
  - unfold send_message, ipc_target.
    destruct (CSpace_get cspace c) as [cap|]; simpl; [|unfold mret, K_ret; intuition congruence].
    case_bool_decide; [rewrite !decide_True by done | rewrite !decide_False by done; simpl].
    2: { unfold mret, K_ret. intuition congruence. }
    unfold with_guard, mbind, K_bind, get_registry, k_lock, mret, K_ret. simpl.
    destruct (Rights_write _); simpl; [|intuition congruence].
    split; [|by intros [? _]].
    destruct (decide _); [done|]. simpl.
    destruct (k_registry k) as [r|]; [|done]. simpl.
    destruct (IpcRegistry_get_endpoint r _) as [ep|]; [|done]. simpl.
    unfold Message_new. case_decide; [done|]. simpl.
    unfold IpcEndpoint_send. case_decide; [done|]. simpl.
    by destruct (k_for _ _ _) as [[]| |].
  - destruct (ipc_target Rights_read cspace c) as [granted|] eqn:Hc.
    + split; [|by intros [? _]]. pose proof (λ target, receive_loop_granted fuel sender cspace c target granted k k' Hc) as Hloop.
      unfold receive_message_blocking, ipc_target in *. destruct (CSpace_get cspace c) as [cap|]; [|done].
      simpl in Hc. case_bool_decide; [rewrite decide_True in Hc by done|by rewrite decide_False in Hc].
      simpl in *. destruct (Rights_read _); [|done]. simpl. intros Hrun. by destruct (Hloop _ Hrun).
    + unfold receive_message_blocking, ipc_target, mret, K_ret in *.
      destruct (CSpace_get cspace c) as [cap|]; [|intuition congruence]. simpl in *.
      case_bool_decide; [rewrite decide_True in Hc by done|simpl; intuition congruence].
      simpl in *. destruct (Rights_read _); [done|]. simpl. intuition congruence.
Qed.

(** What a send does beyond queueing.  Sending to an endpoint with room
    appends the message, wakes every registered waiter exactly as
    [unblock_task] would, clears the waiting list, and touches no other
    endpoint. *)
Theorem send_message_wakes sender cspace c data r s tr target ep :
  ipc_target Rights_write cspace c = Some target →
  IpcRegistry_get_endpoint r target = Some ep →
  (length data <= MAX_MESSAGE_SIZE)%nat →
  (length (ep_messages ep) < ep_max_queue_size ep)%nat →
  ∃ r' tr', send_message sender cspace c data (idle r s tr) =
      Ok (ROk tt, idle r' (foldl unblock_task s (ep_waiting ep)) tr') ∧
    IpcRegistry_get_endpoint r' target = Some (mkIpcEndpoint target
      (ep_messages ep ++ [mkMessage sender data None]) [] (ep_max_queue_size ep)) ∧
    ∀ t, t ≠ target → IpcRegistry_get_endpoint r' t = IpcRegistry_get_endpoint r t.
Proof.
  intros Hc Hep Hlen Hroom. rewrite send_message_run, Hc, Hep.
  do 2 rewrite decide_False by lia. do 2 eexists. split; [reflexivity|].
  pose proof (get_endpoint_id _ _ _ Hep) as Hid. split.
  - rewrite (get_set_endpoint r target target ep), decide_True by done.
    unfold deliver. by rewrite Hid.
  - intros t Ht. by rewrite (get_set_endpoint r target t ep), decide_False.
Qed.

(** The locks held after a trace of events that starts with none held. *)
Definition held_after (tr : list LockEvent) : list Lock :=
  foldl (λ h e, match e with
                | Acquired l => l :: h
                | Released l => filter (λ l', l' ≠ l) h
                end) [] tr.

(** The registry lock is still held while waiters are woken.  Whenever a
    send wakes somebody, the scheduler lock is taken inside the registry's
    critical section; and if the caller already holds the scheduler lock the
    send spins forever. *)
Theorem send_message_lock_order sender cspace c data r s target ep :
  ipc_target Rights_write cspace c = Some target →
  IpcRegistry_get_endpoint r target = Some ep →
  (length data <= MAX_MESSAGE_SIZE)%nat →
  (length (ep_messages ep) < ep_max_queue_size ep)%nat →
  ep_waiting ep ≠ [] →
  (∃ k' tr1 tr2, send_message sender cspace c data (idle r s []) = Ok (ROk tt, k') ∧
     k_trace k' = tr1 ++ Acquired SCHEDULER :: tr2 ∧ IPC_REGISTRY ∈ held_after tr1) ∧
  send_message sender cspace c data (mkKernel (Some r) (Some s) [SCHEDULER] []) = Hang.
Proof.
  intros Hc Hep Hlen Hroom Hw. split.
  - rewrite send_message_run, Hc, Hep. do 2 rewrite decide_False by lia.
    destruct (ep_waiting ep) as [|w ws]; [done|].
    eexists _, [Acquired IPC_REGISTRY], _. split_and!; [reflexivity|reflexivity|].
    apply list_elem_of_here.
  - apply ipc_target_Some in Hc as (cap & Hcap & Htype & Hwr & ->).
    unfold send_message. rewrite Hcap, bool_decide_eq_true_2, Hwr by done. simpl.
    unfold with_guard, mbind, K_bind, get_registry. simpl. rewrite Hep. simpl.
    unfold Message_new. rewrite decide_False by lia. simpl.
    unfold IpcEndpoint_send. rewrite decide_False by lia. simpl.
    by destruct (ep_waiting ep) as [|w ws].
Qed.

(** ** The blocking receive *)

Lemma block_current_running s c :
  sched_inv s → current_task s = Some c → ready_queue s = [] ∨ c ∈ ready_queue s →
  ∃ c', current_task (block_current s) = Some c' ∧
    (ready_queue (block_current s) = [] ∨ c' ∈ ready_queue (block_current s)) ∧
    (length (ready_queue (block_current s)) <= pred (length (ready_queue s)))%nat.
Proof.
  intros Hinv Hc Hq. unfold block_current. rewrite Hc.
  set (r := retire s c TaskState_Blocked (Some c)).
  assert (sched_inv r) as Hr by (apply retire_inv; auto with jericho).
  assert (length (ready_queue r) <= pred (length (ready_queue s)))%nat as Hlen.
  { unfold r, retire. simpl. destruct Hq as [->|Hin]; [done|].
    pose proof (length_filter_lt (λ i, i ≠ c) (ready_queue s) c Hin). simpl in *. naive_solver lia. }
  assert (current_task r = Some c) as Hrc by done. clearbody r.
  destruct (ready_queue r) as [|next rest] eqn:Hrq.
  - rewrite schedule_nil by done. exists c. simpl. rewrite Hrq. auto.
  - destruct (schedule_cons r next rest Hr Hrq) as (s' & -> & Hq' & Hc' & _ & _). simpl.
    exists next. rewrite Hq', Hc'. split_and!; [done| |].
    + right. apply elem_of_app. right. apply list_elem_of_here.
    + rewrite length_app. simpl in *. lia.
Qed.

Lemma iter_block_current n s c :
  sched_inv s → current_task s = Some c → ready_queue s = [] ∨ c ∈ ready_queue s →
  (length (ready_queue s) <= n)%nat →
  sched_inv (Nat.iter n block_current s) ∧ ready_queue (Nat.iter n block_current s) = [].
Proof.
  revert s c. induction n as [|n IH]; intros s c Hinv Hc Hq Hn.
  { split; [done|]. simpl. destruct (ready_queue s); [done|]. simpl in Hn. lia. }
  destruct (block_current_running s c Hinv Hc Hq) as (c' & Hc' & Hq' & Hlen).
  rewrite Nat.iter_succ_r. apply (IH _ c'); [by apply block_current_inv|done..|lia].
Qed.

Lemma receive_loop_empty fuel receiver cspace c target r s tr ep :
  ipc_target Rights_read cspace c = Some target →
  IpcRegistry_get_endpoint r target = Some ep → ep_messages ep = [] →
  ∃ r' tr', receive_loop fuel receiver cspace c target (idle r s tr) =
    Ok (None, idle r' (Nat.iter fuel block_current s) tr').
Proof.
  intros Hc. revert r s tr ep. induction fuel as [|fuel IH]; intros r s tr ep Hep Hms.
  { by exists r, tr. }
  cbn [receive_loop]. unfold mbind at 1, K_bind at 1. rewrite try_receive_run, Hc, Hep, Hms.
  cbn [head]. pose proof (get_endpoint_id _ _ _ Hep) as Hid.
  set (r1 := IpcRegistry_set_endpoint r target (popped ep)).
  set (ep2 := IpcEndpoint_add_waiter (popped ep) receiver).
  set (r2 := IpcRegistry_set_endpoint r1 target ep2).
  assert (ep_id (popped ep) = target) as Hid1 by (rewrite popped_eq; exact Hid).
  assert (IpcRegistry_get_endpoint r1 target = Some (popped ep)) as Hr1.
  { unfold r1. by rewrite (get_set_endpoint r target target ep), decide_True. }
  assert (IpcRegistry_get_endpoint r2 target = Some ep2) as Hr2.
  { unfold r2. rewrite (get_set_endpoint r1 target target (popped ep)), decide_True; try done.
    unfold ep2, IpcEndpoint_add_waiter. by case_bool_decide. }
  assert (ep_messages ep2 = []) as Hms2.
  { unfold ep2, IpcEndpoint_add_waiter. rewrite popped_eq. case_bool_decide; simpl; by rewrite Hms. }
  rewrite Nat.iter_succ_r.
  destruct (IH r2 (block_current s) (registry_section (registry_section tr) ++
    [Acquired SCHEDULER; Released SCHEDULER]) ep2 Hr2 Hms2) as (r' & tr' & Hloop).
  exists r', tr'. rewrite <- Hloop.
  unfold with_guard, mbind, K_bind, get_registry, idle. simpl. rewrite Hr1. simpl.
  unfold registry_section. by rewrite <- !app_assoc.
Qed.

(** A blocking receive returns at once when a message is there: one
    iteration delivers the oldest message, removes it from the queue and does
    not touch the scheduler. *)
Theorem receive_blocking_delivers fuel receiver cspace c target r s tr ep m rest :
  ipc_target Rights_read cspace c = Some target →
  IpcRegistry_get_endpoint r target = Some ep → ep_messages ep = m :: rest →
  ∃ r' ep', receive_message_blocking (S fuel) receiver cspace c (idle r s tr) =
      Ok (Some (ROk m), idle r' s (registry_section tr)) ∧
    IpcRegistry_get_endpoint r' target = Some ep' ∧ ep_messages ep' = rest.
Proof.
  intros Hc Hep Hms. exists (IpcRegistry_set_endpoint r target (popped ep)), (popped ep).
  split_and!.
  - pose proof Hc as (cap & Hcap & Htype & Hrd & Ht)%ipc_target_Some.
    unfold receive_message_blocking. rewrite Hcap, bool_decide_eq_true_2, Hrd by done.
    cbn [negb receive_loop]. unfold mbind, K_bind.
    by rewrite try_receive_run, Hc, Hep, Hms.
  - rewrite (get_set_endpoint r target target ep), decide_True; try done.
    rewrite popped_eq. exact (get_endpoint_id _ _ _ Hep).
  - rewrite popped_eq. simpl. by rewrite Hms.
Qed.

(** C39: a blocking receive by the running task on an empty endpoint, its loop
    uninterrupted, never returns, and takes every other task down with it.  The loop calls [block_current]
    on whichever task is current now, without switching away, so after as many
    iterations as there are queued tasks nothing in the system is runnable. *)
Theorem receive_blocking_starves fuel receiver cspace c target r s tr ep :
  ipc_target Rights_read cspace c = Some target →
  IpcRegistry_get_endpoint r target = Some ep → ep_messages ep = [] →
  sched_reachable s → state_of s receiver = Some TaskState_Running →
  ∃ r' s' tr', receive_message_blocking fuel receiver cspace c (idle r s tr) =
      Ok (None, idle r' s' tr') ∧
    ((length (ready_queue s) <= fuel)%nat →
       ∀ i st, state_of s' i = Some st → ¬ runnable st).
Proof.
  intros Hc Hep Hms Hinv%sched_reachable_inv Hrun.
  destruct (receive_loop_empty fuel receiver cspace c target r s tr ep Hc Hep Hms)
    as (r' & tr' & Hloop).
  exists r', (Nat.iter fuel block_current s), tr'. split.
  - pose proof Hc as (cap & Hcap & Htype & Hrd & ->)%ipc_target_Some.
    unfold receive_message_blocking. by rewrite Hcap, bool_decide_eq_true_2, Hrd by done.
  - intros Hfuel i st Hst Hr.
    destruct (iter_block_current fuel s receiver) as [Hinv' Hq]; [done|..|done|].
    + by apply (inv_running s Hinv).
    + right. apply (inv_runnable s Hinv). exists TaskState_Running. split; [done|by right].
    + eapply not_elem_of_nil. rewrite <- Hq. apply (inv_runnable _ Hinv'). by exists st.
Qed.

(** ** A concrete registry: endpoint 100 with one waiting task *)

Definition sample_endpoint (ms : list Message) : IpcEndpoint :=
  mkIpcEndpoint (CapabilityId_new 100) ms [TaskId_new 2] 16.
Definition sample_message : Message := mkMessage (TaskId_new 9) [104; 105] None.
Definition sample_registry : IpcRegistry := mkIpcRegistry [sample_endpoint [sample_message]].
Definition sample_grant : CSpace :=
  (CSpace_insert CSpace_new
    (Capability_new (CapabilityId_new 1) ResourceType_Endpoint 100 Rights_READ_WRITE)).1.

Lemma sample_registry_ok : registry_ok sample_registry.
Proof.
  apply Forall_singleton. split; simpl.
  - reflexivity.
  - unfold mailbox_capacity. lia.
  - apply Forall_singleton. unfold message_ok, MAX_MESSAGE_SIZE. simpl. lia.
  - apply NoDup_singleton.
Qed.

Definition sample_requests : list ipc_request :=
  [Req_send (TaskId_new 1) sample_grant (CapabilityId_new 1) [7];
   Req_receive (TaskId_new 2) sample_grant (CapabilityId_new 1);
   Req_create (CapabilityId_new 5)].

Lemma ipc_refines_mailboxes_witness :
  ∃ r' s' tr', ipc_calls sample_requests (idle sample_registry two_tasks []) =
    Ok ([Rep_send (ROk tt); Rep_receive (ROk (Some sample_message));
         Rep_create (ROk (CapabilityId_new 5))], idle r' s' tr') ∧ sched_inv s'.
Proof.
  destruct (ipc_refines_mailboxes sample_requests sample_registry two_tasks [])
    as (r' & s' & tr' & Hrun & _ & _ & Hinv).
  - apply sample_registry_ok.
  - apply sched_reachable_inv, two_tasks_reachable.
  - exists r', s', tr'. split; [exact Hrun|exact Hinv].
Defined.

Lemma ipc_fifo_witness :
  ∃ reps k', ipc_calls sample_requests (idle sample_registry two_tasks []) = Ok (reps, k').
Proof.
  destruct (ipc_fifo sample_requests sample_registry two_tasks [] (CapabilityId_new 100)
    (sample_endpoint [sample_message]) sample_registry_ok) as (reps & r' & s' & tr' & _ & Hrun & _).
  - reflexivity.
  - exists reps, (idle r' s' tr'). exact Hrun.
Defined.

Lemma send_message_wakes_witness :
  ∃ r' tr', send_message (TaskId_new 1) sample_grant (CapabilityId_new 1) [7]
      (idle sample_registry two_tasks []) =
    Ok (ROk tt, idle r' (unblock_task two_tasks (TaskId_new 2)) tr').
Proof.
  destruct (send_message_wakes (TaskId_new 1) sample_grant (CapabilityId_new 1) [7]
    sample_registry two_tasks [] (CapabilityId_new 100) (sample_endpoint [sample_message]))
    as (r' & tr' & Hrun & _).
  - reflexivity.
  - reflexivity.
  - unfold MAX_MESSAGE_SIZE. simpl. lia.
  - simpl. lia.
  - exists r', tr'. exact Hrun.
Defined.

Lemma send_message_lock_order_witness :
  send_message (TaskId_new 1) sample_grant (CapabilityId_new 1) [7]
    (mkKernel (Some sample_registry) (Some two_tasks) [SCHEDULER] []) = Hang.
Proof.
  apply (send_message_lock_order (TaskId_new 1) sample_grant (CapabilityId_new 1) [7]
    sample_registry two_tasks (CapabilityId_new 100) (sample_endpoint [sample_message])).
  - reflexivity.
  - reflexivity.
  - unfold MAX_MESSAGE_SIZE. simpl. lia.
  - simpl. lia.
  - discriminate.
Defined.

Lemma receive_blocking_starves_witness :
  ∃ r' s' tr', receive_message_blocking 2 (TaskId_new 1) sample_grant (CapabilityId_new 1)
      (idle (mkIpcRegistry [sample_endpoint []]) two_tasks []) = Ok (None, idle r' s' tr') ∧
    ∀ i st, state_of s' i = Some st → ¬ runnable st.
Proof.
  destruct (receive_blocking_starves 2 (TaskId_new 1) sample_grant (CapabilityId_new 1)
    (CapabilityId_new 100) (mkIpcRegistry [sample_endpoint []]) two_tasks [] (sample_endpoint []))
    as (r' & s' & tr' & Hrun & Hall).
  - reflexivity.
  - reflexivity.
  - reflexivity.
  - apply two_tasks_reachable.
  - reflexivity.
  - exists r', s', tr'. split; [exact Hrun|]. apply Hall. simpl. lia.
Defined.
