(* ===== verification/WasmRuntime.v ===== *)
(** * The WebAssembly host ([src/src/wasm_runtime.rs])

    Guests run in the [wasmi] interpreter, which is not part of the repository:
    a guest is a parameter, an interactive computation that returns, traps,
    diverges or calls one of the seven host functions the linker offers.  What
    the host functions and the delivery loop do with a guest's memory and with
    the two global queues is modelled line by line.  The diagnostics the host
    functions themselves print are left out; what a guest prints is kept.

    The two global locks are taken and dropped inside a single host function,
    never while they are already held, so they are not part of the state. *)
From stdpp Require Import strings.
From S2P Require Import Prelude Capability.

(** ** Data *)

Definition MAX_IPC_MESSAGE_SIZE : Z := 512.
Definition MAX_IPC_QUEUE_DEPTH : nat := 64.

Record IpcMessage := mkIpcMessage { dest_client_id : Z; message : list Z }.

Record WasmContext := WasmContext_new { capabilities : list Capability }.

Definition find_capability (self : WasmContext) (rt : ResourceType) (rid : Z)
    : option Capability :=
  find_first (λ cap, bool_decide (Capability_resource_type cap = rt)
                     && (Capability_resource_id cap =? rid)) (capabilities self).

Definition has_capabilities (self : WasmContext) : bool :=
  negb (bool_decide (capabilities self = [])).

(** A [wasmi] value; only 32-bit integers are inspected by the kernel. *)
Inductive Value := Value_I32 (z : Z) | Value_other.

#[global] Instance Value_eq_dec : EqDecision Value.
Proof. solve_decision. Defined.

(** What appears on the serial line: what guests print, and the literal text,
    hexadecimal numbers, loader errors and debug output of values of the demo suite. *)
Inductive Printed :=
  | Printed_value (v : Z)
  | Printed_str (bytes : list Z)
  | Printed_invalid_utf8
  | Printed_u32_placeholder
  | Printed_text (s : string)
  | Printed_hex (v : Z)
  | Printed_load_error
  | Printed_other (v : option Value).

#[global] Instance Printed_eq_dec : EqDecision Printed.
Proof. solve_decision. Defined.

(** The statics [IPC_MESSAGE_QUEUE] and [MQTT_SUBSCRIBERS], and the output. *)
Record Globals := mkGlobals {
  message_queue : list IpcMessage;
  mqtt_subscribers : list Z;
  printed : list Printed
}.

Definition with_queue (gl : Globals) (q : list IpcMessage) : Globals :=
  mkGlobals q (mqtt_subscribers gl) (printed gl).
Definition with_subscribers (gl : Globals) (l : list Z) : Globals :=
  mkGlobals (message_queue gl) l (printed gl).
Definition print (gl : Globals) (p : Printed) : Globals :=
  mkGlobals (message_queue gl) (mqtt_subscribers gl) (printed gl ++ [p]).

(** [caller.data()] and [caller.get_export("memory")], as the bytes of the
    memory when the export exists and is a memory. *)
Record Caller := mkCaller { caller_data : WasmContext; caller_memory : option (list Z) }.

(** ** Slices and UTF-8 *)

Definition len (l : list Z) : Z := Z.of_nat (length l).

Definition sub_list (l : list Z) (a b : Z) : list Z :=
  take (Z.to_nat (b - a)) (drop (Z.to_nat a) l).

(** [&data[a..b]] *)
Definition slice (data : list Z) (a b : Z) : outcome (list Z) :=
  if decide (a ≤ b ∧ b ≤ len data) then Ok (sub_list data a b) else Panic.

Definition between (a x b : Z) : bool := (a <=? x) && (x <=? b).

(** [core::str::from_utf8(..).is_ok()]: the well-formed byte sequences of the
    Unicode standard. *)
Fixpoint utf8_valid (bs : list Z) : bool :=
  match bs with
  | [] => true
  | b0 :: bs0 =>
      if between 0 b0 0x7F then utf8_valid bs0
      else match bs0 with
      | [] => false
      | b1 :: bs1 =>
          if between 0xC2 b0 0xDF then between 0x80 b1 0xBF && utf8_valid bs1
          else match bs1 with
          | [] => false
          | b2 :: bs2 =>
              if between 0xE0 b0 0xEF then
                between (if b0 =? 0xE0 then 0xA0 else 0x80) b1
                        (if b0 =? 0xED then 0x9F else 0xBF)
                && between 0x80 b2 0xBF && utf8_valid bs2
              else match bs2 with
              | [] => false
              | b3 :: bs3 =>
                  between 0xF0 b0 0xF4
                  && between (if b0 =? 0xF0 then 0x90 else 0x80) b1
                             (if b0 =? 0xF4 then 0x8F else 0xBF)
                  && between 0x80 b2 0xBF && between 0x80 b3 0xBF && utf8_valid bs3
              end
          end
      end
  end.

(** ** Host functions *)
Section host.
Context `{Build}.
Implicit Types gl : Globals.

Definition host_print (gl : Globals) (value : Z) : Globals := print gl (Printed_value value).

Definition host_sys_print (caller : Caller) (gl : Globals) (msg_ptr msg_len : Z)
    : outcome Globals :=
  match caller_memory caller with
  | None => Ok gl
  | Some data =>
      let msg_ptr := i32_as_usize msg_ptr in
      let msg_len := i32_as_usize msg_len in
      e ← (msg_ptr +u[64] msg_len);
      if decide (e > len data) then Ok gl
      else
        e ← (msg_ptr +u[64] msg_len);
        msg_bytes ← slice data msg_ptr e;
        if utf8_valid msg_bytes then Ok (print gl (Printed_str msg_bytes))
        else Ok (print gl Printed_invalid_utf8)
  end.

Definition host_sys_print_u32 (gl : Globals) (_value : Z) : Globals :=
  print gl Printed_u32_placeholder.

Definition host_syscall (caller : Caller) (syscall_num arg1 _arg2 _arg3 : Z) : Z :=
  match syscall_num with
  | 0 => if arg1 =? 99 then -1 else 0
  | 1 => _arg3
  | 2 => if has_capabilities (caller_data caller) then 0x4000 else 0
  | _ => -1
  end.

Definition host_sys_mqtt_subscribe (caller : Caller) (gl : Globals)
    (client_id topic_ptr topic_len : Z) : outcome (Globals * Z) :=
  match caller_memory caller with
  | None => Ok (gl, -1)
  | Some data =>
      let topic_ptr := i32_as_usize topic_ptr in
      let topic_len := i32_as_usize topic_len in
      e ← (topic_ptr +u[64] topic_len);
      if decide (e > len data) then Ok (gl, -1)
      else
        e ← (topic_ptr +u[64] topic_len);
        topic ← slice data topic_ptr e;
        let gl := if utf8_valid topic then print gl (Printed_str topic) else gl in
        let subscribers := mqtt_subscribers gl in
        if bool_decide (client_id ∈ subscribers) then Ok (gl, 0)
        else Ok (with_subscribers gl (subscribers ++ [client_id]), 0)
  end.

(** The [for] loop of [host_sys_mqtt_publish], [break] included. *)
Fixpoint publish_loop (subscribers : list Z) (msg : list Z) (queue : list IpcMessage)
    : list IpcMessage :=
  match subscribers with
  | [] => queue
  | client_id :: subscribers =>
      if decide (MAX_IPC_QUEUE_DEPTH <= length queue)%nat then queue
      else publish_loop subscribers msg (queue ++ [mkIpcMessage client_id msg])
  end.

Definition host_sys_mqtt_publish (caller : Caller) (gl : Globals)
    (topic_ptr topic_len msg_ptr msg_len : Z) : outcome (Globals * Z) :=
  let msg_len_usize := i32_as_usize msg_len in
  if (msg_len <? 0) || (MAX_IPC_MESSAGE_SIZE <? msg_len_usize) then Ok (gl, -4)
  else match caller_memory caller with
  | None => Ok (gl, -1)
  | Some data =>
      let topic_ptr := i32_as_usize topic_ptr in
      let topic_len := i32_as_usize topic_len in
      let msg_ptr := i32_as_usize msg_ptr in
      if (len data <? saturating_add 64 topic_ptr topic_len)
         || (len data <? saturating_add 64 msg_ptr msg_len_usize) then Ok (gl, -3)
      else
        e ← (topic_ptr +u[64] topic_len);
        _ ← slice data topic_ptr e;
        e ← (msg_ptr +u[64] msg_len_usize);
        msg ← slice data msg_ptr e;
        let subscribers := mqtt_subscribers gl in
        let subscriber_count := Z.of_nat (length subscribers) in
        let queue := publish_loop subscribers msg (message_queue gl) in
        Ok (with_queue gl queue, as_i32 subscriber_count)
  end.

Definition host_sys_ipc_send (caller : Caller) (gl : Globals) (dest msg_ptr msg_len : Z)
    : outcome (Globals * Z) :=
  let msg_len_usize := i32_as_usize msg_len in
  if (msg_len <? 0) || (MAX_IPC_MESSAGE_SIZE <? msg_len_usize) then Ok (gl, -4)
  else match find_capability (caller_data caller) ResourceType_Endpoint dest with
  | None => Ok (gl, -1)
  | Some cap =>
      if negb (Rights_write (Capability_rights cap)) then Ok (gl, -2)
      else match caller_memory caller with
      | None => Ok (gl, -3)
      | Some data =>
          let msg_ptr := i32_as_usize msg_ptr in
          if len data <? saturating_add 64 msg_ptr msg_len_usize then Ok (gl, -3)
          else
            e ← (msg_ptr +u[64] msg_len_usize);
            msg ← slice data msg_ptr e;
            let queue := message_queue gl in
            if decide (MAX_IPC_QUEUE_DEPTH <= length queue)%nat then Ok (gl, -5)
            else Ok (with_queue gl (queue ++ [mkIpcMessage dest msg]), 0)
      end
  end.

(** The functions [create_linker] offers to guests, with their arguments. *)
Inductive HostCall :=
  | Call_print (value : Z)
  | Call_sys_print (msg_ptr msg_len : Z)
  | Call_sys_print_u32 (value : Z)
  | Call_sys_mqtt_subscribe (client_id topic_ptr topic_len : Z)
  | Call_sys_mqtt_publish (topic_ptr topic_len msg_ptr msg_len : Z)
  | Call_sys_ipc_send (dest msg_ptr msg_len : Z)
  | Call_syscall (syscall_num arg1 arg2 arg3 : Z).

(** [create_linker]: the value is the guest's result, if the function has one. *)
Definition host_call (caller : Caller) (gl : Globals) (c : HostCall)
    : outcome (Globals * option Z) :=
  match c with
  | Call_print v => Ok (host_print gl v, None)
  | Call_sys_print p l => gl ← host_sys_print caller gl p l; Ok (gl, None)
  | Call_sys_print_u32 v => Ok (host_sys_print_u32 gl v, None)
  | Call_sys_mqtt_subscribe i p l =>
      '(gl, r) ← host_sys_mqtt_subscribe caller gl i p l; Ok (gl, Some r)
  | Call_sys_mqtt_publish tp tl mp ml =>
      '(gl, r) ← host_sys_mqtt_publish caller gl tp tl mp ml; Ok (gl, Some r)
  | Call_sys_ipc_send d p l =>
      '(gl, r) ← host_sys_ipc_send caller gl d p l; Ok (gl, Some r)
  | Call_syscall n a1 a2 a3 => Ok (gl, Some (host_syscall caller n a1 a2 a3))
  end.
End host.

(** ** Guests *)

(** One activation of guest code, as the host sees it. *)
Inductive Run (G : Type) :=
  | Run_return (g : G) (results : list Value)
  | Run_trap (g : G)
  | Run_diverge
  | Run_host (g : G) (c : HostCall) (k : option Z → Run G).
Arguments Run_return {G} g results.
Arguments Run_trap {G} g.
Arguments Run_diverge {G}.
Arguments Run_host {G} g c k.

(** What the kernel uses of [wasmi]: instantiation of a module from its bytes,
    exported functions, and the exported linear memory. *)
Class Wasmi (G : Type) := {
  guest_instantiate : list Z → option (Run G);
  guest_func : G → string → option (list Value → Run G);
  guest_memory : G → option (list Z);
  guest_set_memory : G → list Z → G
}.

(** Writing through [memory.data_mut] changes the bytes of that memory and
    nothing else a call could observe of the module's exports. *)
Class WasmiLaws (G : Type) `{!Wasmi G} : Prop := {
  guest_memory_set g d d' : guest_memory g = Some d → len d' = len d →
    guest_memory (guest_set_memory g d') = Some d'
}.

Record WasmModule (G : Type) := mkWasmModule { store_data : WasmContext; instance : G }.
Arguments mkWasmModule {G} store_data instance.
Arguments store_data {G} w.
Arguments instance {G} w.

Section runtime.
Context `{Build} {G : Type} `{!Wasmi G}.

(** The interpreter runs a guest activation against the host functions. *)
Fixpoint exec (ctx : WasmContext) (gl : Globals) (r : Run G)
    : outcome (G * Globals * result string (list Value)) :=
  match r with
  | Run_return g vs => Ok (g, gl, ROk vs)
  | Run_trap g => Ok (g, gl, RErr "Failed to call function"%string)
  | Run_diverge => Hang
  | Run_host g c k =>
      '(gl, v) ← host_call (mkCaller ctx (guest_memory g)) gl c;
      exec ctx gl (k v)
  end.

Definition from_bytes (gl : Globals) (wasm_bytes : list Z)
    : outcome (Globals * result () (WasmModule G)) :=
  match guest_instantiate wasm_bytes with
  | None => Ok (gl, RErr tt)
  | Some start =>
      let context := WasmContext_new [] in
      '(g, gl, r) ← exec context gl start;
      match r with
      | ROk _ => Ok (gl, ROk (mkWasmModule context g))
      | RErr _ => Ok (gl, RErr tt)
      end
  end.

Definition call_function (self : WasmModule G) (gl : Globals) (func_name : string)
    (args : list Value) : outcome (WasmModule G * Globals * result string (option Value)) :=
  match guest_func (instance self) func_name with
  | None => Ok (self, gl, RErr "Function not found"%string)
  | Some func =>
      '(g, gl, r) ← exec (store_data self) gl (func args);
      let self := mkWasmModule (store_data self) g in
      match r with
      | ROk results => Ok (self, gl, ROk (head results))
      | RErr e => Ok (self, gl, RErr e)
      end
  end.

Definition grant_capability (self : WasmModule G) (cap : Capability) : WasmModule G :=
  mkWasmModule (WasmContext_new (capabilities (store_data self) ++ [cap])) (instance self).

Definition capability_count (self : WasmModule G) : nat :=
  length (capabilities (store_data self)).

(** [data[start..start + n].copy_from_slice(src)] with [n = src.len()]. *)
Definition copy_into (data : list Z) (start : Z) (src : list Z) : list Z :=
  take (Z.to_nat start) data ++ src ++ drop (Z.to_nat start + length src) data.

(** What one iteration of [deliver_pending_messages] decides. *)
Inductive Deliver := Deliver_continue (delivered : Z) | Deliver_break (delivered : Z).

Definition is_for (client_id : Z) (m : IpcMessage) : bool := dest_client_id m =? client_id.

(** One iteration, once a message has been taken from the queue. *)
Definition deliver_one (sub : WasmModule G) (gl : Globals) (ipc_msg : IpcMessage)
    (delivered : Z) : outcome (WasmModule G * Globals * Deliver) :=
  let msg_len := Z.min (len (message ipc_msg)) MAX_IPC_MESSAGE_SIZE in
  '(sub, gl, buffer) ← call_function sub gl "allocate_message_buffer"%string
                         [Value_I32 (as_i32 msg_len)];
  match buffer with
  | RErr _ =>
      Ok (sub, with_queue gl (ipc_msg :: message_queue gl), Deliver_break delivered)
  | ROk (Some (Value_I32 buffer_ptr)) =>
      if 0 <? buffer_ptr then
        match guest_memory (instance sub) with
        | None => Ok (sub, gl, Deliver_break delivered)
        | Some data =>
            let buffer_start := i32_as_usize buffer_ptr in
            if len data <? saturating_add 64 buffer_start msg_len then
              Ok (sub, gl, Deliver_continue delivered)
            else
              e ← (buffer_start +u[64] msg_len);
              _ ← slice data buffer_start e;
              src ← slice (message ipc_msg) 0 msg_len;
              let sub := mkWasmModule (store_data sub)
                (guest_set_memory (instance sub) (copy_into data buffer_start src)) in
              '(sub, gl, r) ← call_function sub gl "subscriber_receive"%string
                 [Value_I32 buffer_ptr; Value_I32 (as_i32 msg_len)];
              match r with
              | ROk _ =>
                  delivered ← (delivered +u[64] 1);
                  Ok (sub, gl, Deliver_continue delivered)
              | RErr _ => Ok (sub, gl, Deliver_continue delivered)
              end
        end
      else Ok (sub, gl, Deliver_continue delivered)
  | ROk _ => Ok (sub, gl, Deliver_continue delivered)
  end.

(** The loop; [None] when [fuel] iterations did not end it. *)
Fixpoint deliver_loop (fuel : nat) (sub : WasmModule G) (gl : Globals) (client_id delivered : Z)
    : outcome (WasmModule G * Globals * option Z) :=
  match fuel with
  | O => Ok (sub, gl, None)
  | S fuel =>
      match position (is_for client_id) (message_queue gl) with
      | None => Ok (sub, gl, Some delivered)
      | Some pos =>
          ipc_msg ← unwrap (message_queue gl !! pos);
          let gl := with_queue gl (remove_at pos (message_queue gl)) in
          '(sub, gl, d) ← deliver_one sub gl ipc_msg delivered;
          match d with
          | Deliver_continue delivered => deliver_loop fuel sub gl client_id delivered
          | Deliver_break delivered => Ok (sub, gl, Some delivered)
          end
      end
  end.

Definition deliver_pending_messages (fuel : nat) (sub : WasmModule G) (gl : Globals)
    (client_id : Z) : outcome (WasmModule G * Globals * option Z) :=
  deliver_loop fuel sub gl client_id 0.
End runtime.

Definition pending_message_count (gl : Globals) (client_id : Z) : nat :=
  length (filter (λ m, is_for client_id m = true) (message_queue gl)).

Definition clear_ipc_queue (gl : Globals) : Globals := with_queue gl [].

(** ** Slices and guest pointers *)

Lemma len_nonneg l : 0 ≤ len l.
Proof. unfold len. lia. Qed.

Lemma i32_as_usize_u z : in_u 64 (i32_as_usize z).
Proof. apply Z.mod_pos_bound. lia. Qed.

Lemma i32_as_usize_nonneg z : in_i 32 z → 0 ≤ z → i32_as_usize z = z.
Proof. unfold in_i. intros ? ?. apply Z.mod_small. lia. Qed.

Lemma i32_as_usize_neg z : in_i 32 z → z < 0 → i32_as_usize z = z + 2 ^ 64.
Proof.
  unfold in_i, i32_as_usize, wrap. intros ? ?. symmetry. apply Z.mod_unique with (-1); lia.
Qed.

Lemma slice_Ok data a b : 0 ≤ a → a ≤ b → b ≤ len data → slice data a b = Ok (sub_list data a b).
Proof. intros. unfold slice. by rewrite decide_True. Qed.

Lemma length_sub_list data a b :
  0 ≤ a → a ≤ b → b ≤ len data → len (sub_list data a b) = b - a.
Proof.
  unfold len, sub_list. intros. rewrite length_take, length_drop. lia.
Qed.

(** The overflow-safe bounds check makes the slice that follows it total.  The
    hypothesis on [data] is what Rust guarantees of every slice: at most
    [isize::MAX] bytes. *)
Lemma checked_slice `{Build} data a b :
  in_u 64 a → in_u 64 b → len data < 2 ^ 63 →
  (len data <? saturating_add 64 a b) = false →
  (a +u[64] b) = Ok (a + b) ∧ slice data a (a + b) = Ok (sub_list data a (a + b)) ∧
  len (sub_list data a (a + b)) = b.
Proof.
  unfold in_u, saturating_add. intros Ha Hb Hlen Hle%Z.ltb_ge.
  assert (a + b ≤ len data) by lia. split_and!.
  - apply add_u_fits. unfold in_u. lia.
  - apply slice_Ok; lia.
  - rewrite length_sub_list; lia.
Qed.

Lemma in_u_i32 z : in_u 64 (i32_as_usize z).
Proof. apply i32_as_usize_u. Qed.

Lemma oversized_false l :
  in_i 32 l → (l <? 0) || (MAX_IPC_MESSAGE_SIZE <? i32_as_usize l) = false →
  0 ≤ l ≤ 512 ∧ i32_as_usize l = l.
Proof.
  unfold MAX_IPC_MESSAGE_SIZE. intros Hl [H0 H1]%orb_false_iff. apply Z.ltb_ge in H0, H1.
  rewrite i32_as_usize_nonneg in * by done. lia.
Qed.

Lemma oversized_true l :
  in_i 32 l → l < 0 ∨ 512 < l → (l <? 0) || (MAX_IPC_MESSAGE_SIZE <? i32_as_usize l) = true.
Proof.
  unfold MAX_IPC_MESSAGE_SIZE. intros Hl [H0|H1]; apply orb_true_iff; [left|right]; apply Z.ltb_lt.
  - done.
  - rewrite i32_as_usize_nonneg by (done || lia). done.
Qed.

(** Every slice is at most [isize::MAX] bytes long. *)
Definition memory_fits (caller : Caller) : Prop :=
  ∀ data, caller_memory caller = Some data → len data < 2 ^ 63.

(** ** Publishing *)

Lemma publish_loop_eq subs msg q :
  publish_loop subs msg q =
    q ++ ((λ c, mkIpcMessage c msg) <$> take (MAX_IPC_QUEUE_DEPTH - length q) subs).
Proof.
  revert q. induction subs as [|c subs IH]; intros q; simpl.
  { by rewrite take_nil, app_nil_r. }
  case_decide as Hfull.
  - replace (MAX_IPC_QUEUE_DEPTH - length q)%nat with O by lia. by rewrite app_nil_r.
  - rewrite IH, length_app. simpl.
    replace (MAX_IPC_QUEUE_DEPTH - length q)%nat
      with (S (MAX_IPC_QUEUE_DEPTH - (length q + 1)))%nat by lia.
    simpl. by rewrite <- app_assoc.
Qed.

(** The messages and the depth the two limits allow. *)
Record queue_ok (gl : Globals) : Prop := {
  queue_depth : (length (message_queue gl) <= MAX_IPC_QUEUE_DEPTH)%nat;
  queue_sizes : Forall (λ m, len (message m) ≤ MAX_IPC_MESSAGE_SIZE) (message_queue gl)
}.

Definition small_messages (gl : Globals) : Prop :=
  Forall (λ m, len (message m) ≤ MAX_IPC_MESSAGE_SIZE) (message_queue gl).

Section host_lemmas.
Context `{Build}.

(** An accepted publish: its topic and its message lie in the guest's memory
    and the message is at most 512 bytes. *)
Definition publish_accepts (data : list Z) (tp tl mp ml : Z) : Prop :=
  0 ≤ ml ≤ 512 ∧ i32_as_usize tp + i32_as_usize tl ≤ len data ∧
  i32_as_usize mp + ml ≤ len data.

Lemma publish_run caller gl tp tl mp ml :
  in_i 32 ml → memory_fits caller →
  (∃ code, code < 0 ∧ host_sys_mqtt_publish caller gl tp tl mp ml = Ok (gl, code)) ∨
  (∃ data, caller_memory caller = Some data ∧ publish_accepts data tp tl mp ml ∧
     host_sys_mqtt_publish caller gl tp tl mp ml =
     Ok (with_queue gl (publish_loop (mqtt_subscribers gl)
           (sub_list data (i32_as_usize mp) (i32_as_usize mp + ml)) (message_queue gl)),
         as_i32 (Z.of_nat (length (mqtt_subscribers gl))))).
Proof.
  intros Hml Hmem. unfold host_sys_mqtt_publish.
  destruct (_ || _) eqn:Hsize; [left; by exists (-4)|].
  apply oversized_false in Hsize as [Hrange Hsize]; [|done]. rewrite Hsize.
  destruct (caller_memory caller) as [data|] eqn:Hdata; [|left; by exists (-1)].
  destruct (_ || _) eqn:Hbounds; [left; by exists (-3)|].
  apply orb_false_iff in Hbounds as [Ht Hm]. right. exists data. split; [done|].
  pose proof (in_u_i32 tp). pose proof (in_u_i32 tl). pose proof (in_u_i32 mp).
  destruct (checked_slice data (i32_as_usize tp) (i32_as_usize tl)) as (-> & Hst & _); auto.
  destruct (checked_slice data (i32_as_usize mp) ml) as (-> & Hsm & _);
    [auto | unfold in_u; lia | auto | done |].
  simpl. rewrite Hst. simpl. rewrite Hsm. split; [|done].
  pose proof (Hmem data Hdata) as Hlen. unfold publish_accepts, saturating_add, in_u in *.
  apply Z.ltb_ge in Ht, Hm. lia.
Qed.

Lemma publish_accepted caller gl tp tl mp ml data :
  in_i 32 ml → memory_fits caller →
  caller_memory caller = Some data → publish_accepts data tp tl mp ml →
  host_sys_mqtt_publish caller gl tp tl mp ml =
    Ok (with_queue gl (publish_loop (mqtt_subscribers gl)
          (sub_list data (i32_as_usize mp) (i32_as_usize mp + ml)) (message_queue gl)),
        as_i32 (Z.of_nat (length (mqtt_subscribers gl)))).
Proof.
  intros Hml Hmem Hdata (Hrange & Ht & Hm).
  pose proof (in_u_i32 tp) as Htp. pose proof (in_u_i32 tl) as Htl. pose proof (in_u_i32 mp) as Hmp.
  pose proof (Hmem data Hdata) as Hlen. unfold in_u in *.
  unfold host_sys_mqtt_publish. rewrite (i32_as_usize_nonneg ml) by (done || lia).
  unfold MAX_IPC_MESSAGE_SIZE.
  rewrite (proj2 (Z.ltb_ge ml 0)), (proj2 (Z.ltb_ge 512 ml)) by lia. simpl. rewrite Hdata.
  unfold saturating_add.
  rewrite (proj2 (Z.ltb_ge (len data) (Z.min (i32_as_usize tp + i32_as_usize tl) _))) by lia.
  rewrite (proj2 (Z.ltb_ge (len data) (Z.min (i32_as_usize mp + ml) _))) by lia. simpl.
  rewrite !add_u_fits by (unfold in_u; lia). simpl. rewrite !slice_Ok by lia. by simpl.
Qed.

(** Subscribing with an empty topic registers any client id. *)
Lemma subscribe_empty_topic caller gl client_id data :
  caller_memory caller = Some data →
  ∃ gl', host_sys_mqtt_subscribe caller gl client_id 0 0 = Ok (gl', 0) ∧
    message_queue gl' = message_queue gl ∧ client_id ∈ mqtt_subscribers gl' ∧
    (length (mqtt_subscribers gl') <= S (length (mqtt_subscribers gl)))%nat.
Proof.
  intros Hdata. unfold host_sys_mqtt_subscribe. rewrite Hdata.
  change (i32_as_usize 0) with 0. rewrite add_u_fits by done. simpl. pose proof (len_nonneg data).
  rewrite decide_False, slice_Ok by lia. simpl.
  case_bool_decide; eexists; (split; [done|]); simpl; [split_and!; [done..|lia]|].
  rewrite length_app, elem_of_app, list_elem_of_singleton. simpl. split_and!; [done|auto|lia].
Qed.

Lemma ipc_send_run caller gl dest p l :
  in_i 32 l → memory_fits caller →
  (∃ code, code < 0 ∧ host_sys_ipc_send caller gl dest p l = Ok (gl, code)) ∨
  (∃ cap data,
     find_capability (caller_data caller) ResourceType_Endpoint dest = Some cap ∧
     Rights_write (Capability_rights cap) = true ∧
     caller_memory caller = Some data ∧ 0 ≤ l ≤ 512 ∧ i32_as_usize p + l ≤ len data ∧
     (length (message_queue gl) < MAX_IPC_QUEUE_DEPTH)%nat ∧
     host_sys_ipc_send caller gl dest p l =
     Ok (with_queue gl (message_queue gl ++
           [mkIpcMessage dest (sub_list data (i32_as_usize p) (i32_as_usize p + l))]), 0)).
Proof.
  intros Hl Hmem. unfold host_sys_ipc_send.
  destruct (_ || _) eqn:Hsize; [left; by exists (-4)|].
  apply oversized_false in Hsize as [Hrange Hsize]; [|done]. rewrite Hsize.
  destruct (find_capability _ _ _) as [cap|] eqn:Hcap; [|left; by exists (-1)].
  destruct (Rights_write _) eqn:Hw; simpl; [|left; by exists (-2)].
  destruct (caller_memory caller) as [data|] eqn:Hdata; [|left; by exists (-3)].
  destruct (_ <? _) eqn:Hb; [left; by exists (-3)|].
  pose proof (in_u_i32 p).
  destruct (checked_slice data (i32_as_usize p) l) as (-> & Hs & Hlen);
    [auto | unfold in_u; lia | auto | done |].
  simpl. rewrite Hs. simpl. case_decide; [left; by exists (-5)|].
  right. exists cap, data. split_and!; try done; try lia.
  pose proof (Hmem data Hdata). unfold saturating_add, in_u in *. apply Z.ltb_ge in Hb. lia.
Qed.
End host_lemmas.

(** ** What a host call can do to the kernel *)

(** A destination the guest may add messages for: an endpoint its context holds
    a writable capability for, or a registered subscriber. *)
Definition may_reach (ctx : WasmContext) (subs : list Z) (dest : Z) : Prop :=
  dest ∈ subs ∨
  ∃ cap, cap ∈ capabilities ctx ∧ Capability_resource_type cap = ResourceType_Endpoint ∧
    Capability_resource_id cap = dest ∧ Rights_write (Capability_rights cap) = true.

(** [gl'] extends [gl]: messages are only appended, each for a destination the
    guest may reach, subscribers are only added, and the queue grows neither past
    its limit nor by messages past theirs. *)
Record extends (ctx : WasmContext) (gl gl' : Globals) : Prop := {
  ext_subs : mqtt_subscribers gl ⊆ mqtt_subscribers gl';
  ext_queue : ∃ new, message_queue gl' = message_queue gl ++ new ∧
    Forall (λ m, may_reach ctx (mqtt_subscribers gl') (dest_client_id m)) new;
  ext_depth : (length (message_queue gl') <= length (message_queue gl) `max` MAX_IPC_QUEUE_DEPTH)%nat;
  ext_small : small_messages gl → small_messages gl'
}.

Lemma may_reach_mono ctx subs subs' d : subs ⊆ subs' → may_reach ctx subs d → may_reach ctx subs' d.
Proof. intros Hs [?|?]; [left; by apply Hs | by right]. Qed.

Lemma extends_same ctx gl gl' :
  message_queue gl' = message_queue gl → mqtt_subscribers gl ⊆ mqtt_subscribers gl' →
  extends ctx gl gl'.
Proof.
  intros Hq Hs. split; [done| |rewrite Hq; lia|unfold small_messages; by rewrite Hq].
  exists []. by rewrite app_nil_r.
Qed.

Lemma extends_refl ctx gl : extends ctx gl gl.
Proof. by apply extends_same. Qed.

Lemma extends_trans ctx gl1 gl2 gl3 :
  extends ctx gl1 gl2 → extends ctx gl2 gl3 → extends ctx gl1 gl3.
Proof.
  intros [H1 (n1 & Hq1 & Hn1) Hd1 Hs1] [H2 (n2 & Hq2 & Hn2) Hd2 Hs2].
  split; [by etrans| |lia|auto].
  exists (n1 ++ n2). rewrite Hq2, Hq1, <- (assoc_L (++)). split; [done|].
  apply Forall_app. split; [|done]. eapply Forall_impl; [exact Hn1|].
  intros m. by apply may_reach_mono.
Qed.

Lemma extends_queue_ok ctx gl gl' : extends ctx gl gl' → queue_ok gl → queue_ok gl'.
Proof. intros [_ _ Hd Hs] [? ?]. split; [lia|by apply Hs]. Qed.

Lemma find_capability_Some ctx rt rid cap :
  find_capability ctx rt rid = Some cap →
  cap ∈ capabilities ctx ∧ Capability_resource_type cap = rt ∧ Capability_resource_id cap = rid.
Proof.
  unfold find_capability. induction (capabilities ctx) as [|c l IH]; simpl; [done|].
  case_bool_decide; simpl; [destruct (_ =? _) eqn:Hid|].
  - intros [= ->]. apply Z.eqb_eq in Hid. split; [apply list_elem_of_here|done].
  - intros [??]%IH. split; [by apply list_elem_of_further|done].
  - intros [??]%IH. split; [by apply list_elem_of_further|done].
Qed.

#[export] Hint Resolve extends_refl extends_same : jericho.

Section calls.
Context `{Build}.

(** Arguments as wide as the linker's types make them. *)
Definition call_in_range (c : HostCall) : Prop :=
  match c with
  | Call_print v => in_i 32 v
  | Call_sys_print p l => in_i 32 p ∧ in_i 32 l
  | Call_sys_print_u32 v => in_u 32 v
  | Call_sys_mqtt_subscribe i p l => in_u 32 i ∧ in_i 32 p ∧ in_i 32 l
  | Call_sys_mqtt_publish tp tl mp ml => in_i 32 tp ∧ in_i 32 tl ∧ in_i 32 mp ∧ in_i 32 ml
  | Call_sys_ipc_send d p l => in_u 32 d ∧ in_i 32 p ∧ in_i 32 l
  | Call_syscall n a1 a2 a3 => in_i 32 n ∧ in_i 32 a1 ∧ in_i 32 a2 ∧ in_i 32 a3
  end.

Lemma sys_print_queue caller gl p l gl' :
  host_sys_print caller gl p l = Ok gl' →
  message_queue gl' = message_queue gl ∧ mqtt_subscribers gl' = mqtt_subscribers gl.
Proof.
  unfold host_sys_print. destruct (caller_memory caller); [|by intros [= <-]].
  intros (e & _ & He)%bind_Ok. case_decide; [by injection He as <-|].
  apply bind_Ok in He as (e' & _ & He). apply bind_Ok in He as (bs & _ & He).
  destruct (utf8_valid bs); by injection He as <-.
Qed.

Lemma subscribe_queue caller gl i p l gl' r :
  host_sys_mqtt_subscribe caller gl i p l = Ok (gl', r) →
  message_queue gl' = message_queue gl ∧ mqtt_subscribers gl ⊆ mqtt_subscribers gl'.
Proof.
  unfold host_sys_mqtt_subscribe. destruct (caller_memory caller); [|by intros [= <- <-]].
  intros (e & _ & He)%bind_Ok. case_decide; [by injection He as <- <-|].
  apply bind_Ok in He as (e' & _ & He). apply bind_Ok in He as (bs & _ & He).
  destruct (utf8_valid bs), (bool_decide _); injection He as <- <-; simpl; auto;
    split; [done| |done|]; by apply list_subseteq_app_l.
Qed.

Lemma message_within data p l :
  in_u 64 p → 0 ≤ l → p + l ≤ len data → len (sub_list data p (p + l)) = l.
Proof. unfold in_u. intros. rewrite length_sub_list; lia. Qed.

(** Appending small messages without passing the limit. *)
Lemma extends_append ctx gl new :
  (length (message_queue gl) + length new <= length (message_queue gl) `max` MAX_IPC_QUEUE_DEPTH)%nat →
  Forall (λ m, may_reach ctx (mqtt_subscribers gl) (dest_client_id m)) new →
  Forall (λ m, len (message m) ≤ MAX_IPC_MESSAGE_SIZE) new →
  extends ctx gl (with_queue gl (message_queue gl ++ new)).
Proof.
  intros Hd Hr Hs. split; simpl; [done|by exists new|by rewrite length_app|].
  intros Hsm. unfold small_messages. simpl. by apply Forall_app.
Qed.

Lemma host_call_extends caller gl c gl' r :
  call_in_range c → memory_fits caller →
  host_call caller gl c = Ok (gl', r) → extends (caller_data caller) gl gl'.
Proof.
  intros Hc Hmem. destruct c; simpl in *; try (intros [= <- <-]; auto with jericho).
  - intros (gl1 & [Hq1 Hs1]%sys_print_queue & [= <- <-])%bind_Ok. apply extends_same; [done|by rewrite Hs1].
  - intros ([gl1 v] & [Hq1 Hs1]%subscribe_queue & [= <- <-])%bind_Ok. by apply extends_same.
  - intros ([gl1 v] & Hpub & [= <- <-])%bind_Ok.
    destruct (publish_run caller gl topic_ptr topic_len msg_ptr msg_len)
      as [(code & _ & Hrun)|(data & Hdata & (Hml & _ & Hmp) & Hrun)]; [naive_solver..| |];
      rewrite Hrun in Hpub; injection Hpub as <- <-; [auto with jericho|].
    rewrite publish_loop_eq. apply extends_append.
    + rewrite length_fmap, length_take. lia.
    + apply Forall_fmap, Forall_forall. intros c Hin. left. by eapply subseteq_take.
    + apply Forall_fmap, Forall_forall. intros c _. simpl.
      rewrite message_within; [unfold MAX_IPC_MESSAGE_SIZE; lia|apply in_u_i32|lia|done].
  - intros ([gl1 v] & Hsend & [= <- <-])%bind_Ok.
    destruct (ipc_send_run caller gl dest msg_ptr msg_len)
      as [(code & _ & Hrun)|(cap & data & Hcap & Hw & Hdata & Hml & Hmp & Hroom & Hrun)];
      [naive_solver..| |]; rewrite Hrun in Hsend; injection Hsend as <- <-; [auto with jericho|].
    apply extends_append.
    + simpl. lia.
    + apply Forall_singleton. right. exists cap. apply find_capability_Some in Hcap. naive_solver.
    + apply Forall_singleton. simpl.
      rewrite message_within; [unfold MAX_IPC_MESSAGE_SIZE; lia|apply in_u_i32|lia|done].
Qed.

(** A guest activation that calls host functions with arguments of their
    types, on memories of a possible size. *)
Fixpoint run_typed {G} `{!Wasmi G} (r : Run G) : Prop :=
  match r with
  | Run_return _ _ | Run_trap _ | Run_diverge => True
  | Run_host g c k =>
      call_in_range c ∧ memory_fits (mkCaller (WasmContext_new []) (guest_memory g)) ∧
      ∀ v, run_typed (k v)
  end.

Lemma exec_extends {G} `{!Wasmi G} ctx (r : Run G) gl g gl' res :
  run_typed r → exec ctx gl r = Ok (g, gl', res) → extends ctx gl gl'.
Proof.
  revert gl. induction r as [g0 vs|g0| |g0 c k IH]; intros gl Hty; simpl.
  - intros [= <- <- <-]. auto with jericho.
  - intros [= <- <- <-]. auto with jericho.
  - done.
  - destruct Hty as (Hc & Hmem & Hk). intros ([gl1 v] & Hcall & Hexec)%bind_Ok.
    apply host_call_extends in Hcall; [|done..].
    apply IH in Hexec; [|done]. by eapply extends_trans.
Qed.
End calls.

(** ** What the component promises *)
Section theorems.
Context `{Build}.

(** C4: the sandbox.  Whatever code a guest runs and however it drives the host
    functions, the kernel's message queue never grows past 64 messages of at
    most 512 bytes, nothing already queued is touched, and every message the
    guest adds is for an endpoint it holds a writable capability for or for a
    registered subscriber. *)
Theorem guest_confined {G} `{!Wasmi G} ctx (r : Run G) gl g gl' res :
  run_typed r → queue_ok gl → exec ctx gl r = Ok (g, gl', res) →
  (length (message_queue gl') <= 64)%nat ∧
  (∀ m, m ∈ message_queue gl' → len (message m) ≤ 512) ∧
  ∃ new, message_queue gl' = message_queue gl ++ new ∧
    ∀ m, m ∈ new → may_reach ctx (mqtt_subscribers gl') (dest_client_id m).
Proof.
  intros Hty Hq Hexec.
  pose proof (exec_extends ctx r gl g gl' res Hty Hexec) as Hext.
  destruct (extends_queue_ok _ _ _ Hext Hq) as [? Hs]. destruct Hext as [_ (new & Happ & Hnew) _ _].
  split_and!; [done|by apply Forall_forall|]. exists new. split; [done|by apply Forall_forall].
Qed.

(** A freshly loaded module has no authority: [from_bytes] gives it an
    empty context, and its start function can queue messages for registered
    subscribers only. *)
Theorem from_bytes_no_authority {G} `{!Wasmi G} gl bytes start gl' (m : WasmModule G) :
  guest_instantiate bytes = Some start → run_typed start → queue_ok gl →
  from_bytes gl bytes = Ok (gl', ROk m) →
  capability_count m = O ∧
  ∃ new, message_queue gl' = message_queue gl ++ new ∧
    ∀ msg, msg ∈ new → dest_client_id msg ∈ mqtt_subscribers gl'.
Proof.
  unfold from_bytes. intros -> Hty Hq. intros ([[g gl1] r] & Hexec & Hr)%bind_Ok.
  apply exec_extends in Hexec as [_ (new & Hnew & Hall) _ _]; [|done].
  destruct r; [|done]. injection Hr as <- <-. split; [done|]. exists new. split; [done|].
  rewrite Forall_forall in Hall. intros msg [?|(cap & Hin & _)]%Hall; [done|].
  by apply not_elem_of_nil in Hin.
Qed.

(** The documented codes, in the order in which [sys_ipc_send] checks: -4 for a size
    out of range, -1 without a capability, -2 without the right to write, -3 for
    memory the guest does not have, -5 for a full queue, 0 otherwise. *)
Definition documented_code (caller : Caller) (gl : Globals) (dest p l : Z) : Z :=
  if decide (l < 0 ∨ 512 < l) then -4
  else match find_capability (caller_data caller) ResourceType_Endpoint dest with
  | None => -1
  | Some cap =>
      if negb (Rights_write (Capability_rights cap)) then -2
      else match caller_memory caller with
      | None => -3
      | Some data =>
          if decide (len data < i32_as_usize p + l) then -3
          else if decide (64 <= length (message_queue gl))%nat then -5 else 0
      end
  end.

Lemma ipc_send_codes caller gl dest p l :
  in_i 32 l → memory_fits caller →
  snd <$> host_sys_ipc_send caller gl dest p l = Ok (documented_code caller gl dest p l).
Proof.
  intros Hl Hmem. unfold host_sys_ipc_send, documented_code.
  destruct (decide (l < 0 ∨ 512 < l)) as [Hbig|Hsmall]; [by rewrite oversized_true|].
  destruct (_ || _) eqn:Hsize.
  { exfalso. apply Hsmall. unfold MAX_IPC_MESSAGE_SIZE in Hsize.
    apply orb_true_iff in Hsize as [Hs|Hs]; apply Z.ltb_lt in Hs; [by left|].
    destruct (decide (l < 0)); [by left|right]. by rewrite i32_as_usize_nonneg in Hs by (done || lia). }
  apply oversized_false in Hsize as [Hrange Hsize]; [|done]. rewrite Hsize.
  destruct (find_capability _ _ _) as [cap|]; [|done].
  destruct (negb _); [done|].
  destruct (caller_memory caller) as [data|] eqn:Hdata; [|done].
  pose proof (in_u_i32 p) as Hp. pose proof (Hmem data Hdata) as Hlen. unfold in_u in Hp.
  destruct (_ <? _) eqn:Hb.
  { apply Z.ltb_lt in Hb. unfold saturating_add in Hb. by rewrite decide_True by lia. }
  destruct (checked_slice data (i32_as_usize p) l) as (-> & Hs & _);
    [unfold in_u; lia..|done|]. apply Z.ltb_ge in Hb. unfold saturating_add in Hb.
  simpl. rewrite Hs. simpl. rewrite (decide_False (P := len data < _)) by lia.
  unfold MAX_IPC_QUEUE_DEPTH. by case_decide.
Qed.

(** C33: [sys_ipc_send] on every branch.  For any arguments it returns exactly the
    code documented for the first check that fails, in the order size, capability,
    right, memory, queue depth; a non-zero code leaves the kernel unchanged, and zero
    means that exactly the bytes named, read from the guest's own memory, were
    queued under a writable capability for the destination. *)
Theorem ipc_send_spec caller gl dest p l :
  in_i 32 l → memory_fits caller →
  ∃ gl' code, host_sys_ipc_send caller gl dest p l = Ok (gl', code) ∧
    code = documented_code caller gl dest p l ∧
    (code ≠ 0 → gl' = gl) ∧
    (code = 0 → ∃ cap data,
       find_capability (caller_data caller) ResourceType_Endpoint dest = Some cap ∧
       Rights_write (Capability_rights cap) = true ∧ caller_memory caller = Some data ∧
       0 ≤ l ≤ 512 ∧ i32_as_usize p + l ≤ len data ∧
       (length (message_queue gl) < 64)%nat ∧
       gl' = with_queue gl (message_queue gl ++
         [mkIpcMessage dest (sub_list data (i32_as_usize p) (i32_as_usize p + l))])).
Proof.
  intros Hl Hmem. pose proof (ipc_send_codes caller gl dest p l Hl Hmem) as Hcode.
  destruct (ipc_send_run caller gl dest p l Hl Hmem)
    as [(code & Hneg & Hrun)|(cap & data & ? & ? & ? & ? & ? & ? & Hrun)];
    rewrite Hrun in Hcode; injection Hcode as Hcode.
  - exists gl, code. split_and!; [done|done|done|lia].
  - do 2 eexists. split_and!; [exact Hrun|exact Hcode|done|]. intros _. exists cap, data.
    unfold MAX_IPC_QUEUE_DEPTH in *. auto 10.
Qed.

(** Publishing.  An accepted publish appends the same message for the first
    subscribers until the queue holds 64, in subscription order, and answers
    with the number of subscribers, not with the number of messages queued. *)
Theorem publish_spec caller gl tp tl mp ml data :
  in_i 32 ml → memory_fits caller →
  caller_memory caller = Some data → publish_accepts data tp tl mp ml →
  host_sys_mqtt_publish caller gl tp tl mp ml =
    Ok (with_queue gl (message_queue gl ++
          ((λ c, mkIpcMessage c (sub_list data (i32_as_usize mp) (i32_as_usize mp + ml)))
             <$> take (64 - length (message_queue gl)) (mqtt_subscribers gl))),
        as_i32 (Z.of_nat (length (mqtt_subscribers gl)))).
Proof. intros. by rewrite (publish_accepted caller gl tp tl mp ml data), publish_loop_eq. Qed.

(** C34: subscription bypasses the capability check.  Any guest with an exported
    memory, without a single capability, gets any message of its memory queued
    for any client, while the queue has room: [sys_mqtt_subscribe] takes the client id on trust, and
    [sys_mqtt_publish] sends to whoever is registered. *)
Theorem subscription_bypasses_capabilities caller gl client_id p l data :
  in_i 32 p → 0 ≤ p → 0 ≤ l ≤ 512 → p + l ≤ len data →
  caller_memory caller = Some data → memory_fits caller →
  (length (message_queue gl) + length (mqtt_subscribers gl) < 64)%nat →
  ∃ gl1 gl2 n,
    host_call caller gl (Call_sys_mqtt_subscribe client_id 0 0) = Ok (gl1, Some 0) ∧
    host_call caller gl1 (Call_sys_mqtt_publish 0 0 p l) = Ok (gl2, Some n) ∧
    mkIpcMessage client_id (sub_list data p (p + l)) ∈ message_queue gl2.
Proof.
  intros Hpi Hp Hl Hfit Hdata Hmem Hroom. simpl.
  destruct (subscribe_empty_topic caller gl client_id data) as (gl1 & -> & Hq & Hin & Hlen); [done|].
  assert (i32_as_usize p = p) as Hpu by (by apply i32_as_usize_nonneg). exists gl1. simpl.
  rewrite (publish_accepted caller gl1 0 0 p l data);
    [|unfold in_i; lia|done|done|unfold publish_accepts; rewrite Hpu; pose proof (len_nonneg data);
      change (i32_as_usize 0) with 0; lia].
  do 2 eexists. split; [done|]. split; [done|]. simpl. rewrite Hpu, publish_loop_eq.
  apply elem_of_app. right. rewrite take_ge by (rewrite Hq; unfold MAX_IPC_QUEUE_DEPTH; lia).
  by apply (list_elem_of_fmap_2 (λ c, mkIpcMessage c (sub_list data p (p + l)))).
Qed.

(** C35: a guest can halt the machine.  The bounds checks of [sys_print] and
    [sys_mqtt_subscribe] add the guest's pointer and length without guarding
    against overflow: with pointer -1 and length 1 every guest that exports a
    memory panics the kernel, in debug builds on the addition and in release
    builds on the slice. *)
Theorem guest_panics_kernel caller gl client_id data :
  caller_memory caller = Some data → len data < 2 ^ 63 →
  host_call caller gl (Call_sys_print (-1) 1) = Panic ∧
  host_call caller gl (Call_sys_mqtt_subscribe client_id (-1) 1) = Panic.
Proof.
  intros Hdata Hlen. simpl. unfold host_sys_print, host_sys_mqtt_subscribe. rewrite Hdata.
  change (i32_as_usize (-1)) with (2 ^ 64 - 1). change (i32_as_usize 1) with 1.
  pose proof (len_nonneg data). unfold add_u, overflow.
  rewrite decide_False by lia. destruct build; [done|].
  change (wrap 64 (2 ^ 64 - 1 + 1)) with 0. simpl. rewrite decide_False by lia.
  simpl. unfold slice. by rewrite decide_False by lia.
Qed.

(** The other host functions are total: no arguments and no memory contents
    make them panic. *)
Theorem host_calls_total caller gl c :
  call_in_range c → memory_fits caller →
  match c with Call_sys_print _ _ | Call_sys_mqtt_subscribe _ _ _ => False | _ => True end →
  ∃ gl' r, host_call caller gl c = Ok (gl', r).
Proof.
  intros Hc Hmem Hkind. destruct c; simpl in *; try done; try by do 2 eexists.
  - destruct (publish_run caller gl topic_ptr topic_len msg_ptr msg_len)
      as [(code & _ & ->)|(data & _ & _ & ->)]; [naive_solver..|by do 2 eexists|by do 2 eexists].
  - destruct (ipc_send_run caller gl dest msg_ptr msg_len)
      as [(code & _ & ->)|(cap & data & _ & _ & _ & _ & _ & _ & ->)];
      [naive_solver..|by do 2 eexists|by do 2 eexists].
Qed.
End theorems.

(** ** Delivery *)

Definition for_client (client_id : Z) (q : list IpcMessage) : list IpcMessage :=
  filter (λ m, is_for client_id m = true) q.
Definition for_others (client_id : Z) (q : list IpcMessage) : list IpcMessage :=
  filter (λ m, is_for client_id m = false) q.

Lemma for_client_cons i m q :
  for_client i (m :: q) = if is_for i m then m :: for_client i q else for_client i q.
Proof. unfold for_client. rewrite filter_cons. by destruct (is_for i m). Qed.

Lemma for_others_cons i m q :
  for_others i (m :: q) = if is_for i m then for_others i q else m :: for_others i q.
Proof. unfold for_others. rewrite filter_cons. by destruct (is_for i m). Qed.

Lemma for_client_others i q : for_client i (for_others i q) = [].
Proof.
  induction q as [|m q IH]; [done|]. rewrite for_others_cons.
  destruct (is_for i m) eqn:Hm; [done|]. by rewrite for_client_cons, Hm.
Qed.

(** What [position] followed by [remove] does to the two parts of the queue. *)
Lemma take_message i q :
  match position (is_for i) q with
  | None => for_client i q = [] ∧ for_others i q = q
  | Some pos => ∃ m, q !! pos = Some m ∧ is_for i m = true ∧
      for_client i q = m :: for_client i (remove_at pos q) ∧
      for_others i q = for_others i (remove_at pos q) ∧
      length q = S (length (remove_at pos q))
  end.
Proof.
  induction q as [|m q IH]; simpl; [done|].
  rewrite for_client_cons, for_others_cons. destruct (is_for i m) eqn:Hm.
  - exists m. unfold remove_at. simpl. by rewrite drop_0.
  - destruct (position (is_for i) q) as [pos|]; simpl.
    + destruct IH as (m' & ? & ? & Hc & Ho & Hlen). exists m'. unfold remove_at in *. simpl.
      rewrite for_client_cons, for_others_cons, Hm, Hlen. split_and!; try done. by f_equal.
    + destruct IH as [-> Ho]. by rewrite Ho.
Qed.

Lemma length_copy_into data a src :
  0 ≤ a → a + len src ≤ len data → len (copy_into data a src) = len data.
Proof.
  unfold len, copy_into. intros. rewrite !length_app, length_take, length_drop. lia.
Qed.

Lemma sub_list_copy_into data a src :
  0 ≤ a → a + len src ≤ len data →
  sub_list (copy_into data a src) a (a + len src) = src.
Proof.
  unfold len, sub_list, copy_into. intros.
  rewrite drop_app_length' by (rewrite length_take; lia).
  rewrite take_app_length' by lia. done.
Qed.

Lemma sub_list_all l : sub_list l 0 (len l) = l.
Proof. unfold sub_list, len. rewrite drop_0. apply take_ge. lia. Qed.

(** A guest that is untrusted but quiet: the two functions delivery calls
    terminate and add nothing to the queue; they may trap, misbehave or be
    missing. *)
Class QuietGuest `{Build} (G : Type) `{!Wasmi G} : Prop := {
  quiet_exec g name f args ctx gl :
    name = "allocate_message_buffer"%string ∨ name = "subscriber_receive"%string →
    guest_func g name = Some f →
    ∃ g' gl' r, exec ctx gl (f args) = Ok (g', gl', r) ∧ message_queue gl' = message_queue gl;
  quiet_memory g d : guest_memory g = Some d → len d < 2 ^ 63
}.

Section delivery.
Context `{Build} {G : Type} `{!Wasmi G}.

Lemma quiet_call `{!QuietGuest G} (sub : WasmModule G) gl name args :
  name = "allocate_message_buffer"%string ∨ name = "subscriber_receive"%string →
  ∃ sub' gl' r, call_function sub gl name args = Ok (sub', gl', r) ∧
    message_queue gl' = message_queue gl.
Proof.
  intros Hname. unfold call_function. destruct (guest_func _ _) as [f|] eqn:Hf; [|by do 3 eexists].
  destruct (quiet_exec _ _ _ args (store_data sub) gl Hname Hf) as (g' & gl' & r & -> & Hq). simpl.
  destruct r; by do 3 eexists.
Qed.

Lemma buffer_slice data p n :
  0 < p → in_u 31 p → 0 ≤ n ≤ 512 → len data < 2 ^ 63 → p + n ≤ len data →
  i32_as_usize p = p ∧ (len data <? saturating_add 64 p n) = false ∧
  (p +u[64] n) = Ok (p + n) ∧ slice data p (p + n) = Ok (sub_list data p (p + n)).
Proof.
  unfold in_u. intros Hp Hp31 Hn Hlen Hfit.
  assert (i32_as_usize p = p) by (apply i32_as_usize_nonneg; unfold in_i; lia).
  split_and!; [done| |apply add_u_fits; unfold in_u; lia|apply slice_Ok; lia].
  apply Z.ltb_ge. unfold saturating_add. lia.
Qed.

Lemma deliver_one_quiet `{!QuietGuest G} (sub : WasmModule G) gl m n :
  0 ≤ n → n + 1 < 2 ^ 64 →
  ∃ sub' gl' d, deliver_one sub gl m n = Ok (sub', gl', d) ∧
    ((∃ n', d = Deliver_continue n' ∧ n ≤ n' ≤ n + 1 ∧ message_queue gl' = message_queue gl) ∨
     (d = Deliver_break n ∧ (message_queue gl' = message_queue gl ∨
        message_queue gl' = m :: message_queue gl))).
Proof.
  intros Hn0 Hn. unfold deliver_one. set (msg_len := Z.min _ _).
  assert (0 ≤ msg_len ≤ len (message m) ∧ msg_len ≤ 512) as [Hl Hl5].
  { pose proof (len_nonneg (message m)). unfold msg_len, MAX_IPC_MESSAGE_SIZE. lia. }
  destruct (quiet_call sub gl "allocate_message_buffer" [Value_I32 (as_i32 msg_len)])
    as (sub1 & gl1 & r1 & -> & Hq1); [auto|]. simpl. rewrite <- Hq1.
  destruct r1 as [[[p|]|]|e]; simpl; try (do 3 eexists; split; [done|]; naive_solver lia).
  destruct (0 <? p) eqn:Hp; [|do 3 eexists; split; [done|]; naive_solver lia].
  destruct (guest_memory _) as [d|] eqn:Hd; [|do 3 eexists; split; [done|]; naive_solver lia].
  apply quiet_memory in Hd. destruct (len d <? _) eqn:Hb; [do 3 eexists; split; [done|]; naive_solver lia|].
  destruct (checked_slice d (i32_as_usize p) msg_len) as (-> & Hs & _);
    [apply in_u_i32|unfold in_u; lia|done|done|]. simpl. rewrite Hs. simpl.
  rewrite slice_Ok by lia. simpl. set (sub2 := mkWasmModule _ _).
  destruct (quiet_call sub2 gl1 "subscriber_receive" [Value_I32 p; Value_I32 (as_i32 msg_len)])
    as (sub3 & gl3 & r3 & -> & Hq3); [auto|]. simpl. rewrite <- Hq3.
  destruct r3; simpl; [|do 3 eexists; split; [done|]; naive_solver lia].
  rewrite add_u_fits by (unfold in_u; lia). do 3 eexists; split; [done|]. naive_solver lia.
Qed.

Lemma deliver_loop_quiet `{!QuietGuest G} fuel (sub : WasmModule G) gl i n :
  0 ≤ n → n + Z.of_nat (length (message_queue gl)) < 2 ^ 64 →
  (length (for_client i (message_queue gl)) < fuel)%nat →
  ∃ sub' gl' n', deliver_loop fuel sub gl i n = Ok (sub', gl', Some n') ∧
    n ≤ n' ≤ n + Z.of_nat (length (for_client i (message_queue gl))) ∧
    for_others i (message_queue gl') = for_others i (message_queue gl) ∧
    suffix (for_client i (message_queue gl')) (for_client i (message_queue gl)).
Proof.
  revert sub gl n. induction fuel as [|fuel IH]; intros sub gl n Hn Hfit Hfuel; [lia|]. simpl.
  pose proof (take_message i (message_queue gl)) as Htake.
  destruct (position (is_for i) (message_queue gl)) as [pos|].
  2: { exists sub, gl, n. split_and!; [done|lia..|done|done]. }
  destruct Htake as (m & -> & Him & Hc & Ho & Hlen). simpl. rewrite Hc, Ho, Hlen in *.
  set (q := remove_at pos (message_queue gl)) in *. set (gl0 := with_queue gl q).
  destruct (deliver_one_quiet sub gl0 m n) as (sub1 & gl1 & d & -> & Hd); [done|lia|]. simpl.
  change (message_queue gl0) with q in Hd. simpl in Hfuel.
  destruct Hd as [(n' & -> & Hn' & Hq)|[-> Hq]].
  - destruct (IH sub1 gl1 n') as (sub' & gl' & n2 & -> & Hn2 & Ho2 & Hc2); rewrite ?Hq in *;
      [lia..|]. exists sub', gl', n2. split_and!; [done|simpl; lia..|done|].
    by apply suffix_cons_r.
  - exists sub1, gl1, n. split_and!; [done|simpl; lia..| |];
      destruct Hq as [-> | ->]; rewrite ?for_others_cons, ?for_client_cons, ?Him; auto using suffix_cons_r.
Qed.
End delivery.

(** A guest that follows the delivery protocol: it hands out an in-range buffer
    for any size asked for, and its receive function returns; [observe g] is
    the list of messages [g] has been shown so far. *)
Class Subscriber `{Build} (G : Type) `{!Wasmi G} (observe : G → list (list Z)) : Prop := {
  sub_allocates g n ctx gl : 0 ≤ n ≤ 512 →
    ∃ f g' gl' p vs d, guest_func g "allocate_message_buffer" = Some f ∧
      exec ctx gl (f [Value_I32 n]) = Ok (g', gl', ROk (Value_I32 p :: vs)) ∧
      message_queue gl' = message_queue gl ∧ observe g' = observe g ∧
      0 < p ∧ in_u 31 p ∧ guest_memory g' = Some d ∧ len d < 2 ^ 63 ∧ p + n ≤ len d;
  sub_receives g p n d ctx gl : guest_memory g = Some d → 0 < p → 0 ≤ n → p + n ≤ len d →
    ∃ f g' gl' vs, guest_func g "subscriber_receive" = Some f ∧
      exec ctx gl (f [Value_I32 p; Value_I32 n]) = Ok (g', gl', ROk vs) ∧
      message_queue gl' = message_queue gl ∧ observe g' = observe g ++ [sub_list d p (p + n)];
  sub_set_memory g d : observe (guest_set_memory g d) = observe g
}.

Section in_order.
Context `{Build} {G : Type} `{!Wasmi G, !WasmiLaws G} (observe : G → list (list Z)).
Context `{!Subscriber G observe}.

Lemma as_i32_small z : in_u 31 z → as_i32 z = z.
Proof.
  unfold in_u, as_i32, wrap. intros Hz. rewrite Z.mod_small by lia. by rewrite decide_True by lia.
Qed.

Lemma deliver_one_subscriber (sub : WasmModule G) gl m n :
  len (message m) ≤ MAX_IPC_MESSAGE_SIZE → 0 ≤ n → n + 1 < 2 ^ 64 →
  ∃ sub' gl', deliver_one sub gl m n = Ok (sub', gl', Deliver_continue (n + 1)) ∧
    message_queue gl' = message_queue gl ∧
    observe (instance sub') = observe (instance sub) ++ [message m].
Proof.
  unfold MAX_IPC_MESSAGE_SIZE. intros Hm Hn Hn1. pose proof (len_nonneg (message m)) as H0.
  unfold deliver_one, MAX_IPC_MESSAGE_SIZE. rewrite Z.min_l by done.
  rewrite as_i32_small by (unfold in_u; lia).
  destruct (sub_allocates (instance sub) (len (message m)) (store_data sub) gl)
    as (f & g1 & gl1 & p & vs & d & Hf & Hrun & Hq1 & Ho1 & Hp & Hp31 & Hd & Hdl & Hfit); [lia|].
  unfold call_function. rewrite Hf. rewrite Hrun. simpl.
  rewrite (proj2 (Z.ltb_lt 0 p)), Hd by done.
  destruct (buffer_slice d p (len (message m))) as (-> & -> & -> & Hs); [done..|lia|done|done|].
  simpl. rewrite Hs. simpl. rewrite slice_Ok, sub_list_all by lia. simpl.
  set (d' := copy_into d p (message m)).
  assert (guest_memory (guest_set_memory g1 d') = Some d') as Hd'.
  { eapply guest_memory_set; [done|]. apply length_copy_into; lia. }
  destruct (sub_receives (guest_set_memory g1 d') p (len (message m)) d' (store_data sub) gl1)
    as (f2 & g2 & gl2 & vs2 & Hf2 & Hrun2 & Hq2 & Ho2); [done|done|lia| |].
  { unfold d'. rewrite length_copy_into; lia. }
  simpl. rewrite Hf2, Hrun2. simpl.
  rewrite add_u_fits by (unfold in_u; lia). do 2 eexists. split; [done|].
  rewrite Hq2, Hq1. split; [done|]. simpl. rewrite Ho2, sub_set_memory, Ho1.
  unfold d'. by rewrite sub_list_copy_into by lia.
Qed.

Lemma deliver_loop_subscriber fuel (sub : WasmModule G) gl i n :
  queue_ok gl → 0 ≤ n → n + Z.of_nat (length (message_queue gl)) < 2 ^ 64 →
  (length (for_client i (message_queue gl)) < fuel)%nat →
  ∃ sub' gl', deliver_loop fuel sub gl i n =
      Ok (sub', gl', Some (n + Z.of_nat (length (for_client i (message_queue gl))))) ∧
    message_queue gl' = for_others i (message_queue gl) ∧
    observe (instance sub') =
      observe (instance sub) ++ (message <$> for_client i (message_queue gl)).
Proof.
  revert sub gl n. induction fuel as [|fuel IH]; intros sub gl n Hok Hn Hfit Hfuel; [lia|]. simpl.
  pose proof (take_message i (message_queue gl)) as Htake.
  destruct (position (is_for i) (message_queue gl)) as [pos|].
  2: { destruct Htake as [Hc Ho]. exists sub, gl. rewrite Hc, Ho. simpl.
       by rewrite Z.add_0_r, app_nil_r. }
  destruct Htake as (m & Hm & Him & Hc & Ho & Hlen). rewrite Hm. simpl. rewrite Hc, Ho, Hlen in *.
  destruct Hok as [Hdepth Hsizes].
  assert (len (message m) ≤ MAX_IPC_MESSAGE_SIZE) as Hsize.
  { rewrite Forall_forall in Hsizes. apply Hsizes. by eapply list_elem_of_lookup_2. }
  set (q := remove_at pos (message_queue gl)) in *.
  destruct (deliver_one_subscriber sub (with_queue gl q) m n) as (sub1 & gl1 & -> & Hq1 & Ho1);
    [done|done|lia|]. simpl in *.
  destruct (IH sub1 gl1 (n + 1)) as (sub' & gl' & -> & Hq' & Ho'); rewrite ?Hq1 in *; [|lia..|].
  - split; rewrite Hq1; simpl; [lia|]. unfold q, remove_at.
    apply Forall_app. split; [by apply Forall_take | by apply Forall_drop].
  - exists sub', gl'. split; [do 3 f_equal; lia|]. split; [done|].
    rewrite Ho', Ho1. csimpl. by rewrite <- (assoc_L (++)).
Qed.
End in_order.

Section delivery_theorems.
Context `{Build} {G : Type} `{!Wasmi G}.

(** C24: delivery to any guest that queues nothing itself, and whose calls return
    to the kernel without panicking it, terminates.  However the guest traps, lies about its buffer or lacks its exports, the loop ends
    within one iteration per pending message, reports at most that many
    deliveries, never panics, and leaves the other clients' messages and the
    order of the undelivered ones alone. *)
Theorem delivery_terminates `{!QuietGuest G} (sub : WasmModule G) gl i :
  queue_ok gl →
  ∃ sub' gl' n,
    deliver_pending_messages (S (pending_message_count gl i)) sub gl i = Ok (sub', gl', Some n) ∧
    0 ≤ n ≤ Z.of_nat (pending_message_count gl i) ∧
    for_others i (message_queue gl') = for_others i (message_queue gl) ∧
    suffix (for_client i (message_queue gl')) (for_client i (message_queue gl)).
Proof.
  intros [Hdepth _]. unfold MAX_IPC_QUEUE_DEPTH in Hdepth.
  destruct (deliver_loop_quiet (S (pending_message_count gl i)) sub gl i 0)
    as (sub' & gl' & n & Hrun & Hn & Ho & Hc); [done|lia|unfold pending_message_count, for_client; lia|].
  by exists sub', gl', n.
Qed.

(** C23: exact, in-order delivery.  To a guest that follows the protocol the loop
    delivers every pending message of the client, once, complete and in the
    order in which they were queued, and removes exactly those. *)
Theorem delivery_in_order `{!WasmiLaws G} (observe : G → list (list Z)) `{!Subscriber G observe}
    (sub : WasmModule G) gl i :
  queue_ok gl →
  ∃ sub' gl', deliver_pending_messages (S (pending_message_count gl i)) sub gl i =
      Ok (sub', gl', Some (Z.of_nat (pending_message_count gl i))) ∧
    observe (instance sub') =
      observe (instance sub) ++ (message <$> for_client i (message_queue gl)) ∧
    message_queue gl' = for_others i (message_queue gl) ∧
    pending_message_count gl' i = O.
Proof.
  intros Hok. pose proof (queue_depth _ Hok) as Hdepth. unfold MAX_IPC_QUEUE_DEPTH in Hdepth.
  destruct (deliver_loop_subscriber observe (S (pending_message_count gl i)) sub gl i 0)
    as (sub' & gl' & Hrun & Hq & Ho); [done|done|lia|unfold pending_message_count, for_client; lia|].
  exists sub', gl'. split_and!; [exact Hrun|done|done|].
  unfold pending_message_count. rewrite Hq. apply length_zero_iff_nil, for_client_others.
Qed.
End delivery_theorems.

(** ** Two concrete guests *)

(** A guest with a memory of at most 4 KB that keeps what it is shown. *)
Record Recorder := mkRecorder { rec_page : list Z; rec_log : list (list Z) }.

#[global] Instance recorder_wasmi : Wasmi Recorder := {
  guest_instantiate _ := Some (Run_return (mkRecorder (replicate 1024 0) []) []);
  guest_func g name :=
    if bool_decide (name = "allocate_message_buffer"%string) then
      Some (λ _, Run_return (mkRecorder (replicate 1024 0) (rec_log g)) [Value_I32 1])
    else if bool_decide (name = "subscriber_receive"%string) then
      Some (λ args, match args with
        | [Value_I32 p; Value_I32 n] =>
            Run_return (mkRecorder (rec_page g) (rec_log g ++ [sub_list (take 4096 (rec_page g)) p (p + n)])) []
        | _ => Run_trap g
        end)
    else None;
  guest_memory g := Some (take 4096 (rec_page g));
  guest_set_memory g d := mkRecorder d (rec_log g)
}.

#[global] Instance recorder_laws : WasmiLaws Recorder.
Proof.
  split. intros [page log] d d'. simpl. intros [= <-]. unfold len. rewrite length_take.
  intros Hlen. f_equal. apply take_ge. lia.
Qed.

Lemma recorder_page_fits g : len (take 4096 (rec_page g)) < 2 ^ 63.
Proof. unfold len. rewrite length_take. lia. Qed.

#[global] Instance recorder_quiet `{Build} : QuietGuest Recorder.
Proof.
  split.
  - intros g name f args ctx gl _. simpl. case_bool_decide; [|case_bool_decide; [|done]].
    + intros [= <-]. by do 3 eexists.
    + intros [= <-]. destruct args as [|[p|] [|[n|] [|]]]; by do 3 eexists.
  - simpl. intros g d [= <-]. apply recorder_page_fits.
Qed.

#[global] Instance recorder_subscriber `{Build} : Subscriber Recorder rec_log.
Proof.
  split; [| |done].
  - intros g n ctx gl Hn. eexists _, _, gl, 1, [], (replicate 1024 0).
    split_and!; try reflexivity; try done. change (len (replicate 1024 0)) with 1024. lia.
  - simpl. intros g p n d ctx gl [= <-] Hp Hn Hfit. by do 4 eexists.
Qed.

(** A guest that answers every message by sending one to itself. *)
Definition Echo : Type := list Z.

#[global] Instance echo_wasmi : Wasmi Echo := {
  guest_instantiate _ := Some (Run_return (replicate 1024 0) []);
  guest_func g name :=
    if bool_decide (name = "allocate_message_buffer"%string) then
      Some (λ _, Run_return g [Value_I32 1])
    else if bool_decide (name = "subscriber_receive"%string) then
      Some (λ _, Run_host g (Call_sys_ipc_send 7 1 1) (λ _, Run_return g []))
    else None;
  guest_memory g := Some g;
  guest_set_memory g d := d
}.

Definition echo_context : WasmContext :=
  WasmContext_new [Capability_new (CapabilityId_new 1) ResourceType_Endpoint 7 Rights_READ_WRITE].

Section echo.
Context `{Build}.

Lemma echo_round g gl m n :
  len g = 1024 → message_queue gl = [] → dest_client_id m = 7 →
  len (message m) ≤ 512 → 0 ≤ n → n + 1 < 2 ^ 64 →
  ∃ g' gl' m', deliver_one (mkWasmModule echo_context (g : Echo)) gl m n =
      Ok (mkWasmModule echo_context (g' : Echo), gl', Deliver_continue (n + 1)) ∧
    len g' = 1024 ∧ message_queue gl' = [m'] ∧ dest_client_id m' = 7 ∧ len (message m') ≤ 512.
Proof.
  intros Hg Hq Hd Hm Hn Hn1. pose proof (len_nonneg (message m)).
  unfold deliver_one, MAX_IPC_MESSAGE_SIZE. rewrite Z.min_l by done.
  unfold call_function. simpl.
  destruct (buffer_slice g 1 (len (message m))) as (-> & -> & -> & Hs);
    [lia|unfold in_u; lia|lia|lia|lia|]. simpl. rewrite Hs. simpl.
  rewrite slice_Ok, sub_list_all by lia. simpl.
  set (g' := copy_into g 1 (message m)).
  assert (len g' = 1024) as Hg' by (unfold g'; rewrite length_copy_into; lia).
  unfold host_sys_ipc_send. change (i32_as_usize 1) with 1. simpl.
  change (saturating_add 64 1 1) with 2. rewrite (proj2 (Z.ltb_ge (len g') 2)) by lia.
  rewrite slice_Ok by lia. simpl. rewrite Hq. simpl.
  rewrite add_u_fits by (unfold in_u; lia). do 3 eexists. split_and!; [done|done|done|done|].
  simpl. rewrite length_sub_list; lia.
Qed.

(** A guest can keep the kernel in the delivery loop forever.  The echo
    guest, holding a capability for its own endpoint, refills the queue on every
    delivery: no number of iterations ends the loop, although the queue never
    holds more than one message. *)
Theorem delivery_may_not_end fuel :
  Z.of_nat fuel < 2 ^ 64 →
  ∃ sub' gl', deliver_pending_messages fuel
      (mkWasmModule echo_context (replicate 1024 0 : Echo))
      (mkGlobals [mkIpcMessage 7 [104; 105]] [] []) 7 = Ok (sub', gl', None) ∧
    pending_message_count gl' 7 = 1%nat.
Proof.
  intros Hfuel. unfold deliver_pending_messages.
  set (gl := mkGlobals _ _ _). set (g := replicate 1024 0 : Echo).
  assert (∃ m, message_queue gl = [m] ∧ dest_client_id m = 7 ∧ len (message m) ≤ 512) as Hgl.
  { by eexists. }
  assert (len g = 1024) as Hg by done. clearbody gl g.
  assert (0 ≤ 0) as Hn by done. assert (0 + Z.of_nat fuel < 2 ^ 64) as Hfit by lia. clear Hfuel.
  revert g gl Hg Hgl Hn Hfit. generalize 0 at 2 3 4.
  induction fuel as [|fuel IH]; intros n g gl Hg (m & Hq & Hd & Hm) Hn Hfit.
  { do 2 eexists. split; [done|]. unfold pending_message_count. rewrite Hq.
    unfold is_for. rewrite filter_cons. by rewrite decide_True by (rewrite Hd; done). }
  simpl. rewrite Hq. simpl. unfold is_for at 1. rewrite Hd. simpl. change (remove_at 0 [m]) with (@nil IpcMessage).
  destruct (echo_round g (with_queue gl []) m n) as (g' & gl' & m' & -> & ?); [done..|lia|lia|].
  simpl. apply IH; [tauto|naive_solver|lia|lia].
Qed.
End echo.

(** A guest without capabilities that fills the queue when asked for a buffer,
    then traps. *)
Inductive Flood := FloodGuest.

Fixpoint flood (n : nat) : Run Flood :=
  match n with
  | O => Run_trap FloodGuest
  | S n => Run_host FloodGuest (Call_sys_mqtt_publish 0 0 0 2) (λ _, flood n)
  end.

#[global] Instance flood_wasmi : Wasmi Flood := {
  guest_instantiate _ := Some (Run_return FloodGuest []);
  guest_func g name :=
    if bool_decide (name = "allocate_message_buffer"%string) then Some (λ _, flood 64) else None;
  guest_memory g := Some [104; 105];
  guest_set_memory g d := g
}.

(** The depth limit holds for host calls but not for delivery: the message
    taken for a guest that fills the queue and traps is put back without a check. *)
Theorem requeue_exceeds_depth `{Build} :
  ∃ sub' gl', deliver_pending_messages 1 (mkWasmModule (WasmContext_new []) FloodGuest)
      (mkGlobals [mkIpcMessage 2 [104]] [2] []) 2 = Ok (sub', gl', Some 0) ∧
    length (message_queue gl') = 65%nat.
Proof. eexists _, _. split; [vm_compute; reflexivity|]. reflexivity. Qed.

(** ** Concrete calls *)

Definition sample_caller : Caller := mkCaller echo_context (Some (replicate 1024 65)).
Definition sample_globals : Globals := mkGlobals [mkIpcMessage 7 [104; 105]] [3; 7] [].

Lemma sample_caller_fits : memory_fits sample_caller.
Proof. by intros data [= <-]. Qed.

Lemma sample_queue_ok : queue_ok sample_globals.
Proof. split; simpl; [unfold MAX_IPC_QUEUE_DEPTH; lia|]. by apply Forall_singleton. Qed.

Lemma guest_confined_witness :
  ∃ g gl' res,
    exec (H := Dev) echo_context sample_globals
      (Run_host (replicate 1024 65 : Echo) (Call_sys_ipc_send 7 1 3)
         (λ _, Run_return (replicate 1024 65 : Echo) [])) = Ok (g, gl', res) ∧
    (length (message_queue gl') <= 64)%nat.
Proof.
  eexists _, _, _. split; [vm_compute; reflexivity|].
  eapply (guest_confined (H := Dev) echo_context
    (Run_host (replicate 1024 65 : Echo) (Call_sys_ipc_send 7 1 3)
         (λ _, Run_return (replicate 1024 65 : Echo) [])) sample_globals).
  - split; [done|]. split; [by intros d [= <-]|done].
  - apply sample_queue_ok.
  - vm_compute. reflexivity.
Defined.

Lemma ipc_send_spec_witness :
  ∃ gl' code, host_sys_ipc_send (H := Dev) sample_caller sample_globals 7 1 3 = Ok (gl', code) ∧
    code = documented_code sample_caller sample_globals 7 1 3.
Proof.
  destruct (ipc_send_spec (H := Dev) sample_caller sample_globals 7 1 3)
    as (gl' & code & Hrun & Hc & _); [done|apply sample_caller_fits|].
  exists gl', code. split; [exact Hrun|exact Hc].
Defined.

Lemma publish_spec_witness :
  host_sys_mqtt_publish (H := Dev) sample_caller sample_globals 0 4 8 2 =
    Ok (with_queue sample_globals
      [mkIpcMessage 7 [104; 105]; mkIpcMessage 3 [65; 65]; mkIpcMessage 7 [65; 65]], 2).
Proof.
  apply (publish_spec (H := Dev) sample_caller sample_globals 0 4 8 2 (replicate 1024 65)).
  - done.
  - apply sample_caller_fits.
  - reflexivity.
  - done.
Defined.

Lemma subscription_bypasses_capabilities_witness :
  ∃ gl1 gl2 n,
    let caller := mkCaller (WasmContext_new []) (Some (replicate 1024 65)) in
    host_call (H := Dev) caller sample_globals (Call_sys_mqtt_subscribe 99 0 0) = Ok (gl1, Some 0) ∧
    host_call (H := Dev) caller gl1 (Call_sys_mqtt_publish 0 0 8 2) = Ok (gl2, Some n) ∧
    mkIpcMessage 99 [65; 65] ∈ message_queue gl2.
Proof.
  apply (subscription_bypasses_capabilities (H := Dev)
           (mkCaller (WasmContext_new []) (Some (replicate 1024 65))) sample_globals 99 8 2
           (replicate 1024 65)); try done.
  - by intros data [= <-].
  - simpl. lia.
Defined.

Lemma guest_panics_kernel_witness :
  host_call (H := Release) sample_caller sample_globals (Call_sys_print (-1) 1) = Panic.
Proof.
  apply (guest_panics_kernel (H := Release) sample_caller sample_globals 3 (replicate 1024 65)).
  - reflexivity.
  - done.
Defined.

Lemma host_calls_total_witness :
  ∃ gl' r, host_call (H := Dev) sample_caller sample_globals (Call_sys_ipc_send 7 (-1) 1) = Ok (gl', r).
Proof.
  apply (host_calls_total (H := Dev) sample_caller sample_globals (Call_sys_ipc_send 7 (-1) 1)).
  - done.
  - apply sample_caller_fits.
  - done.
Defined.

Definition sample_module : WasmModule Recorder :=
  mkWasmModule (WasmContext_new []) (mkRecorder [] []).

Lemma delivery_terminates_witness :
  ∃ sub' gl' n, deliver_pending_messages (H := Dev) 2 sample_module sample_globals 7 =
    Ok (sub', gl', Some n) ∧ 0 ≤ n ≤ 1.
Proof.
  destruct (delivery_terminates (QuietGuest0 := recorder_quiet (H := Dev)) sample_module sample_globals 7 sample_queue_ok)
    as (sub' & gl' & n & Hrun & Hn & _). exists sub', gl', n. split; [exact Hrun|exact Hn].
Defined.

Lemma delivery_in_order_witness :
  ∃ sub' gl', deliver_pending_messages (H := Dev) 2 sample_module sample_globals 7 =
    Ok (sub', gl', Some 1) ∧ rec_log (instance sub') = [[104; 105]].
Proof.
  destruct (delivery_in_order (Subscriber0 := recorder_subscriber (H := Dev)) rec_log sample_module sample_globals 7 sample_queue_ok)
    as (sub' & gl' & Hrun & Ho & _). exists sub', gl'. split; [exact Hrun|exact Ho].
Defined.
