(* ===== verification/Demos.v ===== *)
(** * The WebAssembly demo suite ([src/src/demos/wasm_tests.rs], [main.rs])

    Five demos load prebuilt guest modules, call their exports and report on the
    serial line; the x86-64 kernel runs a self-test over two hand-assembled
    modules first.  Lines are formatted as the x86-64 [serial_println!] does (the
    AArch64 macros print the format string).  The demos are programs of a small state monad over the kernel's
    globals; the guests stay parameters, so the theorems hold for whatever the
    module files contain. *)
From stdpp Require Import strings.
From S2P Require Import Prelude Capability WasmRuntime.

(** ** Demo programs *)

(** A demo changes the globals and returns, unless the kernel panics or hangs
    under it; [None] when the delivery loop used up its fuel. *)
Definition Demo (A : Type) : Type := Globals → outcome (option A * Globals).

#[global] Instance demo_ret : MRet Demo := λ A a gl, Ok (Some a, gl).
#[global] Instance demo_bind : MBind Demo := λ A B k d gl,
  '(a, gl) ← d gl;
  match a with Some a => k a gl | None => Ok (None, gl) end.

(** The files the suite includes with [include_bytes!]. *)
Record Images := mkImages {
  add_bytes : list Z; hello_bytes : list Z; syscall_bytes : list Z;
  broker_bytes : list Z; subscriber_bytes : list Z; publisher_bytes : list Z;
  malicious_bytes : list Z
}.

Abbreviation T := Printed_text.
Abbreviation N := Printed_value.
Abbreviation I32 := Value_I32.

(** [serial_print!] and [serial_println!], a format string being the list of its
    pieces. *)
Definition serial_print (ps : list Printed) : Demo () :=
  λ gl, Ok (Some tt, foldl print gl ps).
Definition newline : Printed := T (String (Ascii.ascii_of_nat 10) EmptyString).
Definition serial_println (ps : list Printed) : Demo () := serial_print (ps ++ [newline]).

Section demos.
Context `{Build} {G : Type} `{!Wasmi G} (fuel : nat) (images : Images).

Definition load (bytes : list Z) : Demo (result () (WasmModule G)) := λ gl,
  '(gl, r) ← from_bytes gl bytes; Ok (Some r, gl).

Definition call (m : WasmModule G) (name : string) (args : list Value)
    : Demo (WasmModule G * result string (option Value)) := λ gl,
  '(m, gl, r) ← call_function m gl name args; Ok (Some (m, r), gl).

Definition deliver (m : WasmModule G) (client_id : Z) : Demo (WasmModule G * Z) := λ gl,
  '(m, gl, n) ← deliver_pending_messages fuel m gl client_id;
  Ok (match n with Some n => Some (m, n) | None => None end, gl).

(** The match the demos write after a call that should return [expected]. *)
Definition report_expected (r : result string (option Value)) (expected : Z) : Demo () :=
  match r with
  | ROk (Some (Value_I32 result)) =>
      if result =? expected then serial_println [N result; T " "]
      else serial_println [N result; T "  (expected "; N expected; T ")"]
  | ROk _ => serial_println [T " (wrong return type)"]
  | RErr e => serial_println [T " (error: "; T e; T ")"]
  end.

Definition demo_01_add : Demo () :=
  serial_println [newline; T "[DEMO 1] Pure Computation (01_add.wasm)"];;
  serial_println [T "========================================="];;
  serial_println [T "[INFO] Loading module ("; N (len (add_bytes images)); T " bytes)..."];;
  m ← load (add_bytes images);
  match m with
  | RErr _ => serial_println [T "[FAIL] Failed to load module: "; Printed_load_error]
  | ROk module =>
      serial_println [T "[ OK ] Module loaded and validated"];;
      serial_print [T "[TEST] add(2, 3) = "];;
      '(module, r) ← call module "add" [I32 2; I32 3];
      report_expected r 5;;
      serial_print [T "[TEST] mul(7, 6) = "];;
      '(module, r) ← call module "mul" [I32 7; I32 6];
      report_expected r 42;;
      serial_print [T "[TEST] factorial(5) = "];;
      '(module, r) ← call module "factorial" [I32 5];
      report_expected r 120;;
      serial_println [T "[DEMO 1]  COMPLETE"; newline]
  end.

Definition demo_02_hello : Demo () :=
  serial_println [newline; T "[DEMO 2] Host Function Calls (02_hello.wasm)"];;
  serial_println [T "=============================================="];;
  serial_println [T "[INFO] Loading module ("; N (len (hello_bytes images)); T " bytes)..."];;
  m ← load (hello_bytes images);
  match m with
  | RErr _ => serial_println [T "[FAIL] Failed to load module: "; Printed_load_error]
  | ROk module =>
      serial_println [T "[ OK ] Module loaded with host imports"];;
      serial_println [T "[TEST] Calling main() (should print 3 values):"];;
      '(module, r) ← call module "main" [];
      match r with
      | ROk _ => serial_println [T "[ OK ] main() executed successfully"]
      | RErr e => serial_println [T "[FAIL] main() failed: "; T e]
      end;;
      serial_println [T "[TEST] Calling print_range(1, 5):"];;
      '(module, r) ← call module "print_range" [I32 1; I32 5];
      match r with
      | ROk _ => serial_println [T "[ OK ] print_range() executed successfully"]
      | RErr e => serial_println [T "[FAIL] print_range() failed: "; T e]
      end;;
      serial_println [T "[DEMO 2]  COMPLETE"; newline]
  end.

Definition demo_03_syscall : Demo () :=
  serial_println [newline; T "[DEMO 3] Syscall & Capability (03_syscall.wasm)"];;
  serial_println [T "================================================="];;
  serial_println [T "[INFO] Loading module ("; N (len (syscall_bytes images)); T " bytes)..."];;
  m ← load (syscall_bytes images);
  match m with
  | RErr _ => serial_println [T "[FAIL] Failed to load module: "; Printed_load_error]
  | ROk module =>
      serial_println [T "[ OK ] Module loaded with syscall imports"];;
      serial_println [T "[TEST] Basic syscall (sys_write):"];;
      '(module, r) ← call module "test_syscall" [];
      match r with
      | ROk _ => serial_println [T "[ OK ] Syscall executed"]
      | RErr e => serial_println [T "[FAIL] Syscall failed: "; T e]
      end;;
      serial_println [T "[TEST] Memory allocation (requires capability):"];;
      '(module, r) ← call module "test_allocate" [I32 1024];
      match r with
      | ROk (Some (Value_I32 result)) =>
          if negb (result =? 0) then
            serial_println [T "[ OK ] Allocation succeeded: address=0x"; Printed_hex result]
          else serial_println [T "[WARN] Allocation returned NULL (capability denied?)"]
      | ROk _ => serial_println [T "[FAIL] Unexpected return type"]
      | RErr e => serial_println [T "[FAIL] Allocate failed: "; T e]
      end;;
      serial_println [T "[TEST] Unauthorized access (should fail):"];;
      '(module, r) ← call module "test_unauthorized" [];
      match r with
      | ROk (Some (Value_I32 result)) =>
          if result <? 0 then serial_println [T "[ OK ] Access denied (result="; N result; T ")"]
          else serial_println [T "[WARN] Unauthorized access succeeded (security issue!)"]
      | ROk _ => serial_println [T "[FAIL] Unexpected return type"]
      | RErr e => serial_println [T "[ OK ] Access denied via exception: "; T e]
      end;;
      serial_println [T "[DEMO 3]  COMPLETE"; newline]
  end.

(** The match of demo 4 on the results of the two client initialisers. *)
Definition report_init (r : result string (option Value)) : Demo () :=
  match r with
  | ROk (Some (Value_I32 code)) =>
      if code =? 0 then serial_println [] else serial_println [T "  (code: "; N code; T ")"]
  | ROk _ => serial_println [T " (unexpected return)"]
  | RErr e => serial_println [T " ("; T e; T ")"]
  end.

(** The [for] loop of demo 4: [n] iterations are left. *)
Fixpoint publish_rounds (n : nat) (publisher subscriber : WasmModule G) : Demo () :=
  match n with
  | O => mret tt
  | S n =>
      serial_print [T "  ["];;
      serial_print [T "<u32>"];;
      serial_print [T "] Publishing... "];;
      '(publisher, r) ← call publisher "publisher_run" [];
      subscriber ←
        match r with
        | ROk (Some (Value_I32 _)) =>
            serial_println [];;
            '(subscriber, delivered) ← deliver subscriber 2;
            (if 0 <? delivered then
               serial_print [T "       → Delivered "];;
               serial_print [T "<u32>"];;
               serial_println [T " messages to subscriber"]
             else mret tt);;
            mret subscriber
        | ROk _ => serial_println [T " (unexpected return)"];; mret subscriber
        | RErr _ => serial_print [T " (error)"];; serial_println [];; mret subscriber
        end;
      publish_rounds n publisher subscriber
  end.

(** Demo 4 once the broker is up. *)
Definition demo_04_clients : Demo () :=
  serial_println [T "[INFO] Loading MQTT subscriber..."];;
  m ← load (subscriber_bytes images);
  match m with
  | RErr _ => serial_println [T "[FAIL] Failed to load subscriber: "; Printed_load_error]
  | ROk subscriber =>
      serial_println [T "[ OK ] Subscriber loaded ("; N (len (subscriber_bytes images)); T " bytes)"];;
      serial_print [T "[TEST] Initializing subscriber (client_id=2)... "];;
      '(subscriber, r) ← call subscriber "subscriber_init" [I32 2];
      report_init r;;
      serial_println [T "[INFO] Loading MQTT publisher..."];;
      m ← load (publisher_bytes images);
      match m with
      | RErr _ => serial_println [T "[FAIL] Failed to load publisher: "; Printed_load_error]
      | ROk publisher =>
          serial_println [T "[ OK ] Publisher loaded ("; N (len (publisher_bytes images)); T " bytes)"];;
          serial_print [T "[TEST] Initializing publisher... "];;
          '(publisher, r) ← call publisher "publisher_init" [];
          report_init r;;
          serial_println [T "[TEST] Publishing messages (5 iterations)..."];;
          publish_rounds 5 publisher subscriber;;
          serial_println [newline; T "[DEMO 4]  COMPLETE"];;
          serial_println [T "✨ Full pub/sub flow working:"];;
          serial_println [T "   1. Subscriber registered with broker via sys_mqtt_subscribe"];;
          serial_println [T "   2. Publisher sends messages via sys_mqtt_publish"];;
          serial_println [T "   3. Broker routes to subscriber via sys_ipc_send"];;
          serial_println [T "   4. Subscriber receives and logs messages"; newline]
      end
  end.

Definition demo_04_mqtt : Demo () :=
  serial_println [newline; newline; T "=== DEMO 4 STARTING ==="; newline];;
  serial_println [newline; T "[DEMO 4] MQTT Broker Pub/Sub (mqtt_*.wasm)"];;
  serial_println [T "============================================"];;
  serial_println [T "[INFO] Loading MQTT broker..."];;
  m ← load (broker_bytes images);
  match m with
  | RErr _ => serial_println [T "[FAIL] Failed to load broker: "; Printed_load_error]
  | ROk broker =>
      serial_println [T "[ OK ] Broker loaded ("; N (len (broker_bytes images)); T " bytes)"];;
      serial_print [T "[TEST] Initializing broker... "];;
      '(broker, r) ← call broker "broker_init" [];
      match r with
      | ROk (Some (Value_I32 code)) =>
          if code =? 0 then serial_println [];; demo_04_clients
          else serial_println [T " (error code: "; N code; T ")"]
      | ROk _ => serial_println [T " (unexpected return)"]
      | RErr e => serial_println [T " ("; T e; T ")"]
      end
  end.

Definition demo_05_security : Demo () :=
  serial_println [newline; T "[DEMO 5] Security & Isolation (malicious_module.wasm)"];;
  serial_println [T "======================================================"];;
  serial_println [T "[INFO] Loading malicious module (sandboxed)..."];;
  m ← load (malicious_bytes images);
  match m with
  | RErr _ => serial_println [T "[FAIL] Failed to load module"]
  | ROk malicious =>
      serial_println [T "[ OK ] Malicious module loaded ("; N (len (malicious_bytes images)); T " bytes)"];;
      serial_print [T "[TEST] Initializing malicious module... "];;
      '(malicious, r) ← call malicious "malicious_init" [];
      match r with
      | ROk (Some (Value_I32 code)) =>
          if code =? 0 then serial_println []
          else
            serial_print [T "  (code: "];; serial_print [T "<u32>"];; serial_println [T ")"]
      | ROk _ => serial_println [T " (unexpected return)"]
      | RErr _ => serial_println []
      end;;
      serial_println [newline; T "[TEST-1] WASM Sandbox Isolation"];;
      serial_println [T "--------------------------------"];;
      '(malicious, r) ← call malicious "try_escape_sandbox" [];
      match r with
      | ROk (Some (Value_I32 result)) =>
          if result =? 0 then
            serial_println [T "[ OK ]  Module confined to WASM linear memory"];;
            serial_println [T "       Cannot access kernel address space"]
          else serial_println [T "[FAIL]  Unexpected result"]
      | ROk _ => serial_println [T "[FAIL]  Unexpected return type"]
      | RErr e => serial_print [T "[ OK ]  WASM trapped: "];; serial_println [T e]
      end;;
      serial_println [newline; T "[TEST-2] Capability-Based Access Control (Unauthorized IPC)"];;
      serial_println [T "------------------------------------------------------------"];;
      '(malicious, r) ← call malicious "try_unauthorized_ipc" [];
      match r with
      | ROk (Some (Value_I32 result)) =>
          if result <? 0 then serial_println [T "[ OK ]  Unauthorized IPC rejected (permission denied)"]
          else serial_println [T "[FAIL]  Unauthorized IPC succeeded (SECURITY BUG!)"]
      | ROk _ => serial_println [T "[FAIL]  Unexpected return type"]
      | RErr e => serial_print [T "[ OK ]  IPC trapped: "];; serial_println [T e]
      end;;
      serial_println [newline; T "[TEST-3] Stack Overflow Protection"];;
      serial_println [T "-----------------------------------"];;
      '(malicious, r) ← call malicious "try_stack_overflow" [];
      match r with
      | ROk (Some (Value_I32 _)) => serial_println [T "[ OK ]  Stack overflow handled gracefully"]
      | ROk _ => serial_println [T "[FAIL]  Unexpected return type"]
      | RErr e => serial_print [T "[ OK ]  Stack overflow prevented: "];; serial_println [T e]
      end;;
      serial_println [newline; T "[DEMO 5]  COMPLETE"];;
      serial_println [T "🔒 Security guarantees validated:"];;
      serial_println [T "   1. WASM sandbox isolates modules from kernel memory"];;
      serial_println [T "   2. Capability system blocks unauthorized IPC (CRITICAL!)"];;
      serial_println [T "   3. WASM runtime prevents resource exhaustion"];;
      serial_println [T "   4. System remains stable - malicious code contained"; newline]
  end.

Definition run_all_demos : Demo () :=
  serial_println [newline; T "╔════════════════════════════════════════════════════╗"];;
  serial_println [T "  JerichoOS WASM Demo Suite - Canonical Tests      "];;
  serial_println [T "╚════════════════════════════════════════════════════╝"];;
  serial_println [newline; T "!!! ABOUT TO RUN DEMO 4 !!!"; newline];;
  demo_04_mqtt;;
  serial_println [newline; T "!!! DEMO 4 FINISHED !!!"; newline];;
  demo_01_add;;
  demo_02_hello;;
  demo_03_syscall;;
  demo_05_security;;
  serial_println [T "╔════════════════════════════════════════════════════╗"];;
  serial_println [T "  All WASM Demos Complete!                         "];;
  serial_println [T "╚════════════════════════════════════════════════════╝"; newline].

(** ** The self-test of [main.rs] *)

Definition WASM_TEST : list Z :=
  [ 0x00; 0x61; 0x73; 0x6d;
    0x01; 0x00; 0x00; 0x00;
    0x01; 0x05; 0x01; 0x60; 0x00; 0x01; 0x7f;
    0x03; 0x02; 0x01; 0x00;
    0x07; 0x08; 0x01; 0x04; 0x74; 0x65; 0x73; 0x74; 0x00; 0x00;
    0x0a; 0x06; 0x01; 0x04; 0x00; 0x41; 0x2a; 0x0b ].

Definition WASM_HOST_TEST : list Z :=
  [ 0x00; 0x61; 0x73; 0x6d;
    0x01; 0x00; 0x00; 0x00;
    0x01; 0x08; 0x02; 0x60; 0x01; 0x7f; 0x00; 0x60; 0x00; 0x00;
    0x02; 0x0d; 0x01; 0x03; 0x65; 0x6e; 0x76; 0x05; 0x70; 0x72; 0x69; 0x6e; 0x74; 0x00; 0x00;
    0x03; 0x02; 0x01; 0x01;
    0x07; 0x0d; 0x01; 0x09; 0x74; 0x65; 0x73; 0x74; 0x5f; 0x68; 0x6f; 0x73; 0x74; 0x00; 0x01;
    0x0a; 0x08; 0x01; 0x06; 0x00; 0x41; 0x2a; 0x10; 0x00; 0x0b ].

(** The second test. *)
Definition test_wasm_host : Demo () :=
  serial_println [T "[TEST] Testing Wasm host function calls..."];;
  serial_println [T "[TEST] Loading Wasm module with host imports ("; N (len WASM_HOST_TEST); T " bytes)..."];;
  m ← load WASM_HOST_TEST;
  match m with
  | RErr _ => serial_println [T "[FAIL] Failed to load host module: "; Printed_load_error]
  | ROk host_module =>
      serial_println [T "[ OK ] Wasm module with imports loaded"];;
      serial_println [T "[TEST] Calling Wasm function that invokes host print..."];;
      '(host_module, r) ← call host_module "test_host" [];
      match r with
      | ROk _ => serial_println [T "[ OK ] Host function call succeeded"]
      | RErr e => serial_println [T "[WARN] Host function call: "; T e]
      end;;
      serial_println [T "[TEST] WebAssembly execution tests complete"]
  end.

Definition test_wasm_execution : Demo () :=
  serial_println [T "[TEST] Testing WebAssembly execution..."];;
  serial_println [T "[TEST] Loading Wasm module ("; N (len WASM_TEST); T " bytes)..."];;
  m ← load WASM_TEST;
  match m with
  | RErr _ => serial_println [T "[FAIL] Failed to load Wasm module: "; Printed_load_error]
  | ROk module =>
      serial_println [T "[ OK ] Wasm module loaded and validated"];;
      serial_println [T "[TEST] Executing Wasm function 'test'..."];;
      '(module, r) ← call module "test" [];
      match r with
      | ROk (Some (Value_I32 result)) =>
          if result =? 42 then
            serial_println [T "[ OK ] Wasm function returned: "; N result; T " (expected 42)"]
          else serial_println [T "[FAIL] Wasm function returned: "; N result; T " (expected 42)"]
      | ROk other => serial_println [T "[FAIL] Unexpected result: "; Printed_other other]
      | RErr e => serial_println [T "[FAIL] Failed to execute Wasm function: "; T e]
      end;;
      test_wasm_host
  end.
End demos.

(** The section structure of the WebAssembly binary format: after the magic
    number and the version, sections with an id, a size below 128 (one LEB128
    byte) and that many bytes, in increasing order of their ids. *)
Fixpoint wasm_sections (fuel : nat) (last : Z) (bs : list Z) : option (list (Z * list Z)) :=
  match fuel, bs with
  | _, [] => Some []
  | S fuel, id :: size :: rest =>
      if bool_decide (last < id ∧ size < 128 ∧ (Z.to_nat size <= length rest)%nat) then
        secs ← wasm_sections fuel id (drop (Z.to_nat size) rest);
        Some ((id, take (Z.to_nat size) rest) :: secs)
      else None
  | _, _ => None
  end.

Definition wasm_module (bs : list Z) : option (list (Z * list Z)) :=
  if bool_decide (take 8 bs = [0x00; 0x61; 0x73; 0x6d; 0x01; 0x00; 0x00; 0x00])
  then wasm_sections 8 0 (drop 8 bs) else None.

(** ** A program logic for demos

    [keeps total post d]: from globals that satisfy the invariant, [d] ends in
    globals that satisfy it and with a value that satisfies [post]; if [total]
    holds it does end, otherwise it may also panic, hang or use up its fuel. *)

(** Every queued message is small and for a registered subscriber, and the
    queue is at most one message over its limit, which a message put back by a
    failed delivery can take it to. *)
Record confined (gl : Globals) : Prop := {
  confined_depth : (length (message_queue gl) <= S MAX_IPC_QUEUE_DEPTH)%nat;
  confined_small : small_messages gl;
  confined_dest : Forall (λ m, dest_client_id m ∈ mqtt_subscribers gl) (message_queue gl)
}.

Definition keeps (total : Prop) {A} (post : A → Prop) (d : Demo A) : Prop :=
  ∀ gl, confined gl →
    match d gl with
    | Ok (Some a, gl') => confined gl' ∧ post a
    | Ok (None, gl') => confined gl' ∧ ¬ total
    | Panic | Hang => ¬ total
    end.

(** A module without capabilities, as [from_bytes] makes them. *)
Definition powerless {G} (m : WasmModule G) : Prop := capabilities (store_data m) = [].

Definition powerless_result {G} (r : result () (WasmModule G)) : Prop :=
  match r with ROk m => powerless m | RErr _ => True end.

Section logic.
Context (total : Prop).

Lemma keeps_ret {A} (post : A → Prop) a : post a → keeps total post (mret a).
Proof. by intros Ha gl Hgl. Qed.

Lemma keeps_bind {A B} (mid : A → Prop) (post : B → Prop) d (k : A → Demo B) :
  keeps total mid d → (∀ a, mid a → keeps total post (k a)) → keeps total post (d ≫= k).
Proof.
  intros Hd Hk gl Hgl. specialize (Hd gl Hgl). unfold mbind, demo_bind.
  destruct (d gl) as [[[a|] gl']| |]; simpl; try done.
  destruct Hd as [Hgl' Ha]. by apply (Hk a Ha).
Qed.

Lemma keeps_seq {A} (post : A → Prop) (d : Demo ()) (k : Demo A) :
  keeps total (λ _, True) d → keeps total post k → keeps total post (d;; k).
Proof. intros Hd Hk. by apply (keeps_bind (λ _, True)). Qed.

Lemma keeps_print ps : keeps total (λ _, True) (serial_print ps).
Proof.
  intros gl Hgl. simpl. split; [|done]. revert gl Hgl.
  induction ps as [|p ps IH]; intros gl Hgl; simpl; [done|]. apply IH.
  by destruct Hgl.
Qed.

Lemma keeps_println ps : keeps total (λ _, True) (serial_println ps).
Proof. apply keeps_print. Qed.
End logic.

Create HintDb demos.
#[export] Hint Resolve keeps_ret keeps_print keeps_println : demos.

(** Walks through a demo: calls of known commands, sequences, binds, matches. *)
Ltac demo_step :=
  simpl in *;
  first
    [ by eauto with demos
    | apply keeps_seq
    | eapply keeps_bind; [by eauto with demos|]; intros ? ?
    | match goal with
      | |- keeps _ _ (match ?x with _ => _ end) => destruct x
      end ].
Ltac demo_walk := repeat demo_step.

(** ** Guests *)

(** Guests whose host calls have arguments of the linker's types, on memories
    of a possible size: what [wasmi]'s validation of a module ensures. *)
Class TypedGuest `{Build} (G : Type) `{!Wasmi G} : Prop := {
  typed_start bytes r : guest_instantiate bytes = Some r → run_typed r;
  typed_func g name f args : guest_func g name = Some f → run_typed (f args)
}.

(** Guests whose activations all end, in a return or a trap, without panicking
    the kernel. *)
Class EndingGuest `{Build} (G : Type) `{!Wasmi G} : Prop := {
  ending_start bytes r ctx gl : guest_instantiate bytes = Some r →
    ∃ g gl' res, exec ctx gl r = Ok (g, gl', res);
  ending_func g name f args ctx gl : guest_func g name = Some f →
    ∃ g' gl' res, exec ctx gl (f args) = Ok (g', gl', res)
}.

Section guests.
Context `{Build} {G : Type} `{!Wasmi G, !TypedGuest G}.

(** What a guest without capabilities can add to the globals. *)
Lemma powerless_extends ctx gl gl' :
  capabilities ctx = [] → extends ctx gl gl' → confined gl → confined gl'.
Proof.
  intros Hctx [Hs (new & Hq & Hnew) Hd Hm] [Hd0 Hm0 Hr0]. split; [lia|auto|].
  rewrite Hq. apply Forall_app. split.
  - eapply Forall_impl; [exact Hr0|]. intros m. apply Hs.
  - eapply Forall_impl; [exact Hnew|]. intros m [?|(cap & Hin & _)]; [done|].
    rewrite Hctx in Hin. by apply not_elem_of_nil in Hin.
Qed.

Lemma call_function_extends (m : WasmModule G) gl name args m' gl' r :
  call_function m gl name args = Ok (m', gl', r) →
  store_data m' = store_data m ∧ extends (store_data m) gl gl'.
Proof.
  unfold call_function. destruct (guest_func _ _) as [f|] eqn:Hf.
  2: { intros [= <- <- <-]. auto with jericho. }
  intros ([[g gl1] res] & Hexec & Hr)%bind_Ok.
  apply exec_extends in Hexec; [|by eapply typed_func]. by destruct res; injection Hr as <- <- <-.
Qed.

(** One delivery to a powerless module, its message put back or not. *)
Lemma deliver_one_confined (sub : WasmModule G) gl m n sub' gl' d :
  powerless sub → deliver_one sub gl m n = Ok (sub', gl', d) →
  confined (with_queue gl (m :: message_queue gl)) →
  (length (message_queue gl) <= MAX_IPC_QUEUE_DEPTH)%nat →
  powerless sub' ∧ confined gl'.
Proof.
  unfold powerless, deliver_one. intros Hp Hrun [Hd0 Hm0 Hr0] Hdepth. simpl in *.
  apply Forall_cons in Hm0 as [Hm Hm0]. apply Forall_cons in Hr0 as [Hr Hr0].
  assert (confined gl) as Hgl by (split; [lia|done|done]).
  apply bind_Ok in Hrun as ([[sub1 gl1] r1] & [Hs1 Hx1]%call_function_extends & Hrun).
  assert (confined gl1) as Hgl1 by (by eapply powerless_extends).
  destruct r1 as [[[p|]|]|e]; try (injection Hrun as <- <- <-; split; [congruence|done]).
  2: { injection Hrun as <- <- <-. split; [congruence|]. destruct Hgl1, Hx1.
       split; simpl; [lia|by apply Forall_cons|apply Forall_cons; auto]. }
  destruct (0 <? p); [|injection Hrun as <- <- <-; split; [congruence|done]].
  destruct (guest_memory _) as [data|]; [|injection Hrun as <- <- <-; split; [congruence|done]].
  destruct (_ <? _) in Hrun; [injection Hrun as <- <- <-; split; [congruence|done]|].
  do 3 apply bind_Ok in Hrun as (? & _ & Hrun).
  apply bind_Ok in Hrun as ([[sub2 gl2] r2] & [Hs2 Hx2]%call_function_extends & Hrun).
  simpl in *. assert (confined gl2) as Hgl2 by (eapply powerless_extends; [|done..]; congruence).
  destruct r2; [apply bind_Ok in Hrun as (? & _ & Hrun)|];
    injection Hrun as <- <- <-; split; [congruence|done..|congruence|done].
Qed.

(** Taking a message out of the queue and putting it in front. *)
Lemma confined_take gl pos m :
  message_queue gl !! pos = Some m → confined gl →
  confined (with_queue gl (m :: remove_at pos (message_queue gl))) ∧
  (length (remove_at pos (message_queue gl)) <= MAX_IPC_QUEUE_DEPTH)%nat.
Proof.
  intros Hm [Hd Hs Hr]. pose proof (delete_Permutation _ _ _ Hm) as Hperm.
  rewrite delete_take_drop in Hperm. unfold remove_at.
  pose proof (Permutation_length Hperm) as Hlen. simpl in Hlen. split; [split; simpl; [lia| |]|lia].
  - unfold small_messages in *. simpl. by rewrite <- Hperm.
  - by rewrite <- Hperm.
Qed.

Lemma deliver_loop_confined fuel (sub : WasmModule G) gl i n sub' gl' o :
  powerless sub → deliver_loop fuel sub gl i n = Ok (sub', gl', o) →
  confined gl → powerless sub' ∧ confined gl'.
Proof.
  revert sub gl n. induction fuel as [|fuel IH]; simpl; intros sub gl n Hp Hrun Hgl.
  { by injection Hrun as <- <- <-. }
  destruct (position _ _) as [pos|]; [|by injection Hrun as <- <- <-].
  destruct (message_queue gl !! pos) as [m|] eqn:Hm; [|done]. simpl in Hrun.
  destruct (confined_take gl pos m) as [Hc Hd]; [done..|].
  apply bind_Ok in Hrun as ([[sub1 gl1] d] & Hone & Hrun).
  apply deliver_one_confined in Hone as [Hp1 Hgl1]; [|done..].
  destruct d; [by eapply IH|by injection Hrun as <- <- <-].
Qed.

Lemma keeps_load total bytes :
  (total → EndingGuest G) → keeps total powerless_result (load (G := G) bytes).
Proof.
  intros Htotal gl Hgl. unfold load, from_bytes.
  destruct (guest_instantiate bytes) as [start|] eqn:Hstart; [|by split].
  destruct (exec _ _ _) as [[[g gl'] r]| |] eqn:Hexec; simpl.
  2,3: intros Ht; destruct (ending_start (EndingGuest := Htotal Ht) bytes start (WasmContext_new []) gl)
         as (? & ? & ? & ?); congruence.
  apply exec_extends in Hexec; [|by eapply typed_start].
  apply powerless_extends in Hexec; [|done..]. by destruct r.
Qed.

Lemma keeps_call total (m : WasmModule G) name args :
  (total → EndingGuest G) → powerless m →
  keeps total (λ '(m, _), powerless m) (call m name args).
Proof.
  intros Htotal Hm gl Hgl. unfold call.
  destruct (call_function m gl name args) as [[[m' gl'] r]| |] eqn:Hcall; simpl.
  2,3: unfold call_function in Hcall; destruct (guest_func _ _) as [f|] eqn:Hf; [|done];
       intros Ht; destruct (ending_func (EndingGuest := Htotal Ht) _ name f args (store_data m) gl Hf)
         as (? & ? & [] & Hexec); rewrite Hexec in Hcall; done.
  apply call_function_extends in Hcall as [Hs Hx]. unfold powerless in *.
  split; [by eapply powerless_extends|congruence].
Qed.

Lemma keeps_deliver total fuel (m : WasmModule G) i :
  (total → QuietGuest G ∧ (S MAX_IPC_QUEUE_DEPTH < fuel)%nat) → powerless m →
  keeps total (λ '(m, _), powerless m) (deliver fuel m i).
Proof.
  intros Htotal Hm gl Hgl. unfold deliver, deliver_pending_messages.
  assert (total → ∃ sub' gl' n, deliver_loop fuel m gl i 0 = Ok (sub', gl', Some n)) as Hends.
  { intros [Hquiet Hfuel]%Htotal. pose proof (confined_depth _ Hgl) as Hd.
    assert (length (for_client i (message_queue gl)) <= length (message_queue gl))%nat
      by apply length_filter.
    destruct (deliver_loop_quiet fuel m gl i 0) as (sub' & gl' & n & Hrun & _);
      [done|unfold MAX_IPC_QUEUE_DEPTH in *; lia|lia|]. by exists sub', gl', n. }
  destruct (deliver_loop _ _ _ _ _) as [[[m' gl'] o]| |] eqn:Hrun; simpl.
  - apply deliver_loop_confined in Hrun as [??]; [|done..].
    destruct o; split; try done. intros (? & ? & ? & ?)%Hends. congruence.
  - intros (? & ? & ? & ?)%Hends. congruence.
  - intros (? & ? & ? & ?)%Hends. congruence.
Qed.
End guests.

(** ** The suite *)
Section suite.
Context `{Build} {G : Type} `{!Wasmi G, !TypedGuest G} (fuel : nat) (images : Images).
Context (total : Prop) (Hending : total → EndingGuest G).
Context (Hquiet : total → QuietGuest G ∧ (S MAX_IPC_QUEUE_DEPTH < fuel)%nat).
Local Hint Resolve keeps_load keeps_call keeps_deliver : demos.

Lemma keeps_report_expected r n : keeps total (λ _, True) (report_expected r n).
Proof. unfold report_expected. demo_walk. Qed.

Lemma keeps_report_init r : keeps total (λ _, True) (report_init r).
Proof. unfold report_init. demo_walk. Qed.
Local Hint Resolve keeps_report_expected keeps_report_init : demos.

Lemma keeps_publish_rounds n (publisher subscriber : WasmModule G) :
  powerless publisher → powerless subscriber →
  keeps total (λ _, True) (publish_rounds fuel n publisher subscriber).
Proof.
  revert publisher subscriber. induction n as [|n IH]; intros publisher subscriber Hp Hs; demo_walk.
  apply (keeps_bind total powerless); [|by auto]. demo_walk.
Qed.
Local Hint Resolve keeps_publish_rounds : demos.
Local Arguments publish_rounds : simpl never.

Lemma keeps_demo_01_add : keeps total (λ _, True) (demo_01_add (G := G) images).
Proof. unfold demo_01_add. demo_walk. Qed.

Lemma keeps_demo_02_hello : keeps total (λ _, True) (demo_02_hello (G := G) images).
Proof. unfold demo_02_hello. demo_walk. Qed.

Lemma keeps_demo_03_syscall : keeps total (λ _, True) (demo_03_syscall (G := G) images).
Proof. unfold demo_03_syscall. demo_walk. Qed.

Lemma keeps_demo_04_mqtt : keeps total (λ _, True) (demo_04_mqtt (G := G) fuel images).
Proof. unfold demo_04_mqtt, demo_04_clients. demo_walk. Qed.

Lemma keeps_demo_05_security : keeps total (λ _, True) (demo_05_security (G := G) images).
Proof. unfold demo_05_security. demo_walk. Qed.
Local Hint Resolve keeps_demo_01_add keeps_demo_02_hello keeps_demo_03_syscall
  keeps_demo_04_mqtt keeps_demo_05_security : demos.

Lemma keeps_test_wasm_execution : keeps total (λ _, True) (test_wasm_execution (G := G)).
Proof. unfold test_wasm_execution, test_wasm_host. demo_walk. Qed.

Lemma keeps_run_all_demos : keeps total (λ _, True) (run_all_demos (G := G) fuel images).
Proof. unfold run_all_demos. demo_walk. Qed.
End suite.

(** Runs that are sure to end. *)
Section ending.
Context `{Build} {G : Type} `{!Wasmi G, !TypedGuest G, !EndingGuest G, !QuietGuest G}.

Lemma no_messages_confined : confined (mkGlobals [] [] []).
Proof. split; simpl; [lia|by apply Forall_nil|by apply Forall_nil]. Qed.

Lemma demo_ends (d : Demo ()) gl :
  keeps True (λ _, True) d → confined gl → ∃ gl', d gl = Ok (Some tt, gl') ∧ confined gl'.
Proof.
  intros Hkeeps Hgl. specialize (Hkeeps gl Hgl).
  destruct (d gl) as [[[[]|] gl']| |]; [|by exfalso; apply Hkeeps..]. exists gl'. by destruct Hkeeps.
Qed.

Lemma demos_run fuel images gl :
  (66 <= fuel)%nat → confined gl →
  ∃ gl', run_all_demos (G := G) fuel images gl = Ok (Some tt, gl') ∧ confined gl'.
Proof. intros Hfuel. apply demo_ends, keeps_run_all_demos; done. Qed.

Lemma self_test_run gl :
  confined gl → ∃ gl', test_wasm_execution (G := G) gl = Ok (Some tt, gl') ∧ confined gl'.
Proof. apply demo_ends, keeps_test_wasm_execution. done. Qed.
End ending.

Section theorems.
Context `{Build} {G : Type} `{!Wasmi G, !TypedGuest G} (images : Images).

(** The suite stays confined.  Whatever the seven module files contain and
    however the guests behave, when the suite returns, every message it left in
    the kernel's queue has at most 512 bytes and is for a client that was
    subscribed, since no module is ever given a capability, and the queue is at
    most one message over its limit. *)
Theorem demo_suite_confined fuel gl o gl' :
  message_queue gl = [] → run_all_demos (G := G) fuel images gl = Ok (o, gl') →
  (length (message_queue gl') <= 65)%nat ∧
  ∀ m, m ∈ message_queue gl' →
    len (message m) ≤ 512 ∧ dest_client_id m ∈ mqtt_subscribers gl'.
Proof.
  intros Hq Hrun.
  pose proof (keeps_run_all_demos fuel images False ltac:(done) ltac:(done) gl) as Hkeeps.
  rewrite Hrun in Hkeeps. assert (confined gl') as [Hd Hs Hr].
  { destruct o as [[]|]; apply Hkeeps; split; unfold small_messages; rewrite Hq; simpl; auto with lia. }
  split; [done|]. intros m Hm. unfold small_messages in Hs. rewrite Forall_forall in Hs, Hr.
  split; [by apply Hs|by apply Hr].
Qed.

(** The suite comes to its end.  If every activation of a guest ends, by
    returning anything or by a trap, and the functions that delivery calls queue
    nothing, then all five demos run to completion: 66 iterations are enough for
    every delivery, and no result, missing export or failed load stops the
    kernel. *)
Theorem demo_suite_completes `{!EndingGuest G, !QuietGuest G} fuel gl :
  message_queue gl = [] → (66 <= fuel)%nat →
  ∃ gl', run_all_demos (G := G) fuel images gl = Ok (Some tt, gl').
Proof.
  intros Hq Hfuel.
  assert (True → QuietGuest G ∧ (S MAX_IPC_QUEUE_DEPTH < fuel)%nat) as Hquiet by done.
  pose proof (keeps_run_all_demos fuel images True ltac:(done) Hquiet gl) as Hkeeps.
  destruct (run_all_demos fuel images gl) as [[[[]|] gl']| |]; [by exists gl'|exfalso..];
    apply Hkeeps; split; unfold small_messages; rewrite Hq; simpl; auto with lia.
Qed.
End theorems.

(** ** A concrete guest

    One guest that plays all the parts: it subscribes, publishes two bytes of
    its memory, prints 1 for every message it receives and exports nothing
    else. *)
Record Client := mkClient { client_page : list Z }.

Definition client_start : Client := mkClient (replicate 1024 65).

Definition client_export (g : Client) (name : string) : option (Run Client) :=
  if bool_decide (name = "subscriber_init"%string) then
    Some (Run_host g (Call_sys_mqtt_subscribe 2 0 0) (λ _, Run_return g [I32 0]))
  else if bool_decide (name = "publisher_run"%string) then
    Some (Run_host g (Call_sys_mqtt_publish 0 0 8 2) (λ _, Run_return g [I32 0]))
  else if bool_decide (name = "subscriber_receive"%string) then
    Some (Run_host g (Call_print 1) (λ _, Run_return g []))
  else if bool_decide (name = "allocate_message_buffer"%string) then
    Some (Run_return g [I32 1])
  else if bool_decide (name = "broker_init"%string ∨ name = "publisher_init"%string) then
    Some (Run_return g [I32 0])
  else None.

#[global] Instance client_wasmi : Wasmi Client := {
  guest_instantiate _ := Some (Run_return client_start []);
  guest_func g name := (λ r _, r) <$> client_export g name;
  guest_memory g := Some (take 4096 (client_page g));
  guest_set_memory g d := mkClient d
}.

Lemma client_memory_fits g ctx : memory_fits (mkCaller ctx (guest_memory (g : Client))).
Proof. intros d [= <-]. unfold len. rewrite length_take. lia. Qed.

Section client.
Context `{Build}.

#[global] Instance client_typed : TypedGuest Client.
Proof.
  split; [by intros bytes r [= <-]|].
  intros g name f args. simpl. unfold client_export.
  repeat case_bool_decide; intros [= <-]; simpl; auto;
    (split; [done|]; split; [apply client_memory_fits|done]).
Qed.

#[global] Instance client_ending : EndingGuest Client.
Proof.
  split; [intros bytes r ctx gl [= <-]; by do 3 eexists|].
  intros g name f args ctx gl. simpl. unfold client_export.
  repeat case_bool_decide; intros [= <-]; try (by do 3 eexists).
  - destruct (subscribe_empty_topic (mkCaller ctx (guest_memory g)) gl 2 (take 4096 (client_page g)))
      as (gl' & Hrun & _); [done|]. unfold exec, host_call. rewrite Hrun. by do 3 eexists.
  - destruct (publish_run (mkCaller ctx (guest_memory g)) gl 0 0 8 2)
      as [(code & _ & Hrun)|(data & _ & _ & Hrun)];
      [done|apply client_memory_fits|unfold exec, host_call; rewrite Hrun; by do 3 eexists..].
Qed.

#[global] Instance client_quiet : QuietGuest Client.
Proof.
  split.
  - intros g name f args ctx gl [-> | ->] [= <-]; by do 3 eexists.
  - intros g d [= <-]. unfold len. rewrite length_take. lia.
Qed.
End client.

Definition sample_images : Images := mkImages [] [] [] [] [] [] [].
Definition fresh_globals : Globals := mkGlobals [] [] [].

(** The globals the suite leaves with this guest. *)
Definition sample_final : Globals := Eval vm_compute in
  match run_all_demos (H := Dev) (G := Client) 66 sample_images fresh_globals with
  | Ok (_, gl) => gl
  | _ => fresh_globals
  end.

Lemma demo_suite_confined_witness :
  run_all_demos (H := Dev) (G := Client) 66 sample_images fresh_globals =
    Ok (Some tt, sample_final) ∧
  (length (message_queue sample_final) <= 65)%nat.
Proof.
  assert (run_all_demos (H := Dev) (G := Client) 66 sample_images fresh_globals =
    Ok (Some tt, sample_final)) as Hrun by (vm_compute; reflexivity).
  split; [exact Hrun|].
  exact (proj1 (demo_suite_confined (TypedGuest0 := client_typed (H := Dev)) sample_images 66 fresh_globals
           (Some tt) sample_final eq_refl Hrun)).
Defined.

Lemma demo_suite_completes_witness :
  ∃ gl', run_all_demos (H := Dev) (G := Client) 66 sample_images fresh_globals = Ok (Some tt, gl').
Proof.
  apply (demo_suite_completes (TypedGuest0 := client_typed (H := Dev)) (EndingGuest0 := client_ending)
           (QuietGuest0 := client_quiet) sample_images 66 fresh_globals);
    [reflexivity|lia].
Defined.

(** The publish and subscribe path end to end: with this guest the five
    publications of demo 4 reach the subscriber, one by one, and nothing stays
    queued. *)
Example demo_04_delivers :
  ∃ gl', demo_04_mqtt (H := Dev) (G := Client) 66 sample_images fresh_globals = Ok (Some tt, gl') ∧
    message_queue gl' = [] ∧
    filter (λ p, p = Printed_value 1) (printed gl') = replicate 5 (Printed_value 1).
Proof. eexists. split; [vm_compute; reflexivity|]. split; vm_compute; reflexivity. Qed.

(** The two hand-assembled modules are well formed: every announced section size
    is right, and the export sections name the functions the self-test calls. *)
Example self_test_modules_well_formed :
  wasm_module WASM_TEST = Some
    [ (1, [1; 0x60; 0; 1; 0x7f]); (3, [1; 0]);
      (7, [1; 4] ++ bytes_of "test" ++ [0; 0]);
      (10, [1; 4; 0; 0x41; 42; 0x0b]) ] ∧
  wasm_module WASM_HOST_TEST = Some
    [ (1, [2; 0x60; 1; 0x7f; 0; 0x60; 0; 0]);
      (2, [1; 3] ++ bytes_of "env" ++ [5] ++ bytes_of "print" ++ [0; 0]);
      (3, [1; 1]);
      (7, [1; 9] ++ bytes_of "test_host" ++ [0; 1]);
      (10, [1; 6; 0; 0x41; 42; 0x10; 0; 0x0b]) ].
Proof. vm_compute. done. Qed.
