(* ===== verification/Memory.v ===== *)
(** * Physical frames and the kernel heap ([src/src/memory.rs],
    [src/src/allocator.rs])

    The frame allocator walks the boot loader's memory map; [init_heap] maps the
    pages of the heap one by one.  Frames, pages and page tables belong to the
    [x86_64] crate and are parameters with the laws its documentation states;
    the trait [FrameAllocator] is an interface that the boot allocator
    implements and [init_heap] is a client of. *)
From S2P Require Import Prelude.

(** ** The memory map *)

Inductive MemoryRegionKind := MemoryRegionKind_Usable | MemoryRegionKind_other.

#[global] Instance MemoryRegionKind_eq_dec : EqDecision MemoryRegionKind.
Proof. solve_decision. Defined.

Record MemoryRegion := mkMemoryRegion {
  region_start : Z; region_end : Z; region_kind : MemoryRegionKind
}.

(** [(start..end).step_by(4096)] *)
Definition step_range (start stop : Z) : list Z :=
  (λ i, start + 4096 * i) <$> seqZ 0 ((stop - start + 4095) / 4096).

(** ** What the kernel uses of the [x86_64] crate *)

(** [PhysFrame::containing_address(PhysAddr::new(addr))] panics on an address
    that does not fit in 52 bits. *)
Class PhysFrames (Frame : Type) := {
  frame_containing : Z → outcome Frame;
  start_address : Frame → Z
}.

Class PhysFramesLaws (Frame : Type) `{!PhysFrames Frame} : Prop := {
  frame_containing_fits addr : in_u 52 addr →
    ∃ f, frame_containing addr = Ok f ∧ start_address f = addr - addr mod 4096;
  frame_containing_big addr : ¬ in_u 52 addr → frame_containing addr = Panic
}.

(** The trait [FrameAllocator<Size4KiB>]. *)
Class FrameAllocator (A Frame : Type) :=
  allocate_frame : A → outcome (A * option Frame).

(** ** The boot allocator *)

Record BootInfoFrameAllocator := mkBootInfoFrameAllocator {
  memory_map : list MemoryRegion;
  next : Z
}.

Definition BootInfoFrameAllocator_init (memory_map : list MemoryRegion)
    : BootInfoFrameAllocator := mkBootInfoFrameAllocator memory_map 0.

(** The frame addresses behind [usable_frames], before the final [map]. *)
Definition frame_addresses (self : BootInfoFrameAllocator) : list Z :=
  filter (λ r, region_kind r = MemoryRegionKind_Usable) (memory_map self)
    ≫= λ r, step_range (region_start r) (region_end r).

Section boot_allocator.
Context `{Build} {Frame : Type} `{!PhysFrames Frame}.

(** [usable_frames().nth(n)]: the iterator is lazy, the closure that builds the
    frames runs for the first [n + 1] addresses. *)
Definition usable_frames_nth (self : BootInfoFrameAllocator) (n : nat) : outcome (option Frame) :=
  frames ← mapM frame_containing (take (S n) (frame_addresses self));
  Ok (frames !! n).

#[global] Instance boot_allocate_frame : FrameAllocator BootInfoFrameAllocator Frame := λ self,
  frame ← usable_frames_nth self (Z.to_nat (next self));
  n ← (next self +u[64] 1);
  Ok (mkBootInfoFrameAllocator (memory_map self) n, frame).
End boot_allocator.

(** [deallocate_frame] does nothing: frames are not reused. *)
Definition deallocate_frame {Frame} (self : BootInfoFrameAllocator) (_frame : Frame)
    : BootInfoFrameAllocator := self.

(** ** The heap *)

Definition HEAP_START : Z := 0x444444440000.
Definition HEAP_SIZE : Z := 8 * 1024 * 1024.

(** Pages, flags and the mapper of the [x86_64] crate.  [map_to] may itself
    allocate frames, for page tables. *)
Class Paging (M Frame : Type) := {
  Page : Type;
  MapToError : Type;
  PageTableFlags : Type;
  page_containing : Z → Page;
  range_inclusive : Page → Page → list Page;
  FrameAllocationFailed : MapToError;
  PRESENT_WRITABLE : PageTableFlags;
  map_to {A} `{!FrameAllocator A Frame} :
    M → Page → Frame → PageTableFlags → A → outcome (M * A * result MapToError ());
  translate : M → Page → option Frame
}.

Section heap.
Context `{Build} {M Frame A : Type} `{!Paging M Frame, !FrameAllocator A Frame}.

(** [heap_start], [heap_end] and the pages between them. *)
Definition heap_pages : list Page :=
  range_inclusive (page_containing HEAP_START) (page_containing (HEAP_START + HEAP_SIZE - 1)).

Fixpoint map_heap_pages (pages : list Page) (mapper : M) (frame_allocator : A)
    : outcome (M * A * result MapToError ()) :=
  match pages with
  | [] => Ok (mapper, frame_allocator, ROk tt)
  | page :: pages =>
      '(frame_allocator, frame) ← allocate_frame frame_allocator;
      match frame with
      | None => Ok (mapper, frame_allocator, RErr FrameAllocationFailed)
      | Some frame =>
          '(mapper, frame_allocator, r) ←
            map_to mapper page frame PRESENT_WRITABLE frame_allocator;
          match r with
          | RErr e => Ok (mapper, frame_allocator, RErr e)
          | ROk _ => map_heap_pages pages mapper frame_allocator
          end
      end
  end.

(** [init_heap]; the last component is the region given to the global
    [ALLOCATOR], if it was initialised. *)
Definition init_heap (mapper : M) (frame_allocator : A)
    : outcome (M * A * result MapToError () * option (Z * Z)) :=
  '(mapper, frame_allocator, r) ← map_heap_pages heap_pages mapper frame_allocator;
  match r with
  | RErr e => Ok (mapper, frame_allocator, RErr e, None)
  | ROk _ => Ok (mapper, frame_allocator, ROk tt, Some (HEAP_START, HEAP_SIZE))
  end.
End heap.

(** The laws of paging: pages are 4 KB, a range lists the pages in order, and a
    successful [map_to] maps that page to that frame and no other page; for the
    tables of the three lower levels it may call [allocate_frame]. *)
Definition alloc_step {A Frame} `{!FrameAllocator A Frame} (a a' : A) : Prop :=
  ∃ f, allocate_frame (Frame := Frame) a = Ok (a', f).

Class PagingLaws (M Frame : Type) `{!Paging M Frame} : Prop := {
  page_containing_eq a b : page_containing a = page_containing b ↔ a / 4096 = b / 4096;
  range_inclusive_pages a b :
    range_inclusive (page_containing a) (page_containing b) =
    (λ i, page_containing (4096 * i)) <$> seqZ (a / 4096) (b / 4096 - a / 4096 + 1);
  map_to_ok {A} `{!FrameAllocator A Frame} m p f fl (a : A) m' a' r :
    map_to m p f fl a = Ok (m', a', r) →
    (∃ n, (n <= 3)%nat ∧ nsteps (alloc_step (Frame := Frame)) n a a') ∧
    (r = ROk tt → translate m' p = Some f) ∧
    (∀ q, q ≠ p → translate m' q = translate m q)
}.

(** ** Valid memory maps *)

Definition usable (l : list MemoryRegion) : list MemoryRegion :=
  filter (λ r, region_kind r = MemoryRegionKind_Usable) l.

Definition apart (r s : MemoryRegion) : Prop :=
  region_end r ≤ region_start s ∨ region_end s ≤ region_start r.

Fixpoint pairwise_apart (l : list MemoryRegion) : Prop :=
  match l with
  | [] => True
  | r :: l => Forall (apart r) l ∧ pairwise_apart l
  end.

Record region_ok (r : MemoryRegion) : Prop := {
  region_start_aligned : region_start r mod 4096 = 0;
  region_end_aligned : region_end r mod 4096 = 0;
  region_bounds : 0 ≤ region_start r ∧ region_end r ≤ 2 ^ 52
}.

(** Usable regions are page-aligned, addressable and do not overlap: what the
    boot loader documents of the map it passes. *)
Record memory_map_ok (l : list MemoryRegion) : Prop := {
  regions_ok : Forall region_ok (usable l);
  regions_apart : pairwise_apart (usable l)
}.

(** The page frame at [addr] lies inside region [r]. *)
Definition frame_in (addr : Z) (r : MemoryRegion) : Prop :=
  region_start r ≤ addr ∧ addr + 4096 ≤ region_end r ∧ addr mod 4096 = 0.

Lemma elem_of_step_range r addr :
  region_ok r → addr ∈ step_range (region_start r) (region_end r) ↔ frame_in addr r.
Proof.
  intros [Hs He Hb]. unfold step_range, frame_in. rewrite list_elem_of_fmap.
  apply Z.mod_divide in Hs as [s Hs]; [|done]. apply Z.mod_divide in He as [e He]; [|done].
  assert ((region_end r - region_start r + 4095) / 4096 = e - s) as ->.
  { rewrite Hs, He. symmetry. apply Z.div_unique with 4095; lia. }
  split.
  - intros (i & -> & [H0 H1]%elem_of_seqZ). split_and!; [lia|lia|].
    rewrite Hs. replace (s * 4096 + 4096 * i) with ((s + i) * 4096) by lia. apply Z.mod_mul. done.
  - intros (H0 & H1 & Ha). apply Z.mod_divide in Ha as [a ->]; [|done].
    exists (a - s). split; [lia|]. apply elem_of_seqZ. lia.
Qed.

Lemma NoDup_step_range a b : NoDup (step_range a b).
Proof. apply NoDup_fmap_2; [intros i j; lia|apply NoDup_seqZ]. Qed.

Definition addresses (l : list MemoryRegion) : list Z :=
  frame_addresses (mkBootInfoFrameAllocator l 0).

Lemma frame_addresses_map self : frame_addresses self = addresses (memory_map self).
Proof. done. Qed.

Lemma elem_of_addresses l addr :
  memory_map_ok l → addr ∈ addresses l ↔ ∃ r, r ∈ usable l ∧ frame_in addr r.
Proof.
  intros [Hok _]. unfold addresses, frame_addresses. simpl. fold (usable l).
  rewrite Forall_forall in Hok. rewrite list_elem_of_bind. split.
  - intros (r & Hin & Hr). exists r. split; [done|]. by apply elem_of_step_range; [apply Hok|].
  - intros (r & Hr & Hin). exists r. split; [|done]. by apply elem_of_step_range; [apply Hok|].
Qed.

Lemma NoDup_addresses l : memory_map_ok l → NoDup (addresses l).
Proof.
  intros [Hok Hap]. unfold addresses, frame_addresses. simpl. fold (usable l).
  induction (usable l) as [|r u IH]; simpl; [apply NoDup_nil_2|].
  apply Forall_cons in Hok as [Hr Hok]. destruct Hap as [Hra Hap].
  apply NoDup_app. split_and!; [apply NoDup_step_range| |by apply IH].
  intros addr Hin%elem_of_step_range (s & Hs & Hsu)%list_elem_of_bind; [|done].
  rewrite Forall_forall in Hok, Hra. apply elem_of_step_range in Hs; [|by apply Hok].
  specialize (Hra s Hsu). unfold apart, frame_in in *. lia.
Qed.

Lemma addresses_fit l addr :
  memory_map_ok l → addr ∈ addresses l → in_u 52 addr ∧ addr mod 4096 = 0.
Proof.
  intros Hok (r & Hr & Hin)%elem_of_addresses; [|done].
  pose proof (proj1 (Forall_forall _ _) (regions_ok _ Hok) r Hr) as [_ _ Hb].
  unfold frame_in, in_u in *. lia.
Qed.

(** ** Allocation *)
Section allocation.
Context `{Build} {Frame : Type} `{!PhysFrames Frame, !PhysFramesLaws Frame}.

Lemma mapM_frames l :
  Forall (λ a, in_u 52 a ∧ a mod 4096 = 0) l →
  ∃ fs : list Frame, mapM frame_containing l = Ok fs ∧ start_address <$> fs = l.
Proof.
  induction 1 as [|a l [Ha Hal] _ (fs & Hfs & Hst)]; simpl; [by exists []|].
  destruct (frame_containing_fits a Ha) as (f & -> & Hf). simpl. rewrite Hfs.
  exists (f :: fs). split; [done|]. csimpl. rewrite Hf, Hst. f_equal. lia.
Qed.

Lemma allocate_eq self :
  memory_map_ok (memory_map self) → 0 ≤ next self → next self + 1 < 2 ^ 64 →
  ∃ o : option Frame, allocate_frame self =
      Ok (mkBootInfoFrameAllocator (memory_map self) (next self + 1), o) ∧
    start_address <$> o = addresses (memory_map self) !! Z.to_nat (next self).
Proof.
  intros Hok Hn Hn1. unfold allocate_frame, boot_allocate_frame, usable_frames_nth.
  rewrite frame_addresses_map.
  destruct (mapM_frames (take (S (Z.to_nat (next self))) (addresses (memory_map self))))
    as (fs & -> & Hfs).
  { apply Forall_take, Forall_forall. intros a. by apply addresses_fit. }
  simpl. rewrite add_u_fits by (unfold in_u; lia). eexists. split; [done|].
  rewrite <- list_lookup_fmap, Hfs. apply lookup_take_lt. lia.
Qed.

(** [n] allocations in a row. *)
Fixpoint allocate_n (n : nat) (self : BootInfoFrameAllocator)
    : outcome (BootInfoFrameAllocator * list (option Frame)) :=
  match n with
  | O => Ok (self, [])
  | S n =>
      '(self, f) ← allocate_frame self;
      '(self, fs) ← allocate_n n self;
      Ok (self, f :: fs)
  end.

Lemma allocate_n_eq n self :
  memory_map_ok (memory_map self) → 0 ≤ next self → next self + Z.of_nat n < 2 ^ 64 →
  ∃ self' fs, allocate_n n self = Ok (self', fs) ∧ length fs = n ∧
    ∀ i o, fs !! i = Some o →
      start_address <$> o = addresses (memory_map self) !! (Z.to_nat (next self) + i)%nat.
Proof.
  revert self. induction n as [|n IH]; intros self Hok Hn Hfit; cbn [allocate_n].
  { by exists self, []. }
  destruct (allocate_eq self Hok Hn) as (o & -> & Ho); [lia|]. cbn.
  destruct (IH (mkBootInfoFrameAllocator (memory_map self) (next self + 1)))
    as (self' & fs & -> & Hlen & Hfs); [done|simpl; lia..|]. simpl in *.
  exists self', (o :: fs). simpl. split_and!; [done|lia|].
  intros [|i] o'; simpl; [intros [= <-]; by rewrite Nat.add_0_r|].
  intros ->%Hfs. f_equal. lia.
Qed.

Lemma alloc_steps n (a a' : BootInfoFrameAllocator) :
  memory_map_ok (memory_map a) → 0 ≤ next a → next a + Z.of_nat n < 2 ^ 64 →
  nsteps (alloc_step (Frame := Frame)) n a a' →
  memory_map a' = memory_map a ∧ next a' = next a + Z.of_nat n.
Proof.
  intros Hok Hn Hfit Hsteps. revert Hok Hn Hfit.
  induction Hsteps as [a|n a a1 a' [f Hf] _ IH]; intros Hok Hn Hfit; [split; [done|lia]|].
  destruct (allocate_eq a Hok Hn) as (o & Ho & _); [lia|]. rewrite Hf in Ho. injection Ho as -> ->.
  destruct IH as [-> ->]; simpl; [done|lia..|]. split; [done|lia].
Qed.
End allocation.

Section theorems.
Context `{Build} {Frame : Type} `{!PhysFrames Frame, !PhysFramesLaws Frame}.

(** C17: the boot allocator never hands out a frame twice.  On a valid memory map
    it can be called any number of times without a panic; the frames it returns
    are page-aligned, lie entirely in usable regions and are pairwise
    different, and it answers [None] only when every usable frame is gone. *)
Theorem boot_allocator_sound l n :
  memory_map_ok l → Z.of_nat n < 2 ^ 64 →
  ∃ self (os : list (option Frame)),
    allocate_n n (BootInfoFrameAllocator_init l) = Ok (self, os) ∧ length os = n ∧
    (∀ i f, os !! i = Some (Some f) →
       ∃ r, r ∈ usable l ∧ frame_in (start_address f) r) ∧
    (∀ i j f g, os !! i = Some (Some f) → os !! j = Some (Some g) → i ≠ j →
       start_address f ≠ start_address g) ∧
    (∀ i, os !! i = Some None →
       ∀ r addr, r ∈ usable l → frame_in addr r →
         ∃ j f, (j < i)%nat ∧ os !! j = Some (Some f) ∧ start_address f = addr).
Proof.
  intros Hok Hn. destruct (allocate_n_eq (Frame := Frame) n (BootInfoFrameAllocator_init l))
    as (self & os & Hrun & Hlen & Hos); [done|done|simpl; lia|].
  change (Z.to_nat (next (BootInfoFrameAllocator_init l))) with O in Hos. simpl in Hos.
  exists self, os. split_and!; [done|done| | |].
  - intros i f Hi. apply (elem_of_addresses l); [done|].
    apply list_elem_of_lookup. exists i. by rewrite <- (Hos _ _ Hi).
  - intros i j f g Hi Hj Hne Heq. apply Hne.
    apply Hos in Hi, Hj. simpl in *. rewrite Heq in Hi.
    eapply NoDup_lookup; [by apply (NoDup_addresses l)|done|done].
  - intros i Hi r addr Hr Haddr. apply Hos in Hi as Hnone. simpl in Hnone.
    symmetry in Hnone. apply lookup_ge_None in Hnone.
    assert (addr ∈ addresses l) as (j & Hj)%list_elem_of_lookup.
    { apply elem_of_addresses; eauto. }
    pose proof (lookup_lt_Some _ _ _ Hj). pose proof (lookup_lt_Some _ _ _ Hi).
    destruct (lookup_lt_is_Some_2 os j) as [o Ho]; [lia|].
    pose proof (Hos _ _ Ho) as Hso. rewrite Hj in Hso. apply fmap_Some in Hso as (f & -> & ->).
    exists j, f. split_and!; [lia|done|done].
Qed.

Context {M : Type} `{!Paging M Frame, !PagingLaws M Frame}.

Lemma map_heap_pages_maps pages (m m' : M) (a a' : BootInfoFrameAllocator) r :
  memory_map_ok (memory_map a) → 0 ≤ next a →
  next a + 4 * Z.of_nat (length pages) < 2 ^ 64 → NoDup pages →
  map_heap_pages pages m a = Ok (m', a', r) →
  (∀ q, q ∉ pages → translate m' q = translate m q) ∧
  (r = ROk tt → ∃ fs, Forall2 (λ p f, translate m' p = Some f) pages fs ∧
     NoDup (start_address <$> fs) ∧
     Forall (λ f, ∃ k, Z.to_nat (next a) ≤ k ∧
       addresses (memory_map a) !! k = Some (start_address f))%nat fs).
Proof.
  revert m a. induction pages as [|p pages IH]; intros m a Hok Hn Hfit Hnd; cbn [map_heap_pages].
  { intros [= <- <- <-]. split; [done|]. intros _. exists [].
    split_and!; [apply Forall2_nil_2|apply NoDup_nil_2|apply Forall_nil_2]. }
  apply NoDup_cons in Hnd as [Hp Hnd]. simpl in Hfit.
  destruct (allocate_eq (Frame := Frame) a Hok Hn) as (o & -> & Ho); [lia|]. cbn.
  destruct o as [f|]; [|by intros [= <- <- <-]]. set (a1 := mkBootInfoFrameAllocator _ _).
  intros ([[m2 a2] r2] & Hmap & Hrest)%bind_Ok.
  apply map_to_ok in Hmap as ((n & Hn3 & Hsteps) & Hhit & Hmiss).
  apply (alloc_steps n a1) in Hsteps as [Hmm Hnext]; [|done|simpl; lia|simpl; lia].
  destruct r2 as [[]|e]; [|by injection Hrest as <- <- <-; split; [|done]; intros q
    [? _]%not_elem_of_cons; apply Hmiss].
  apply IH in Hrest as [Hframe Hres]; [|by rewrite Hmm|rewrite Hnext; simpl; lia
    |rewrite Hnext; simpl; lia|done].
  split. { intros q [Hq Hq']%not_elem_of_cons. by rewrite Hframe, Hmiss. }
  intros Hr. destruct (Hres Hr) as (fs & Hfs & Hndf & Hks). exists (f :: fs).
  rewrite Hmm, Hnext in Hks. simpl in Hks, Ho. symmetry in Ho. split_and!.
  - apply Forall2_cons. split; [|done]. rewrite Hframe by done. by apply Hhit.
  - csimpl. apply NoDup_cons. split; [|done]. intros (g & Hg & Hin)%list_elem_of_fmap.
    rewrite Forall_forall in Hks. apply Hks in Hin as (k & Hk & Hka).
    rewrite <- Hg in Hka. assert (Z.to_nat (next a) = k); [|lia].
    by eapply NoDup_lookup; [apply (NoDup_addresses _ Hok)| |].
  - apply Forall_cons. split; [by exists (Z.to_nat (next a))|].
    eapply Forall_impl; [exact Hks|]. intros g (k & Hk & ?). exists k. split; [lia|done].
Qed.

Lemma heap_pages_eq :
  heap_pages (M := M) = (λ i, page_containing (4096 * i)) <$> seqZ 0x444444440 2048.
Proof. unfold heap_pages. by rewrite range_inclusive_pages. Qed.

Lemma NoDup_heap_pages : NoDup (heap_pages (M := M)).
Proof.
  rewrite heap_pages_eq. apply NoDup_fmap_2_strong; [|apply NoDup_seqZ].
  intros i j _ _ Heq%page_containing_eq. rewrite !(Z.mul_comm 4096), !Z.div_mul in Heq by done. done.
Qed.

(** C18: [init_heap] succeeds only when the whole heap is backed by memory of its
    own.  If it returns [Ok], the allocator was given exactly the 8 MB region,
    each of its 2048 pages is mapped to a frame of a usable region, no two pages
    share a frame, and no other page's mapping changed; on an error the heap is
    not initialised. *)
Theorem init_heap_sound l (m m' : M) a' r heap :
  memory_map_ok l →
  init_heap m (BootInfoFrameAllocator_init l) = Ok (m', a', r, heap) →
  (∀ q, q ∉ heap_pages → translate m' q = translate m q) ∧
  match r with
  | RErr _ => heap = None
  | ROk _ =>
      heap = Some (0x444444440000, 8388608) ∧ length (heap_pages (M := M)) = 2048%nat ∧
      ∃ fs, Forall2 (λ p f, translate m' p = Some f) heap_pages fs ∧
        NoDup (start_address <$> fs) ∧
        ∀ f, f ∈ fs → ∃ reg, reg ∈ usable l ∧ frame_in (start_address f) reg
  end.
Proof.
  intros Hok. unfold init_heap. intros ([[m1 a1] r1] & Hmap & Hr)%bind_Ok.
  assert (length (heap_pages (M := M)) = 2048%nat) as Hlen.
  { rewrite heap_pages_eq, length_fmap. apply length_seqZ. }
  apply map_heap_pages_maps in Hmap as [Hframe Hres];
    [|done|done|rewrite Hlen; done|apply NoDup_heap_pages].
  destruct r1 as [[]|e]; injection Hr as <- <- <- <-; split; try done.
  split_and!; [done|done|]. destruct (Hres eq_refl) as (fs & Hfs & Hnd & Hks).
  exists fs. split_and!; [done|done|]. intros f Hf.
  rewrite Forall_forall in Hks. apply Hks in Hf as (k & _ & Hk).
  apply (elem_of_addresses l); [done|]. by apply list_elem_of_lookup_2 in Hk.
Qed.
End theorems.

(** ** A concrete machine

    Frames as their start addresses, pages by number, and a page table that is a
    finite map and never needs a frame of its own. *)

#[global] Instance flat_frames : PhysFrames Z := {
  frame_containing addr :=
    if decide (in_u 52 addr) then Ok (addr - addr mod 4096) else Panic;
  start_address f := f
}.

#[global] Instance flat_frames_laws : PhysFramesLaws Z.
Proof.
  split; intros addr Haddr; simpl; [|by rewrite decide_False].
  eexists. by rewrite decide_True.
Qed.

Definition FlatPaging : Type := gmap Z Z.

#[global] Instance flat_paging : Paging FlatPaging Z := {
  Page := Z;
  MapToError := unit;
  PageTableFlags := unit;
  page_containing a := a / 4096;
  range_inclusive p q := seqZ p (q - p + 1);
  FrameAllocationFailed := tt;
  PRESENT_WRITABLE := tt;
  map_to A _ m p f _ a := Ok (<[p := f]> m, a, ROk tt);
  translate m p := (m : gmap Z Z) !! p
}.

#[global] Instance flat_paging_laws : PagingLaws FlatPaging Z.
Proof.
  split; simpl.
  - done.
  - intros a b. rewrite <- (list_fmap_id (seqZ _ _)) at 1. apply list_fmap_ext.
    intros i x _. unfold id. rewrite Z.mul_comm, Z.div_mul; done.
  - intros A HA m p f [] a m' a' r [= <- <- <-]. split_and!.
    + exists O. split; [lia|]. constructor.
    + intros _. apply lookup_insert_eq.
    + intros q Hq. by apply lookup_insert_ne.
Qed.

(** One usable region of 4096 frames. *)
Definition sample_map : list MemoryRegion :=
  [mkMemoryRegion 0 0x100000 MemoryRegionKind_other;
   mkMemoryRegion 0x100000 0x1100000 MemoryRegionKind_Usable].

Lemma sample_map_ok : memory_map_ok sample_map.
Proof.
  split; [|by split]. apply Forall_singleton. split; [done|done|]. simpl. lia.
Qed.

Lemma length_sample_addresses : length (addresses sample_map) = 4096%nat.
Proof.
  change (addresses sample_map) with (step_range 0x100000 0x1100000 ++ []).
  rewrite app_nil_r. unfold step_range. rewrite length_fmap. apply length_seqZ.
Qed.

Lemma flat_heap_succeeds `{Build} pages (m : FlatPaging) n :
  0 ≤ n → n + Z.of_nat (length pages) ≤ 4096 →
  ∃ m' a', map_heap_pages (Frame := Z) pages m (mkBootInfoFrameAllocator sample_map n) =
    Ok (m', a', ROk tt).
Proof.
  revert m n. induction pages as [|p pages IH]; intros m n Hn Hfit; cbn [map_heap_pages].
  { by do 2 eexists. }
  simpl in Hfit.
  destruct (allocate_eq (Frame := Z) (mkBootInfoFrameAllocator sample_map n) sample_map_ok)
    as (o & -> & Ho); [simpl; lia|simpl; lia|]. cbn in Ho |- *. destruct o as [f|].
  - apply IH; simpl; lia.
  - exfalso. symmetry in Ho. apply lookup_ge_None in Ho.
    change (length (addresses sample_map) <= Z.to_nat n)%nat in Ho.
    rewrite length_sample_addresses in Ho. lia.
Qed.

Lemma boot_allocator_sound_witness :
  ∃ self (os : list (option Z)),
    allocate_n (H := Dev) 3 (BootInfoFrameAllocator_init sample_map) = Ok (self, os) ∧
    length os = 3%nat.
Proof.
  destruct (boot_allocator_sound (H := Dev) (Frame := Z) sample_map 3)
    as (self & os & Hrun & Hl & _); [apply sample_map_ok|done|].
  exists self, os. split; [exact Hrun|exact Hl].
Defined.

Lemma init_heap_sound_witness :
  ∃ m' a', init_heap (FrameAllocator0 := boot_allocate_frame (H := Dev) (Frame := Z)) (∅ : FlatPaging)
      (BootInfoFrameAllocator_init sample_map) =
    Ok (m', a', ROk tt, Some (0x444444440000, 8388608)) ∧
    ∀ q, q ∉ heap_pages (M := FlatPaging) → translate m' q = translate (∅ : FlatPaging) q.
Proof.
  assert (length (heap_pages (M := FlatPaging)) = 2048%nat) as Hl.
  { rewrite heap_pages_eq, length_fmap. apply length_seqZ. }
  destruct (flat_heap_succeeds (H := Dev) (heap_pages (M := FlatPaging)) (∅ : FlatPaging) 0)
    as (m' & a' & Hrun); [lia|rewrite Hl; lia|].
  assert (init_heap (FrameAllocator0 := boot_allocate_frame (H := Dev) (Frame := Z)) (∅ : FlatPaging)
      (BootInfoFrameAllocator_init sample_map) =
    Ok (m', a', ROk tt, Some (0x444444440000, 8388608))) as Hinit.
  { unfold init_heap, BootInfoFrameAllocator_init. rewrite Hrun. reflexivity. }
  exists m', a'. split; [exact Hinit|].
  apply (init_heap_sound (H := Dev) (Frame := Z) (M := FlatPaging) sample_map ∅ m' a' _ _
    sample_map_ok Hinit).
Defined.
