(* ===== verification/Mmu.v ===== *)
(** * The AArch64 page tables ([src/src/arch/aarch64/mmu.rs])

    The four static tables [init] fills, the translation registers it writes,
    and the translation-table walk the processor performs with them (4 KB
    granule, as the architecture manual defines it).  Log output is left out. *)
From S2P Require Import Prelude.

(** ** Constants and data *)

Definition TABLE_ENTRIES : nat := 512.
Definition BLOCK_SIZE_2MB : Z := 2 * 1024 * 1024.

Definition PTE_VALID : Z := Z.shiftl 1 0.
Definition PTE_TABLE : Z := Z.shiftl 1 1.
Definition PTE_BLOCK : Z := Z.shiftl 0 1.
Definition PTE_AF : Z := Z.shiftl 1 10.
Definition PTE_SH_INNER : Z := Z.shiftl 3 8.
Definition PTE_AP_RW : Z := Z.shiftl 0 7.
Definition PTE_AP_RO : Z := Z.shiftl 2 7.
Definition PTE_ATTR_NORMAL : Z := Z.shiftl 0 2.
Definition PTE_ATTR_DEVICE : Z := Z.shiftl 1 2.

Definition MAIR_NORMAL : Z := 0xFF.
Definition MAIR_DEVICE : Z := 0x00.

(** [struct PageTable] *)
Abbreviation PageTable := (list Z).
Definition PageTable_new : PageTable := replicate TABLE_ENTRIES 0.
Definition PageTable_zero (self : PageTable) : PageTable := (λ _, 0) <$> self.

(** The four statics, and the addresses the linker gives them. *)
Record Tables := mkTables {
  L0_TABLE : PageTable; L1_TABLE : PageTable; L2_TABLE_0 : PageTable; L2_TABLE_1 : PageTable
}.

Record Addresses := mkAddresses {
  l0_addr : Z; l1_addr : Z; l2_0_addr : Z; l2_1_addr : Z
}.

Record MmuRegs := mkMmuRegs {
  mair_el1 : Z; tcr_el1 : Z; ttbr0_el1 : Z; sctlr_el1 : Z
}.

(** ** [init] *)

Definition device_attr (phys_addr : Z) : Z :=
  if (0x08000000 <=? phys_addr) && (phys_addr <? 0x10000000) then PTE_ATTR_DEVICE
  else PTE_ATTR_NORMAL.

Definition block_entry (phys_addr attr : Z) : Z :=
  Z.lor (Z.lor (Z.lor (Z.lor (Z.lor (Z.lor phys_addr PTE_BLOCK) PTE_VALID) PTE_AF) PTE_SH_INNER)
    PTE_AP_RW) attr.

Definition table_entry (addr : Z) : Z := Z.lor (Z.lor addr PTE_TABLE) PTE_VALID.

(** [for i in 0..n { table.entries[i] = f(i) }] *)
Fixpoint fill (n : nat) (i : nat) (f : Z → Z) (t : PageTable) : PageTable :=
  match n with
  | O => t
  | S n => fill n (S i) f (<[i := f (Z.of_nat i)]> t)
  end.

Definition l2_0_entry (i : Z) : Z :=
  let phys_addr := i * BLOCK_SIZE_2MB in block_entry phys_addr (device_attr phys_addr).
Definition l2_1_entry (i : Z) : Z :=
  let phys_addr := 0x40000000 + i * BLOCK_SIZE_2MB in block_entry phys_addr PTE_ATTR_NORMAL.

Definition init_tables (a : Addresses) (t : Tables) : Tables :=
  let l0 := PageTable_zero (L0_TABLE t) in
  let l1 := PageTable_zero (L1_TABLE t) in
  let l2_0 := PageTable_zero (L2_TABLE_0 t) in
  let l2_1 := PageTable_zero (L2_TABLE_1 t) in
  let l0 := <[0%nat := table_entry (l1_addr a)]> l0 in
  let l1 := <[0%nat := table_entry (l2_0_addr a)]> l1 in
  let l1 := <[1%nat := table_entry (l2_1_addr a)]> l1 in
  let l2_0 := fill 128 0 l2_0_entry l2_0 in
  let l2_1 := fill 192 0 l2_1_entry l2_1 in
  mkTables l0 l1 l2_0 l2_1.

Definition mair : Z := Z.lor (Z.shiftl MAIR_DEVICE 8) MAIR_NORMAL.

Definition tcr : Z :=
  Z.lor (Z.lor (Z.lor (Z.lor (Z.lor (Z.shiftl 25 0) (Z.shiftl 0 14)) (Z.shiftl 3 12))
    (Z.shiftl 1 10)) (Z.shiftl 1 8)) (Z.shiftl 0 32).

Definition init (a : Addresses) (t : Tables) (sctlr : Z) : Tables * MmuRegs :=
  (init_tables a t, mkMmuRegs mair tcr (l0_addr a) (Z.lor sctlr (Z.shiftl 1 0))).

Definition is_enabled (r : MmuRegs) : bool := negb (Z.land (sctlr_el1 r) 1 =? 0).
Definition get_ttbr0 (r : MmuRegs) : Z := ttbr0_el1 r.

(** ** The walk the processor performs *)

(** The word at a physical address, when it lies in one of the tables. *)
Definition read_table (base : Z) (t : PageTable) (pa : Z) : option Z :=
  if decide (base ≤ pa < base + 4096) then t !! Z.to_nat ((pa - base) / 8) else None.

Definition read_phys (a : Addresses) (t : Tables) (pa : Z) : Z :=
  match read_table (l0_addr a) (L0_TABLE t) pa with Some v => v | None =>
  match read_table (l1_addr a) (L1_TABLE t) pa with Some v => v | None =>
  match read_table (l2_0_addr a) (L2_TABLE_0 t) pa with Some v => v | None =>
  match read_table (l2_1_addr a) (L2_TABLE_1 t) pa with Some v => v | None => 0
  end end end end.

Inductive Walk := Translated (pa attr_index : Z) | Fault (level : Z).

(** Bits [hi..lo] of a word. *)
Definition bits (v lo n : Z) : Z := v / 2 ^ lo mod 2 ^ n.

(** [fuel] counts the levels left, the last of which is level 3. *)
Fixpoint walk (fuel : nat) (a : Addresses) (t : Tables) (table va : Z) : Walk :=
  match fuel with
  | O => Fault 4
  | S below =>
      let level := 3 - Z.of_nat below in
      let shift := 12 + 9 * Z.of_nat below in
      let desc := read_phys a t (table + 8 * bits va shift 9) in
      let valid := bits desc 0 1 in
      let is_table := bits desc 1 1 in
      let attr := bits desc 2 3 in
      if valid =? 0 then Fault level
      else if level =? 3 then
        if is_table =? 1 then
          if bits desc 10 1 =? 0 then Fault level
          else Translated (bits desc 12 36 * 2 ^ 12 + bits va 0 12) attr
        else Fault level
      else if is_table =? 1 then walk below a t (bits desc 12 36 * 2 ^ 12) va
      else if level =? 0 then Fault level
      else if bits desc 10 1 =? 0 then Fault level
      else Translated (bits desc shift (48 - shift) * 2 ^ shift + bits va 0 shift) attr
  end.

(** The number of levels walked is a function of [T0SZ]: 4 for an input size of
    40 to 48 bits, 3 for 31 to 39 bits, 2 for 25 to 30 bits. *)
Definition levels (tcr : Z) : nat :=
  let t0sz := bits tcr 0 6 in
  if decide (t0sz ≤ 24) then 4 else if decide (t0sz ≤ 33) then 3 else 2.

(** The walk of TTBR0_EL1.  An address outside its range counts as a fault; what
    TTBR1_EL1 would make of it is not modelled. *)
Definition translate (a : Addresses) (t : Tables) (r : MmuRegs) (va : Z) : Walk :=
  if decide (0 ≤ va < 2 ^ (64 - bits (tcr_el1 r) 0 6)) then
    walk (levels (tcr_el1 r)) a t (ttbr0_el1 r) va
  else Fault (4 - Z.of_nat (levels (tcr_el1 r))).

(** ** Lemmas on the tables *)

Record addresses_ok (a : Addresses) : Prop := {
  ok_aligned : Forall (λ p, p mod 4096 = 0 ∧ 0 ≤ p ∧ p + 4096 ≤ 2 ^ 48)
    [l0_addr a; l1_addr a; l2_0_addr a; l2_1_addr a];
  ok_distinct : NoDup [l0_addr a; l1_addr a; l2_0_addr a; l2_1_addr a]
}.

Record tables_ok (t : Tables) : Prop := {
  ok_l0 : length (L0_TABLE t) = TABLE_ENTRIES;
  ok_l1 : length (L1_TABLE t) = TABLE_ENTRIES;
  ok_l2_0 : length (L2_TABLE_0 t) = TABLE_ENTRIES;
  ok_l2_1 : length (L2_TABLE_1 t) = TABLE_ENTRIES
}.

Lemma length_fill n i f t : length (fill n i f t) = length t.
Proof. revert i t. induction n as [|n IH]; intros i t; simpl; [done|]. by rewrite IH, length_insert. Qed.

Lemma lookup_fill n i f t j :
  (i + n <= length t)%nat →
  fill n i f t !! j =
    if decide (i <= j < i + n)%nat then Some (f (Z.of_nat j)) else t !! j.
Proof.
  revert i t. induction n as [|n IH]; intros i t Hl; simpl.
  { by rewrite decide_False by lia. }
  rewrite IH by (rewrite length_insert; lia).
  destruct (decide (j = i)) as [->|Hj].
  - rewrite decide_False, decide_True by lia. apply list_lookup_insert_eq. lia.
  - rewrite list_lookup_insert_ne by done. by repeat case_decide; try lia.
Qed.

Lemma bits_bound v lo n : 0 ≤ n → 0 ≤ bits v lo n < 2 ^ n.
Proof. intros. apply Z.mod_pos_bound. lia. Qed.

Lemma bits_split v lo n h l :
  0 ≤ lo → 0 ≤ l < 2 ^ lo → v = h * 2 ^ lo + l → bits v lo n = h mod 2 ^ n.
Proof.
  intros Hlo Hl ->. unfold bits. f_equal.
  rewrite Z.div_add_l by lia. rewrite (Z.div_small l) by done. lia.
Qed.

Lemma table_entry_eq q : table_entry (q * 2 ^ 12) = q * 2 ^ 12 + 3.
Proof.
  unfold table_entry. rewrite <- Z.lor_assoc. change (Z.lor PTE_TABLE PTE_VALID) with 3.
  apply lor_low; lia.
Qed.

Lemma table_entry_bits p :
  p mod 4096 = 0 → 0 ≤ p → p + 4096 ≤ 2 ^ 48 →
  bits (table_entry p) 0 1 = 1 ∧ bits (table_entry p) 1 1 = 1 ∧
  bits (table_entry p) 12 36 * 2 ^ 12 = p.
Proof.
  intros Ha H0 H1. apply Z.mod_divide in Ha as [q ->]; [|done].
  change 4096 with (2 ^ 12) in *. rewrite table_entry_eq. split_and!.
  - rewrite (bits_split _ 0 1 (q * 2 ^ 12 + 3) 0) by lia.
    replace (q * 2 ^ 12 + 3) with (1 + (q * 2 ^ 11 + 1) * 2 ^ 1) by lia. by rewrite Z.mod_add.
  - rewrite (bits_split _ 1 1 (q * 2 ^ 11 + 1) 1) by lia.
    replace (q * 2 ^ 11 + 1) with (1 + q * 2 ^ 10 * 2 ^ 1) by lia. by rewrite Z.mod_add.
  - rewrite (bits_split _ 12 36 q 3) by lia. rewrite Z.mod_small by lia. done.
Qed.

Lemma block_entry_eq k attr :
  attr = PTE_ATTR_NORMAL ∨ attr = PTE_ATTR_DEVICE →
  block_entry (k * 2 ^ 21) attr = k * 2 ^ 21 + (0x701 + attr).
Proof.
  intros Hattr. unfold block_entry. rewrite <- !Z.lor_assoc.
  destruct Hattr as [-> | ->]; (rewrite lor_low; [done|done|by vm_compute]).
Qed.

(** What the walk reads off a block descriptor. *)
Lemma block_entry_bits k attr :
  attr = PTE_ATTR_NORMAL ∨ attr = PTE_ATTR_DEVICE → 0 ≤ k < 2 ^ 27 →
  let d := block_entry (k * 2 ^ 21) attr in
  bits d 0 1 = 1 ∧ bits d 1 1 = 0 ∧ bits d 10 1 = 1 ∧ bits d 2 3 = attr / 4 ∧
  bits d 21 27 * 2 ^ 21 = k * 2 ^ 21.
Proof.
  intros Hattr Hk d. unfold d. rewrite block_entry_eq by done.
  assert (∀ lo n, 0 ≤ lo → 0 ≤ n → lo + n ≤ 21 →
    bits (k * 2 ^ 21 + (0x701 + attr)) lo n = bits (0x701 + attr) lo n) as Hlow.
  { intros lo n Hlo Hn Hs. unfold bits.
    replace (k * 2 ^ 21) with (k * 2 ^ (21 - lo) * 2 ^ lo)
      by (rewrite <- Z.mul_assoc, <- Z.pow_add_r by lia; do 2 f_equal; lia).
    rewrite Z.div_add_l by lia.
    replace (k * 2 ^ (21 - lo)) with (k * 2 ^ (21 - lo - n) * 2 ^ n)
      by (rewrite <- Z.mul_assoc, <- Z.pow_add_r by lia; do 2 f_equal; lia).
    rewrite Z.add_comm. rewrite Z.mod_add by lia. done. }
  rewrite !Hlow by lia. rewrite (bits_split _ 21 27 k (0x701 + attr)) by
    (destruct Hattr as [-> | ->]; vm_compute; intuition done).
  rewrite Z.mod_small by done. by destruct Hattr as [-> | ->].
Qed.

Section init.
Context (a : Addresses) (t : Tables) (Ha : addresses_ok a) (Ht : tables_ok t).

(** The tables after [init]. *)
Let t' : Tables := init_tables a t.

Lemma zero_lookup (p : PageTable) i :
  length p = TABLE_ENTRIES → (i < 512)%nat → PageTable_zero p !! i = Some 0.
Proof.
  intros Hl Hi. unfold PageTable_zero. rewrite list_lookup_fmap.
  destruct (lookup_lt_is_Some_2 p i) as [v ->]; [by rewrite Hl|done].
Qed.

Lemma length_zero p : length p = TABLE_ENTRIES → length (PageTable_zero p) = 512%nat.
Proof. intros Hl. unfold PageTable_zero. by rewrite length_fmap. Qed.

Lemma l0_lookup i :
  0 ≤ i < 512 → L0_TABLE t' !! Z.to_nat i = Some (if i =? 0 then table_entry (l1_addr a) else 0).
Proof.
  intros Hi. simpl. pose proof (length_zero _ (ok_l0 t Ht)).
  destruct (i =? 0) eqn:Hz; [apply Z.eqb_eq in Hz as ->|apply Z.eqb_neq in Hz].
  - apply list_lookup_insert_eq. lia.
  - rewrite list_lookup_insert_ne by lia. apply zero_lookup; [apply Ht|lia].
Qed.

Lemma l1_lookup i :
  0 ≤ i < 512 → L1_TABLE t' !! Z.to_nat i =
    Some (if i =? 0 then table_entry (l2_0_addr a)
          else if i =? 1 then table_entry (l2_1_addr a) else 0).
Proof.
  intros Hi. simpl. pose proof (length_zero _ (ok_l1 t Ht)).
  destruct (i =? 0) eqn:Hz; [apply Z.eqb_eq in Hz as ->|apply Z.eqb_neq in Hz].
  { rewrite list_lookup_insert_ne by lia. apply list_lookup_insert_eq. lia. }
  destruct (i =? 1) eqn:H1; [apply Z.eqb_eq in H1 as ->|apply Z.eqb_neq in H1].
  - apply list_lookup_insert_eq. rewrite length_insert. lia.
  - rewrite !list_lookup_insert_ne by lia. apply zero_lookup; [apply Ht|lia].
Qed.

Lemma l2_0_lookup i :
  0 ≤ i < 512 → L2_TABLE_0 t' !! Z.to_nat i = Some (if i <? 128 then l2_0_entry i else 0).
Proof.
  intros Hi. unfold t', init_tables. cbn [L2_TABLE_0].
  rewrite lookup_fill by (rewrite length_zero by apply Ht; lia).
  destruct (i <? 128) eqn:Hz; [apply Z.ltb_lt in Hz|apply Z.ltb_ge in Hz].
  - rewrite decide_True by lia. do 2 f_equal. lia.
  - rewrite decide_False by lia. apply zero_lookup; [apply Ht|lia].
Qed.

Lemma l2_1_lookup i :
  0 ≤ i < 512 → L2_TABLE_1 t' !! Z.to_nat i = Some (if i <? 192 then l2_1_entry i else 0).
Proof.
  intros Hi. unfold t', init_tables. cbn [L2_TABLE_1].
  rewrite lookup_fill by (rewrite length_zero by apply Ht; lia).
  destruct (i <? 192) eqn:Hz; [apply Z.ltb_lt in Hz|apply Z.ltb_ge in Hz].
  - rewrite decide_True by lia. do 2 f_equal. lia.
  - rewrite decide_False by lia. apply zero_lookup; [apply Ht|lia].
Qed.

(** A read in one table: the others are elsewhere. *)
Lemma read_table_hit base (tb : PageTable) i :
  0 ≤ i < 512 → read_table base tb (base + 8 * i) = tb !! Z.to_nat i.
Proof.
  intros Hi. unfold read_table. rewrite decide_True by lia.
  replace (base + 8 * i - base) with (i * 8) by lia. by rewrite Z.div_mul.
Qed.

Lemma read_table_miss base base' (tb : PageTable) i :
  base mod 4096 = 0 → base' mod 4096 = 0 → base ≠ base' → 0 ≤ i < 512 →
  read_table base tb (base' + 8 * i) = None.
Proof.
  intros Hb Hb' Hne Hi. unfold read_table. rewrite decide_False; [done|]. intros Hin.
  apply Z.mod_divide in Hb as [p ->]; [|done]. apply Z.mod_divide in Hb' as [q ->]; [|done]. lia.
Qed.

Lemma bases :
  (l0_addr a mod 4096 = 0 ∧ 0 ≤ l0_addr a ∧ l0_addr a + 4096 ≤ 2 ^ 48) ∧
  (l1_addr a mod 4096 = 0 ∧ 0 ≤ l1_addr a ∧ l1_addr a + 4096 ≤ 2 ^ 48) ∧
  (l2_0_addr a mod 4096 = 0 ∧ 0 ≤ l2_0_addr a ∧ l2_0_addr a + 4096 ≤ 2 ^ 48) ∧
  (l2_1_addr a mod 4096 = 0 ∧ 0 ≤ l2_1_addr a ∧ l2_1_addr a + 4096 ≤ 2 ^ 48) ∧
  l0_addr a ≠ l1_addr a ∧ l0_addr a ≠ l2_0_addr a ∧ l0_addr a ≠ l2_1_addr a ∧
  l1_addr a ≠ l2_0_addr a ∧ l1_addr a ≠ l2_1_addr a ∧ l2_0_addr a ≠ l2_1_addr a.
Proof.
  destruct Ha as [Hal Hnd]. rewrite !Forall_cons in Hal.
  rewrite !NoDup_cons, !not_elem_of_cons in Hnd. naive_solver.
Qed.

Lemma read_l0 i : 0 ≤ i < 512 →
  read_phys a t' (l0_addr a + 8 * i) = if i =? 0 then table_entry (l1_addr a) else 0.
Proof. intros Hi. unfold read_phys. by rewrite read_table_hit, l0_lookup. Qed.

Lemma read_l1 i : 0 ≤ i < 512 →
  read_phys a t' (l1_addr a + 8 * i) =
    if i =? 0 then table_entry (l2_0_addr a) else if i =? 1 then table_entry (l2_1_addr a) else 0.
Proof.
  intros Hi. pose proof bases. unfold read_phys. rewrite read_table_miss by (done || tauto).
  by rewrite read_table_hit, l1_lookup.
Qed.

Lemma read_l2_0 i : 0 ≤ i < 512 →
  read_phys a t' (l2_0_addr a + 8 * i) = if i <? 128 then l2_0_entry i else 0.
Proof.
  intros Hi. pose proof bases. unfold read_phys. rewrite !read_table_miss by (done || tauto).
  by rewrite read_table_hit, l2_0_lookup.
Qed.

Lemma read_l2_1 i : 0 ≤ i < 512 →
  read_phys a t' (l2_1_addr a + 8 * i) = if i <? 192 then l2_1_entry i else 0.
Proof.
  intros Hi. pose proof bases. unfold read_phys. rewrite !read_table_miss by (done || tauto).
  by rewrite read_table_hit, l2_1_lookup.
Qed.
End init.

(** ** One step of the walk *)
Section steps.
Context (a : Addresses) (t : Tables) (table va : Z) (below : nat).

Let desc : Z := read_phys a t (table + 8 * bits va (12 + 9 * Z.of_nat below) 9).

Lemma walk_invalid : desc = 0 → walk (S below) a t table va = Fault (3 - Z.of_nat below).
Proof. intros Hd. cbn [walk]. fold desc. by rewrite Hd. Qed.

Lemma walk_next :
  (0 < below)%nat → bits desc 0 1 = 1 → bits desc 1 1 = 1 →
  walk (S below) a t table va = walk below a t (bits desc 12 36 * 2 ^ 12) va.
Proof.
  intros Hb Hv Ht. cbn [walk]. fold desc. rewrite Hv, Ht.
  rewrite (proj2 (Z.eqb_neq (3 - Z.of_nat below) 3)) by lia. done.
Qed.

Lemma walk_block :
  (0 < below < 3)%nat → bits desc 0 1 = 1 → bits desc 1 1 = 0 → bits desc 10 1 = 1 →
  let shift := 12 + 9 * Z.of_nat below in
  walk (S below) a t table va =
    Translated (bits desc shift (48 - shift) * 2 ^ shift + bits va 0 shift) (bits desc 2 3).
Proof.
  intros Hb Hv Ht Haf shift. cbn [walk]. fold desc. rewrite Hv, Ht, Haf.
  rewrite (proj2 (Z.eqb_neq (3 - Z.of_nat below) 3)), (proj2 (Z.eqb_neq (3 - Z.of_nat below) 0))
    by lia. done.
Qed.

Lemma walk_reserved :
  below = O → bits desc 0 1 = 1 → bits desc 1 1 = 0 → walk (S below) a t table va = Fault 3.
Proof. intros Hb Hv Ht. cbn [walk]. fold desc. rewrite Hv, Ht. by rewrite Hb. Qed.
End steps.

(** ** What the component promises *)

(** The two regions the comments of [init] announce. *)
Definition identity_region (va : Z) : Prop :=
  0 ≤ va < 0x10000000 ∨ 0x40000000 ≤ va < 0x58000000.

Definition attr_index (va : Z) : Z :=
  if (0x08000000 <=? va) && (va <? 0x10000000) then 1 else 0.

Lemma va_split va : va = bits va 30 9 * 2 ^ 30 + bits va 21 9 * 2 ^ 21 + bits va 0 21 ∨
  ¬ 0 ≤ va < 2 ^ 39.
Proof.
  destruct (decide (0 ≤ va < 2 ^ 39)) as [Hva|]; [left|by right]. unfold bits.
  change (2 ^ 0) with 1. rewrite Z.div_1_r.
  pose proof (Z.div_mod va (2 ^ 21) ltac:(lia)).
  pose proof (Z.div_mod (va / 2 ^ 21) (2 ^ 9) ltac:(lia)).
  rewrite Z.div_div in * by lia. change (2 ^ 21 * 2 ^ 9) with (2 ^ 30) in *.
  rewrite (Z.mod_small (va / 2 ^ 30)); [lia|].
  split; [apply Z.div_pos; lia|]. apply Z.div_lt_upper_bound; lia.
Qed.

Lemma l2_0_entry_eq i : l2_0_entry i = block_entry (i * 2 ^ 21) (device_attr (i * 2 ^ 21)).
Proof. done. Qed.

Lemma l2_1_entry_eq i : l2_1_entry i = block_entry ((512 + i) * 2 ^ 21) PTE_ATTR_NORMAL.
Proof. unfold l2_1_entry, BLOCK_SIZE_2MB. f_equal. lia. Qed.

Lemma device_attr_cases p : device_attr p = PTE_ATTR_NORMAL ∨ device_attr p = PTE_ATTR_DEVICE.
Proof. unfold device_attr. destruct (_ && _); auto. Qed.

Section walks.
Context (a : Addresses) (t : Tables) (Ha : addresses_ok a) (Ht : tables_ok t).

Let t' : Tables := init_tables a t.

Lemma walk_l2_0 va :
  let i := bits va 21 9 in
  walk 2 a t' (l2_0_addr a) va =
    if i <? 128 then Translated (i * 2 ^ 21 + bits va 0 21) (device_attr (i * 2 ^ 21) / 4)
    else Fault 2.
Proof.
  intros i. pose proof (bits_bound va 21 9 ltac:(lia)) as Hi. fold i in Hi.
  pose proof (read_l2_0 a t Ha Ht i Hi) as Hr. fold t' in Hr. destruct (i <? 128) eqn:Hlt.
  - apply Z.ltb_lt in Hlt. rewrite l2_0_entry_eq in Hr.
    destruct (block_entry_bits i (device_attr (i * 2 ^ 21)) (device_attr_cases _)) as (Hv & Hb & Haf & Hat & Hpa);
      [lia|]. rewrite <- Hr in Hv, Hb, Haf, Hat, Hpa.
    rewrite (walk_block a t' (l2_0_addr a) va 1) by (lia || done).
    change (12 + 9 * Z.of_nat 1) with 21. fold i. change (48 - 21) with 27. by rewrite Hpa, Hat.
  - by rewrite (walk_invalid a t' (l2_0_addr a) va 1).
Qed.

Lemma walk_l2_1 va :
  let i := bits va 21 9 in
  walk 2 a t' (l2_1_addr a) va =
    if i <? 192 then Translated ((512 + i) * 2 ^ 21 + bits va 0 21) 0 else Fault 2.
Proof.
  intros i. pose proof (bits_bound va 21 9 ltac:(lia)) as Hi. fold i in Hi.
  pose proof (read_l2_1 a t Ha Ht i Hi) as Hr. fold t' in Hr. destruct (i <? 192) eqn:Hlt.
  - apply Z.ltb_lt in Hlt. rewrite l2_1_entry_eq in Hr.
    destruct (block_entry_bits (512 + i) PTE_ATTR_NORMAL (or_introl eq_refl)) as (Hv & Hb & Haf & Hat & Hpa);
      [lia|]. rewrite <- Hr in Hv, Hb, Haf, Hat, Hpa.
    rewrite (walk_block a t' (l2_1_addr a) va 1) by (lia || done).
    change (12 + 9 * Z.of_nat 1) with 21. fold i. change (48 - 21) with 27. by rewrite Hpa, Hat.
  - by rewrite (walk_invalid a t' (l2_1_addr a) va 1).
Qed.

Lemma walk_l1 va :
  walk 3 a t' (l1_addr a) va =
    if bits va 30 9 =? 0 then walk 2 a t' (l2_0_addr a) va
    else if bits va 30 9 =? 1 then walk 2 a t' (l2_1_addr a) va else Fault 1.
Proof.
  pose proof (bits_bound va 30 9 ltac:(lia)) as Hi.
  pose proof (read_l1 a t Ha Ht _ Hi) as Hr. fold t' in Hr. pose proof (bases a Ha) as Hb.
  destruct (bits va 30 9 =? 0) eqn:H0; [|destruct (bits va 30 9 =? 1) eqn:H1].
  - destruct (table_entry_bits (l2_0_addr a)) as (Hv & Htb & Hn); [tauto..|].
    rewrite <- Hr in Hv, Htb, Hn. rewrite (walk_next a t' (l1_addr a) va 2) by (lia || done).
    change (12 + 9 * Z.of_nat 2) with 30. by rewrite Hn.
  - destruct (table_entry_bits (l2_1_addr a)) as (Hv & Htb & Hn); [tauto..|].
    rewrite <- Hr in Hv, Htb, Hn. rewrite (walk_next a t' (l1_addr a) va 2) by (lia || done).
    change (12 + 9 * Z.of_nat 2) with 30. by rewrite Hn.
  - by rewrite (walk_invalid a t' (l1_addr a) va 2).
Qed.
End walks.

(** C19: the tables [init] builds are the identity map it announces.  Walked from
    level 0, an address below 512 GB translates to itself, as device memory
    exactly in the interrupt controller and UART window, if it lies in one of
    the two announced regions, and faults otherwise. *)
Theorem mmu_tables_identity a t va :
  addresses_ok a → tables_ok t → 0 ≤ va < 2 ^ 39 →
  (identity_region va →
     walk 4 a (init_tables a t) (l0_addr a) va = Translated va (attr_index va)) ∧
  (¬ identity_region va → ∃ level, walk 4 a (init_tables a t) (l0_addr a) va = Fault level).
Proof.
  intros Ha Ht Hva. destruct (va_split va) as [Hsplit|]; [|done].
  pose proof (bits_bound va 30 9 ltac:(lia)) as H1. pose proof (bits_bound va 21 9 ltac:(lia)) as H2.
  pose proof (bits_bound va 0 21 ltac:(lia)) as H3.
  assert (walk 4 a (init_tables a t) (l0_addr a) va = walk 3 a (init_tables a t) (l1_addr a) va) as ->.
  { assert (bits va 39 9 = 0) as H0.
    { unfold bits. by rewrite Z.div_small. }
    assert (read_phys a (init_tables a t) (l0_addr a + 8 * bits va 39 9) = table_entry (l1_addr a))
      as Hr by (rewrite read_l0 by (done || by rewrite H0); by rewrite H0).
    pose proof (bases a Ha).
    destruct (table_entry_bits (l1_addr a)) as (Hv & Htb & Hn); [tauto..|].
    rewrite <- Hr in Hv, Htb, Hn.
    rewrite (walk_next a (init_tables a t) (l0_addr a) va 3) by (lia || done).
    change (12 + 9 * Z.of_nat 3) with 39. by rewrite Hn. }
  rewrite walk_l1 by done. rewrite walk_l2_0, walk_l2_1 by done.
  set (g := bits va 30 9) in *. set (i := bits va 21 9) in *. set (o := bits va 0 21) in *.
  unfold identity_region, attr_index, device_attr.
  destruct (g =? 0) eqn:Hg; [apply Z.eqb_eq in Hg|apply Z.eqb_neq in Hg;
    destruct (g =? 1) eqn:Hg1; [apply Z.eqb_eq in Hg1|apply Z.eqb_neq in Hg1]].
  - rewrite Hg in Hsplit. destruct (i <? 128) eqn:Hi; [apply Z.ltb_lt in Hi|apply Z.ltb_ge in Hi].
    + split; [intros _|lia]. f_equal; [lia|].
      assert ((0x08000000 <=? va) = (0x08000000 <=? i * 2 ^ 21)) as ->.
      { apply eq_true_iff_eq. rewrite !Z.leb_le. lia. }
      assert ((va <? 0x10000000) = (i * 2 ^ 21 <? 0x10000000)) as ->.
      { apply eq_true_iff_eq. rewrite !Z.ltb_lt. lia. }
      by destruct (_ && _).
    + split; [lia|]. intros _. by eexists.
  - rewrite Hg1 in Hsplit. destruct (i <? 192) eqn:Hi; [apply Z.ltb_lt in Hi|apply Z.ltb_ge in Hi].
    + split; [intros _|lia]. f_equal; [lia|].
      by rewrite (proj2 (Z.ltb_ge va 0x10000000)), andb_false_r by lia.
    + split; [lia|]. intros _. by eexists.
  - split; [lia|]. intros _. by eexists.
Qed.

(** The walk two levels short: the level 1 table read as a level 2 table, the
    level 2 tables as level 3 tables. *)
Section short_walk.
Context (a : Addresses) (t : Tables) (Ha : addresses_ok a) (Ht : tables_ok t).

Let t' : Tables := init_tables a t.

Lemma last_level_faults base va d :
  read_phys a t' (base + 8 * bits va 12 9) = d →
  d = 0 ∨ (∃ k attr, (attr = PTE_ATTR_NORMAL ∨ attr = PTE_ATTR_DEVICE) ∧ 0 ≤ k < 2 ^ 27 ∧
    d = block_entry (k * 2 ^ 21) attr) →
  walk 1 a t' base va = Fault 3.
Proof.
  intros Hr [->|(k & attr & Hattr & Hk & ->)].
  - by rewrite (walk_invalid a t' base va 0).
  - destruct (block_entry_bits k attr Hattr Hk) as (Hv & Hb & _). rewrite <- Hr in Hv, Hb.
    by apply walk_reserved.
Qed.

Lemma short_l2_0 va : walk 1 a t' (l2_0_addr a) va = Fault 3.
Proof.
  pose proof (bits_bound va 12 9 ltac:(lia)) as Hi.
  eapply last_level_faults; [by apply read_l2_0|].
  destruct (_ <? 128) eqn:Hlt; [right|by left]. apply Z.ltb_lt in Hlt. rewrite l2_0_entry_eq.
  do 2 eexists. split; [apply device_attr_cases|]. split; [|done]. lia.
Qed.

Lemma short_l2_1 va : walk 1 a t' (l2_1_addr a) va = Fault 3.
Proof.
  pose proof (bits_bound va 12 9 ltac:(lia)) as Hi.
  eapply last_level_faults; [by apply read_l2_1|].
  destruct (_ <? 192) eqn:Hlt; [right|by left]. apply Z.ltb_lt in Hlt. rewrite l2_1_entry_eq.
  do 2 eexists. split; [by left|]. split; [|done]. lia.
Qed.

Lemma short_l1 va : ∃ level, walk 2 a t' (l1_addr a) va = Fault level.
Proof.
  pose proof (bits_bound va 21 9 ltac:(lia)) as Hi. pose proof (bases a Ha).
  pose proof (read_l1 a t Ha Ht _ Hi) as Hr. fold t' in Hr.
  destruct (bits va 21 9 =? 0); [|destruct (bits va 21 9 =? 1)].
  - destruct (table_entry_bits (l2_0_addr a)) as (Hv & Htb & Hn); [tauto..|].
    rewrite <- Hr in Hv, Htb, Hn. rewrite (walk_next a t' (l1_addr a) va 1) by (lia || done).
    change (12 + 9 * Z.of_nat 1) with 21. rewrite Hn, short_l2_0. by eexists.
  - destruct (table_entry_bits (l2_1_addr a)) as (Hv & Htb & Hn); [tauto..|].
    rewrite <- Hr in Hv, Htb, Hn. rewrite (walk_next a t' (l1_addr a) va 1) by (lia || done).
    change (12 + 9 * Z.of_nat 1) with 21. rewrite Hn, short_l2_1. by eexists.
  - rewrite (walk_invalid a t' (l1_addr a) va 1) by done. by eexists.
Qed.

Lemma short_l0 va : ∃ level, walk 3 a t' (l0_addr a) va = Fault level.
Proof.
  pose proof (bits_bound va 30 9 ltac:(lia)) as Hi. pose proof (bases a Ha).
  pose proof (read_l0 a t Ht _ Hi) as Hr. fold t' in Hr.
  destruct (bits va 30 9 =? 0).
  - destruct (table_entry_bits (l1_addr a)) as (Hv & Htb & Hn); [tauto..|].
    rewrite <- Hr in Hv, Htb, Hn. rewrite (walk_next a t' (l0_addr a) va 2) by (lia || done).
    change (12 + 9 * Z.of_nat 2) with 30. rewrite Hn. apply short_l1.
  - rewrite (walk_invalid a t' (l0_addr a) va 2) by done. by eexists.
Qed.
End short_walk.

(** C20: with the registers [init] writes, every address faults, those outside the
    range of TTBR0_EL1 counted as faults.  [T0SZ] = 25
    makes the processor start its walk at level 1, but [TTBR0_EL1] holds the
    level 0 table, so each table is read one level too low and the 2 MB blocks
    end up as reserved level 3 descriptors: the first access after the MMU is
    switched on, the next instruction fetch included, aborts. *)
Theorem mmu_init_faults_everywhere a t sctlr va :
  addresses_ok a → tables_ok t →
  is_enabled (init a t sctlr).2 = true ∧
  ∃ level, translate a (init a t sctlr).1 (init a t sctlr).2 va = Fault level.
Proof.
  intros Ha Ht. split.
  - unfold is_enabled. cbn [init snd sctlr_el1]. apply negb_true_iff, Z.eqb_neq.
    rewrite Z.land_lor_distr_l. change (Z.land (Z.shiftl 1 0) 1) with 1.
    intros Hz%Z.lor_eq_0_iff. lia.
  - unfold translate. cbn [init fst snd tcr_el1 ttbr0_el1]. change (levels tcr) with 3%nat.
    case_decide; [by apply short_l0|]. by eexists.
Qed.

(** ** Concrete tables *)

Definition sample_addresses : Addresses := mkAddresses 0x40100000 0x40101000 0x40102000 0x40103000.
Definition sample_tables : Tables :=
  let t := replicate TABLE_ENTRIES 0 in mkTables t t t t.

Lemma sample_addresses_ok : addresses_ok sample_addresses.
Proof.
  split; [repeat (apply Forall_cons; split; [done|]); apply Forall_nil_2|].
  by apply (bool_decide_unpack _).
Qed.

Lemma sample_tables_ok : tables_ok sample_tables.
Proof. split; apply length_replicate. Qed.

Lemma mmu_tables_identity_witness :
  walk 4 sample_addresses (init_tables sample_addresses sample_tables) 0x40100000 0x09000018 =
    Translated 0x09000018 1.
Proof.
  apply (mmu_tables_identity sample_addresses sample_tables 0x09000018).
  - apply sample_addresses_ok.
  - apply sample_tables_ok.
  - done.
  - unfold identity_region. lia.
Defined.

Lemma mmu_init_faults_everywhere_witness :
  ∃ level, translate sample_addresses (init sample_addresses sample_tables 0).1
    (init sample_addresses sample_tables 0).2 0x40080000 = Fault level.
Proof.
  apply (mmu_init_faults_everywhere sample_addresses sample_tables 0 0x40080000).
  - apply sample_addresses_ok.
  - apply sample_tables_ok.
Defined.
