(* ===== verification/Arm.v ===== *)
(** * The AArch64 context-switch code ([src/src/arch/aarch64/exceptions.S],
    [task.rs])

    The register file, the memory as 64-bit words, and an interpreter for the
    few instructions the exception vectors and [switch_context] are written in;
    the two layouts those routines and the Rust code must agree on. *)
From S2P Require Import Prelude Words.

(** ** The machine *)

(** Registers x0 to x30, the stack pointer in use (SP_EL1), the program counter,
    and the system registers an exception saves.  The SIMD registers, which
    [SAVE_REGS] does not touch, are not part of it. *)
Record Cpu := mkCpu {
  gpr : list Z;
  cpu_sp : Z;
  cpu_pc : Z;
  cpu_sp_el0 : Z;
  cpu_elr : Z;
  cpu_spsr : Z;
  cpu_mem : gmap Z Z
}.

Definition x (c : Cpu) (n : nat) : Z := default 0 (gpr c !! n).
Definition set_x (c : Cpu) (n : nat) (v : Z) : Cpu :=
  mkCpu (<[n := v]> (gpr c)) (cpu_sp c) (cpu_pc c) (cpu_sp_el0 c) (cpu_elr c) (cpu_spsr c)
    (cpu_mem c).
Definition set_sp (c : Cpu) (v : Z) : Cpu :=
  mkCpu (gpr c) v (cpu_pc c) (cpu_sp_el0 c) (cpu_elr c) (cpu_spsr c) (cpu_mem c).
Definition set_pc (c : Cpu) (v : Z) : Cpu :=
  mkCpu (gpr c) (cpu_sp c) v (cpu_sp_el0 c) (cpu_elr c) (cpu_spsr c) (cpu_mem c).
Definition set_mem (c : Cpu) (m : gmap Z Z) : Cpu :=
  mkCpu (gpr c) (cpu_sp c) (cpu_pc c) (cpu_sp_el0 c) (cpu_elr c) (cpu_spsr c) m.

Inductive SysReg := SP_EL0 | ELR_EL1 | SPSR_EL1.
Inductive Base := BaseSp | BaseX (n : nat).

Inductive Instr :=
  | SubSp (n : Z)                            (* sub sp, sp, #n *)
  | AddSp (n : Z)                            (* add sp, sp, #n *)
  | Stp (a b : nat) (base : Base) (off : Z)  (* stp xa, xb, [base, #off] *)
  | Ldp (a b : nat) (base : Base) (off : Z)  (* ldp xa, xb, [base, #off] *)
  | Str (a : nat) (base : Base) (off : Z)    (* str xa, [base, #off] *)
  | Ldr (a : nat) (base : Base) (off : Z)    (* ldr xa, [base, #off] *)
  | Mrs (a : nat) (s : SysReg)               (* mrs xa, s *)
  | Msr (s : SysReg) (a : nat)               (* msr s, xa *)
  | MovFromSp (a : nat)                      (* mov xa, sp *)
  | MovToSp (a : nat)                        (* mov sp, xa *)
  | Adr (a : nat) (label : Z)                (* adr xa, label *)
  | Br (a : nat)                             (* br xa *)
  | Eret.                                    (* eret *)

Definition base_value (c : Cpu) (b : Base) : Z :=
  match b with BaseSp => cpu_sp c | BaseX n => x c n end.

Definition read_sys (c : Cpu) (s : SysReg) : Z :=
  match s with SP_EL0 => cpu_sp_el0 c | ELR_EL1 => cpu_elr c | SPSR_EL1 => cpu_spsr c end.

Definition write_sys (c : Cpu) (s : SysReg) (v : Z) : Cpu :=
  match s with
  | SP_EL0 => mkCpu (gpr c) (cpu_sp c) (cpu_pc c) v (cpu_elr c) (cpu_spsr c) (cpu_mem c)
  | ELR_EL1 => mkCpu (gpr c) (cpu_sp c) (cpu_pc c) (cpu_sp_el0 c) v (cpu_spsr c) (cpu_mem c)
  | SPSR_EL1 => mkCpu (gpr c) (cpu_sp c) (cpu_pc c) (cpu_sp_el0 c) (cpu_elr c) v (cpu_mem c)
  end.

Definition exec_instr (c : Cpu) (i : Instr) : Cpu :=
  match i with
  | SubSp n => set_sp c (addr_add (cpu_sp c) (- n))
  | AddSp n => set_sp c (addr_add (cpu_sp c) n)
  | Stp a b base off =>
      set_mem c (store (store (cpu_mem c) (base_value c base) off (x c a))
                   (base_value c base) (off + 8) (x c b))
  | Ldp a b base off =>
      let va := load (cpu_mem c) (base_value c base) off in
      let vb := load (cpu_mem c) (base_value c base) (off + 8) in
      set_x (set_x c a va) b vb
  | Str a base off => set_mem c (store (cpu_mem c) (base_value c base) off (x c a))
  | Ldr a base off => set_x c a (load (cpu_mem c) (base_value c base) off)
  | Mrs a s => set_x c a (read_sys c s)
  | Msr s a => write_sys c s (x c a)
  | MovFromSp a => set_x c a (cpu_sp c)
  | MovToSp a => set_sp c (x c a)
  | Adr a label => set_x c a label
  | Br a => set_pc c (x c a)
  | Eret => set_pc c (cpu_elr c)
  end.

Definition run (c : Cpu) (code : list Instr) : Cpu := foldl exec_instr c code.

(** ** The exception vectors *)

Definition SAVE_REGS : list Instr :=
  [ SubSp 272;
    Stp 0 1 BaseSp (16 * 0);
    Stp 2 3 BaseSp (16 * 1);
    Stp 4 5 BaseSp (16 * 2);
    Stp 6 7 BaseSp (16 * 3);
    Stp 8 9 BaseSp (16 * 4);
    Stp 10 11 BaseSp (16 * 5);
    Stp 12 13 BaseSp (16 * 6);
    Stp 14 15 BaseSp (16 * 7);
    Stp 16 17 BaseSp (16 * 8);
    Stp 18 19 BaseSp (16 * 9);
    Stp 20 21 BaseSp (16 * 10);
    Stp 22 23 BaseSp (16 * 11);
    Stp 24 25 BaseSp (16 * 12);
    Stp 26 27 BaseSp (16 * 13);
    Stp 28 29 BaseSp (16 * 14);
    Mrs 0 SP_EL0;
    Stp 30 0 BaseSp (16 * 15);
    Mrs 0 ELR_EL1;
    Mrs 1 SPSR_EL1;
    Stp 0 1 BaseSp (16 * 16) ].

Definition RESTORE_REGS : list Instr :=
  [ Ldp 0 1 BaseSp (16 * 16);
    Msr ELR_EL1 0;
    Msr SPSR_EL1 1;
    Ldp 30 0 BaseSp (16 * 15);
    Msr SP_EL0 0;
    Ldp 28 29 BaseSp (16 * 14);
    Ldp 26 27 BaseSp (16 * 13);
    Ldp 24 25 BaseSp (16 * 12);
    Ldp 22 23 BaseSp (16 * 11);
    Ldp 20 21 BaseSp (16 * 10);
    Ldp 18 19 BaseSp (16 * 9);
    Ldp 16 17 BaseSp (16 * 8);
    Ldp 14 15 BaseSp (16 * 7);
    Ldp 12 13 BaseSp (16 * 6);
    Ldp 10 11 BaseSp (16 * 5);
    Ldp 8 9 BaseSp (16 * 4);
    Ldp 6 7 BaseSp (16 * 3);
    Ldp 4 5 BaseSp (16 * 2);
    Ldp 2 3 BaseSp (16 * 1);
    Ldp 0 1 BaseSp (16 * 0);
    AddSp 272 ].

(** ** [struct ExceptionFrame] and [struct TaskContext]

    Both are [repr(C)] records of 34 [u64] fields: x0 to x30 first (the last two
    under the names [x29]/[x29_fp] and [x30_lr]), then three special ones. *)
Record ExceptionFrame := mkExceptionFrame {
  frame_x : list Z;
  frame_sp_el0 : Z;
  frame_elr_el1 : Z;
  frame_spsr_el1 : Z
}.

Record TaskContext := mkTaskContext {
  ctx_x : list Z;
  ctx_sp : Z;
  ctx_pc : Z;
  ctx_pstate : Z
}.

Definition frame_words (f : ExceptionFrame) : list Z :=
  frame_x f ++ [frame_sp_el0 f; frame_elr_el1 f; frame_spsr_el1 f].
Definition context_words (c : TaskContext) : list Z :=
  ctx_x c ++ [ctx_sp c; ctx_pc c; ctx_pstate c].

Definition frame_of_words (ws : list Z) : ExceptionFrame :=
  mkExceptionFrame (take 31 ws) (default 0 (ws !! 31%nat)) (default 0 (ws !! 32%nat))
    (default 0 (ws !! 33%nat)).
Definition read_frame (m : gmap Z Z) (p : Z) : ExceptionFrame := frame_of_words (load_words m p 34).
Definition write_frame (m : gmap Z Z) (p : Z) (f : ExceptionFrame) : gmap Z Z :=
  store_words m p (frame_words f).

(** [TaskContext::new] and [TaskContext::init] *)
Definition TaskContext_new : TaskContext := mkTaskContext (replicate 31 0) 0 0 0.
Definition TaskContext_init (entry_point stack_top : Z) : TaskContext :=
  let ctx := TaskContext_new in
  mkTaskContext (ctx_x ctx) stack_top entry_point 0x5.

(** [task_entry_wrapper], which nothing calls: the processor, and the IRQ mask bit
    that it clears before it goes to the function it is given. *)
Definition task_entry_wrapper (c : Cpu) (irq_masked : bool) : Cpu * bool :=
  let irq_masked := false in
  let task_fn := x c 0 in
  (set_pc c task_fn, irq_masked).

Definition get_sp (c : Cpu) : Z := cpu_sp c.
Definition get_pc (c : Cpu) : Z := cpu_pc c.

(** ** [switch_context]

    The naked function of [task.rs], up to its [br]; [ret_label] is the address
    of the label [1:]. *)
Definition switch_context_code (ret_label : Z) : list Instr :=
  [ Stp 19 20 (BaseX 0) 0;
    Stp 21 22 (BaseX 0) 16;
    Stp 23 24 (BaseX 0) 32;
    Stp 25 26 (BaseX 0) 48;
    Stp 27 28 (BaseX 0) 64;
    Stp 29 30 (BaseX 0) 80;
    MovFromSp 9;
    Str 9 (BaseX 0) 96;
    Adr 9 ret_label;
    Str 9 (BaseX 0) 104;
    Mrs 9 SPSR_EL1;
    Str 9 (BaseX 0) 112;
    Ldp 19 20 (BaseX 1) 0;
    Ldp 21 22 (BaseX 1) 16;
    Ldp 23 24 (BaseX 1) 32;
    Ldp 25 26 (BaseX 1) 48;
    Ldp 27 28 (BaseX 1) 64;
    Ldp 29 30 (BaseX 1) 80;
    Ldr 9 (BaseX 1) 96;
    MovToSp 9;
    Ldr 9 (BaseX 1) 104;
    Br 9 ].

Definition switch_context (ret_label : Z) (c : Cpu) (current next : Z) : Cpu :=
  run (set_x (set_x c 0 current) 1 next) (switch_context_code ret_label).

(** ** Frames in memory *)

Lemma read_write_frame m p f :
  length (frame_x f) = 31%nat → read_frame (write_frame m p f) p = f.
Proof.
  intros Hlen. unfold read_frame, write_frame.
  assert (length (frame_words f) = 34%nat) as H34.
  { unfold frame_words. rewrite length_app, Hlen. done. }
  pose proof (load_words_store m p (frame_words f)) as Hl. rewrite H34 in Hl.
  change (Z.of_nat 34) with 34 in Hl. rewrite Hl by done. unfold frame_of_words, frame_words. destruct f as [xs s e p']. simpl in *.
  rewrite take_app_length' by done. rewrite !lookup_app_r by lia. rewrite Hlen. done.
Qed.

(** ** The exception path *)

(** What the interrupted code had in its registers. *)
Definition interrupted (c : Cpu) : ExceptionFrame :=
  mkExceptionFrame (gpr c) (cpu_sp_el0 c) (cpu_elr c) (cpu_spsr c).

Lemma list_31 (l : list Z) :
  length l = 31%nat → ∃ f : nat → Z, l = f <$> seq 0 31.
Proof.
  intros Hl. exists (λ n, default 0 (l !! n)). apply list_eq. intros i. rewrite list_lookup_fmap.
  destruct (decide (i < 31)%nat).
  - rewrite lookup_seq_lt by done. simpl.
    destruct (lookup_lt_is_Some_2 l i) as [v ->]; [lia|done].
  - rewrite lookup_seq_ge by lia. apply lookup_ge_None. lia.
Qed.

Ltac run_code := cbv -[addr_add store load].

Lemma save_regs_run c :
  length (gpr c) = 31%nat →
  cpu_sp (run c SAVE_REGS) = addr_add (cpu_sp c) (-272) ∧
  cpu_mem (run c SAVE_REGS) =
    write_frame (cpu_mem c) (addr_add (cpu_sp c) (-272)) (interrupted c) ∧
  length (gpr (run c SAVE_REGS)) = 31%nat.
Proof.
  destruct c as [g sp pc sp0 elr spsr m]. cbn [gpr]. intros [f ->]%list_31.
  split_and!; run_code; reflexivity.
Qed.

Lemma restore_regs_run c :
  length (gpr c) = 31%nat →
  run c RESTORE_REGS =
    let f := read_frame (cpu_mem c) (cpu_sp c) in
    mkCpu (frame_x f) (addr_add (cpu_sp c) 272) (cpu_pc c) (frame_sp_el0 f) (frame_elr_el1 f)
      (frame_spsr_el1 f) (cpu_mem c).
Proof.
  destruct c as [g sp pc sp0 elr spsr m]. cbn [gpr]. intros [f ->]%list_31.
  run_code. reflexivity.
Qed.

Lemma run_app c l1 l2 : run c (l1 ++ l2) = run (run c l1) l2.
Proof. apply foldl_app. Qed.

Lemma run_one c i : run c [i] = exec_instr c i.
Proof. done. Qed.

(** From here on the interpreter is used through its equations. *)
#[global] Strategy 1000 [run read_frame write_frame store load wrap].

(** Two records of 34 words that do not overlap. *)
Definition disjoint_records (p n : Z) : Prop :=
  ∀ i j, 0 ≤ i < 272 → 0 ≤ j < 272 → addr_add n j ≠ addr_add p i.

Lemma read_saved_frame c :
  length (gpr c) = 31%nat →
  read_frame (cpu_mem (run c SAVE_REGS)) (cpu_sp (run c SAVE_REGS)) = interrupted c.
Proof.
  intros Hl. destruct (save_regs_run c Hl) as (-> & -> & _). by apply read_write_frame.
Qed.

Lemma restore_from c f :
  length (gpr c) = 31%nat → read_frame (cpu_mem c) (cpu_sp c) = f →
  run c RESTORE_REGS = mkCpu (frame_x f) (addr_add (cpu_sp c) 272) (cpu_pc c) (frame_sp_el0 f)
    (frame_elr_el1 f) (frame_spsr_el1 f) (cpu_mem c).
Proof. intros Hl <-. by apply restore_regs_run. Qed.

(** The exception frame is exactly the interrupted state.  [SAVE_REGS] puts
    x0 to x30, SP_EL0, ELR_EL1 and SPSR_EL1 where [ExceptionFrame] has its
    fields, 272 bytes below the interrupted stack pointer, and touches no word
    that does not overlap them; whatever happens in between, [RESTORE_REGS] from an intact frame
    brings every register back. *)
Theorem exception_frame_roundtrip c c' :
  length (gpr c) = 31%nat → in_u 64 (cpu_sp c) → length (gpr c') = 31%nat →
  let saved := run c SAVE_REGS in
  cpu_sp c' = cpu_sp saved →
  load_words (cpu_mem c') (cpu_sp c') 34 = load_words (cpu_mem saved) (cpu_sp saved) 34 →
  read_frame (cpu_mem saved) (cpu_sp saved) = interrupted c ∧
  run c' RESTORE_REGS =
    mkCpu (gpr c) (cpu_sp c) (cpu_pc c') (cpu_sp_el0 c) (cpu_elr c) (cpu_spsr c) (cpu_mem c') ∧
  (∀ a, in_u 64 a → (∀ i, -8 < i < 272 → a ≠ addr_add (cpu_sp c) (-272 + i)) →
     load (cpu_mem saved) a 0 = load (cpu_mem c) a 0).
Proof.
  intros Hl Hsp Hl' saved Hsp' Hmem.
  destruct (save_regs_run c Hl) as (Hs & Hm & _). fold saved in Hs, Hm.
  pose proof (read_saved_frame c Hl) as Hread. fold saved in Hread. split_and!; [done| |].
  - rewrite (restore_from c' (interrupted c)); [|done|unfold read_frame; by rewrite Hmem].
    simpl. f_equal. rewrite Hsp', Hs, addr_add_add. by apply addr_add_0.
  - intros a Ha Hout. rewrite Hm. unfold write_frame, store_words.
    apply load_store_words_frame. intros k Hk. rewrite addr_add_0, addr_add_add by done.
    apply Hout. unfold frame_words, interrupted in Hk. simpl in Hk.
    rewrite length_app, Hl in Hk. simpl in Hk. lia.
Qed.

(** The naked [switch_context] disagrees with the layout of [TaskContext].
    Its offsets 96 and 104 are those of x12 and x13, so switching to a context
    jumps to the address saved for x13 with the stack pointer saved for x12; a
    task fresh from [TaskContext::init] is entered at address 0, with stack
    pointer 0, instead of at its entry point. *)
Theorem switch_context_layout ret_label c current next ctx :
  length (gpr c) = 31%nat → length (ctx_x ctx) = 31%nat → disjoint_records current next →
  load_words (cpu_mem c) next 34 = context_words ctx →
  let c' := switch_context ret_label c current next in
  ctx_x ctx !! 13%nat = Some (cpu_pc c') ∧ ctx_x ctx !! 12%nat = Some (cpu_sp c') ∧
  (∀ entry_point stack_top, ctx = TaskContext_init entry_point stack_top →
     cpu_pc c' = 0 ∧ cpu_sp c' = 0).
Proof.
  intros Hl Hlx Hd Hwords c'.
  assert (∀ k, 0 ≤ k < 31 → ctx_x ctx !! Z.to_nat k = Some (load (cpu_mem c) next (8 * k))) as Hk.
  { intros k Hk. rewrite <- (load_words_lookup _ _ 34) by lia. rewrite Hwords.
    unfold context_words. by rewrite lookup_app_l by lia. }
  pose proof (Hk 12) as H12. pose proof (Hk 13) as H13.
  assert (cpu_pc c' = load (cpu_mem c) next 104 ∧ cpu_sp c' = load (cpu_mem c) next 96) as [Hpc Hsp].
  { unfold c', switch_context. clear -Hl Hd. destruct c as [g sp pc sp0 elr spsr m].
    cbn [gpr] in Hl. apply list_31 in Hl as [f ->]. run_code.
    split; rewrite !load_store_other; try reflexivity; apply Hd; lia. }
  rewrite Hpc, Hsp. split_and!; [apply H13; lia|apply H12; lia|].
  intros e t ->. specialize (H12 ltac:(lia)). specialize (H13 ltac:(lia)).
  change (ctx_x (TaskContext_init e t) !! Z.to_nat 12) with (Some 0) in H12.
  change (ctx_x (TaskContext_init e t) !! Z.to_nat 13) with (Some 0) in H13.
  injection H12 as H12. injection H13 as H13. split; symmetry; [exact H13|exact H12].
Qed.

(** ** A concrete processor *)

Definition sample_cpu : Cpu :=
  mkCpu (Z.of_nat <$> seq 100 31) 0x40200000 0x40080000 7 0x40090000 0x3c5 ∅.

Lemma exception_frame_roundtrip_witness :
  run (run sample_cpu SAVE_REGS) RESTORE_REGS =
    mkCpu (gpr sample_cpu) 0x40200000 0x40080000 7 0x40090000 0x3c5
      (cpu_mem (run sample_cpu SAVE_REGS)).
Proof.
  apply (exception_frame_roundtrip sample_cpu (run sample_cpu SAVE_REGS)).
  - reflexivity.
  - done.
  - vm_compute. reflexivity.
  - reflexivity.
  - reflexivity.
Defined.

Definition layout_cpu : Cpu :=
  mkCpu (replicate 31 0) 0x40200000 0x40080000 0 0 0
    (store_words ∅ 0x2000 (context_words (TaskContext_init 0x40090000 0x40300000))).

Lemma switch_context_layout_witness :
  cpu_pc (switch_context 0x40081000 layout_cpu 0x1000 0x2000) = 0.
Proof.
  destruct (switch_context_layout 0x40081000 layout_cpu 0x1000 0x2000
    (TaskContext_init 0x40090000 0x40300000)) as (_ & _ & Hfresh).
  - reflexivity.
  - reflexivity.
  - intros i j Hi Hj. unfold addr_add, wrap. rewrite !Z.mod_small by lia. lia.
  - vm_compute. reflexivity.
  - apply (Hfresh 0x40090000 0x40300000 eq_refl).
Defined.
