(* ===== verification/ArmBoot.v ===== *)
(** * The AArch64 start-up code ([src/src/arch/aarch64/boot.S], [linker.ld])

    The code runs from the reset entry [_start], at whatever exception level the
    firmware left the core, to the call of [kernel_main] at EL1.  The model is an
    interpreter for its instructions, with the architecture's rules for [eret] and
    for stores while the MMU is off, over the listing with its labels. *)
From S2P Require Import Prelude Words.

(** ** The memory layout of [linker.ld] *)

(** The sizes of the input sections the script gathers. *)
Record Inputs := mkInputs {
  boot_size : Z; vectors_size : Z; text_size : Z; rodata_size : Z; data_size : Z; bss_size : Z
}.

Definition RAM_ORIGIN : Z := 0x40080000.
Definition RAM_LENGTH : Z := 128 * 1024 * 1024.

(** Start and end of each output section, in the order of the script. *)
Record Layout := mkLayout {
  text_boot : Z * Z; vectors : Z * Z; text : Z * Z; rodata : Z * Z; data : Z * Z;
  bss : Z * Z; stack : Z * Z
}.

Definition link (i : Inputs) : Layout :=
  let boot_end := RAM_ORIGIN + boot_size i in
  let vectors_start := align_up boot_end 4096 in
  let vectors_end := vectors_start + vectors_size i in
  let text_start := align_up vectors_end 2048 in
  let text_end := text_start + text_size i in
  let rodata_start := align_up text_end 4096 in
  let rodata_end := align_up (rodata_start + rodata_size i) (16 * 1024) in
  let data_start := align_up rodata_end 4096 in
  let data_end := data_start + data_size i in
  let bss_start := align_up data_end 4096 in
  let bss_end := bss_start + bss_size i in
  let stack_start := align_up bss_end 16 in
  mkLayout (RAM_ORIGIN, boot_end) (vectors_start, vectors_end) (text_start, text_end)
    (rodata_start, rodata_end) (data_start, data_end) (bss_start, bss_end)
    (stack_start, stack_start + 64 * 1024).

(** The symbols [boot.S] takes from the script. *)
Inductive Symbol := stack_top_sym | bss_start_sym | bss_end_sym.
Definition symbol (l : Layout) (s : Symbol) : Z :=
  match s with
  | stack_top_sym => (stack l).2
  | bss_start_sym => (bss l).1
  | bss_end_sym => (bss l).2
  end.

(** ** The machine *)
Inductive Reg := X0 | X1 | X19.
Inductive Sys := HCR_EL2 | CPTR_EL3 | SCR_EL3 | ELR_EL3 | SPSR_EL3 | ELR_EL2 | SPSR_EL2.
#[global] Instance Reg_eq_dec : EqDecision Reg.
Proof. solve_decision. Defined.
#[global] Instance Sys_eq_dec : EqDecision Sys.
Proof. solve_decision. Defined.

Inductive Label := _start | from_el3 | from_el2 | at_el1 | clear_bss | bss_done | halt.
#[global] Instance Label_eq_dec : EqDecision Label.
Proof. solve_decision. Defined.

Inductive BootInstr :=
  | Lbl (l : Label)
  | MovR (d s : Reg)             (* mov d, s *)
  | MovI (d : Reg) (v : Z)       (* mov d, #v *)
  | MrsCurrentEL (d : Reg)       (* mrs d, CurrentEL *)
  | Lsr (d s : Reg) (n : Z)      (* lsr d, s, #n *)
  | AndI (d s : Reg) (v : Z)     (* and d, s, #v *)
  | CmpI (r : Reg) (v : Z)       (* cmp r, #v *)
  | CmpR (a b : Reg)             (* cmp a, b *)
  | BEq (l : Label)              (* b.eq l *)
  | BGe (l : Label)              (* b.ge l *)
  | B (l : Label)                (* b l *)
  | Msr (s : Sys) (r : Reg)      (* msr s, r *)
  | Adr (d : Reg) (l : Label)    (* adr d, l *)
  | Adrp (d : Reg) (s : Symbol)  (* adrp d, s *)
  | AddLo12 (d a : Reg) (s : Symbol)  (* add d, a, :lo12:s *)
  | MovSp (r : Reg)              (* mov sp, r *)
  | StrXzrPost (r : Reg) (n : Z) (* str xzr, [r], #n *)
  | Eret
  | BlKernelMain                 (* bl kernel_main *)
  | Wfe.

(** Memory is bytes; code addresses are positions in the listing; [cmp] keeps its
    operands; [daif] and [sp_el] are the mask bits and stack selection of PSTATE. *)
Record BootCpu := mkBootCpu {
  el : Z;
  daif : Z;
  sp_el : Z;
  reg : Reg → Z;
  sys : Sys → Z;
  cmp : Z * Z;
  sp : Z;
  pc : Z;
  mem : Z → Z
}.

Definition set_reg (c : BootCpu) (r : Reg) (v : Z) : BootCpu :=
  mkBootCpu (el c) (daif c) (sp_el c) (λ r', if decide (r' = r) then v else reg c r') (sys c) (cmp c)
    (sp c) (pc c) (mem c).
Definition set_sys (c : BootCpu) (s : Sys) (v : Z) : BootCpu :=
  mkBootCpu (el c) (daif c) (sp_el c) (reg c) (λ s', if decide (s' = s) then v else sys c s') (cmp c)
    (sp c) (pc c) (mem c).
Definition set_cmp (c : BootCpu) (ab : Z * Z) : BootCpu :=
  mkBootCpu (el c) (daif c) (sp_el c) (reg c) (sys c) ab (sp c) (pc c) (mem c).
Definition set_sp (c : BootCpu) (v : Z) : BootCpu :=
  mkBootCpu (el c) (daif c) (sp_el c) (reg c) (sys c) (cmp c) v (pc c) (mem c).
Definition set_pc (c : BootCpu) (v : Z) : BootCpu :=
  mkBootCpu (el c) (daif c) (sp_el c) (reg c) (sys c) (cmp c) (sp c) v (mem c).
Definition set_mem (c : BootCpu) (m : Z → Z) : BootCpu :=
  mkBootCpu (el c) (daif c) (sp_el c) (reg c) (sys c) (cmp c) (sp c) (pc c) m.

Inductive BootStep :=
  | Running (c : BootCpu)
  | Kernel (c : BootCpu)    (* kernel_main is called *)
  | Fault (c : BootCpu)     (* illegal exception return or unaligned device store *)
  | Asleep (c : BootCpu).

Definition signed64 (z : Z) : Z := if decide (z < 2 ^ 63) then z else z - 2 ^ 64.

(** Eight zero bytes at [a]. *)
Definition zero8 (m : Z → Z) (a : Z) : Z → Z :=
  λ b, if decide (a ≤ b < a + 8) then 0 else m b.

(** [eret] from EL2 and EL3: the saved state selects the level and the stack
    pointer; the return is illegal unless the target is a lower AArch64 level that
    the registers of the current level allow. *)
Definition eret (c : BootCpu) : BootStep :=
  let go spsr elr allowed :=
    let target := Z.land (Z.shiftr spsr 2) 3 in
    if bool_decide (target < el c ∧ Z.testbit spsr 4 = false ∧ allowed target = true) then
      Running (mkBootCpu target (Z.land (Z.shiftr spsr 6) 15) (Z.land spsr 1) (reg c) (sys c) (cmp c)
                 (sp c) elr (mem c))
    else Fault c in
  if decide (el c = 3) then
    go (sys c SPSR_EL3) (sys c ELR_EL3)
      (λ _, Z.testbit (sys c SCR_EL3) 0 && Z.testbit (sys c SCR_EL3) 10)
  else if decide (el c = 2) then
    go (sys c SPSR_EL2) (sys c ELR_EL2)
      (λ target, bool_decide (target = 1) && Z.testbit (sys c HCR_EL2) 31)
  else Fault c.

(** The two halves of an address that [adrp] and [:lo12:] give. *)
Definition page (a : Z) : Z := Z.ldiff a 0xFFF.
Definition lo12 (a : Z) : Z := Z.land a 0xFFF.

Section boot.
Context (layout : Layout).

(** ** [boot.S] *)
Definition boot_code : list BootInstr :=
  [ Lbl _start;
    MovR X19 X0;
    MrsCurrentEL X0;
    Lsr X0 X0 2;
    AndI X0 X0 3;
    CmpI X0 3;
    BEq from_el3;
    CmpI X0 2;
    BEq from_el2;
    B at_el1;
    Lbl from_el3;
    MovI X0 (Z.shiftl 1 31);
    Msr HCR_EL2 X0;
    MovI X0 0;
    Msr CPTR_EL3 X0;
    MovI X0 0x401;
    Msr SCR_EL3 X0;
    Adr X0 from_el2;
    Msr ELR_EL3 X0;
    MovI X0 0x3c9;
    Msr SPSR_EL3 X0;
    Eret;
    Lbl from_el2;
    MovI X0 (Z.shiftl 1 31);
    Msr HCR_EL2 X0;
    Adr X0 at_el1;
    Msr ELR_EL2 X0;
    MovI X0 0x3c5;
    Msr SPSR_EL2 X0;
    Eret;
    Lbl at_el1;
    Adrp X0 stack_top_sym;
    AddLo12 X0 X0 stack_top_sym;
    MovSp X0;
    Adrp X0 bss_start_sym;
    AddLo12 X0 X0 bss_start_sym;
    Adrp X1 bss_end_sym;
    AddLo12 X1 X1 bss_end_sym;
    Lbl clear_bss;
    CmpR X0 X1;
    BGe bss_done;
    StrXzrPost X0 8;
    B clear_bss;
    Lbl bss_done;
    MovR X0 X19;
    BlKernelMain;
    Lbl halt;
    Wfe;
    B halt ].

Definition is_label (l : Label) (i : BootInstr) : bool :=
  match i with Lbl l' => bool_decide (l' = l) | _ => false end.
Definition address (l : Label) : Z :=
  Z.of_nat (default O (position (is_label l) boot_code)).

Definition exec_boot (c : BootCpu) (i : BootInstr) : BootStep :=
  let jump l := Running (set_pc c (address l)) in
  let next c := Running (set_pc c (pc c + 1)) in
  match i with
  | Lbl _ => next c
  | MovR d s => next (set_reg c d (reg c s))
  | MovI d v => next (set_reg c d v)
  | MrsCurrentEL d => next (set_reg c d (Z.shiftl (el c) 2))
  | Lsr d s n => next (set_reg c d (Z.shiftr (reg c s) n))
  | AndI d s v => next (set_reg c d (Z.land (reg c s) v))
  | CmpI r v => next (set_cmp c (reg c r, v))
  | CmpR a b => next (set_cmp c (reg c a, reg c b))
  | BEq l => if decide ((cmp c).1 = (cmp c).2) then jump l else next c
  | BGe l => if decide (signed64 (cmp c).2 ≤ signed64 (cmp c).1) then jump l else next c
  | B l => jump l
  | Msr s r => next (set_sys c s (reg c r))
  | Adr d l => next (set_reg c d (address l))
  | Adrp d s => next (set_reg c d (page (symbol layout s)))
  | AddLo12 d a s => next (set_reg c d (wrap 64 (reg c a + lo12 (symbol layout s))))
  | MovSp r => next (set_sp c (reg c r))
  | StrXzrPost r n =>
      if decide (reg c r mod 8 = 0) then
        next (set_reg (set_mem c (zero8 (mem c) (reg c r))) r (wrap 64 (reg c r + n)))
      else Fault c
  | Eret => eret c
  | BlKernelMain => Kernel c
  | Wfe => Asleep c
  end.

Definition step (c : BootCpu) : BootStep :=
  match boot_code !! Z.to_nat (pc c) with
  | Some i => exec_boot c i
  | None => Fault c
  end.

(** [Running] means that [n] steps were not enough. *)
Fixpoint run (n : nat) (c : BootCpu) : BootStep :=
  match n with
  | O => Running c
  | S n => match step c with Running c => run n c | r => r end
  end.
End boot.

(** The core at the reset entry: the device tree pointer is in x0. *)
Definition reset_state (level daif0 dtb_ptr : Z) (m : Z → Z) : BootCpu :=
  mkBootCpu level daif0 1 (λ r, if decide (r = X0) then dtb_ptr else 0) (λ _, 0) (0, 0) 0 0 m.

(** ** Addresses *)

Lemma page_lo12 a : page a + lo12 a = a.
Proof.
  unfold page, lo12. rewrite <- Z.add_lor_land, Z.lor_ldiff_and.
  replace (Z.land _ _) with 0; [lia|]. symmetry. apply Z.bits_inj'. intros n Hn.
  rewrite Z.bits_0, !Z.land_spec, Z.ldiff_spec. by destruct (Z.testbit a n), (Z.testbit 0xFFF n).
Qed.

(** ** Running the listing *)

Lemma run_add layout n m c :
  run layout (n + m) c = match run layout n c with Running c' => run layout m c' | r => r end.
Proof.
  revert c. induction n as [|n IH]; intros c; simpl; [done|]. by destruct (step layout c).
Qed.

Section proofs.
Context (layout : Layout).

(** Executes a known number of steps from a known position. *)
Ltac run_boot := cbv -[page lo12 wrap symbol signed64 zero8].

(** From reset to the loop, on each of the three paths. *)
Lemma boot_prefix level daif0 dtb m :
  level = 1 ∨ level = 2 ∨ level = 3 →
  ∃ n c, run layout n (reset_state level daif0 dtb m) = Running c ∧
    pc c = address clear_bss ∧ el c = 1 ∧ sp_el c = 1 ∧
    daif c = (if decide (level = 1) then daif0 else 15) ∧
    sp c = wrap 64 (page (symbol layout stack_top_sym) + lo12 (symbol layout stack_top_sym)) ∧
    reg c X0 = wrap 64 (page (symbol layout bss_start_sym) + lo12 (symbol layout bss_start_sym)) ∧
    reg c X1 = wrap 64 (page (symbol layout bss_end_sym) + lo12 (symbol layout bss_end_sym)) ∧
    reg c X19 = dtb ∧ mem c = m.
Proof.
  intros [-> | [-> | ->]].
  - exists 18%nat. eexists. split; [run_boot; reflexivity|]. run_boot. done.
  - exists 25%nat. eexists. split; [run_boot; reflexivity|]. run_boot. done.
  - exists 35%nat. eexists. split; [run_boot; reflexivity|]. run_boot. done.
Qed.

(** Executes the instruction at the (known) program counter. *)
Lemma step_at c i : boot_code !! Z.to_nat (pc c) = Some i → step layout c = exec_boot layout c i.
Proof. unfold step. by intros ->. Qed.
Ltac boot_step := cbn [run]; erewrite step_at; [|reflexivity]; cbn [exec_boot].

Definition cleared_to (m : Z → Z) (a b : Z) : Z → Z := λ i, if decide (a ≤ i < b) then 0 else m i.

(** What stays the same in the loop. *)
Definition same_frame (c c' : BootCpu) : Prop :=
  el c' = el c ∧ sp_el c' = sp_el c ∧ daif c' = daif c ∧ sp c' = sp c ∧ reg c' X19 = reg c X19.

Lemma clear_exit c :
  pc c = address clear_bss → 0 ≤ reg c X1 ≤ reg c X0 → reg c X0 < 2 ^ 63 →
  run layout 3 c = Running (set_pc (set_cmp (set_pc c (pc c + 1)) (reg c X0, reg c X1))
                              (address bss_done)).
Proof.
  destruct c as [? ? ? creg ? ? ? cpc ?]. simpl. intros -> H1 H0.
  boot_step. boot_step. boot_step. simpl. unfold signed64.
  rewrite !(decide_True (P := _ < 2 ^ 63)) by lia. by rewrite decide_True by lia.
Qed.

Lemma clear_iteration c :
  pc c = address clear_bss → reg c X0 mod 8 = 0 → 0 ≤ reg c X0 < reg c X1 → reg c X1 < 2 ^ 63 →
  ∃ c', run layout 5 c = Running c' ∧ pc c' = address clear_bss ∧ same_frame c c' ∧
    reg c' X0 = reg c X0 + 8 ∧ reg c' X1 = reg c X1 ∧ mem c' = zero8 (mem c) (reg c X0).
Proof.
  destruct c as [? ? ? creg ? ? ? cpc ?]. simpl. intros -> H8 H0 H1.
  eexists. split.
  - boot_step. boot_step. boot_step. simpl. unfold signed64.
    rewrite !(decide_True (P := _ < 2 ^ 63)) by lia. rewrite decide_False by lia.
    boot_step. simpl. rewrite decide_True by done. boot_step. reflexivity.
  - simpl. split_and!; try done. unfold wrap. apply Z.mod_small. lia.
Qed.

(** The loop clears the bytes up to the first multiple of eight past the end. *)
Lemma clear_loop k c :
  pc c = address clear_bss → reg c X0 mod 8 = 0 → 0 ≤ reg c X0 → 0 ≤ reg c X1 →
  reg c X1 ≤ reg c X0 + 8 * Z.of_nat k < reg c X1 + 8 → reg c X0 + 8 * Z.of_nat k < 2 ^ 63 →
  ∃ c', run layout (5 * k + 3) c = Running c' ∧ pc c' = address bss_done ∧ same_frame c c' ∧
    ∀ i, mem c' i = cleared_to (mem c) (reg c X0) (reg c X0 + 8 * Z.of_nat k) i.
Proof.
  revert c. induction k as [|k IH]; intros c Hpc H8 H0 H1 Hk Hfit.
  - eexists. split; [apply clear_exit; [done|lia..]|]. split_and!; try done.
    intros i. unfold cleared_to. by rewrite decide_False by lia.
  - destruct (clear_iteration c) as (c1 & Hrun & Hpc1 & Hsame & Hx0 & Hx1 & Hm); [done..|lia|lia|].
    destruct (IH c1) as (c' & Hrun' & Hpc' & Hsame' & Hm'); [done| |lia..|].
    { rewrite Hx0, Z.add_mod, H8 by lia. done. }
    exists c'. split_and!; [|done| |].
    + replace (5 * S k + 3)%nat with (5 + (5 * k + 3))%nat by lia. by rewrite run_add, Hrun.
    + unfold same_frame in *. intuition congruence.
    + intros i. rewrite Hm'. unfold cleared_to. rewrite Hx0, Hm. unfold zero8.
      repeat case_decide; try done; lia.
Qed.

(** The call of [kernel_main]. *)
Lemma boot_suffix c :
  pc c = address bss_done →
  ∃ c', run layout 3 c = Kernel c' ∧ el c' = el c ∧ sp_el c' = sp_el c ∧ daif c' = daif c ∧
    sp c' = sp c ∧ reg c' X0 = reg c X19 ∧ mem c' = mem c.
Proof.
  destruct c as [? ? ? creg ? ? ? cpc ?]. simpl. intros ->. eexists.
  split; [boot_step; boot_step; boot_step; reflexivity|]. done.
Qed.
End proofs.

(** The number of words the loop clears. *)
Lemma clear_span a b :
  a ≤ b → a mod 8 = 0 →
  b ≤ a + 8 * Z.of_nat (Z.to_nat ((align_up b 8 - a) / 8)) < b + 8 ∧
  a + 8 * Z.of_nat (Z.to_nat ((align_up b 8 - a) / 8)) = align_up b 8.
Proof.
  intros Hab Ha. destruct (align_up_spec b 8) as [Hb Hb8]; [lia|].
  assert ((align_up b 8 - a) mod 8 = 0) as Hd by (by rewrite Zminus_mod, Ha, Hb8).
  apply Z.div_exact in Hd; [|lia]. rewrite Z2Nat.id by (apply Z.div_pos; lia). lia.
Qed.

Lemma symbol_value a : 0 ≤ a < 2 ^ 63 → wrap 64 (page a + lo12 a) = a.
Proof. intros. rewrite page_lo12. apply Z.mod_small. lia. Qed.

(** The whole run, for symbols in range. *)
Lemma boot_run l level daif0 dtb_ptr m :
  level = 1 ∨ level = 2 ∨ level = 3 →
  0 ≤ (bss l).1 ≤ (bss l).2 → (bss l).1 mod 8 = 0 → align_up (bss l).2 8 < 2 ^ 63 →
  0 ≤ (stack l).2 < 2 ^ 63 →
  ∃ n c, run l n (reset_state level daif0 dtb_ptr m) = Kernel c ∧
    el c = 1 ∧ sp_el c = 1 ∧ daif c = (if decide (level = 1) then daif0 else 15) ∧
    reg c X0 = dtb_ptr ∧ sp c = (stack l).2 ∧
    ∀ a, mem c a = cleared_to m (bss l).1 (align_up (bss l).2 8) a.
Proof.
  intros Hlevel Hb Hb8 Hfit Hst. pose proof (align_up_spec (bss l).2 8 ltac:(lia)) as [Hup _].
  destruct (boot_prefix l level daif0 dtb_ptr m Hlevel)
    as (n & c & Hrun & Hpc & Hel & Hspel & Hdaif & Hsp & Hx0 & Hx1 & Hx19 & Hm).
  rewrite symbol_value in Hsp, Hx0, Hx1 by (cbn [symbol]; lia). cbn [symbol] in *.
  destruct (clear_span (bss l).1 (bss l).2) as (Hk & Hk8); [lia..|].
  set (k := Z.to_nat _) in *. clearbody k. rewrite <- Hk8. rewrite <- Hk8 in Hfit. clear Hk8 Hup.
  destruct (clear_loop l k c) as (c1 & Hrun1 & Hpc1 & (E1 & E2 & E3 & E4 & E5) & Hm1);
    rewrite ?Hx0, ?Hx1; [done|lia..|].
  destruct (boot_suffix l c1 Hpc1) as (c2 & Hrun2 & F1 & F2 & F3 & F4 & F5 & F6).
  exists (n + ((5 * k + 3) + 3))%nat, c2. rewrite run_add, Hrun, run_add, Hrun1.
  split_and!; congruence.
Qed.

(** ** The layout *)

Definition sizes_ok (i : Inputs) : Prop :=
  0 ≤ boot_size i ∧ 0 ≤ vectors_size i ∧ 0 ≤ text_size i ∧ 0 ≤ rodata_size i ∧ 0 ≤ data_size i ∧
  0 ≤ bss_size i.

Ltac align_facts :=
  repeat match goal with
  | |- context [align_up ?a ?n] =>
      lazymatch goal with
      | _ : a ≤ align_up a n < a + n ∧ _ |- _ => fail
      | _ => pose proof (align_up_spec a n ltac:(lia))
      end
  end.

Lemma layout_order i :
  sizes_ok i →
  let l := link i in
  0x40080000 ≤ (text_boot l).2 ≤ (vectors l).1 ∧ (vectors l).1 ≤ (vectors l).2 ≤ (text l).1 ∧
  (text l).2 ≤ (rodata l).1 ∧ (rodata l).2 ≤ (data l).1 ∧ (data l).2 ≤ (bss l).1 ∧
  0x40080000 ≤ (bss l).1 ≤ (bss l).2 ∧ align_up (bss l).2 8 ≤ (stack l).1 ∧
  (bss l).2 ≤ (stack l).1 < (bss l).2 + 16 ∧ (stack l).2 = (stack l).1 + 65536.
Proof.
  intros (? & ? & ? & ? & ? & ?). cbv zeta.
  assert (align_up (bss (link i)).2 8 ≤ (stack (link i)).1).
  { apply align_up_least; [lia|apply align_up_spec; lia|apply align_up_divide; [lia|]].
    by exists 2. }
  revert H5. unfold link, RAM_ORIGIN. simpl. intros. align_facts. lia.
Qed.

Lemma layout_aligned i :
  let l := link i in
  (vectors l).1 mod 2048 = 0 ∧ (bss l).1 mod 8 = 0 ∧ (stack l).2 mod 16 = 0.
Proof.
  unfold link. simpl. split_and!.
  - apply align_up_divide; [lia|by exists 2].
  - apply align_up_divide; [lia|by exists 512].
  - change (64 * 1024) with (4096 * 16). rewrite Z.mod_add by lia. by apply align_up_spec.
Qed.

Section theorems.
Context (i : Inputs).

(** The image.  The linker script puts the sections one after the other
    without overlap from the address QEMU jumps to, the vector table on the 2 KB
    boundary VBAR_EL1 needs, the zeroed section on a word boundary, and a stack
    of 64 KB, 16-byte aligned, right behind it. *)
Theorem linked_image :
  sizes_ok i →
  let l := link i in
  (text_boot l).1 = 0x40080000 ∧
  (text_boot l).2 ≤ (vectors l).1 ∧ (vectors l).2 ≤ (text l).1 ∧ (text l).2 ≤ (rodata l).1 ∧
  (rodata l).2 ≤ (data l).1 ∧ (data l).2 ≤ (bss l).1 ∧ (bss l).2 ≤ (stack l).1 ∧
  (vectors l).1 mod 2048 = 0 ∧ (bss l).1 mod 8 = 0 ∧ (stack l).2 mod 16 = 0 ∧
  (stack l).2 = (stack l).1 + 65536 ∧ (stack l).1 < (bss l).2 + 16.
Proof.
  intros Hi l. split; [done|]. pose proof (layout_order i Hi) as Hord.
  pose proof (layout_aligned i) as Hal. fold l in Hord, Hal. clearbody l. cbv zeta in *. lia.
Qed.

(** C14: the start-up code.  From EL3, EL2 or EL1, whatever the memory holds, the
    code reaches [kernel_main] without a fault: at EL1, on its own stack pointer
    at the top of the stack, with the device tree pointer as argument, all
    interrupts masked if it came from a higher level, the zeroed section all
    zeros and no byte outside of it touched but padding below the stack. *)
Theorem boot_reaches_kernel_main level daif0 dtb_ptr m :
  level = 1 ∨ level = 2 ∨ level = 3 → sizes_ok i → (stack (link i)).2 < 2 ^ 63 →
  ∃ n c, run (link i) n (reset_state level daif0 dtb_ptr m) = Kernel c ∧
    el c = 1 ∧ sp_el c = 1 ∧ daif c = (if decide (level = 1) then daif0 else 15) ∧
    reg c X0 = dtb_ptr ∧ sp c = (stack (link i)).2 ∧
    (∀ a, (bss (link i)).1 ≤ a < (bss (link i)).2 → mem c a = 0) ∧
    (∀ a, a < (bss (link i)).1 ∨ (stack (link i)).1 ≤ a → mem c a = m a).
Proof.
  intros Hlevel Hi Hfit. pose proof (layout_order i Hi) as Hord. pose proof (layout_aligned i) as Hal.
  set (l := link i) in *. clearbody l. cbv zeta in *.
  destruct (boot_run l level daif0 dtb_ptr m Hlevel) as (n & c & Hrun & E1 & E2 & E3 & E4 & E5 & E6);
    [lia..|]. pose proof (align_up_spec (bss l).2 8 ltac:(lia)) as [Hup _].
  exists n, c. split_and!; [done..| |].
  - intros a Ha. rewrite E6. unfold cleared_to. by rewrite decide_True by lia.
  - intros a Ha. rewrite E6. unfold cleared_to. by rewrite decide_False by lia.
Qed.
End theorems.

(** ** A concrete image *)
Definition sample_inputs : Inputs := mkInputs 160 2048 70000 9000 600 20.

Lemma sample_sizes : sizes_ok sample_inputs.
Proof. unfold sizes_ok. simpl. lia. Qed.

Lemma linked_image_witness :
  (vectors (link sample_inputs)).1 = 0x40081000 ∧ (vectors (link sample_inputs)).1 mod 2048 = 0.
Proof.
  split; [reflexivity|]. apply (linked_image sample_inputs). apply sample_sizes.
Defined.

Lemma boot_reaches_kernel_main_witness :
  ∃ n c, run (link sample_inputs) n (reset_state 3 0 0x48000000 (λ _, 255)) = Kernel c ∧
    el c = 1 ∧ reg c X0 = 0x48000000.
Proof.
  destruct (boot_reaches_kernel_main sample_inputs 3 0 0x48000000 (λ _, 255))
    as (n & c & Hrun & Hel & _ & _ & Hx0 & _); [auto|apply sample_sizes|vm_compute; reflexivity|].
  exists n, c. split; [exact Hrun|]. split; [exact Hel|exact Hx0].
Defined.
