(* ===== verification/ArmScheduler.v ===== *)
(** * The AArch64 scheduler and interrupt path
    ([src/src/arch/aarch64/scheduler.rs], [exceptions.rs], [exceptions.S])

    An array of eight task slots, of which the first [num_tasks] are in use, a
    round-robin [schedule], and the timer interrupt that every tenth tick saves
    the interrupted task from its exception frame and builds the frame of the
    next one.  What it prints is in [ArmConsole]. *)
From S2P Require Import Prelude Words Arm.

Definition MAX_TASKS : Z := 8.
Definition TASK_STACK_SIZE : Z := 16 * 1024.

Inductive TaskState := TaskState_Ready | TaskState_Running | TaskState_Blocked.

#[global] Instance TaskState_eq_dec : EqDecision TaskState.
Proof. solve_decision. Defined.

(** [struct Task]; the stack is the address of its first byte, which is fixed
    by where the linker puts the static [SCHEDULER]. *)
Record Task := mkTask {
  task_context : TaskContext;
  task_stack : Z;
  task_state : TaskState;
  task_id : Z
}.

Definition Task_new (stack : Z) : Task := mkTask TaskContext_new stack TaskState_Blocked 0.

Record Scheduler := mkScheduler {
  tasks : list Task;
  num_tasks : Z;
  current_task : Z
}.

(** [Scheduler::new], with the stack addresses of the eight slots. *)
Definition Scheduler_new (stacks : list Z) : Scheduler := mkScheduler (Task_new <$> stacks) 0 0.

Definition set_task_state (st : TaskState) (t : Task) : Task :=
  mkTask (task_context t) (task_stack t) st (task_id t).
Definition set_task_context (c : TaskContext) (t : Task) : Task :=
  mkTask c (task_stack t) (task_state t) (task_id t).

(** [self.tasks[i]] panics out of bounds. *)
Definition get_task (self : Scheduler) (i : Z) : outcome Task := unwrap (tasks self !! Z.to_nat i).
Definition put_task (self : Scheduler) (i : Z) (t : Task) : Scheduler :=
  mkScheduler (<[Z.to_nat i := t]> (tasks self)) (num_tasks self) (current_task self).
Definition set_current (self : Scheduler) (i : Z) : Scheduler :=
  mkScheduler (tasks self) (num_tasks self) i.

Definition is_state (st : TaskState) (t : Task) : bool := bool_decide (task_state t = st).

Section scheduler.
Context `{Build}.

Definition spawn (self : Scheduler) (entry_point : Z) : outcome (Scheduler * option Z) :=
  if decide (MAX_TASKS ≤ num_tasks self) then Ok (self, None)
  else
    let task_id := num_tasks self in
    task ← get_task self task_id;
    stack_top ← (task_stack task +u[64] TASK_STACK_SIZE);
    let task := mkTask (TaskContext_init entry_point stack_top) (task_stack task)
                  TaskState_Ready task_id in
    let self := put_task self task_id task in
    n ← (num_tasks self +u[64] 1);
    Ok (mkScheduler (tasks self) n (current_task self), Some task_id).

Definition current (self : Scheduler) : outcome Task := get_task self (current_task self).

(** [current_mut], with the change made through the reference. *)
Definition current_mut (self : Scheduler) (f : Task → Task) : outcome Scheduler :=
  t ← get_task self (current_task self); Ok (put_task self (current_task self) (f t)).

(** The [loop] of [schedule]; it leaves the loop by [break]. *)
Fixpoint schedule_loop (fuel : nat) (self : Scheduler) (start : Z) : option (outcome Scheduler) :=
  match fuel with
  | O => None
  | S fuel =>
      match (c ← (current_task self +u[64] 1);
             let self := set_current self (c mod num_tasks self) in
             t ← get_task self (current_task self);
             Ok (self, is_state TaskState_Ready t)) with
      | Panic => Some Panic
      | Hang => Some Hang
      | Ok (self, true) => Some (Ok self)
      | Ok (self, false) =>
          if current_task self =? start then Some (Ok self) else schedule_loop fuel self start
      end
  end.

(** One iteration per task in use suffices, see [schedule_spec]. *)
Definition schedule (self : Scheduler) : outcome Scheduler :=
  if num_tasks self =? 0 then Ok self
  else default Hang (schedule_loop (Z.to_nat (num_tasks self)) self (current_task self)).

(** [switch_to_next] up to its final call: the contexts that
    [task::switch_context] is given, when it is reached. *)
Definition switch_to_next (self : Scheduler) : outcome (Scheduler * option (Z * Z)) :=
  if decide (num_tasks self ≤ 1) then Ok (self, None)
  else
    let prev_task := current_task self in
    t ← get_task self prev_task;
    let self := if is_state TaskState_Running t
                then put_task self prev_task (set_task_state TaskState_Ready t) else self in
    self ← schedule self;
    let next_task := current_task self in
    t ← get_task self next_task;
    let self := put_task self next_task (set_task_state TaskState_Running t) in
    if prev_task =? next_task then Ok (self, None)
    else Ok (self, Some (prev_task, next_task)).

(** The saving half of [scheduler_switch_task]: the frame's registers go to the
    context, whose stack pointer stays as it was. *)
Definition save_context (ctx : TaskContext) (frame : ExceptionFrame) : TaskContext :=
  mkTaskContext (frame_x frame) (ctx_sp ctx) (frame_elr_el1 frame) (frame_spsr_el1 frame).

(** The restoring half. *)
Definition frame_of_context (ctx : TaskContext) : ExceptionFrame :=
  mkExceptionFrame (ctx_x ctx) (ctx_sp ctx) (ctx_pc ctx) (ctx_pstate ctx).

(** [scheduler_switch_task] on the memory, the frame pointer and the statics
    [SCHEDULER] and [CONTEXT_SWITCH_COUNTER]. *)
Definition scheduler_switch_task (m : gmap Z Z) (frame_ptr : Z) (self : Scheduler) (counter : Z)
    : outcome (gmap Z Z * Z * Scheduler * Z) :=
  let frame := read_frame m frame_ptr in
  let prev_task := current_task self in
  self ← (if prev_task <? num_tasks self then
            t ← get_task self prev_task;
            Ok (put_task self prev_task
                  (set_task_state TaskState_Ready
                     (set_task_context (save_context (task_context t) frame) t)))
          else Ok self);
  self ← schedule self;
  let next_idx := current_task self in
  t ← get_task self next_idx;
  let self := put_task self next_idx (set_task_state TaskState_Running t) in
  let counter := wrap 64 (counter + 1) in
  _ ← (0x30 +u[8] wrap 8 prev_task);
  _ ← (0x30 +u[8] wrap 8 next_idx);
  next_frame_ptr ← (ctx_sp (task_context t) -u[64] 272);
  let m := write_frame m next_frame_ptr (frame_of_context (task_context t)) in
  Ok (m, next_frame_ptr, self, counter).

(** ** The interrupt handler *)

(** Accesses to the interrupt controller and the timer, in order. *)
Inductive DeviceEvent := GicAcknowledge (irq : Z) | TimerRearm | GicEndOfInterrupt (irq : Z).

(** The statics of [exceptions.rs] and [scheduler.rs]. *)
Record Statics := mkStatics {
  SCHEDULER : Scheduler;
  CONTEXT_SWITCH_COUNTER : Z;
  TIMER_TICKS : Z;
  SCHEDULER_ENABLED : bool;
  device_log : list DeviceEvent
}.

Definition enable_scheduler (k : Statics) : Statics :=
  mkStatics (SCHEDULER k) (CONTEXT_SWITCH_COUNTER k) (TIMER_TICKS k) true (device_log k).

Definition reset_switch_counter (k : Statics) : Statics :=
  mkStatics (SCHEDULER k) 0 (TIMER_TICKS k) (SCHEDULER_ENABLED k) (device_log k).

Definition get_switch_count (k : Statics) : Z := CONTEXT_SWITCH_COUNTER k.

(** The module's functions on the global scheduler. *)
Definition scheduler_spawn (k : Statics) (entry_point : Z) : outcome (Statics * option Z) :=
  '(s, r) ← spawn (SCHEDULER k) entry_point;
  Ok (mkStatics s (CONTEXT_SWITCH_COUNTER k) (TIMER_TICKS k) (SCHEDULER_ENABLED k) (device_log k), r).
Definition current_task_id (k : Statics) : Z := current_task (SCHEDULER k).
Definition scheduler_num_tasks (k : Statics) : Z := num_tasks (SCHEDULER k).

Definition get_timer_ticks (k : Statics) : Z := TIMER_TICKS k.

(** [handle_irq]; [irq_num] is what the interrupt controller answers. *)
Definition handle_irq (irq_num : Z) (k : Statics) (m : gmap Z Z) (frame_ptr : Z)
    : outcome (Statics * gmap Z Z * Z) :=
  ticks ← (TIMER_TICKS k +u[64] 1);
  let k := mkStatics (SCHEDULER k) (CONTEXT_SWITCH_COUNTER k) ticks (SCHEDULER_ENABLED k)
             (device_log k ++ [GicAcknowledge irq_num; TimerRearm; GicEndOfInterrupt irq_num]) in
  if SCHEDULER_ENABLED k && (TIMER_TICKS k mod 10 =? 0) then
    '(m, p, s, counter) ←
      scheduler_switch_task m frame_ptr (SCHEDULER k) (CONTEXT_SWITCH_COUNTER k);
    Ok (mkStatics s counter (TIMER_TICKS k) (SCHEDULER_ENABLED k) (device_log k), m, p)
  else Ok (k, m, frame_ptr).

(** The vector [el1_spx_irq]: save, call [handle_irq] with the frame in x0, take
    the frame it returns, restore, [eret].  The handler leaves x1 to x30 as
    [clobbered]: nothing depends on them. *)
Definition el1_spx_irq (irq_num : Z) (clobbered : list Z) (k : Statics) (c : Cpu)
    : outcome (Statics * Cpu) :=
  let c := run c SAVE_REGS in
  let c := run c [MovFromSp 0] in
  '(k, m, p) ← handle_irq irq_num k (cpu_mem c) (x c 0);
  let c := mkCpu (<[0%nat := p]> clobbered) (cpu_sp c) (cpu_pc c) (cpu_sp_el0 c) (cpu_elr c)
             (cpu_spsr c) m in
  Ok (k, run c ([MovToSp 0] ++ RESTORE_REGS ++ [Eret])).
End scheduler.

(** [kernel_main]'s jump to the first task. *)
Definition launch_first_task `{Build} (self : Scheduler) (c : Cpu) : outcome (Scheduler * Cpu) :=
  if 0 <? num_tasks self then
    t ← get_task self 0;
    let self := put_task self 0 (set_task_state TaskState_Running t) in
    let ctx := task_context t in
    Ok (self, set_pc (mkCpu (gpr c) (ctx_sp ctx) (cpu_pc c) (cpu_sp_el0 c) (ctx_pc ctx)
                        (ctx_pstate ctx) (cpu_mem c)) (ctx_pc ctx))
  else Hang.

(** ** The invariant *)

Record task_ok (t : Task) : Prop := {
  ok_regs : length (ctx_x (task_context t)) = 31%nat;
  ok_stack : 0 ≤ task_stack t ∧ task_stack t + TASK_STACK_SIZE < 2 ^ 64
}.

(** Slots are eight, the ones in use come first, and a task in use owns the top
    of its own stack as saved stack pointer. *)
Record arm_inv (s : Scheduler) : Prop := {
  inv_slots : length (tasks s) = 8%nat;
  inv_num : 0 ≤ num_tasks s ≤ MAX_TASKS;
  inv_current : 0 ≤ current_task s < Z.max 1 (num_tasks s);
  inv_tasks : Forall task_ok (tasks s);
  inv_used i t : tasks s !! i = Some t → Z.of_nat i < num_tasks s →
    ctx_sp (task_context t) = task_stack t + TASK_STACK_SIZE ∧ task_id t = Z.of_nat i
}.

Definition ready_at (s : Scheduler) (i : Z) : Prop :=
  ∃ t, tasks s !! Z.to_nat i = Some t ∧ task_state t = TaskState_Ready.

Lemma get_task_ok s i :
  arm_inv s → 0 ≤ i < 8 → ∃ t, get_task s i = Ok t ∧ tasks s !! Z.to_nat i = Some t ∧ task_ok t.
Proof.
  intros Hinv Hi. destruct (lookup_lt_is_Some_2 (tasks s) (Z.to_nat i)) as [t Ht].
  { rewrite (inv_slots s Hinv). lia. }
  exists t. unfold get_task. rewrite Ht. split_and!; [done..|].
  eapply Forall_lookup_1; [apply Hinv|done].
Qed.

Lemma put_task_inv s i t t0 :
  arm_inv s → 0 ≤ i → tasks s !! Z.to_nat i = Some t0 → task_ok t →
  task_stack t = task_stack t0 → task_id t = task_id t0 →
  ctx_sp (task_context t) = ctx_sp (task_context t0) → arm_inv (put_task s i t).
Proof.
  intros Hinv Hi Ht0 Hok Hst Hid Hsp. destruct Hinv as [Hslots Hnum Hcur Htasks Hused].
  split; simpl; [by rewrite length_insert|done|done|by apply Forall_insert|].
  intros j t'. destruct (decide (j = Z.to_nat i)) as [->|Hj].
  - rewrite list_lookup_insert_eq by (by eapply lookup_lt_Some). intros [= <-] Hlt.
    rewrite Hst, Hid, Hsp. by apply Hused.
  - rewrite list_lookup_insert_ne by done. apply Hused.
Qed.

Lemma set_current_inv s i : arm_inv s → 0 ≤ i < Z.max 1 (num_tasks s) → arm_inv (set_current s i).
Proof. intros [] Hi. by split. Qed.

Section scheduling.
Context `{Build}.

(** Position [j] steps round the table from [start]. *)
Definition around (s : Scheduler) (start j : Z) : Z := (start + j) mod num_tasks s.

Lemma schedule_loop_spec s start k fuel :
  arm_inv s → 0 < num_tasks s → 0 ≤ start < num_tasks s → 0 ≤ k < num_tasks s →
  current_task s = around s start k → (Z.to_nat (num_tasks s - k) <= fuel)%nat →
  (∀ j, 0 < j ≤ k → ¬ ready_at s (around s start j)) →
  ∃ i, schedule_loop fuel s start = Some (Ok (set_current s (around s start i))) ∧
    k < i ≤ num_tasks s ∧ (∀ j, 0 < j < i → ¬ ready_at s (around s start j)) ∧
    (ready_at s (around s start i) ∨ i = num_tasks s).
Proof.
  intros Hinv Hn Hstart. pose proof (inv_num s Hinv) as Hnum. unfold MAX_TASKS in Hnum.
  revert s k Hinv Hn Hstart Hnum. induction fuel as [|fuel IH];
    intros s k Hinv Hn Hstart Hnum Hk Hcur Hfuel Hnot; [lia|]. cbn [schedule_loop].
  assert (0 ≤ current_task s < num_tasks s) as Hc by (rewrite Hcur; apply Z.mod_pos_bound; lia).
  rewrite add_u_fits by (unfold in_u; lia). cbn [mbind outcome_bind].
  assert ((current_task s + 1) mod num_tasks s = around s start (k + 1)) as Hnext.
  { rewrite Hcur. unfold around. rewrite Zplus_mod_idemp_l. f_equal. lia. }
  rewrite Hnext. assert (0 ≤ around s start (k + 1) < num_tasks s) as Hb.
  { apply Z.mod_pos_bound. lia. }
  destruct (get_task_ok s (around s start (k + 1)) Hinv) as (t & Hget & Ht & _); [lia|].
  change (get_task (set_current s (around s start (k + 1))) _)
    with (get_task s (around s start (k + 1))). rewrite Hget. cbn.
  unfold is_state. case_bool_decide as Hr.
  - exists (k + 1). split_and!; [done|lia|lia| |]; [|left; by exists t].
    intros j Hj. apply Hnot. lia.
  - assert (¬ ready_at s (around s start (k + 1))) as Hnr by (intros (t' & ? & ?); congruence).
    destruct (around s start (k + 1) =? start) eqn:Heq.
    + apply Z.eqb_eq in Heq.
      assert (k + 1 = num_tasks s) as Hk1.
      { unfold around in Heq. rewrite <- (Z.mod_small start (num_tasks s)) in Heq at 2 by lia.
        assert ((k + 1) mod num_tasks s = 0) as Hz.
        { replace (k + 1) with (start + (k + 1) - start) by lia.
          rewrite Zminus_mod, Heq, Z.sub_diag. done. }
        destruct (decide (k + 1 = num_tasks s)); [done|]. rewrite Z.mod_small in Hz; lia. }
      exists (k + 1). split_and!; [done|lia|lia| |by right]. intros j Hj. apply Hnot. lia.
    + assert (k + 1 < num_tasks s) as Hk1.
      { destruct (decide (k + 1 = num_tasks s)) as [He|]; [|lia]. apply Z.eqb_neq in Heq.
        exfalso. apply Heq. unfold around. rewrite He.
        replace (start + num_tasks s) with (start + 1 * num_tasks s) by lia.
        rewrite Z.mod_add by lia. apply Z.mod_small. lia. }
      destruct (IH (set_current s (around s start (k + 1))) (k + 1)) as (i & Hi & ? & ? & ?);
        [apply set_current_inv; [done|lia]|done|done|done|simpl; lia|done|simpl; lia| |].
      { intros j Hj. destruct (decide (j = k + 1)) as [->|]; [done|]. apply Hnot. lia. }
      exists i. split_and!; [exact Hi|lia|simpl in *; lia|done|done].
Qed.

Lemma schedule_run s :
  arm_inv s → 0 < num_tasks s →
  ∃ i, schedule s = Ok (set_current s (around s (current_task s) i)) ∧ 0 < i ≤ num_tasks s ∧
    (∀ j, 0 < j < i → ¬ ready_at s (around s (current_task s) j)) ∧
    (ready_at s (around s (current_task s) i) ∨ i = num_tasks s).
Proof.
  intros Hinv Hn. pose proof (inv_current s Hinv) as Hc. unfold schedule.
  rewrite (proj2 (Z.eqb_neq _ _)) by lia.
  destruct (schedule_loop_spec s (current_task s) 0 (Z.to_nat (num_tasks s)))
    as (i & -> & ? & ? & ?); [done|lia|lia|lia| |lia|lia|by exists i].
  unfold around. rewrite Z.add_0_r, Z.mod_small; lia.
Qed.

Lemma around_bounds s i j : arm_inv s → 0 < num_tasks s → 0 ≤ around s i j < num_tasks s.
Proof. intros. apply Z.mod_pos_bound. lia. Qed.
End scheduling.

(** ** Interrupts *)
Section interrupts.
Context `{Build}.

(** [scheduler_switch_task]'s first half: the state in which [schedule] runs. *)
Definition saved_state (s : Scheduler) (t : Task) (frame : ExceptionFrame) : Scheduler :=
  put_task s (current_task s)
    (set_task_state TaskState_Ready (set_task_context (save_context (task_context t) frame) t)).

Lemma saved_state_inv s t frame :
  arm_inv s → tasks s !! Z.to_nat (current_task s) = Some t → length (frame_x frame) = 31%nat →
  arm_inv (saved_state s t frame).
Proof.
  intros Hinv Ht Hf. pose proof (inv_current s Hinv).
  apply (put_task_inv s (current_task s) _ t); try done; [lia|].
  destruct (proj1 (Forall_lookup _ _) (inv_tasks s Hinv) _ _ Ht). by split.
Qed.

Lemma length_read_frame m p : length (frame_x (read_frame m p)) = 31%nat.
Proof.
  unfold read_frame, frame_of_words. cbn [frame_x].
  rewrite length_take. unfold load_words. rewrite length_fmap, length_seqZ. lia.
Qed.

Lemma lookup_put_task s i t j :
  arm_inv s → 0 ≤ i < 8 →
  tasks (put_task s i t) !! j = if decide (j = Z.to_nat i) then Some t else tasks s !! j.
Proof.
  intros Hinv Hi. simpl. case_decide as Hj.
  - subst j. apply list_lookup_insert_eq. rewrite (inv_slots s Hinv). lia.
  - by apply list_lookup_insert_ne.
Qed.

(** The task switch, when a task is running: slot [current_task] gets the
    interrupted registers, the chosen slot [n] is marked running, and its
    context is what the returned frame holds. *)
Lemma arm_switch_run m p s counter t :
  arm_inv s → current_task s < num_tasks s → tasks s !! Z.to_nat (current_task s) = Some t →
  let s1 := saved_state s t (read_frame m p) in
  ∃ i t' s', 0 < i ≤ num_tasks s ∧
    (∀ j, 0 < j < i → ¬ ready_at s1 (around s1 (current_task s) j)) ∧
    ready_at s1 (around s1 (current_task s) i) ∧
    tasks s1 !! Z.to_nat (around s1 (current_task s) i) = Some t' ∧
    scheduler_switch_task m p s counter =
      Ok (write_frame m (ctx_sp (task_context t') - 272) (frame_of_context (task_context t')),
          ctx_sp (task_context t') - 272, s', wrap 64 (counter + 1)) ∧
    s' = put_task (set_current s1 (around s1 (current_task s) i))
           (around s1 (current_task s) i) (set_task_state TaskState_Running t') ∧
    task_ok t' ∧ ctx_sp (task_context t') = task_stack t' + TASK_STACK_SIZE ∧ arm_inv s'.
Proof.
  intros Hinv Hcur Ht s1. pose proof (inv_current s Hinv) as Hc. pose proof (inv_num s Hinv) as Hn.
  unfold MAX_TASKS in Hn.
  assert (arm_inv s1) as Hinv1 by (apply saved_state_inv; [done..|apply length_read_frame]).
  destruct (schedule_run s1 Hinv1) as (i & Hs & Hi & Hnot & Hend); [simpl; lia|].
  change (current_task s1) with (current_task s) in *. change (num_tasks s1) with (num_tasks s) in *.
  pose proof (around_bounds s1 (current_task s) i Hinv1) as Hb. change (num_tasks s1) with (num_tasks s) in Hb.
  specialize (Hb ltac:(lia)).
  destruct (get_task_ok s1 (around s1 (current_task s) i) Hinv1) as (t' & Hget & Ht' & Hok); [lia|].
  destruct (inv_used s1 Hinv1 _ _ Ht') as [Hsp _]; [simpl; lia|].
  assert (ready_at s1 (around s1 (current_task s) i)) as Hready.
  { destruct Hend as [Hr | ->]; [done|]. exists t'. split; [done|].
    assert (around s1 (current_task s) (num_tasks s) = current_task s) as Hsame.
    { unfold around. change (num_tasks s1) with (num_tasks s).
      replace (current_task s + num_tasks s) with (current_task s + 1 * num_tasks s) by lia.
      rewrite Z.mod_add by lia. apply Z.mod_small. lia. }
    rewrite Hsame in Ht'. unfold s1, saved_state in Ht'. rewrite lookup_put_task in Ht' by (done || lia).
    rewrite decide_True in Ht' by done. by injection Ht' as <-. }
  eexists i, t', _. split_and!; try done; try lia.
  2: { apply (put_task_inv _ _ _ t'); [apply set_current_inv; [done|simpl; lia]|lia|done|by destruct Hok|done..]. }
  unfold scheduler_switch_task. rewrite (proj2 (Z.ltb_lt _ _)) by done.
  assert (get_task s (current_task s) = Ok t) as Hg by (unfold get_task; by rewrite Ht).
  rewrite Hg. cbn [mbind outcome_bind].
  fold (saved_state s t (read_frame m p)). fold s1. rewrite Hs. cbn [mbind outcome_bind].
  change (current_task (set_current s1 (around s1 (current_task s) i))) with (around s1 (current_task s) i).
  change (get_task (set_current s1 (around s1 (current_task s) i)) (around s1 (current_task s) i))
    with (get_task s1 (around s1 (current_task s) i)).
  rewrite Hget. cbn [mbind outcome_bind].
  assert (∀ z, 0 ≤ z < 8 → (48 +u[8] wrap 8 z) = Ok (48 + z)) as Hlog.
  { intros z Hz. unfold wrap. rewrite Z.mod_small by lia. apply add_u_fits. unfold in_u. lia. }
  rewrite !Hlog by lia. cbn [mbind outcome_bind].
  rewrite sub_u_fits; [done|]. destruct Hok as [_ Hstack]. unfold in_u, TASK_STACK_SIZE in *. lia.
Qed.

(** Entering and leaving the vector. *)
Lemma x_set_x c n v : (n < length (gpr c))%nat → x (set_x c n v) n = v.
Proof. intros Hn. unfold x, set_x. cbn [gpr]. by rewrite list_lookup_insert_eq. Qed.

Lemma run_leave c :
  run c ([MovToSp 0] ++ RESTORE_REGS ++ [Eret]) =
  exec_instr (run (set_sp c (x c 0)) RESTORE_REGS) Eret.
Proof.
  rewrite (run_app c [MovToSp 0]), run_app, (run_one c), (run_one (run _ RESTORE_REGS)). reflexivity.
Qed.

Lemma irq_leave c p f :
  length (gpr c) = 31%nat → x c 0 = p → read_frame (cpu_mem c) p = f →
  run c ([MovToSp 0] ++ RESTORE_REGS ++ [Eret]) =
    mkCpu (frame_x f) (addr_add p 272) (frame_elr_el1 f) (frame_sp_el0 f) (frame_elr_el1 f)
      (frame_spsr_el1 f) (cpu_mem c).
Proof.
  intros Hl <- Hf. rewrite run_leave, (restore_from (set_sp c (x c 0)) f Hl Hf). reflexivity.
Qed.

Lemma irq_run irq clob k c :
  length (gpr c) = 31%nat → length clob = 31%nat →
  ∃ m p, read_frame m p = interrupted c ∧ p = addr_add (cpu_sp c) (-272) ∧
    el1_spx_irq irq clob k c =
    '(k, m, p) ← handle_irq irq k m p;
    Ok (k, mkCpu (frame_x (read_frame m p)) (addr_add p 272) (frame_elr_el1 (read_frame m p))
             (frame_sp_el0 (read_frame m p)) (frame_elr_el1 (read_frame m p))
             (frame_spsr_el1 (read_frame m p)) m).
Proof.
  intros Hl Hclob. destruct (save_regs_run c Hl) as (Hsp & _ & Hlen).
  pose proof (read_saved_frame c Hl) as Hread. unfold el1_spx_irq.
  revert Hsp Hlen Hread. generalize (run c SAVE_REGS) as c1. intros c1 Hsp Hlen Hread.
  exists (cpu_mem c1), (cpu_sp c1). split_and!; [done|done|].
  rewrite (run_one c1). change (exec_instr c1 (MovFromSp 0)) with (set_x c1 0 (cpu_sp c1)).
  rewrite x_set_x by lia. change (cpu_mem (set_x c1 0 (cpu_sp c1))) with (cpu_mem c1).
  destruct (handle_irq _ _ _ _) as [[[k' m'] p']| |]; [|done|done]. cbn [mbind outcome_bind].
  rewrite (irq_leave _ p' (read_frame m' p')); [done| | |done].
  - cbn [gpr]. by rewrite length_insert.
  - unfold x. cbn [gpr]. rewrite list_lookup_insert_eq by lia. done.
Qed.

Definition switch_tick (k : Statics) : bool :=
  SCHEDULER_ENABLED k && ((TIMER_TICKS k + 1) mod 10 =? 0).

Definition irq_events (irq : Z) : list DeviceEvent :=
  [GicAcknowledge irq; TimerRearm; GicEndOfInterrupt irq].

(** A tick that does not switch. *)
Lemma irq_quiet_run irq clob k c :
  length (gpr c) = 31%nat → length clob = 31%nat →
  in_u 64 (TIMER_TICKS k + 1) → switch_tick k = false →
  ∃ k' m, el1_spx_irq irq clob k c =
      Ok (k', mkCpu (gpr c) (addr_add (cpu_sp c) 0) (cpu_elr c) (cpu_sp_el0 c) (cpu_elr c) (cpu_spsr c) m) ∧
    SCHEDULER k' = SCHEDULER k ∧ TIMER_TICKS k' = TIMER_TICKS k + 1 ∧
    SCHEDULER_ENABLED k' = SCHEDULER_ENABLED k ∧
    CONTEXT_SWITCH_COUNTER k' = CONTEXT_SWITCH_COUNTER k ∧
    device_log k' = device_log k ++ irq_events irq.
Proof.
  intros Hl Hclob Hticks Htick.
  destruct (irq_run irq clob k c Hl Hclob) as (m & p & Hm & Hp & ->).
  unfold handle_irq. rewrite add_u_fits by done. cbn [mbind outcome_bind].
  unfold switch_tick in Htick. cbn [TIMER_TICKS SCHEDULER_ENABLED]. rewrite Htick.
  cbn [mbind outcome_bind]. rewrite Hm, Hp, addr_add_add. do 2 eexists. split; [reflexivity|done].
Qed.

Lemma irq_switch_run irq clob k c t :
  length (gpr c) = 31%nat → length clob = 31%nat → in_u 64 (TIMER_TICKS k + 1) →
  switch_tick k = true → arm_inv (SCHEDULER k) →
  current_task (SCHEDULER k) < num_tasks (SCHEDULER k) →
  tasks (SCHEDULER k) !! Z.to_nat (current_task (SCHEDULER k)) = Some t →
  let s := SCHEDULER k in
  let s1 := saved_state s t (interrupted c) in
  ∃ i t' k' c', 0 < i ≤ num_tasks s ∧
    (∀ j, 0 < j < i → ¬ ready_at s1 (around s1 (current_task s) j)) ∧
    ready_at s1 (around s1 (current_task s) i) ∧
    tasks s1 !! Z.to_nat (around s1 (current_task s) i) = Some t' ∧
    el1_spx_irq irq clob k c = Ok (k', c') ∧
    SCHEDULER k' = put_task (set_current s1 (around s1 (current_task s) i))
      (around s1 (current_task s) i) (set_task_state TaskState_Running t') ∧
    CONTEXT_SWITCH_COUNTER k' = wrap 64 (CONTEXT_SWITCH_COUNTER k + 1) ∧
    TIMER_TICKS k' = TIMER_TICKS k + 1 ∧ SCHEDULER_ENABLED k' = true ∧
    device_log k' = device_log k ++ irq_events irq ∧
    gpr c' = ctx_x (task_context t') ∧ cpu_pc c' = ctx_pc (task_context t') ∧
    cpu_spsr c' = ctx_pstate (task_context t') ∧
    cpu_sp c' = task_stack t' + TASK_STACK_SIZE ∧ arm_inv (SCHEDULER k').
Proof.
  intros Hl Hclob Hticks Htick Hinv Hcur Ht s s1.
  destruct (irq_run irq clob k c Hl Hclob) as (m & p & Hm & _ & ->).
  destruct (arm_switch_run m p s (CONTEXT_SWITCH_COUNTER k) t Hinv Hcur Ht)
    as (i & t' & s' & Hi & Hnot & Hready & Ht' & Hrun & Hs' & Hok & Hsp & Hinv').
  rewrite Hm in *. fold s1 in Hnot, Hready, Ht', Hs'.
  unfold handle_irq. rewrite add_u_fits by done. cbn [mbind outcome_bind].
  unfold switch_tick in Htick. cbn [TIMER_TICKS SCHEDULER_ENABLED SCHEDULER CONTEXT_SWITCH_COUNTER].
  rewrite Htick. fold s. rewrite Hrun. cbn [mbind outcome_bind].
  rewrite read_write_frame by (destruct Hok; done).
  apply andb_true_iff in Htick as [Hen _]. eexists i, t', _, _.
  split_and!; [lia|lia|done|done|done|reflexivity|done|done|done|done|done|done|done|done| |done].
  cbn [cpu_sp]. rewrite Hsp. destruct Hok as [_ Hst]. unfold TASK_STACK_SIZE in *.
  unfold addr_add, wrap. rewrite Z.mod_small; lia.
Qed.
End interrupts.

(** ** What the component promises *)
Section theorems.
Context `{Build}.

Lemma arm_new_inv stacks :
  length stacks = 8%nat → Forall (λ a, 0 ≤ a ∧ a + TASK_STACK_SIZE < 2 ^ 64) stacks →
  arm_inv (Scheduler_new stacks).
Proof.
  intros Hl Hst. split; simpl; [by rewrite length_fmap|by split|by split| |].
  - apply Forall_fmap. eapply Forall_impl; [exact Hst|]. by split.
  - intros i t _ Hi. lia.
Qed.

(** [spawn].  It fills the next slot with a ready task that will start at its
    entry point on the top of its own stack, returns the slot's number, leaves
    the other slots alone and keeps the invariant; with eight tasks it changes
    nothing and returns [None]. *)
Theorem arm_spawn_spec s entry_point :
  arm_inv s →
  (num_tasks s = 8 → spawn s entry_point = Ok (s, None)) ∧
  (num_tasks s < 8 → ∃ s' t, spawn s entry_point = Ok (s', Some (num_tasks s)) ∧ arm_inv s' ∧
     num_tasks s' = num_tasks s + 1 ∧ current_task s' = current_task s ∧
     tasks s' !! Z.to_nat (num_tasks s) = Some t ∧ task_state t = TaskState_Ready ∧
     ctx_pc (task_context t) = entry_point ∧
     ctx_sp (task_context t) = task_stack t + 16384 ∧
     ∀ j, j ≠ Z.to_nat (num_tasks s) → tasks s' !! j = tasks s !! j).
Proof.
  intros Hinv. pose proof (inv_num s Hinv) as Hn. unfold spawn, MAX_TASKS in *. split.
  { intros ->. by rewrite decide_True. }
  intros Hlt. rewrite decide_False by lia.
  destruct (get_task_ok s (num_tasks s) Hinv) as (t & -> & Ht & Hok); [lia|].
  cbn [mbind outcome_bind]. pose proof (ok_stack t Hok) as Hst.
  rewrite add_u_fits by (unfold in_u, TASK_STACK_SIZE in *; lia). cbn [mbind outcome_bind].
  rewrite add_u_fits by (unfold in_u; simpl; lia). cbn [mbind outcome_bind].
  eexists _, (mkTask (TaskContext_init entry_point (task_stack t + TASK_STACK_SIZE))
    (task_stack t) TaskState_Ready (num_tasks s)).
  split_and!; [reflexivity| |done|done| |done|done|done|].
  - split; simpl.
    + rewrite length_insert. apply Hinv.
    + unfold MAX_TASKS. lia.
    + pose proof (inv_current s Hinv). lia.
    + apply Forall_insert; [apply Hinv|]. by split.
    + intros j t'. destruct (decide (j = Z.to_nat (num_tasks s))) as [->|Hj].
      * rewrite list_lookup_insert_eq by (by eapply lookup_lt_Some). intros [= <-] _.
        split; [done|]. simpl. lia.
      * rewrite list_lookup_insert_ne by done. intros Hj' Hlt'. apply (inv_used s Hinv); [done|lia].
  - simpl. apply list_lookup_insert_eq. by eapply lookup_lt_Some.
  - intros j Hj. simpl. by apply list_lookup_insert_ne.
Qed.

(** C36: [schedule] always returns, and is round robin.  The search ends after at
    most one lap: it moves to the first ready slot after the current one, or, if
    no slot is ready, comes back to the current one; nothing else changes. *)
Theorem arm_schedule_spec s :
  arm_inv s → 0 < num_tasks s →
  ∃ i, 0 < i ≤ num_tasks s ∧
    schedule s = Ok (set_current s ((current_task s + i) mod num_tasks s)) ∧
    (∀ j, 0 < j < i → ¬ ready_at s ((current_task s + j) mod num_tasks s)) ∧
    (ready_at s ((current_task s + i) mod num_tasks s) ∨
     (i = num_tasks s ∧ (current_task s + i) mod num_tasks s = current_task s ∧
      ∀ j, 0 ≤ j < num_tasks s → ¬ ready_at s j)).
Proof.
  intros Hinv Hn. pose proof (inv_current s Hinv) as Hc.
  destruct (schedule_run s Hinv Hn) as (i & Hs & Hi & Hnot & Hend). unfold around in *.
  exists i. split_and!; [lia|lia|done|done|].
  destruct (decide (i = num_tasks s)) as [->|]; [|left; by destruct Hend].
  assert ((current_task s + num_tasks s) mod num_tasks s = current_task s) as Hsame.
  { replace (current_task s + num_tasks s) with (current_task s + 1 * num_tasks s) by lia.
    rewrite Z.mod_add by lia. apply Z.mod_small. lia. }
  rewrite Hsame in *.
  destruct (tasks s !! Z.to_nat (current_task s)) as [t|] eqn:Ht.
  2: { exfalso. destruct (get_task_ok s (current_task s) Hinv) as (? & _ & ? & _); [|congruence].
       pose proof (inv_num s Hinv). unfold MAX_TASKS in *. lia. }
  destruct (decide (task_state t = TaskState_Ready)) as [Hr|Hr]; [left; by exists t|right].
  split_and!; [done|done|]. intros j Hj.
  destruct (decide (j = current_task s)) as [->|Hne].
  { intros (t' & ? & ?). congruence. }
  replace j with ((current_task s + (j - current_task s) mod num_tasks s) mod num_tasks s).
  2: { rewrite Zplus_mod_idemp_r. replace (current_task s + (j - current_task s)) with j by lia.
       apply Z.mod_small. lia. }
  apply Hnot. pose proof (Z.mod_pos_bound (j - current_task s) (num_tasks s) Hn).
  assert ((j - current_task s) mod num_tasks s ≠ 0); [|lia]. intros Hz.
  apply Z.mod_divide in Hz as [q Hq]; [|lia]. assert (0 ≤ current_task s < num_tasks s) by lia.
  assert (q = 0 ∨ q ≤ -1 ∨ 1 ≤ q) as [->|[Hq'|Hq']] by lia; [lia|nia|nia].
Qed.

(** C5: an interrupt that does not switch is invisible to the code it interrupts:
    x0 to x30, the stack pointer, SP_EL0, the program counter and the saved
    processor state come back unchanged (the SIMD registers are not modelled); the
    interrupt is acknowledged,
    the timer re-armed and the end of interrupt signalled, in that order. *)
Theorem irq_transparent irq clob k c :
  length (gpr c) = 31%nat → in_u 64 (cpu_sp c) → length clob = 31%nat →
  in_u 64 (TIMER_TICKS k + 1) → switch_tick k = false →
  ∃ k' m, el1_spx_irq irq clob k c =
      Ok (k', mkCpu (gpr c) (cpu_sp c) (cpu_elr c) (cpu_sp_el0 c) (cpu_elr c) (cpu_spsr c) m) ∧
    SCHEDULER k' = SCHEDULER k ∧ TIMER_TICKS k' = TIMER_TICKS k + 1 ∧
    device_log k' = device_log k ++ [GicAcknowledge irq; TimerRearm; GicEndOfInterrupt irq].
Proof.
  intros Hl Hsp Hclob Hticks Htick.
  destruct (irq_quiet_run irq clob k c Hl Hclob Hticks Htick)
    as (k' & m & -> & Hs & Ht & _ & _ & Hd). rewrite addr_add_0 by done. by exists k', m.
Qed.

(** The task switch on every tenth tick.  The interrupted task's registers
    are saved in its slot, which becomes ready; the first ready slot after it is
    resumed with all its saved registers, program counter and processor state;
    exactly one switch is counted and the invariant is kept. *)
Theorem irq_switch_spec irq clob k c t :
  length (gpr c) = 31%nat → length clob = 31%nat → in_u 64 (TIMER_TICKS k + 1) →
  switch_tick k = true → arm_inv (SCHEDULER k) →
  current_task (SCHEDULER k) < num_tasks (SCHEDULER k) →
  tasks (SCHEDULER k) !! Z.to_nat (current_task (SCHEDULER k)) = Some t →
  let s := saved_state (SCHEDULER k) t (interrupted c) in
  ∃ i t' k' c', el1_spx_irq irq clob k c = Ok (k', c') ∧
    let n := (current_task s + i) mod num_tasks s in
    0 < i ≤ num_tasks s ∧ ready_at s n ∧
    (∀ j, 0 < j < i → ¬ ready_at s ((current_task s + j) mod num_tasks s)) ∧
    tasks s !! Z.to_nat n = Some t' ∧
    SCHEDULER k' = put_task (set_current s n) n (set_task_state TaskState_Running t') ∧
    gpr c' = ctx_x (task_context t') ∧ cpu_pc c' = ctx_pc (task_context t') ∧
    cpu_spsr c' = ctx_pstate (task_context t') ∧
    CONTEXT_SWITCH_COUNTER k' = wrap 64 (CONTEXT_SWITCH_COUNTER k + 1) ∧
    arm_inv (SCHEDULER k').
Proof.
  intros Hl Hclob Hticks Htick Hinv Hcur Ht s.
  destruct (irq_switch_run irq clob k c t Hl Hclob Hticks Htick Hinv Hcur Ht)
    as (i & t' & k' & c' & Hi & Hnot & Hready & Ht' & Hrun & Hs & Hc & _ & _ & _ & Hx & Hpc & Hps &
        _ & Hinv').
  exists i, t', k', c'. split; [done|]. fold s in Hnot, Hready, Ht', Hs. unfold around in *.
  destruct Hi. by split_and!.
Qed.

(** Two runnable tasks, [b] the one that is not running. *)
Definition other (a : Z) : Z := (a + 1) mod 2.

Lemma other_ready s t frame (b : Task) :
  arm_inv s → num_tasks s = 2 → tasks s !! Z.to_nat (current_task s) = Some t →
  tasks s !! Z.to_nat (other (current_task s)) = Some b → task_state b = TaskState_Ready →
  tasks (saved_state s t frame) !! Z.to_nat (other (current_task s)) = Some b ∧
  ready_at (saved_state s t frame) (around (saved_state s t frame) (current_task s) 1) ∧
  around (saved_state s t frame) (current_task s) 1 = other (current_task s) ∧
  current_task s ≠ other (current_task s) ∧ 0 ≤ current_task s < 2 ∧
  0 ≤ other (current_task s) < 2.
Proof.
  intros Hinv Hn Ht Hb Hr. pose proof (inv_current s Hinv) as Hc. rewrite Hn in Hc.
  assert (0 ≤ current_task s < 2) as Hc2 by lia.
  assert (current_task s ≠ other (current_task s) ∧ 0 ≤ other (current_task s) < 2) as [Hne Ho].
  { unfold other. assert (current_task s = 0 ∨ current_task s = 1) as [-> | ->] by lia; done. }
  assert (around (saved_state s t frame) (current_task s) 1 = other (current_task s)) as Ha.
  { unfold around. simpl. by rewrite Hn. }
  assert (tasks (saved_state s t frame) !! Z.to_nat (other (current_task s)) = Some b) as Hsaved.
  { unfold saved_state. rewrite lookup_put_task by (done || lia). rewrite decide_False by lia. done. }
  split_and!; try done; try lia. rewrite Ha. by exists b.
Qed.

(** A switched-out task comes back where it was, except for its stack
    pointer.  With two runnable tasks, two switch ticks return to the first
    task with every general register, the program counter and the processor
    state it was interrupted with; its stack pointer, however, is reset to the
    top of its stack, whatever it was, because the interrupted one is saved
    nowhere. *)
Theorem two_switches_resume irq1 irq2 clob1 clob2 k c t b :
  length (gpr c) = 31%nat → length clob1 = 31%nat → length clob2 = 31%nat →
  in_u 64 (TIMER_TICKS k + 1) → switch_tick k = true →
  arm_inv (SCHEDULER k) → num_tasks (SCHEDULER k) = 2 →
  tasks (SCHEDULER k) !! Z.to_nat (current_task (SCHEDULER k)) = Some t →
  tasks (SCHEDULER k) !! Z.to_nat (other (current_task (SCHEDULER k))) = Some b →
  task_state b = TaskState_Ready →
  ∃ k1 c1, el1_spx_irq irq1 clob1 k c = Ok (k1, c1) ∧ gpr c1 = ctx_x (task_context b) ∧
  ∀ k2 c2, SCHEDULER k2 = SCHEDULER k1 → switch_tick k2 = true → in_u 64 (TIMER_TICKS k2 + 1) →
    length (gpr c2) = 31%nat →
    ∃ k3 c3, el1_spx_irq irq2 clob2 k2 c2 = Ok (k3, c3) ∧
      current_task (SCHEDULER k3) = current_task (SCHEDULER k) ∧
      gpr c3 = gpr c ∧ cpu_pc c3 = cpu_elr c ∧ cpu_spsr c3 = cpu_spsr c ∧
      cpu_sp c3 = task_stack t + 16384.
Proof.
  intros Hl Hl1 Hl2 Hti Htick Hinv Hn Ht Hb Hr.
  destruct (other_ready _ t (interrupted c) b Hinv Hn Ht Hb Hr)
    as (Hb1 & Hready & Ha & Hne & Hcb & Hob).
  destruct (irq_switch_run irq1 clob1 k c t Hl Hl1 Hti Htick Hinv ltac:(lia) Ht)
    as (i & b' & k1 & c1 & Hi & Hnot & _ & Hb' & Hrun1 & Hs1 & _ & _ & _ & _ & Hx1 & _ & _ & _ & Hinv1).
  assert (i = 1) as ->.
  { destruct (decide (1 < i)); [|lia]. destruct (Hnot 1); [lia|done]. }
  rewrite Ha in Hb', Hs1. rewrite Hb1 in Hb'. injection Hb' as <-.
  exists k1, c1. split_and!; [done|done|]. intros k2 c2 Hk2 Htick2 Hti2 Hlc2.
  set (s := SCHEDULER k) in *. set (a := current_task s) in *.
  set (ta := set_task_state TaskState_Ready (set_task_context (save_context (task_context t) (interrupted c)) t)).
  assert (current_task (SCHEDULER k2) = other a ∧ num_tasks (SCHEDULER k2) = 2) as [Hc2 Hn2].
  { rewrite Hk2, Hs1. done. }
  assert (other (other a) = a) as Hoo.
  { unfold other. assert (a = 0 ∨ a = 1) as [-> | ->] by lia; done. }
  assert (∀ j, tasks (SCHEDULER k2) !! j = if decide (j = Z.to_nat (other a))
    then Some (set_task_state TaskState_Running b)
    else if decide (j = Z.to_nat a) then Some ta else tasks s !! j) as Htasks.
  { intros j. rewrite Hk2, Hs1.
    rewrite lookup_put_task; [|by apply set_current_inv; [apply saved_state_inv|simpl; lia]|lia].
    case_decide; [done|]. unfold set_current. cbn [tasks]. unfold saved_state.
    by rewrite lookup_put_task by (done || lia). }
  rewrite <- Hk2 in Hinv1.
  assert (tasks (SCHEDULER k2) !! Z.to_nat (current_task (SCHEDULER k2)) =
    Some (set_task_state TaskState_Running b)) as Hcur2.
  { rewrite Htasks, Hc2. by rewrite decide_True. }
  assert (tasks (SCHEDULER k2) !! Z.to_nat (other (current_task (SCHEDULER k2))) = Some ta) as Hta.
  { rewrite Htasks, Hc2, Hoo, decide_False by lia. by rewrite decide_True. }
  destruct (other_ready _ _ (interrupted c2) ta Hinv1 Hn2 Hcur2 Hta eq_refl)
    as (Hta1 & Hready2 & Ha2 & _).
  destruct (irq_switch_run irq2 clob2 k2 c2 _ Hlc2 Hl2 Hti2 Htick2 Hinv1 ltac:(lia) Hcur2)
    as (i & t3 & k3 & c3 & Hi2 & Hnot2 & _ & Ht3 & Hrun3 & Hs3 & _ & _ & _ & _ & Hx & Hpc & Hps & Hsp & _).
  assert (i = 1) as ->.
  { destruct (decide (1 < i)); [|lia]. destruct (Hnot2 1); [lia|done]. }
  rewrite Ha2 in Ht3, Hs3. rewrite Hta1 in Ht3. injection Ht3 as <-.
  exists k3, c3. rewrite Hs3, Hx, Hpc, Hps, Hsp, Hc2. by split_and!.
Qed.
End theorems.

(** ** A concrete kernel: two tasks, the first one running *)

Definition sample_stacks : list Z := (λ i, 0x40300000 + 16384 * Z.of_nat i) <$> seq 0 8.

Definition spawned (s : Scheduler) (entry_point : Z) : Scheduler :=
  match spawn (H := Dev) s entry_point with Ok (s, _) => s | _ => s end.

Definition two_spawned : Scheduler :=
  spawned (spawned (Scheduler_new sample_stacks) 0x40090000) 0x400a0000.

Lemma spawned_inv s e : arm_inv s → num_tasks s < 8 → arm_inv (spawned s e).
Proof.
  intros Hinv Hn. destruct (arm_spawn_spec (H := Dev) s e Hinv) as [_ Hs].
  destruct (Hs Hn) as (s' & t & Hrun & Hinv' & _). unfold spawned. by rewrite Hrun.
Qed.

Lemma two_spawned_inv : arm_inv two_spawned.
Proof.
  apply spawned_inv; [apply spawned_inv; [|done]|done]. apply arm_new_inv; [done|].
  repeat (apply Forall_cons; split; [done|]). apply Forall_nil_2.
Qed.

Definition running_two : Scheduler :=
  put_task two_spawned 0 (set_task_state TaskState_Running (mkTask
    (TaskContext_init 0x40090000 0x40304000) 0x40300000 TaskState_Ready 0)).

Lemma running_two_inv : arm_inv running_two.
Proof.
  eapply put_task_inv; [apply two_spawned_inv|done|reflexivity| |reflexivity..]. by split.
Qed.

Definition sample_statics (ticks : Z) : Statics := mkStatics running_two 0 ticks true [].

Lemma arm_schedule_spec_witness :
  ∃ i, 0 < i ≤ 2 ∧ schedule (H := Dev) two_spawned = Ok (set_current two_spawned ((0 + i) mod 2)).
Proof.
  destruct (arm_schedule_spec (H := Dev) two_spawned two_spawned_inv) as (i & Hi & Hs & _); [done|].
  exists i. split; [exact Hi|exact Hs].
Defined.

Lemma irq_transparent_witness :
  ∃ k' m, el1_spx_irq (H := Dev) 30 (replicate 31 0) (sample_statics 3) sample_cpu =
    Ok (k', mkCpu (gpr sample_cpu) 0x40200000 0x40090000 7 0x40090000 0x3c5 m).
Proof.
  destruct (irq_transparent (H := Dev) 30 (replicate 31 0) (sample_statics 3) sample_cpu)
    as (k' & m & Hrun & _); [done|done|done|done|reflexivity|]. exists k', m. exact Hrun.
Defined.

Lemma irq_switch_spec_witness :
  ∃ k' c', el1_spx_irq (H := Dev) 30 (replicate 31 0) (sample_statics 9) sample_cpu = Ok (k', c') ∧
    CONTEXT_SWITCH_COUNTER k' = 1.
Proof.
  destruct (irq_switch_spec (H := Dev) 30 (replicate 31 0) (sample_statics 9) sample_cpu
    (set_task_state TaskState_Running (mkTask
      (TaskContext_init 0x40090000 0x40304000) 0x40300000 TaskState_Ready 0)))
    as (i & t' & k' & c' & Hrun & _ & _ & _ & _ & _ & _ & _ & _ & Hc & _).
  - done.
  - done.
  - done.
  - reflexivity.
  - apply running_two_inv.
  - done.
  - reflexivity.
  - exists k', c'. split; [exact Hrun|exact Hc].
Defined.

Lemma two_switches_resume_witness :
  ∃ k1 c1, el1_spx_irq (H := Dev) 30 (replicate 31 0) (sample_statics 9) sample_cpu = Ok (k1, c1) ∧
    gpr c1 = replicate 31 0.
Proof.
  destruct (two_switches_resume (H := Dev) 30 30 (replicate 31 0) (replicate 31 0)
    (sample_statics 9) sample_cpu
    (set_task_state TaskState_Running (mkTask
      (TaskContext_init 0x40090000 0x40304000) 0x40300000 TaskState_Ready 0))
    (mkTask (TaskContext_init 0x400a0000 0x40308000) 0x40304000 TaskState_Ready 1))
    as (k1 & c1 & Hrun & Hx & _).
  - done.
  - done.
  - done.
  - done.
  - reflexivity.
  - apply running_two_inv.
  - reflexivity.
  - reflexivity.
  - reflexivity.
  - reflexivity.
  - exists k1, c1. split; [exact Hrun|exact Hx].
Defined.
