(* ===== verification/ArmVectors.v ===== *)
(** * The AArch64 exception vectors
    ([src/src/arch/aarch64/exceptions.S], [exceptions.rs])

    The vector table as the assembler lays it out, the sixteen handlers it
    branches to, and the Rust functions behind them.  The timer interrupt itself
    is modelled in [ArmScheduler]; here are the other vectors and what they do
    with the frame. *)
From stdpp Require Import strings.
From S2P Require Import Prelude Words Arm ArmScheduler.

(** ** The table *)

Inductive Vector :=
  | el1_sp0_sync | el1_sp0_irq | el1_sp0_fiq | el1_sp0_serror
  | el1_spx_sync | el1_spx_irq_vector | el1_spx_fiq | el1_spx_serror
  | el0_aarch64_sync | el0_aarch64_irq | el0_aarch64_fiq | el0_aarch64_serror
  | el0_aarch32_sync | el0_aarch32_irq | el0_aarch32_fiq | el0_aarch32_serror.

#[global] Instance Vector_eq_dec : EqDecision Vector.
Proof. solve_decision. Defined.

(** The [EXCEPTION_ENTRY] lines, in order. *)
Definition exception_vector_table : list Vector :=
  [ el1_sp0_sync; el1_sp0_irq; el1_sp0_fiq; el1_sp0_serror;
    el1_spx_sync; el1_spx_irq_vector; el1_spx_fiq; el1_spx_serror;
    el0_aarch64_sync; el0_aarch64_irq; el0_aarch64_fiq; el0_aarch64_serror;
    el0_aarch32_sync; el0_aarch32_irq; el0_aarch32_fiq; el0_aarch32_serror ].

(** [EXCEPTION_ENTRY]: align to 128 bytes, then one branch instruction. *)
Fixpoint place (at_ : Z) (entries : list Vector) : list (Z * Vector) :=
  match entries with
  | [] => []
  | v :: entries => let a := align_up at_ 128 in (a, v) :: place (a + 4) entries
  end.

(** The table starts at the first 2 KB boundary of its section. *)
Definition placed (section : Z) : Z * list (Z * Vector) :=
  let base := align_up section 2048 in (base, place base exception_vector_table).

(** What the architecture branches to: an offset from VBAR_EL1 for each source
    and kind of exception. *)
Inductive Source := CurrentEL_SP0 | CurrentEL_SPx | LowerEL_AArch64 | LowerEL_AArch32.
Inductive Kind := Synchronous | Irq | Fiq | SError.

Definition vector_offset (s : Source) (k : Kind) : Z :=
  0x200 * (match s with CurrentEL_SP0 => 0 | CurrentEL_SPx => 1 | LowerEL_AArch64 => 2
                      | LowerEL_AArch32 => 3 end)
  + 0x80 * (match k with Synchronous => 0 | Irq => 1 | Fiq => 2 | SError => 3 end).

(** The handler meant for it, by its name. *)
Definition handler_for (s : Source) (k : Kind) : Vector :=
  match s, k with
  | CurrentEL_SP0, Synchronous => el1_sp0_sync
  | CurrentEL_SP0, Irq => el1_sp0_irq
  | CurrentEL_SP0, Fiq => el1_sp0_fiq
  | CurrentEL_SP0, SError => el1_sp0_serror
  | CurrentEL_SPx, Synchronous => el1_spx_sync
  | CurrentEL_SPx, Irq => el1_spx_irq_vector
  | CurrentEL_SPx, Fiq => el1_spx_fiq
  | CurrentEL_SPx, SError => el1_spx_serror
  | LowerEL_AArch64, Synchronous => el0_aarch64_sync
  | LowerEL_AArch64, Irq => el0_aarch64_irq
  | LowerEL_AArch64, Fiq => el0_aarch64_fiq
  | LowerEL_AArch64, SError => el0_aarch64_serror
  | LowerEL_AArch32, Synchronous => el0_aarch32_sync
  | LowerEL_AArch32, Irq => el0_aarch32_irq
  | LowerEL_AArch32, Fiq => el0_aarch32_fiq
  | LowerEL_AArch32, SError => el0_aarch32_serror
  end.

(** ** The Rust handlers *)

(** The syndrome registers [handle_sync_exception] reads. *)
Record Syndrome := mkSyndrome { esr_el1 : Z; far_el1 : Z; sctlr_el1 : Z }.

(** The labelled hexadecimal numbers a handler prints before it halts. *)
Definition Report : Type := list (string * Z).

Definition handle_sync_exception (r : Syndrome) (frame : ExceptionFrame) : Report :=
  let esr := esr_el1 r in
  let ec := Z.land (Z.shiftr esr 26) 0x3F in
  let iss := Z.land esr 0x1FFFFFF in
  let dfsc := Z.land iss 0x3F in
  [ ("Exception Class: 0x"%string, ec);
    ("ISS: 0x"%string, iss);
    ("ELR_EL1 (PC): 0x"%string, frame_elr_el1 frame);
    ("FAR_EL1 (Fault Addr): 0x"%string, far_el1 r);
    ("X9 register: 0x"%string, default 0 (frame_x frame !! 9%nat));
    ("DFSC (Fault Status): 0x"%string, dfsc);
    ("SCTLR_EL1 (MMU ctrl): 0x"%string, sctlr_el1 r);
    ("SPSR_EL1: 0x"%string, frame_spsr_el1 frame) ].

Definition handle_serror (frame : ExceptionFrame) : Report :=
  [ ("ELR_EL1 (PC): 0x"%string, frame_elr_el1 frame) ].

(** ** The vectors *)

(** How a vector ends: back in interrupted code, in the [wfe] loop of a handler
    after its report, or in a branch to itself. *)
Inductive VectorEnd :=
  | Resumed (k : Statics) (c : Cpu)
  | Halted (report : Report)
  | Spinning.

Section vectors.
Context `{Build}.

(** [SAVE_REGS; mov x0, sp; bl handler] *)
Definition enter (c : Cpu) : Cpu := run (run c SAVE_REGS) [MovFromSp 0].

(** The registers when the handler returns: x0 holds its result, the others are
    as it left them. *)
Definition returned (c : Cpu) (clobbered : list Z) (x0 : Z) (m : gmap Z Z) : Cpu :=
  mkCpu (<[0%nat := x0]> clobbered) (cpu_sp c) (cpu_pc c) (cpu_sp_el0 c) (cpu_elr c) (cpu_spsr c) m.

(** [el1_spx_fiq] and [el0_aarch64_fiq]: [handle_fiq] only prints. *)
Definition fiq_vector (clobbered : list Z) (k : Statics) (c : Cpu) : VectorEnd :=
  let c := enter c in
  let c := returned c clobbered (x c 0) (cpu_mem c) in
  Resumed k (run c (RESTORE_REGS ++ [Eret])).

Definition sync_vector (r : Syndrome) (c : Cpu) : VectorEnd :=
  let c := enter c in Halted (handle_sync_exception r (read_frame (cpu_mem c) (x c 0))).

Definition serror_vector (c : Cpu) : VectorEnd :=
  let c := enter c in Halted (handle_serror (read_frame (cpu_mem c) (x c 0))).

(** [el0_aarch64_irq]: like [el1_spx_irq], without the [mov sp, x0]. *)
Definition el0_irq_vector (irq_num : Z) (clobbered : list Z) (k : Statics) (c : Cpu)
    : outcome VectorEnd :=
  let c := enter c in
  '(k, m, p) ← handle_irq irq_num k (cpu_mem c) (x c 0);
  Ok (Resumed k (run (returned c clobbered p m) (RESTORE_REGS ++ [Eret]))).

(** The code at each label. *)
Definition run_vector (v : Vector) (irq_num : Z) (r : Syndrome) (clobbered : list Z)
    (k : Statics) (c : Cpu) : outcome VectorEnd :=
  match v with
  | el1_spx_irq_vector =>
      '(k, c) ← el1_spx_irq irq_num clobbered k c; Ok (Resumed k c)
  | el0_aarch64_irq => el0_irq_vector irq_num clobbered k c
  | el1_spx_sync | el0_aarch64_sync => Ok (sync_vector r c)
  | el1_spx_fiq | el0_aarch64_fiq => Ok (fiq_vector clobbered k c)
  | el1_spx_serror | el0_aarch64_serror => Ok (serror_vector c)
  | el1_sp0_sync | el1_sp0_irq | el1_sp0_fiq | el1_sp0_serror
  | el0_aarch32_sync | el0_aarch32_irq | el0_aarch32_fiq | el0_aarch32_serror => Ok Spinning
  end.

(** Taking an exception: the handler of the placed table whose address the
    architecture computes from VBAR_EL1. *)
Definition take_exception (section : Z) (s : Source) (kd : Kind) (irq_num : Z) (r : Syndrome)
    (clobbered : list Z) (k : Statics) (c : Cpu) : outcome VectorEnd :=
  let (vbar, table) := placed section in
  match list_find (λ e, fst e = vbar + vector_offset s kd) table with
  | Some (_, (_, v)) => run_vector v irq_num r clobbered k c
  | None => Hang
  end.
End vectors.

(** ** The placed table *)

Lemma align_up_next a : a mod 128 = 0 → align_up (a + 4) 128 = a + 128.
Proof.
  intros Ha. apply Z.div_exact in Ha; [|lia]. rewrite Ha. generalize (a / 128). intros q.
  unfold align_up. replace (128 * q + 4 + 128 - 1) with (131 + q * 128) by lia.
  rewrite Z.div_add by lia. change (131 / 128) with 1. lia.
Qed.

Lemma place_entries at_ a vs :
  align_up at_ 128 = a → a mod 128 = 0 →
  place at_ vs = imap (λ i v, (a + 128 * Z.of_nat i, v)) vs.
Proof.
  revert at_ a. induction vs as [|v vs IH]; intros at_ a Hat Ha; [done|]. simpl.
  rewrite Hat, (IH (a + 4) (a + 128)).
  - f_equal; [f_equal; lia|]. apply imap_ext. intros i w _. simpl. f_equal. lia.
  - by apply align_up_next.
  - rewrite Zplus_mod, Ha. done.
Qed.

Lemma align_up_aligned a n : 0 < n → a mod n = 0 → align_up a n = a.
Proof.
  intros Hn Ha. apply Z.div_exact in Ha; [|lia]. revert Ha. generalize (a / n). intros q ->.
  unfold align_up. replace (n * q + n - 1) with (n - 1 + q * n) by ring.
  rewrite Z.div_add, Z.div_small by lia. ring.
Qed.

(** The entry the architecture looks up. *)
Lemma find_entry section s k :
  ∃ i, list_find (λ e, fst e = (placed section).1 + vector_offset s k) (placed section).2 =
    Some (i, ((placed section).1 + vector_offset s k, handler_for s k)).
Proof.
  unfold placed. cbn [fst snd].
  assert (align_up section 2048 mod 128 = 0) as Hb by (apply align_up_divide; [lia|by exists 16]).
  rewrite (place_entries _ (align_up section 2048)); [|by apply align_up_aligned|done].
  generalize (align_up section 2048). clear. intros base.
  assert (∃ i, vector_offset s k = 128 * Z.of_nat i ∧
    exception_vector_table !! i = Some (handler_for s k)) as (i & Hoff & Hi).
  { exists (Z.to_nat (vector_offset s k / 128)). by destruct s, k. }
  exists i. apply list_find_Some. rewrite Hoff. split_and!.
  - rewrite list_lookup_imap, Hi. done.
  - done.
  - intros j e Hj Hlt. rewrite list_lookup_imap in Hj.
    destruct (exception_vector_table !! j); [|done]. injection Hj as <-. simpl. lia.
Qed.

(** ** Handlers *)
Section handlers.
Context `{Build}.

Lemma take_exception_run section s kd irq_num r clobbered k c :
  take_exception section s kd irq_num r clobbered k c =
  run_vector (handler_for s kd) irq_num r clobbered k c.
Proof.
  unfold take_exception. destruct (find_entry section s kd) as [i Hfind].
  destruct (placed section) as [vbar table]. simpl in Hfind. by rewrite Hfind.
Qed.

Lemma enter_run c :
  length (gpr c) = 31%nat →
  length (gpr (enter c)) = 31%nat ∧ cpu_sp (enter c) = addr_add (cpu_sp c) (-272) ∧
  x (enter c) 0 = cpu_sp (enter c) ∧
  read_frame (cpu_mem (enter c)) (cpu_sp (enter c)) = interrupted c.
Proof.
  intros Hl. destruct (save_regs_run c Hl) as (Hsp & _ & Hlen).
  pose proof (read_saved_frame c Hl) as Hread. unfold enter. rewrite (run_one (run c SAVE_REGS)).
  revert Hsp Hlen Hread. generalize (run c SAVE_REGS) as c1. intros c1 Hsp Hlen Hread.
  change (exec_instr c1 (MovFromSp 0)) with (set_x c1 0 (cpu_sp c1)).
  split_and!; [cbn [gpr set_x]; by rewrite length_insert|done|rewrite x_set_x by lia; done|done].
Qed.

(** Returning from a vector whose frame is intact gives back what was
    interrupted. *)
Lemma leave_run c f :
  length (gpr c) = 31%nat → read_frame (cpu_mem c) (cpu_sp c) = f →
  run c (RESTORE_REGS ++ [Eret]) =
    mkCpu (frame_x f) (addr_add (cpu_sp c) 272) (frame_elr_el1 f) (frame_sp_el0 f) (frame_elr_el1 f)
      (frame_spsr_el1 f) (cpu_mem c).
Proof.
  intros Hl Hf. rewrite run_app, (run_one (run _ RESTORE_REGS)), (restore_from c f Hl Hf). done.
Qed.

Lemma read_frame_other m p q f :
  length (frame_x f) = 31%nat → disjoint_records p q →
  read_frame (write_frame m q f) p = read_frame m p.
Proof.
  intros Hf Hd. unfold read_frame, write_frame, store_words, load_words. f_equal.
  apply list_fmap_ext. intros i j Hj. apply lookup_seqZ in Hj as [-> Hj].
  apply load_store_words_frame. intros k Hk. unfold frame_words in Hk.
  rewrite length_app, Hf in Hk. simpl in Hk. apply not_eq_sym, Hd; lia.
Qed.

(** The interrupted code's state, as the return from an exception restores it. *)
Definition resumed_as (c : Cpu) (m : gmap Z Z) : Cpu :=
  mkCpu (gpr c) (cpu_sp c) (cpu_elr c) (cpu_sp_el0 c) (cpu_elr c) (cpu_spsr c) m.

Lemma return_in_place c clobbered x0 m :
  length (gpr c) = 31%nat → length clobbered = 31%nat → in_u 64 (cpu_sp c) →
  read_frame m (addr_add (cpu_sp c) (-272)) = interrupted c →
  run (returned (enter c) clobbered x0 m) (RESTORE_REGS ++ [Eret]) = resumed_as c m.
Proof.
  intros Hl Hc Hsp Hf. destruct (enter_run c Hl) as (_ & Hs & _ & _).
  revert Hs. generalize (enter c) as c1. intros c1 Hs. rewrite <- Hs in Hf.
  rewrite (leave_run (returned c1 clobbered x0 m) (interrupted c));
    [|cbn [gpr returned]; by rewrite length_insert|exact Hf].
  unfold resumed_as. cbn [interrupted frame_x frame_sp_el0 frame_elr_el1 frame_spsr_el1 returned cpu_sp cpu_mem].
  rewrite Hs, addr_add_add. change (-272 + 272) with 0. by rewrite addr_add_0.
Qed.

(** Saving a context moves no stack. *)
Lemma saved_stack s t f t' n :
  arm_inv s → tasks s !! Z.to_nat (current_task s) = Some t →
  tasks (saved_state s t f) !! n = Some t' → ∃ t0, t0 ∈ tasks s ∧ task_stack t' = task_stack t0.
Proof.
  intros Hinv Ht Ht'. unfold saved_state, put_task in Ht'. cbn [tasks] in Ht'.
  destruct (decide (n = Z.to_nat (current_task s))) as [->|Hne].
  - rewrite list_lookup_insert_eq in Ht' by (by eapply lookup_lt_Some). injection Ht' as <-.
    exists t. split; [by eapply list_elem_of_lookup_2|done].
  - rewrite list_lookup_insert_ne in Ht' by done. exists t'. split; [by eapply list_elem_of_lookup_2|done].
Qed.

(** [handle_irq] uses the interrupt number for the device log only. *)
Lemma handle_irq_source irq1 irq2 k m p k1 m1 p1 :
  handle_irq irq1 k m p = Ok (k1, m1, p1) → in_u 64 (TIMER_TICKS k + 1) →
  ∃ k2, handle_irq irq2 k m p = Ok (k2, m1, p1) ∧
    SCHEDULER k2 = SCHEDULER k1 ∧ CONTEXT_SWITCH_COUNTER k2 = CONTEXT_SWITCH_COUNTER k1 ∧
    TIMER_TICKS k1 = TIMER_TICKS k + 1 ∧ TIMER_TICKS k2 = TIMER_TICKS k + 1 ∧
    device_log k2 = device_log k ++ irq_events irq2.
Proof.
  unfold handle_irq. intros Hrun Hticks. rewrite add_u_fits in * by done. simpl in *.
  destruct (_ && _).
  - destruct (scheduler_switch_task _ _ _ _) as [[[[m2 p2] s2] n2]| |]; [|done|done]. simpl in *.
    injection Hrun as <- <- <-. by eexists.
  - injection Hrun as <- <- <-. by eexists.
Qed.
End handlers.

(** ** What the component promises *)
Section theorems.
Context `{Build}.

(** C37: every exception reaches its handler.  Wherever the linker puts the
    section, the handler found at VBAR_EL1 plus the architecture's offset is the
    one written for that source and kind, for all sixteen. *)
Theorem exceptions_dispatched section s kd irq_num r clobbered k c :
  take_exception section s kd irq_num r clobbered k c =
  run_vector (handler_for s kd) irq_num r clobbered k c.
Proof. apply take_exception_run. Qed.

(** The report of a fault is the state at the fault.  A synchronous
    exception, from the kernel or from EL0, prints the exception class (ESR bits
    31 to 26), the syndrome (bits 24 to 0) and its fault status (bits 5 to 0),
    and the program counter, x9 and processor state that were interrupted, read
    back through the saved frame; then it halts. *)
Theorem fault_report section s irq_num r clobbered k c :
  s = CurrentEL_SPx ∨ s = LowerEL_AArch64 → length (gpr c) = 31%nat →
  take_exception section s Synchronous irq_num r clobbered k c = Ok (Halted
    [ ("Exception Class: 0x"%string, esr_el1 r / 2 ^ 26 mod 64);
      ("ISS: 0x"%string, esr_el1 r mod 2 ^ 25);
      ("ELR_EL1 (PC): 0x"%string, cpu_elr c);
      ("FAR_EL1 (Fault Addr): 0x"%string, far_el1 r);
      ("X9 register: 0x"%string, x c 9);
      ("DFSC (Fault Status): 0x"%string, esr_el1 r mod 2 ^ 6);
      ("SCTLR_EL1 (MMU ctrl): 0x"%string, sctlr_el1 r);
      ("SPSR_EL1: 0x"%string, cpu_spsr c) ]).
Proof.
  intros Hs Hl. rewrite take_exception_run.
  destruct (enter_run c Hl) as (_ & _ & Hx & Hf).
  assert (sync_vector r c = Halted (handle_sync_exception r (interrupted c))) as Hv
    by (unfold sync_vector; by rewrite Hx, Hf).
  destruct Hs as [-> | ->]; cbn [handler_for run_vector]; rewrite Hv;
    unfold handle_sync_exception; cbn [interrupted frame_elr_el1 frame_spsr_el1 frame_x];
    rewrite Z.shiftr_div_pow2 by lia; change 0x3F with (Z.ones 6); change 0x1FFFFFF with (Z.ones 25);
    rewrite !Z.land_ones by lia; rewrite Z.mod_mod_divide by (by exists (2 ^ 19)); done.
Qed.

(** A fast interrupt is invisible: every register, the stack pointer, the
    program counter and the processor state of the interrupted code come back,
    at both levels. *)
Theorem fiq_transparent section s irq_num r clobbered k c :
  s = CurrentEL_SPx ∨ s = LowerEL_AArch64 →
  length (gpr c) = 31%nat → length clobbered = 31%nat → in_u 64 (cpu_sp c) →
  ∃ m, take_exception section s Fiq irq_num r clobbered k c = Ok (Resumed k (resumed_as c m)).
Proof.
  intros Hs Hl Hc Hsp. rewrite take_exception_run.
  destruct (enter_run c Hl) as (_ & Hesp & Hx & Hf). exists (cpu_mem (enter c)).
  assert (fiq_vector clobbered k c = Resumed k (resumed_as c (cpu_mem (enter c)))) as Hv.
  { unfold fiq_vector. rewrite return_in_place; [done..|]. by rewrite <- Hesp. }
  by destruct Hs as [-> | ->]; cbn [handler_for run_vector]; rewrite Hv.
Qed.

(** An interrupt from EL0 loses the switch.  The vector of the lower level
    does not take the frame [handle_irq] returns: on a tick that switches, the
    scheduler marks the next task as the running one and counts the switch, but
    the core goes on with the code it interrupted. *)
Theorem el0_irq_loses_switch section irq_num r clobbered k c t :
  length (gpr c) = 31%nat → length clobbered = 31%nat → in_u 64 (cpu_sp c) →
  in_u 64 (TIMER_TICKS k + 1) → switch_tick k = true → arm_inv (SCHEDULER k) →
  current_task (SCHEDULER k) < num_tasks (SCHEDULER k) →
  tasks (SCHEDULER k) !! Z.to_nat (current_task (SCHEDULER k)) = Some t →
  (∀ t', t' ∈ tasks (SCHEDULER k) → disjoint_records
     (addr_add (cpu_sp c) (-272)) (task_stack t' + TASK_STACK_SIZE - 272)) →
  ∃ k' m n,
    take_exception section LowerEL_AArch64 Irq irq_num r clobbered k c =
      Ok (Resumed k' (resumed_as c m)) ∧
    ready_at (saved_state (SCHEDULER k) t (interrupted c)) n ∧
    current_task (SCHEDULER k') = n ∧
    CONTEXT_SWITCH_COUNTER k' = wrap 64 (CONTEXT_SWITCH_COUNTER k + 1).
Proof.
  intros Hl Hclob Hsp Hticks Htick Hinv Hcur Ht Hd. rewrite take_exception_run.
  destruct (enter_run c Hl) as (_ & Hesp & Hx & Hf). cbn [handler_for run_vector].
  destruct (arm_switch_run (cpu_mem (enter c)) (cpu_sp (enter c)) (SCHEDULER k)
    (CONTEXT_SWITCH_COUNTER k) t Hinv Hcur Ht)
    as (i & t' & s' & _ & _ & Hready & Ht' & Hrun & Hs' & Hok & Htop & _).
  rewrite Hf in *. do 3 eexists. split_and!; [|exact Hready| |].
  - unfold el0_irq_vector. rewrite Hx. unfold handle_irq. rewrite add_u_fits by done.
    cbn [mbind outcome_bind TIMER_TICKS SCHEDULER_ENABLED SCHEDULER CONTEXT_SWITCH_COUNTER].
    unfold switch_tick in Htick. rewrite Htick, Hrun. cbn [mbind outcome_bind].
    rewrite return_in_place; [done..|]. rewrite Htop, read_frame_other; [by rewrite <- Hesp|by destruct Hok|].
    destruct (saved_stack (SCHEDULER k) t (interrupted c) t' _ Hinv Ht Ht') as (t0 & Hin & ->). by apply Hd.
  - by rewrite Hs'.
  - done.
Qed.

(** Any interrupt counts as a timer tick.  [handle_irq] does not look at the
    number the interrupt controller answers: whatever device raised it, and for
    a spurious number too, the tick counter advances, tasks are switched on
    every tenth call, and only the accesses to the controller differ. *)
Theorem any_source_is_a_tick section irq1 irq2 r clobbered k c k1 c1 :
  take_exception section CurrentEL_SPx Irq irq1 r clobbered k c = Ok (Resumed k1 c1) →
  in_u 64 (TIMER_TICKS k + 1) →
  ∃ k2, take_exception section CurrentEL_SPx Irq irq2 r clobbered k c = Ok (Resumed k2 c1) ∧
    SCHEDULER k2 = SCHEDULER k1 ∧ CONTEXT_SWITCH_COUNTER k2 = CONTEXT_SWITCH_COUNTER k1 ∧
    TIMER_TICKS k1 = TIMER_TICKS k + 1 ∧ TIMER_TICKS k2 = TIMER_TICKS k + 1 ∧
    device_log k2 = device_log k ++ irq_events irq2.
Proof.
  rewrite !take_exception_run. cbn [handler_for run_vector]. intros Hrun Hticks.
  unfold el1_spx_irq in *. revert Hrun.
  generalize (run (run c SAVE_REGS) [MovFromSp 0]) as c0. intros c0.
  destruct (handle_irq irq1 _ _ _) as [[[k' m'] p']| |] eqn:Hh; [|done|done].
  destruct (handle_irq_source irq1 irq2 k _ _ k' m' p' Hh Hticks) as (k2 & -> & ?).
  cbn [mbind outcome_bind].
  generalize (run (mkCpu (<[0%nat:=p']> clobbered) (cpu_sp c0) (cpu_pc c0) (cpu_sp_el0 c0)
    (cpu_elr c0) (cpu_spsr c0) m') ([MovToSp 0] ++ RESTORE_REGS ++ [Eret])) as c2.
  intros c2 [= <- <-]. by exists k2.
Qed.
End theorems.

(** ** A concrete processor *)
Definition sample_syndrome : Syndrome := mkSyndrome 0x96000045 0x1000 0x30d00800.

Lemma fault_report_witness :
  take_exception (H := Dev) 0x40081000 CurrentEL_SPx Synchronous 30 sample_syndrome (replicate 31 0)
    (sample_statics 3) sample_cpu = Ok (Halted
    [ ("Exception Class: 0x"%string, 0x25); ("ISS: 0x"%string, 0x45);
      ("ELR_EL1 (PC): 0x"%string, 0x40090000); ("FAR_EL1 (Fault Addr): 0x"%string, 0x1000);
      ("X9 register: 0x"%string, 109); ("DFSC (Fault Status): 0x"%string, 5);
      ("SCTLR_EL1 (MMU ctrl): 0x"%string, 0x30d00800); ("SPSR_EL1: 0x"%string, 0x3c5) ]).
Proof.
  apply (fault_report (H := Dev) 0x40081000 CurrentEL_SPx 30 sample_syndrome (replicate 31 0)
    (sample_statics 3) sample_cpu); [by left|reflexivity].
Defined.

Lemma fiq_transparent_witness :
  ∃ m, take_exception (H := Dev) 0x40081000 LowerEL_AArch64 Fiq 30 sample_syndrome (replicate 31 1)
    (sample_statics 3) sample_cpu = Ok (Resumed (sample_statics 3) (resumed_as sample_cpu m)).
Proof.
  apply (fiq_transparent (H := Dev) 0x40081000 LowerEL_AArch64 30 sample_syndrome (replicate 31 1)
    (sample_statics 3) sample_cpu); [by right|reflexivity|reflexivity|done].
Defined.

Lemma el0_irq_loses_switch_witness :
  ∃ k' m, take_exception (H := Dev) 0x40081000 LowerEL_AArch64 Irq 30 sample_syndrome
      (replicate 31 0) (sample_statics 9) sample_cpu = Ok (Resumed k' (resumed_as sample_cpu m)) ∧
    CONTEXT_SWITCH_COUNTER k' = 1.
Proof.
  destruct (el0_irq_loses_switch (H := Dev) 0x40081000 30 sample_syndrome (replicate 31 0)
    (sample_statics 9) sample_cpu
    (set_task_state TaskState_Running (mkTask
      (TaskContext_init 0x40090000 0x40304000) 0x40300000 TaskState_Ready 0)))
    as (k' & m & n & Hrun & _ & _ & Hc).
  - reflexivity.
  - reflexivity.
  - done.
  - done.
  - reflexivity.
  - apply running_two_inv.
  - reflexivity.
  - reflexivity.
  - intros t Ht. change (tasks (SCHEDULER (sample_statics 9))) with (tasks running_two) in Ht.
    assert (0x40300000 ≤ task_stack t < 0x40400000) as Hs.
    { revert t Ht. apply Forall_forall. repeat (apply Forall_cons; split; [simpl; lia|]).
      apply Forall_nil_2. }
    intros i j Hi Hj. unfold addr_add, wrap, TASK_STACK_SIZE. cbn [cpu_sp sample_cpu].
    rewrite !Z.mod_small by (rewrite ?Z.mod_small; lia). lia.
  - exists k', m. split; [exact Hrun|exact Hc].
Defined.

Lemma any_source_is_a_tick_witness :
  ∃ k1 k2 c1,
    take_exception (H := Dev) 0x40081000 CurrentEL_SPx Irq 30 sample_syndrome (replicate 31 0)
      (sample_statics 9) sample_cpu = Ok (Resumed k1 c1) ∧
    take_exception (H := Dev) 0x40081000 CurrentEL_SPx Irq 1023 sample_syndrome (replicate 31 0)
      (sample_statics 9) sample_cpu = Ok (Resumed k2 c1) ∧
    SCHEDULER k2 = SCHEDULER k1.
Proof.
  destruct (take_exception (H := Dev) 0x40081000 CurrentEL_SPx Irq 30 sample_syndrome (replicate 31 0)
      (sample_statics 9) sample_cpu) as [[k1 c1| |]| |] eqn:Hrun;
    try (vm_compute in Hrun; discriminate Hrun).
  destruct (any_source_is_a_tick (H := Dev) 0x40081000 30 1023 sample_syndrome (replicate 31 0)
      (sample_statics 9) sample_cpu k1 c1 Hrun) as (k2 & Hrun2 & Hs & _); [done|].
  exists k1, k2, c1. split; [reflexivity|]. split; [exact Hrun2|exact Hs].
Defined.
