(* ===== verification/ArmTurns.v ===== *)
(** * Preemption on AArch64 over many ticks
    ([src/src/arch/aarch64/scheduler.rs], [exceptions.rs])

    The timer interrupt of [ArmScheduler] again and again, with arbitrary task code
    in between: the tasks take turns of ten ticks in a fixed cyclic order, and a
    task finds its registers as it left them when its turn comes again. *)
From S2P Require Import Prelude Words Arm ArmScheduler.

(** ** Runs of interrupts *)

(** One timer interrupt: the number the controller answers, what the handler
    leaves in the registers, and the processor at the interrupt, whatever the
    interrupted code made of it. *)
Record Tick := mkTick { tick_irq : Z; tick_clobbered : list Z; tick_cpu : Cpu }.

Definition tick_ok (t : Tick) : Prop :=
  length (gpr (tick_cpu t)) = 31%nat ∧ length (tick_clobbered t) = 31%nat.

Section turns.
Context `{Build}.

(** The interrupts one after the other; the processor is the one resumed last. *)
Fixpoint run_ticks (ts : list Tick) (k : Statics) (last : option Cpu)
    : outcome (Statics * option Cpu) :=
  match ts with
  | [] => Ok (k, last)
  | t :: ts =>
      '(k, c) ← el1_spx_irq (tick_irq t) (tick_clobbered t) k (tick_cpu t);
      run_ticks ts k (Some c)
  end.

Lemma run_ticks_app ts1 ts2 k o :
  run_ticks (ts1 ++ ts2) k o = '(k, o) ← run_ticks ts1 k o; run_ticks ts2 k o.
Proof.
  revert k o. induction ts1 as [|t ts1 IH]; intros k o; [done|]. cbn [run_ticks app].
  destruct (el1_spx_irq _ _ _ _) as [[k' c]| |]; [apply IH|done|done].
Qed.

(** Every task in use can run: the current one is running, the others are ready. *)
Definition all_runnable (s : Scheduler) : Prop :=
  ∀ i t, tasks s !! i = Some t → Z.of_nat i < num_tasks s →
    task_state t = if decide (Z.of_nat i = current_task s) then TaskState_Running else TaskState_Ready.

Record turning (k : Statics) : Prop := {
  turn_inv : arm_inv (SCHEDULER k);
  turn_runnable : all_runnable (SCHEDULER k);
  turn_tasks : 0 < num_tasks (SCHEDULER k);
  turn_enabled : SCHEDULER_ENABLED k = true
}.

Definition next_slot (s : Scheduler) : Z := (current_task s + 1) mod num_tasks s.

(** What a switch leaves in slot [i]: its own context, or the interrupted
    registers if it was the running one. *)
Definition context_after (s : Scheduler) (c : Cpu) (i : nat) (t : Task) : TaskContext :=
  if decide (Z.of_nat i = current_task s) then save_context (task_context t) (interrupted c)
  else task_context t.

Lemma lookup_used s i :
  arm_inv s → 0 ≤ i < 8 → ∃ t, tasks s !! Z.to_nat i = Some t.
Proof.
  intros Hinv Hi. apply lookup_lt_is_Some_2. rewrite (inv_slots s Hinv). lia.
Qed.

(** The table in which [schedule] runs, slot by slot. *)
Lemma saved_lookup s c t0 j u :
  arm_inv s → 0 < num_tasks s → length (gpr c) = 31%nat →
  tasks s !! Z.to_nat (current_task s) = Some t0 → tasks s !! j = Some u →
  tasks (saved_state s t0 (interrupted c)) !! j =
    Some (if decide (Z.of_nat j = current_task s)
          then set_task_state TaskState_Ready
                 (set_task_context (save_context (task_context u) (interrupted c)) u) else u).
Proof.
  intros Hinv Hn Hl Ht0 Hu. pose proof (inv_current s Hinv). pose proof (inv_num s Hinv) as Hnum.
  unfold MAX_TASKS in Hnum. unfold saved_state.
  rewrite lookup_put_task by (done || lia).
  case_decide as Hj; case_decide; try lia; [|done]. subst j. congruence.
Qed.

(** With every task runnable the scan stops at the first slot. *)
Lemma next_is_first s c t0 i :
  arm_inv s → 0 < num_tasks s → length (gpr c) = 31%nat → all_runnable s →
  tasks s !! Z.to_nat (current_task s) = Some t0 → 0 < i ≤ num_tasks s →
  (∀ j, 0 < j < i → ¬ ready_at (saved_state s t0 (interrupted c))
     (around (saved_state s t0 (interrupted c)) (current_task s) j)) → i = 1.
Proof.
  intros Hinv Hn Hl Hrun Ht0 Hi Hnot. pose proof (inv_current s Hinv) as Hc.
  pose proof (inv_num s Hinv) as Hnum. unfold MAX_TASKS in Hnum.
  destruct (decide (i = 1)) as [|Hne]; [done|exfalso]. apply (Hnot 1); [lia|].
  change (around _ (current_task s) 1) with (next_slot s).
  assert (0 ≤ next_slot s < num_tasks s) as Hnext by (by apply Z.mod_pos_bound).
  assert (next_slot s ≠ current_task s) as Hneq.
  { unfold next_slot. intros Heq. destruct (decide (current_task s + 1 < num_tasks s)).
    - rewrite Z.mod_small in Heq by lia. lia.
    - replace (current_task s + 1) with (0 + 1 * num_tasks s) in Heq at 1 by lia.
      rewrite Z.mod_add, Z.mod_0_l in Heq by lia. lia. }
  destruct (lookup_used s (next_slot s) Hinv) as [u Hu]; [lia|].
  exists u. rewrite (saved_lookup s c t0 _ u), decide_False by (done || lia). split; [done|].
  rewrite (Hrun _ _ Hu), decide_False by lia. done.
Qed.

(** A tick that switches hands the core to the next slot. *)
Lemma switch_turn t k :
  tick_ok t → turning k → in_u 64 (TIMER_TICKS k + 1) → (TIMER_TICKS k + 1) mod 10 = 0 →
  ∃ k' c' u, el1_spx_irq (tick_irq t) (tick_clobbered t) k (tick_cpu t) = Ok (k', c') ∧
    turning k' ∧ num_tasks (SCHEDULER k') = num_tasks (SCHEDULER k) ∧
    current_task (SCHEDULER k') = next_slot (SCHEDULER k) ∧
    TIMER_TICKS k' = TIMER_TICKS k + 1 ∧
    CONTEXT_SWITCH_COUNTER k' = wrap 64 (CONTEXT_SWITCH_COUNTER k + 1) ∧
    (∀ i u, tasks (SCHEDULER k) !! i = Some u → ∃ u', tasks (SCHEDULER k') !! i = Some u' ∧
       task_context u' = context_after (SCHEDULER k) (tick_cpu t) i u ∧ task_stack u' = task_stack u) ∧
    tasks (SCHEDULER k') !! Z.to_nat (next_slot (SCHEDULER k)) = Some u ∧
    gpr c' = ctx_x (task_context u) ∧ cpu_pc c' = ctx_pc (task_context u) ∧
    cpu_spsr c' = ctx_pstate (task_context u) ∧ cpu_sp c' = task_stack u + TASK_STACK_SIZE.
Proof.
  intros [Hl Hcl] [Hinv Hrun Hn Hen] Hticks Hmod. set (s := SCHEDULER k) in *.
  pose proof (inv_current s Hinv) as Hc. pose proof (inv_num s Hinv) as Hnum. unfold MAX_TASKS in Hnum.
  destruct (lookup_used s (current_task s) Hinv) as [t0 Ht0]; [lia|].
  assert (switch_tick k = true) as Htick by (unfold switch_tick; rewrite Hen, Hmod; done).
  destruct (irq_switch_run (tick_irq t) (tick_clobbered t) k (tick_cpu t) t0)
    as (i & t' & k' & c' & Hi & Hnot & _ & Ht' & Hirq & Hs' & Hcnt & Htk & Hen' & _ & Hx & Hpc & Hps & Hsp & Hinv');
    [done..|fold s; lia|done|].
  fold s in Hi, Hnot, Ht', Hs'. set (s1 := saved_state s t0 (interrupted (tick_cpu t))) in *.
  assert (arm_inv s1) as Hinv1 by (by apply saved_state_inv).
  assert (0 ≤ next_slot s < num_tasks s) as Hnext by (by apply Z.mod_pos_bound).
  assert (i = 1) as -> by (by apply (next_is_first s (tick_cpu t) t0)).
  change (around s1 (current_task s) 1) with (next_slot s) in *.
  assert (∀ j u, tasks s !! j = Some u → tasks (SCHEDULER k') !! j = Some
    (if decide (j = Z.to_nat (next_slot s)) then set_task_state TaskState_Running t'
     else if decide (Z.of_nat j = current_task s)
          then set_task_state TaskState_Ready (set_task_context
                 (save_context (task_context u) (interrupted (tick_cpu t))) u) else u)) as Hafter.
  { intros j u Hu. rewrite Hs', lookup_put_task by first [lia | apply set_current_inv; [done|simpl; lia]].
    case_decide; [done|]. simpl. by apply saved_lookup. }
  assert (num_tasks (SCHEDULER k') = num_tasks s) as Hnum' by (by rewrite Hs').
  assert (current_task (SCHEDULER k') = next_slot s) as Hcur' by (by rewrite Hs').
  destruct (lookup_used s (next_slot s) Hinv) as [u0 Hu0]; [lia|].
  assert (task_context t' = context_after s (tick_cpu t) (Z.to_nat (next_slot s)) u0 ∧
    task_stack t' = task_stack u0) as [Hctx Hstk].
  { unfold s1 in Ht'. rewrite (saved_lookup s (tick_cpu t) t0 _ u0) in Ht' by done. injection Ht' as <-. unfold context_after. by case_decide. }
  exists k', c', (set_task_state TaskState_Running t').
  split_and!; try done.
  - split; [done| |lia|done]. intros j u Hu Hj. rewrite Hnum' in Hj. rewrite Hcur'.
    destruct (lookup_used s (Z.of_nat j) Hinv) as [u1 Hu1]; [lia|]. rewrite Nat2Z.id in Hu1.
    rewrite (Hafter _ _ Hu1) in Hu. injection Hu as <-.
    destruct (decide (j = Z.to_nat (next_slot s))); [by rewrite decide_True by lia|].
    rewrite (decide_False (P := _ = next_slot s)) by lia.
    case_decide; [done|]. rewrite (Hrun _ _ Hu1), decide_False by done. done.
  - intros j u Hu. rewrite (Hafter _ _ Hu). eexists. split; [done|].
    destruct (decide (j = Z.to_nat (next_slot s))) as [->|].
    + assert (u = u0) as -> by congruence. done.
    + unfold context_after. by case_decide.
  - by rewrite (Hafter _ _ Hu0), decide_True.
Qed.

(** ** Turns of ten ticks *)

(** Nine ticks and the one that switches. *)
Record Turn := mkTurn { quiet : list Tick; switching : Tick }.

Definition turn_ok (u : Turn) : Prop :=
  length (quiet u) = 9%nat ∧ Forall tick_ok (quiet u) ∧ tick_ok (switching u).

Definition ticks_of (us : list Turn) : list Tick := us ≫= λ u, quiet u ++ [switching u].

Lemma quiet_ticks qs k o :
  Forall tick_ok qs → SCHEDULER_ENABLED k = true → 0 ≤ TIMER_TICKS k →
  TIMER_TICKS k mod 10 + Z.of_nat (length qs) < 10 → TIMER_TICKS k + Z.of_nat (length qs) < 2 ^ 64 →
  ∃ k' o', run_ticks qs k o = Ok (k', o') ∧ SCHEDULER k' = SCHEDULER k ∧ SCHEDULER_ENABLED k' = true ∧
    CONTEXT_SWITCH_COUNTER k' = CONTEXT_SWITCH_COUNTER k ∧
    TIMER_TICKS k' = TIMER_TICKS k + Z.of_nat (length qs).
Proof.
  revert k o. induction qs as [|q qs IH]; intros k o Hok Hk Hpos Hmod Hfit.
  { do 2 eexists. simpl. rewrite Z.add_0_r. by split. }
  apply Forall_cons in Hok as [[Hl Hcl] Hok]. cbn [run_ticks length] in *.
  assert ((TIMER_TICKS k + 1) mod 10 = TIMER_TICKS k mod 10 + 1) as Hnext.
  { rewrite Zplus_mod, (Z.mod_small 1) by lia. apply Z.mod_small.
    pose proof (Z.mod_pos_bound (TIMER_TICKS k) 10). lia. }
  assert (switch_tick k = false) as Htick.
  { unfold switch_tick. rewrite Hnext. pose proof (Z.mod_pos_bound (TIMER_TICKS k) 10).
    rewrite (proj2 (Z.eqb_neq _ 0)) by lia. apply andb_false_r. }
  destruct (irq_quiet_run (tick_irq q) (tick_clobbered q) k (tick_cpu q))
    as (k1 & m & -> & Hs & Ht & Hen & Hc & _); [done|done|unfold in_u; lia|done|].
  cbn [mbind outcome_bind].
  destruct (IH k1 (Some (mkCpu (gpr (tick_cpu q)) (addr_add (cpu_sp (tick_cpu q)) 0) (cpu_elr (tick_cpu q))
    (cpu_sp_el0 (tick_cpu q)) (cpu_elr (tick_cpu q)) (cpu_spsr (tick_cpu q)) m)))
    as (k' & o' & -> & ? & ? & ? & ?); [done|congruence|rewrite Ht, ?Hnext; lia..|].
  exists k', o'. split; [done|]. split_and!; [congruence..|lia].
Qed.

(** A turn, or what is left of one, behaves like its last tick. *)
Lemma rest_of_turn qs t k o :
  Forall tick_ok qs → tick_ok t → turning k → 0 ≤ TIMER_TICKS k →
  TIMER_TICKS k mod 10 + Z.of_nat (length qs) = 9 → TIMER_TICKS k + Z.of_nat (length qs) + 1 < 2 ^ 64 →
  ∃ k' c' v, run_ticks (qs ++ [t]) k o = Ok (k', Some c') ∧
    turning k' ∧ num_tasks (SCHEDULER k') = num_tasks (SCHEDULER k) ∧
    current_task (SCHEDULER k') = next_slot (SCHEDULER k) ∧
    TIMER_TICKS k' = TIMER_TICKS k + Z.of_nat (length qs) + 1 ∧
    CONTEXT_SWITCH_COUNTER k' = wrap 64 (CONTEXT_SWITCH_COUNTER k + 1) ∧
    (∀ i u, tasks (SCHEDULER k) !! i = Some u → ∃ u', tasks (SCHEDULER k') !! i = Some u' ∧
       task_context u' = context_after (SCHEDULER k) (tick_cpu t) i u ∧
       task_stack u' = task_stack u) ∧
    tasks (SCHEDULER k') !! Z.to_nat (next_slot (SCHEDULER k)) = Some v ∧
    gpr c' = ctx_x (task_context v) ∧ cpu_pc c' = ctx_pc (task_context v) ∧
    cpu_spsr c' = ctx_pstate (task_context v) ∧ cpu_sp c' = task_stack v + TASK_STACK_SIZE.
Proof.
  intros Hq Ht Hk Hpos Hmod Hfit.
  destruct (quiet_ticks qs k o) as (k1 & o1 & Hrun1 & Hs1 & Hen1 & Hc1 & Ht1); [done|apply Hk|lia..|].
  assert (turning k1) as Hk1 by (destruct Hk; split; rewrite ?Hs1; done).
  assert ((TIMER_TICKS k1 + 1) mod 10 = 0) as Hmod1.
  { rewrite Ht1. pose proof (Z.div_mod (TIMER_TICKS k) 10 ltac:(lia)).
    replace (TIMER_TICKS k + Z.of_nat (length qs) + 1) with ((TIMER_TICKS k / 10 + 1) * 10) by lia.
    by apply Z.mod_mul. }
  destruct (switch_turn t k1 Ht Hk1) as (k' & c' & v & Hrun & Hk' & Hn & Hcur & Htk & Hcnt & Hslots & Hrest);
    [unfold in_u; lia|done|]. rewrite Hs1, Hc1 in *.
  exists k', c', v. rewrite run_ticks_app, Hrun1. cbn [mbind outcome_bind run_ticks]. rewrite Hrun.
  split_and!; try done; try tauto. lia.
Qed.

(** A whole turn. *)
Lemma one_turn u k o :
  turn_ok u → turning k → 0 ≤ TIMER_TICKS k → TIMER_TICKS k mod 10 = 0 → TIMER_TICKS k + 10 < 2 ^ 64 →
  ∃ k' c' v, run_ticks (quiet u ++ [switching u]) k o = Ok (k', Some c') ∧
    turning k' ∧ num_tasks (SCHEDULER k') = num_tasks (SCHEDULER k) ∧
    current_task (SCHEDULER k') = next_slot (SCHEDULER k) ∧
    TIMER_TICKS k' = TIMER_TICKS k + 10 ∧
    CONTEXT_SWITCH_COUNTER k' = wrap 64 (CONTEXT_SWITCH_COUNTER k + 1) ∧
    (∀ i t, tasks (SCHEDULER k) !! i = Some t → ∃ t', tasks (SCHEDULER k') !! i = Some t' ∧
       task_context t' = context_after (SCHEDULER k) (tick_cpu (switching u)) i t ∧
       task_stack t' = task_stack t) ∧
    tasks (SCHEDULER k') !! Z.to_nat (next_slot (SCHEDULER k)) = Some v ∧
    gpr c' = ctx_x (task_context v) ∧ cpu_pc c' = ctx_pc (task_context v) ∧
    cpu_spsr c' = ctx_pstate (task_context v) ∧ cpu_sp c' = task_stack v + TASK_STACK_SIZE.
Proof.
  intros (Hlen & Hq & Ht) Hk Hpos Hmod Hfit.
  destruct (rest_of_turn (quiet u) (switching u) k o) as (k' & c' & v & Hrun & Hk' & Hn & Hcur & Htk & Hrest);
    [done..|rewrite Hlen; lia|rewrite Hlen; lia|].
  exists k', c', v. split_and!; try done; try tauto. rewrite Htk, Hlen. lia.
Qed.

(** ** Many turns *)

(** Start of a turn: the tick counter is a multiple of ten. *)
Record at_turn (n : nat) (k : Statics) : Prop := {
  at_turning : turning k;
  at_multiple : TIMER_TICKS k mod 10 = 0;
  at_range : 0 ≤ TIMER_TICKS k ∧ TIMER_TICKS k + 10 * Z.of_nat n < 2 ^ 64
}.

(** The slot whose turn it is after [n] more turns. *)
Definition slot_after (s : Scheduler) (n : nat) : Z := (current_task s + Z.of_nat n) mod num_tasks s.

Lemma slot_after_0 s : arm_inv s → 0 < num_tasks s → slot_after s 0 = current_task s.
Proof.
  intros Hinv Hn. pose proof (inv_current s Hinv). unfold slot_after. rewrite Z.add_0_r.
  apply Z.mod_small. lia.
Qed.

Lemma slot_after_S s s' n :
  current_task s' = next_slot s → num_tasks s' = num_tasks s →
  slot_after s' n = slot_after s (S n).
Proof.
  intros Hc Hn. unfold slot_after. rewrite Hc, Hn. unfold next_slot.
  rewrite Zplus_mod_idemp_l. f_equal. lia.
Qed.

(** A slot whose turn does not come keeps its context. *)
Definition slot_kept (us : list Turn) (s s' : Scheduler) : Prop :=
  ∀ i t, tasks s !! i = Some t →
    (∀ j, (j < length us)%nat → slot_after s j ≠ Z.of_nat i) →
    ∃ t', tasks s' !! i = Some t' ∧ task_context t' = task_context t ∧ task_stack t' = task_stack t.

Lemma many_turns us k o :
  Forall turn_ok us → at_turn (length us) k →
  ∃ k' o', run_ticks (ticks_of us) k o = Ok (k', o') ∧ at_turn 0 k' ∧
    num_tasks (SCHEDULER k') = num_tasks (SCHEDULER k) ∧
    current_task (SCHEDULER k') = slot_after (SCHEDULER k) (length us) ∧
    TIMER_TICKS k' = TIMER_TICKS k + 10 * Z.of_nat (length us) ∧
    slot_kept us (SCHEDULER k) (SCHEDULER k').
Proof.
  revert k o. induction us as [|u us IH]; intros k o Hus [Hk Hmod Hrange].
  { exists k, o. simpl. split_and!; [done|by split|done| |lia|].
    - destruct Hk. by rewrite slot_after_0.
    - intros i t Ht _. by exists t. }
  apply Forall_cons in Hus as [Hu Hus]. cbn [length] in *.
  destruct (one_turn u k o) as (k1 & c1 & v & Hrun & Hk1 & Hn1 & Hcur1 & Ht1 & _ & Hslots & _); [done..|lia|done|lia|].
  destruct (IH k1 (Some c1)) as (k' & o' & Hrun' & Hk' & Hn' & Hcur' & Ht' & Hkept); [done| |].
  { split; [done|rewrite Ht1, Zplus_mod, Hmod; done|lia]. }
  exists k', o'. unfold ticks_of. rewrite bind_cons, run_ticks_app, Hrun. cbn [mbind outcome_bind].
  split_and!; [done|done|congruence| |lia|].
  - rewrite Hcur'. by apply slot_after_S.
  - intros i t Ht Hne. destruct (Hslots i t Ht) as (t1 & Ht1' & Hc1 & Hs1).
    destruct (Hkept i t1 Ht1') as (t' & Hl' & Hctx' & Hst').
    { intros j Hj. rewrite (slot_after_S (SCHEDULER k)) by done. apply Hne. simpl. lia. }
    exists t'. split; [done|]. split; [|congruence]. rewrite Hctx', Hc1. unfold context_after.
    rewrite decide_False; [done|]. specialize (Hne 0%nat ltac:(simpl; lia)).
    destruct Hk. rewrite slot_after_0 in Hne by done. lia.
Qed.

Lemma turns_counted us k o :
  Forall turn_ok us → at_turn (length us) k → 0 ≤ CONTEXT_SWITCH_COUNTER k →
  CONTEXT_SWITCH_COUNTER k + Z.of_nat (length us) < 2 ^ 64 →
  ∃ k' o', run_ticks (ticks_of us) k o = Ok (k', o') ∧
    CONTEXT_SWITCH_COUNTER k' = CONTEXT_SWITCH_COUNTER k + Z.of_nat (length us).
Proof.
  revert k o. induction us as [|u us IH]; intros k o Hus [Hk Hmod Hrange] Hpos Hfit.
  { exists k, o. split; [done|]. simpl. lia. }
  apply Forall_cons in Hus as [Hu Hus]. cbn [length] in *.
  destruct (one_turn u k o) as (k1 & c1 & v & Hrun & Hk1 & _ & _ & Ht1 & Hc1 & _); [done..|lia|done|lia|].
  unfold wrap in Hc1. rewrite Z.mod_small in Hc1 by lia.
  destruct (IH k1 (Some c1)) as (k' & o' & Hrun' & Hc'); [done| |lia|lia|].
  { split; [done|rewrite Ht1, Zplus_mod, Hmod; done|lia]. }
  exists k', o'. unfold ticks_of. rewrite bind_cons, run_ticks_app, Hrun. cbn [mbind outcome_bind].
  split; [done|]. lia.
Qed.

Lemma ticks_of_snoc us u : ticks_of (us ++ [u]) = ticks_of us ++ (quiet u ++ [switching u]).
Proof. unfold ticks_of. rewrite bind_app. simpl. by rewrite app_nil_r. Qed.

Lemma in_cycle c i n : 0 ≤ c < n → 0 < i < n → (c + i) mod n ≠ c.
Proof.
  intros Hc Hi Heq. assert (i mod n = 0) as Hz.
  { replace i with ((c + i) - c) by lia. rewrite Zminus_mod, Heq.
    rewrite (Z.mod_small c), Z.sub_diag by lia. done. }
  rewrite Z.mod_small in Hz; lia.
Qed.
End turns.

(** ** What preemption promises *)
Section theorems.
Context `{Build}.

(** Preemptive round robin.  Whatever the tasks do between interrupts, after
    [10 n] ticks the slot [n] places further, in cyclic order, is running and
    the others are ready: every task gets every [num_tasks]-th turn, and no task
    can keep the core. *)
Theorem arm_round_robin us k o :
  Forall turn_ok us → at_turn (length us) k →
  ∃ k' o', run_ticks (ticks_of us) k o = Ok (k', o') ∧
    current_task (SCHEDULER k') =
      (current_task (SCHEDULER k) + Z.of_nat (length us)) mod num_tasks (SCHEDULER k) ∧
    num_tasks (SCHEDULER k') = num_tasks (SCHEDULER k) ∧
    all_runnable (SCHEDULER k') ∧ arm_inv (SCHEDULER k').
Proof.
  intros Hus Hk. destruct (many_turns us k o Hus Hk) as (k' & o' & Hrun & [Hk' _ _] & Hn & Hc & _).
  exists k', o'. by destruct Hk'.
Qed.

(** The benchmark's counter counts the switches: [n] turns after a reset it
    reads [n]. *)
Theorem arm_counts_switches us k o :
  Forall turn_ok us → at_turn (length us) k →
  ∃ k' o', run_ticks (ticks_of us) (reset_switch_counter k) o = Ok (k', o') ∧
    get_switch_count k' = Z.of_nat (length us).
Proof.
  intros Hus [Hk Hmod Hrange].
  destruct (turns_counted us (reset_switch_counter k) o Hus) as (k' & o' & Hrun & Hc);
    [split; [by destruct Hk|done|simpl; lia]|done|simpl; lia|]. by exists k', o'.
Qed.

(** C9: a task comes back as it was.  When each of the tasks in use has had its
    turn, the first one is resumed: all thirty-one registers, the program
    counter and the processor state are those it was interrupted with one cycle
    before, whatever the other tasks did; its stack pointer is the top of its
    stack again. *)
Theorem arm_cycle_resumes u us k o :
  Forall turn_ok (u :: us) → at_turn (length (u :: us)) k →
  num_tasks (SCHEDULER k) = Z.of_nat (length (u :: us)) →
  let c := tick_cpu (switching u) in
  ∃ k' c' t, run_ticks (ticks_of (u :: us)) k o = Ok (k', Some c') ∧
    current_task (SCHEDULER k') = current_task (SCHEDULER k) ∧
    tasks (SCHEDULER k) !! Z.to_nat (current_task (SCHEDULER k)) = Some t ∧
    gpr c' = gpr c ∧ cpu_pc c' = cpu_elr c ∧ cpu_spsr c' = cpu_spsr c ∧
    cpu_sp c' = task_stack t + TASK_STACK_SIZE.
Proof.
  intros Hus Hk Hn c. apply Forall_cons in Hus as [Hu Hus]. destruct Hk as [Hk Hmod Hrange].
  pose proof (turn_inv k Hk) as Hinv. pose proof (inv_current _ Hinv) as Hcur.
  pose proof (inv_num _ Hinv) as Hnum. unfold MAX_TASKS in Hnum. cbn [length] in *.
  set (s := SCHEDULER k) in *. set (n0 := Z.to_nat (current_task s)).
  destruct (lookup_used s (current_task s) Hinv) as [t Ht]; [lia|].
  destruct (one_turn u k o) as (k1 & c1 & v & Hrun & Hk1 & Hn1 & Hcur1 & Ht1 & _ & Hslots & Hv & Hregs);
    [done..|lia|done|lia|]. fold s in Hn1, Hcur1, Hslots, Hv.
  destruct (Hslots n0 t Ht) as (t1 & Hl1 & Hx1 & Hst1).
  unfold context_after in Hx1. rewrite decide_True in Hx1 by lia.
  destruct us as [|last mid _] using rev_ind.
  - assert (next_slot s = current_task s) as Hnext.
    { simpl in Hn. unfold next_slot. rewrite Hn, Z.mod_1_r. lia. }
    exists k1, c1, t. rewrite Hnext in *. fold n0 in Hv. assert (v = t1) as -> by congruence.
    rewrite Hx1 in Hregs. unfold ticks_of. rewrite bind_cons. cbn [mbind list_bind]. rewrite app_nil_r.
    destruct Hregs as (-> & -> & -> & ->). rewrite Hst1. done.
  - apply Forall_app in Hus as [Hmid [Hlast _]%Forall_cons]. rewrite length_app in *. simpl in Hn, Hrange.
    destruct (many_turns mid k1 (Some c1)) as (k2 & o2 & Hrun2 & [Hk2 Hmod2 Hr2] & Hn2 & Hcur2 & Ht2 & Hkept);
      [done|split; [done|rewrite Ht1, Zplus_mod, Hmod; done|lia]|].
    rewrite (slot_after_S s) in Hcur2 by done.
    destruct (Hkept n0 t1 Hl1) as (t2 & Hl2 & Hx2 & Hst2).
    { intros j Hj. rewrite (slot_after_S s) by done. unfold slot_after, n0. rewrite Z2Nat.id by lia.
      apply in_cycle; lia. }
    assert (next_slot (SCHEDULER k2) = current_task s) as Hnext.
    { unfold next_slot. rewrite Hcur2, Hn2, Hn1. unfold slot_after. rewrite Zplus_mod_idemp_l.
      replace (current_task s + Z.of_nat (S (length mid)) + 1) with (current_task s + 1 * num_tasks s) by lia.
      rewrite Z.mod_add by lia. apply Z.mod_small. lia. }
    destruct (one_turn last k2 o2) as (k' & c' & w & Hrun' & Hk' & _ & Hcur' & _ & _ & Hslots' & Hw & Hregs');
      [done..|lia|done|lia|].
    destruct (Hslots' n0 t2 Hl2) as (t3 & Hl3 & Hx3 & Hst3). rewrite Hnext in *. fold n0 in Hw.
    unfold context_after in Hx3. rewrite decide_False in Hx3.
    2: { rewrite Hcur2. unfold slot_after, n0. rewrite Z2Nat.id by lia. apply not_eq_sym, in_cycle; lia. }
    assert (w = t3) as -> by congruence. rewrite Hx3, Hx2, Hx1 in Hregs'.
    exists k', c', t. replace (u :: mid ++ [last]) with ((u :: mid) ++ [last]) by done.
    rewrite ticks_of_snoc, run_ticks_app. unfold ticks_of at 1. rewrite bind_cons, run_ticks_app, Hrun.
    cbn [mbind outcome_bind]. fold (ticks_of mid). rewrite Hrun2. cbn [mbind outcome_bind]. rewrite Hrun'.
    destruct Hregs' as (-> & -> & -> & ->). rewrite Hst3, Hst2, Hst1. done.
Qed.
End theorems.

(** ** A concrete run: two tasks *)
Definition sample_tick : Tick := mkTick 30 (replicate 31 0) sample_cpu.
Definition sample_turn : Turn := mkTurn (replicate 9 sample_tick) sample_tick.

Lemma sample_turn_ok : turn_ok sample_turn.
Proof. split; [done|]. split; [|done]. by repeat (apply Forall_cons; split; [done|]). Qed.

Lemma sample_at_turn : at_turn 2 (sample_statics 0).
Proof.
  split; [|done|done]. split; [apply running_two_inv| |done|done].
  intros [|[|i]] t Ht Hi; simpl in Ht; [by injection Ht as <-|by injection Ht as <-|].
  cbn [num_tasks SCHEDULER sample_statics] in Hi. change (num_tasks running_two) with 2 in Hi. lia.
Qed.

Lemma arm_round_robin_witness :
  ∃ k' o', run_ticks (H := Dev) (ticks_of [sample_turn; sample_turn]) (sample_statics 0) None = Ok (k', o') ∧
    current_task (SCHEDULER k') = 0.
Proof.
  destruct (arm_round_robin (H := Dev) [sample_turn; sample_turn] (sample_statics 0) None)
    as (k' & o' & Hrun & Hc & _).
  - repeat (apply Forall_cons; split; [apply sample_turn_ok|]). apply Forall_nil_2.
  - apply sample_at_turn.
  - exists k', o'. split; [exact Hrun|exact Hc].
Defined.

Lemma arm_cycle_resumes_witness :
  ∃ k' c', run_ticks (H := Dev) (ticks_of [sample_turn; sample_turn]) (sample_statics 0) None =
      Ok (k', Some c') ∧ gpr c' = gpr sample_cpu ∧ cpu_pc c' = 0x40090000.
Proof.
  destruct (arm_cycle_resumes (H := Dev) sample_turn [sample_turn] (sample_statics 0) None)
    as (k' & c' & t & Hrun & _ & _ & Hx & Hpc & _).
  - repeat (apply Forall_cons; split; [apply sample_turn_ok|]). apply Forall_nil_2.
  - apply sample_at_turn.
  - reflexivity.
  - exists k', c'. split; [exact Hrun|]. split; [exact Hx|exact Hpc].
Defined.
