(* ===== verification/Agreement.v ===== *)
(** * The two schedulers agree
    ([src/src/scheduler.rs] and [src/src/arch/aarch64/scheduler.rs])

    The x86-64 kernel keeps a queue of task ids, the AArch64 kernel scans an array
    of slots.  Both implement the round-robin interface, from which every task's
    fair share follows, and run side by side they make the same choices. *)
From S2P Require Import Prelude RoundRobin Task Scheduler Interrupts Preempt.
From S2P Require Import Arm ArmScheduler ArmTurns.

(** ** The x86-64 scheduler as a round robin

    A turn is what the running task does with its locks, and then the tick or the
    yield that makes it over; the task yields when it likes, and a tick comes when the
    interrupt controller lets it through ([Preempt]).  Turns in which tasks
    block, end, or are added or woken change the ring and are not among these. *)

Definition locking (l : Label) : Prop :=
  match l with Acquire _ | Preempt.Release _ => True | _ => False end.

(** The core is past its first tick, the tick counter does not wrap, and no task is
    inside the scheduler. *)
Record core_turning (n : nat) (c : Core) : Prop := {
  turning_inv : core_inv c;
  turning_current : is_Some (Scheduler.current_task (core_scheduler c));
  turning_free : lock_owner c !! SchedulerLock = None;
  turning_ticks : 0 < core_ticks c ∧ core_ticks c + Z.of_nat n < 2 ^ 64
}.

#[global] Instance queue_round_robin : RoundRobin Core TaskId := {
  rr_ok := core_turning;
  rr_ring c := ready_queue (core_scheduler c);
  rr_current c := Scheduler.current_task (core_scheduler c);
  rr_turn c c' := ∃ ls l, Forall locking ls ∧ (l = Preempt.Tick ∨ l = Yield) ∧ core_run (ls ++ [l]) c c'
}.

Lemma locking_run ls c c1 :
  Forall locking ls → core_run ls c c1 → core_inv c →
  core_inv c1 ∧ core_scheduler c1 = core_scheduler c ∧ core_ticks c1 = core_ticks c.
Proof.
  intros Hls Hrun. revert Hls. induction Hrun as [c|l ls c c2 c1 Hstep _ IH]; intros Hls Hinv; [done|].
  apply Forall_cons in Hls as [Hl Hls].
  destruct (IH Hls) as (Hinv1 & -> & ->); [by eapply core_step_inv|]. split; [done|]. by destruct Hstep.
Qed.

(** The step that ends a turn. *)
Lemma turn_switches l c c' i ring n :
  core_inv c → 0 < core_ticks c → core_ticks c + Z.of_nat (S n) < 2 ^ 64 →
  ready_queue (core_scheduler c) = i :: ring → l = Preempt.Tick ∨ l = Yield → core_step l c c' →
  core_turning n c' ∧ ready_queue (core_scheduler c') = ring ++ [i] ∧
  Scheduler.current_task (core_scheduler c') = Some i.
Proof.
  intros Hinv Hpos Hmax Hq Hl Hstep. pose proof (core_step_inv l c c' Hstep Hinv) as Hinv'.
  destruct (core_step_cases l c c' Hstep Hinv) as [(Hny & _ & Htick)|(o & m & Hm & Hsw)].
  { destruct Hl as [-> | ->]; [|done]. destruct Htick; [done|lia]. }
  destruct (hands_over_split c o m Hm) as [q Hq']. assert (m = i ∧ q = ring) as [-> ->] by (split; congruence).
  assert (∀ rest ticks serving, c' = switched o i rest ticks serving c →
    0 < ticks → ticks + Z.of_nat n < 2 ^ 64 → core_turning n c' ∧
    ready_queue (core_scheduler c') = ring ++ [i] ∧ Scheduler.current_task (core_scheduler c') = Some i) as Hdone.
  { intros rest ticks serving -> H1 H2.
    destruct (queue_switched c o i ring rest ticks serving) as [Hq1 Hc1]; [apply Hinv|done|].
    split_and!; [|done|done]. split; [done|by eexists| |].
    - destruct (core_scheduler_switched o i rest ticks serving c) as [_ ->]. apply Hm.
    - unfold switched. by case_decide. }
  destruct Hsw as [[_ ->]|(_ & _ & _ & ->)]; (eapply Hdone; [done| |]); unfold wrap; rewrite ?Z.mod_small; lia.
Qed.

#[global] Instance queue_round_robin_laws : RoundRobinLaws Core TaskId.
Proof.
  split; simpl.
  - intros n c [Hinv [o Ho] _ _]. split; [|apply (core_sched c Hinv)].
    pose proof (core_current c Hinv o Ho) as Hin. intros Hnil. rewrite Hnil in Hin. by apply not_elem_of_nil in Hin.
  - intros n c [Hinv Ho Hfree _]. destruct (yields_run 1 c Hinv Ho Hfree) as [c' Hrun].
    exists c', [], Yield. split_and!; [by apply Forall_nil|by right|done].
  - intros n c c' i ring [Hinv _ _ [Hpos Hmax]] Hring (ls & l & Hls & Hl & Hrun).
    apply core_run_split in Hrun as (c1 & H1 & H2). inversion_clear H2 as [|? ? ? c2 ? Hstep Hnil].
    inversion Hnil; subst. destruct (locking_run ls c c1 Hls H1 Hinv) as (Hinv1 & Hs & Ht).
    by apply (turn_switches l c1 c'); rewrite ?Hs, ?Ht.
Qed.

(** ** The AArch64 scheduler as a round robin

    A turn is ten timer ticks, with whatever the tasks do in between. *)
Section slots.
Context `{Build}.

#[global] Instance slot_round_robin : RoundRobin Statics Z := {
  rr_ok := at_turn;
  rr_ring k := (λ j, slot_after (SCHEDULER k) (S j)) <$> seq 0 (Z.to_nat (num_tasks (SCHEDULER k)));
  rr_current k := Some (current_task (SCHEDULER k));
  rr_turn k k' := ∃ u o o', turn_ok u ∧ run_ticks (quiet u ++ [switching u]) k o = Ok (k', o')
}.

Lemma slot_after_period s n :
  0 < num_tasks s → slot_after s (n + Z.to_nat (num_tasks s)) = slot_after s n.
Proof.
  intros Hn. unfold slot_after.
  replace (current_task s + _) with (current_task s + Z.of_nat n + 1 * num_tasks s) by lia.
  by rewrite Z.mod_add by lia.
Qed.

Lemma slots_distinct c n i j :
  0 < n → (c + Z.of_nat (S i)) mod n = (c + Z.of_nat (S j)) mod n →
  Z.of_nat i < n → Z.of_nat j < n → i = j.
Proof.
  intros Hn Heq Hi Hj. pose proof (Z.div_mod (c + Z.of_nat (S i)) n). pose proof (Z.div_mod (c + Z.of_nat (S j)) n).
  assert (n * ((c + Z.of_nat (S i)) / n - (c + Z.of_nat (S j)) / n) = Z.of_nat i - Z.of_nat j) as Hd by lia.
  assert ((c + Z.of_nat (S i)) / n - (c + Z.of_nat (S j)) / n = 0); [nia|]. lia.
Qed.

(** A turn rotates the ring of slots. *)
Lemma slot_ring_rotates k k' i ring :
  turning k → num_tasks (SCHEDULER k') = num_tasks (SCHEDULER k) →
  current_task (SCHEDULER k') = next_slot (SCHEDULER k) →
  rr_ring k = i :: ring → rr_ring k' = ring ++ [i] ∧ current_task (SCHEDULER k') = i.
Proof.
  intros [_ _ Hn _] Hnum Hcur. simpl. set (s := SCHEDULER k) in *. rewrite Hnum.
  assert (∀ j, slot_after (SCHEDULER k') j = slot_after s (S j)) as Hshift
    by (intros j; by apply slot_after_S).
  destruct (Z.to_nat (num_tasks s)) as [|n] eqn:Hz; [lia|]. intros [= <- <-].
  rewrite (list_fmap_ext _ (λ j, slot_after s (S (S j)))) by (intros; apply Hshift).
  rewrite seq_S, fmap_app, Hcur. split.
  - f_equal; [by rewrite <- fmap_S_seq, <- list_fmap_compose|]. simpl. f_equal.
    pose proof (slot_after_period s 1 Hn) as Hp. by rewrite Hz in Hp.
  - reflexivity.
Qed.

#[global] Instance slot_round_robin_laws : RoundRobinLaws Statics Z.
Proof.
  split.
  - intros n k [Hk _ _]. pose proof (turn_tasks k Hk) as Hn. split.
    + simpl. destruct (Z.to_nat _) eqn:Hz; [lia|done].
    + apply NoDup_fmap_2_strong; [|apply NoDup_seq]. intros i j Hi%elem_of_seq Hj%elem_of_seq Heq.
      pose proof (inv_current _ (turn_inv k Hk)). unfold slot_after in Heq.
      apply slots_distinct in Heq; lia.
  - intros n k Hk. destruct Hk as [Hk Hmod Hrange].
    destruct (one_turn sample_turn k None sample_turn_ok Hk) as (k' & c' & v & Hrun & _); [lia|done|lia|].
    exists k', sample_turn, None, (Some c'). split; [apply sample_turn_ok|exact Hrun].
  - intros n k k' i ring [Hk Hmod Hrange] Hring (u & o & o' & Hu & Hrun).
    destruct (one_turn u k o Hu Hk) as (k1 & c1 & v & Hrun1 & Hk1 & Hn1 & Hc1 & Ht1 & _); [lia|done|lia|].
    rewrite Hrun in Hrun1. injection Hrun1 as -> ->.
    destruct (slot_ring_rotates k k1 i ring Hk Hn1 Hc1 Hring) as [Hring' Hcur].
    split_and!; [|done|simpl; by rewrite Hcur].
    split; [done|rewrite Ht1, Zplus_mod, Hmod; done|lia].
Qed.
End slots.

(** ** What tasks can count on, on both *)


(** Slot [j] holds the task at place [j] of the queue [q]. *)
Definition same_task (q : list TaskId) (i : TaskId) (j : Z) : Prop := q !! Z.to_nat j = Some i.

(** With slot 0 running on one side, and the first of the tasks on the other, the
    rings correspond. *)
Lemma rings_agree `{Build} i0 rest st :
  num_tasks (SCHEDULER st) = Z.of_nat (S (length rest)) → current_task (SCHEDULER st) = 0 →
  Forall2 (same_task (i0 :: rest)) (rest ++ [i0]) (rr_ring st).
Proof.
  intros Hn Hc. simpl. rewrite Hn. apply Forall2_same_length_lookup_2.
  { rewrite length_app, length_fmap, length_seq. simpl. lia. }
  intros j i v Hi Hv. apply list_lookup_fmap_Some in Hv as (j' & -> & [-> Hj]%lookup_seq).
  unfold same_task, slot_after. rewrite Hc, Hn, Nat.add_0_l.
  destruct (decide (j < length rest)%nat) as [Hlt|Hge].
  - rewrite lookup_app_l in Hi by done.
    rewrite Z.add_0_l, Z.mod_small, Nat2Z.id by lia. done.
  - assert (j = length rest) as -> by (simpl in Hj; lia).
    rewrite lookup_app_r, Nat.sub_diag in Hi by lia. injection Hi as <-.
    rewrite Z.add_0_l, Z_mod_same_full. done.
Qed.

(** C13: the two kernels schedule alike.  Let the same number of tasks be runnable
    on both, task [i0] running on x86-64 and queued last, behind [rest], as it is
    after every switch, with the scheduler lock free, the first tick past and the tick
    counter not about to wrap, and slot 0 running on AArch64.  Then in any two runs of
    [n] turns corresponding tasks get every turn: the slot on AArch64 is the place of the
    task on x86-64 in [i0 :: rest].  On x86-64 these are the runs in which
    tasks lock, yield and are ticked, and none blocks, ends, or is added or
    woken; there is such a run when the tasks yield often enough.  On AArch64
    the tasks do whatever they like, and [n] turns always come. *)
Theorem schedulers_agree `{Build} c i0 rest st n :
  core_reachable c → Scheduler.current_task (core_scheduler c) = Some i0 →
  ready_queue (core_scheduler c) = rest ++ [i0] → lock_owner c !! SchedulerLock = None →
  0 < core_ticks c → core_ticks c + Z.of_nat n < 2 ^ 64 →
  at_turn n st → num_tasks (SCHEDULER st) = Z.of_nat (S (length rest)) → current_task (SCHEDULER st) = 0 →
  (∃ picked c', rr_run picked c c' ∧ length picked = n) ∧
  (∃ turns st', rr_run turns st st' ∧ length turns = n) ∧
  ∀ picked c' turns st',
    rr_run picked c c' → rr_run turns st st' → length picked = n → length turns = n →
    Forall2 (same_task (i0 :: rest)) picked turns.
Proof.
  intros Hinv%core_reachable_inv Ho Hq Hfree Hpos Hmax Hst Hn Hc.
  assert (core_turning n c) as Hok by (split; [done|by eexists|done..]).
  split_and!; [by apply rr_run_exists|by apply rr_run_exists|].
  intros picked c' turns st' Hp Ht <- Hlen.
  apply (rr_agree (same_task (i0 :: rest)) c st picked turns c' st'); [done|by rewrite Hlen| |done..].
  simpl. rewrite Hq. by apply rings_agree.
Qed.

(** ** Two tasks on both *)

Definition two_core : Core := mkCore two_tasks 5 false ∅ ∅.

Lemma two_core_reachable : core_reachable two_core.
Proof.
  exists two_core, []. split; [|constructor]. split; [apply sched_reachable_inv, two_tasks_reachable| |done|done].
  intros o Ho. change (Some (TaskId_new 1) = Some o) in Ho. injection Ho as <-. right. left.
Qed.

Lemma schedulers_agree_witness :
  ∃ picked c' turns st',
    rr_run picked two_core c' ∧ rr_run (RoundRobin0 := slot_round_robin (H := Dev)) turns (sample_statics 0) st' ∧
    length turns = 2%nat ∧ Forall2 (same_task [TaskId_new 1; TaskId_new 2]) picked turns.
Proof.
  destruct (schedulers_agree (H := Dev) two_core (TaskId_new 1) [TaskId_new 2] (sample_statics 0) 2)
    as ((picked & c' & Hp & Hlp) & (turns & st' & Ht & Hlt) & Hagree).
  - apply two_core_reachable.
  - reflexivity.
  - reflexivity.
  - reflexivity.
  - reflexivity.
  - reflexivity.
  - apply sample_at_turn.
  - reflexivity.
  - reflexivity.
  - exists picked, c', turns, st'. split; [exact Hp|]. split; [exact Ht|]. split; [exact Hlt|].
    exact (Hagree picked c' turns st' Hp Ht Hlp Hlt).
Defined.

