(* ===== verification/ArmDevices.v ===== *)
(** * AArch64 device drivers
    ([uart.rs], [gic.rs], [timer.rs] under [src/src/arch/aarch64/])

    The UART routines here are those of [uart.rs]; [ArmConsole] has the copies in the
    other modules.  Device registers are memory-mapped: a driver is the list of accesses
    it makes, given what the registers it reads answer. *)
From S2P Require Import Prelude.

(** ** The UART *)

Definition UART_BASE : Z := 0x09000000.
Definition UART_DR : Z := UART_BASE + 0x00.
Definition UART_FR : Z := UART_BASE + 0x18.
Definition UART_FR_TXFF : Z := Z.shiftl 1 5.

(** [while (read(UART_FR) & UART_FR_TXFF) != 0 {}] on the values the flag register
    answers from now on; [None] when the FIFO stays full for all of them. *)
Fixpoint wait_tx (fr : list Z) : option (list Z) :=
  match fr with
  | [] => None
  | v :: fr => if Z.land v UART_FR_TXFF =? 0 then Some fr else wait_tx fr
  end.

(** [uart_putc]: the remaining flag values and the byte written to [UART_DR]. *)
Definition uart_putc (fr : list Z) (c : Z) : option (list Z * list Z) :=
  fr ← wait_tx fr; Some (fr, [c]).

Definition newline : Z := 10.
Definition carriage_return : Z := 13.

Fixpoint uart_puts (fr : list Z) (s : list Z) : option (list Z * list Z) :=
  match s with
  | [] => Some (fr, [])
  | byte :: s =>
      '(fr, out1) ← (if byte =? newline then uart_putc fr carriage_return else Some (fr, []));
      '(fr, out2) ← uart_putc fr byte;
      '(fr, out3) ← uart_puts fr s;
      Some (fr, out1 ++ out2 ++ out3)
  end.

(** The driver object of [uart.rs], whose [base] nothing reads, and its lock. *)
Record Uart := mkUart { base : Z }.
Definition Uart_new : Uart := mkUart UART_BASE.
Definition Uart_init (self : Uart) : Uart := self.

Definition Uart_write_byte (self : Uart) (fr : list Z) (byte : Z) : option (list Z * list Z) :=
  fr ← wait_tx fr; Some (fr, [byte]).

Fixpoint Uart_write_string (self : Uart) (fr : list Z) (s : list Z) : option (list Z * list Z) :=
  match s with
  | [] => Some (fr, [])
  | byte :: s =>
      '(fr, out1) ← (if byte =? newline then Uart_write_byte self fr carriage_return else Some (fr, []));
      '(fr, out2) ← Uart_write_byte self fr byte;
      '(fr, out3) ← Uart_write_string self fr s;
      Some (fr, out1 ++ out2 ++ out3)
  end.

(** [write_str], with [UART] held or free. *)
Definition write_str (locked : bool) (fr : list Z) (s : list Z) : outcome (option (list Z * list Z)) :=
  if locked then Hang else Ok (Uart_write_string Uart_new fr s).

(** [uart::init]. *)
Definition init (locked : bool) : outcome Uart := if locked then Hang else Ok (Uart_init Uart_new).

(** [fmt::Write::write_str], which cannot fail. *)
Definition Uart_write_str (self : Uart) (fr : list Z) (s : list Z) : option (list Z * list Z) :=
  Uart_write_string self fr s.

(** [write!] on the strings that [core::fmt] renders, under the lock, and the
    two macros. *)
Fixpoint write_pieces (self : Uart) (fr : list Z) (args : list (list Z)) : option (list Z * list Z) :=
  match args with
  | [] => Some (fr, [])
  | piece :: args =>
      '(fr, out1) ← Uart_write_str self fr piece;
      '(fr, out2) ← write_pieces self fr args;
      Some (fr, out1 ++ out2)
  end.

Definition uart_print (locked : bool) (fr : list Z) (args : list (list Z)) : outcome (option (list Z * list Z)) :=
  if locked then Hang else Ok (write_pieces Uart_new fr args).

Definition uart_println (locked : bool) (fr : list Z) (args : list (list Z)) : outcome (option (list Z * list Z)) :=
  uart_print locked fr (args ++ [[newline]]).

(** [b"0123456789ABCDEF"] *)
Definition HEX_CHARS : list Z :=
  [48; 49; 50; 51; 52; 53; 54; 55; 56; 57; 65; 66; 67; 68; 69; 70].

(** The loop of [uart_puts_hex]: [n] iterations from iteration [i] on. *)
Fixpoint hex_loop (n i : nat) (val : Z) (buf : list Z) : outcome (list Z) :=
  match n with
  | O => Ok buf
  | S n =>
      c ← unwrap (HEX_CHARS !! Z.to_nat (Z.land val 0xF));
      hex_loop n (S i) (Z.shiftr val 4) (<[(15 - i)%nat := c]> buf)
  end.

(** The sixteen bytes [uart_puts_hex] prints. *)
Definition hex_digits (val : Z) : outcome (list Z) := hex_loop 16 0 val (replicate 16 0).

(** [for &b in &buf { uart_putc(b) }] *)
Fixpoint send_bytes (fr : list Z) (bytes : list Z) : option (list Z * list Z) :=
  match bytes with
  | [] => Some (fr, [])
  | b :: bytes =>
      '(fr, out1) ← uart_putc fr b; '(fr, out2) ← send_bytes fr bytes; Some (fr, out1 ++ out2)
  end.

Definition uart_puts_hex (fr : list Z) (val : Z) : outcome (option (list Z * list Z)) :=
  buf ← hex_digits val; Ok (send_bytes fr buf).

(** ** The interrupt controller *)

Definition GICD_BASE : Z := 0x08000000.
Definition GICD_CTLR : Z := GICD_BASE + 0x000.
Definition GICD_ISENABLER0 : Z := GICD_BASE + 0x100.
Definition GICD_IPRIORITYR : Z := GICD_BASE + 0x400.
Definition GICC_BASE : Z := 0x08010000.
Definition GICC_CTLR : Z := GICC_BASE + 0x000.
Definition GICC_PMR : Z := GICC_BASE + 0x004.
Definition GICC_EOIR : Z := GICC_BASE + 0x010.
Definition ARM_TIMER_IRQ : Z := 30.

(** [for i in 0..n { write_volatile(base + i * 4, v) }] *)
Definition write_range (base n v : Z) : list (Z * Z) := (λ i, (base + i * 4, v)) <$> seqZ 0 n.

(** [gic::init]: the words written, in order, given the type register. *)
Definition num_interrupts (typer : Z) : Z := (Z.land typer 0x1F + 1) * 32.

Definition gic_init (typer : Z) : list (Z * Z) :=
  let n := num_interrupts typer in
  [(GICD_CTLR, 0)]
  ++ write_range GICD_ISENABLER0 (n / 32) 0xFFFFFFFF
  ++ write_range GICD_IPRIORITYR (n / 4) 0xA0A0A0A0
  ++ [(GICD_CTLR, 1)] ++ [(GICC_PMR, 0xFF)] ++ [(GICC_CTLR, 1)].

(** [enable_interrupt]: the word written, given the register's current value. *)
Definition enable_interrupt (irq_num current : Z) : Z * Z :=
  let reg := GICD_ISENABLER0 + irq_num / 32 * 4 in
  let bit := Z.shiftl 1 (irq_num mod 32) in
  (reg, Z.lor current bit).

Definition enable_timer_interrupt (current : Z) : Z * Z := enable_interrupt ARM_TIMER_IRQ current.

(** [acknowledge_interrupt]: the register it reads, whose value is the interrupt
    number. *)
Definition GICC_IAR : Z := GICC_BASE + 0x00C.
Definition acknowledge_interrupt (read : Z → Z) : Z := read GICC_IAR.

Definition end_of_interrupt (irq_num : Z) : Z * Z := (GICC_EOIR, irq_num).

(** The wrappers the exception handlers call. *)
Definition gic_acknowledge_interrupt (read : Z → Z) : Z := acknowledge_interrupt read.
Definition gic_end_of_interrupt (irq_num : Z) : Z * Z := end_of_interrupt irq_num.

(** Which interrupts are enabled after a sequence of writes: a one written to a
    set-enable register enables, a zero has no effect. *)
Definition sets_enable (irq : Z) (w : Z * Z) : bool :=
  (fst w =? GICD_ISENABLER0 + irq / 32 * 4) && Z.testbit (snd w) (irq mod 32).

Definition enabled_after (irq : Z) (writes : list (Z * Z)) (before : bool) : bool :=
  before || existsb (sets_enable irq) writes.

(** ** The timer *)

(** The value [init] and [rearm] write to [CNTP_TVAL_EL0]. *)
Definition timer_tval (freq : Z) : Z :=
  let ticks_per_10ms := freq / 100 in wrap 32 ticks_per_10ms.

(** [get_counter]: CNTPCT_EL0 *)
Definition get_counter (cntpct_el0 : Z) : Z := cntpct_el0.
Definition timer_rearm (freq : Z) : Z := timer_tval freq.

(** ** What the component promises *)

(** The bytes a string should put on the line. *)
Definition with_crlf (s : list Z) : list Z :=
  s ≫= λ b, if b =? newline then [carriage_return; b] else [b].

Definition ready (v : Z) : Prop := Z.land v UART_FR_TXFF = 0.

Lemma wait_tx_ready v fr : ready v → wait_tx (v :: fr) = Some fr.
Proof. unfold ready. intros Hv. simpl. by rewrite Hv. Qed.

(** Flag values with enough ready ones among them to send [n] bytes. *)
Fixpoint room (n : nat) (fr : list Z) : Prop :=
  match fr with
  | [] => n = O
  | v :: fr => if Z.land v UART_FR_TXFF =? 0 then n = O ∨ room (pred n) fr else n = O ∨ room n fr
  end.

Lemma wait_tx_room n fr : room (S n) fr → ∃ fr', wait_tx fr = Some fr' ∧ room n fr'.
Proof.
  induction fr as [|v fr IH]; simpl; [done|].
  destruct (_ =? 0); intros [?|?]; [done| |done|by apply IH]. by exists fr.
Qed.

Lemma room_0 fr : room 0 fr.
Proof. destruct fr as [|v fr]; simpl; [done|]. destruct (_ =? 0); by left. Qed.

(** [uart_puts] sends the string with every line feed preceded by a carriage
    return, byte for byte and in order, as soon as the flag register reports
    room often enough, however often it reports a full FIFO in between. *)
Theorem uart_puts_sends fr s :
  room (length (with_crlf s)) fr → ∃ fr', uart_puts fr s = Some (fr', with_crlf s).
Proof.
  revert fr. induction s as [|b s IH]; intros fr Hroom; [by exists fr|].
  unfold with_crlf in *. csimpl in *. unfold uart_putc.
  destruct (b =? newline); csimpl in *.
  - apply wait_tx_room in Hroom as (fr1 & -> & Hroom). simpl.
    apply wait_tx_room in Hroom as (fr2 & -> & Hroom). simpl.
    apply IH in Hroom as (fr3 & ->). by eexists.
  - apply wait_tx_room in Hroom as (fr1 & -> & Hroom). simpl.
    apply IH in Hroom as (fr2 & ->). by eexists.
Qed.

Lemma send_bytes_room fr bytes :
  room (length bytes) fr → ∃ fr', send_bytes fr bytes = Some (fr', bytes).
Proof.
  revert fr. induction bytes as [|b bytes IH]; intros fr Hroom; [by exists fr|]. simpl. unfold uart_putc.
  apply wait_tx_room in Hroom as (fr1 & -> & Hroom). simpl.
  apply IH in Hroom as (fr2 & ->). by eexists.
Qed.

(** The driver object sends what the free functions send. *)
Theorem uart_driver_agrees self fr s : Uart_write_string self fr s = uart_puts fr s.
Proof.
  revert fr. induction s as [|b s IH]; intros fr; [done|]. simpl.
  change (Uart_write_byte self) with uart_putc.
  destruct (if _ =? _ then _ else _) as [[fr1 out1]|]; simpl; [|done].
  destruct (uart_putc fr1 b) as [[fr2 out2]|]; simpl; [by rewrite IH|done].
Qed.

(** Sending two strings is sending one after the other. *)
Lemma uart_puts_app fr s1 s2 :
  uart_puts fr (s1 ++ s2) =
  '(fr, out1) ← uart_puts fr s1; '(fr, out2) ← uart_puts fr s2; Some (fr, out1 ++ out2).
Proof.
  revert fr. induction s1 as [|b s1 IH]; intros fr; simpl.
  { by destruct (uart_puts fr s2) as [[? ?]|]. }
  destruct (if _ =? _ then _ else _) as [[fr1 out1]|]; simpl; [|done].
  destruct (uart_putc fr1 b) as [[fr2 out2]|]; simpl; [|done]. rewrite IH.
  destruct (uart_puts fr2 s1) as [[fr3 out3]|]; simpl; [|done].
  destruct (uart_puts fr3 s2) as [[fr4 out4]|]; simpl; [|done]. by rewrite <- !app_assoc.
Qed.

(** The macros print what was rendered, as one string, when the lock is free, and
    spin for ever when it is held. *)
Theorem uart_print_sends fr args :
  uart_print true fr args = Hang ∧
  (room (length (with_crlf (mjoin args))) fr →
    ∃ fr', uart_print false fr args = Ok (Some (fr', with_crlf (mjoin args)))) ∧
  (room (length (with_crlf (mjoin args ++ [newline]))) fr →
    ∃ fr', uart_println false fr args = Ok (Some (fr', with_crlf (mjoin args ++ [newline])))).
Proof.
  assert (∀ fr args, write_pieces Uart_new fr args = uart_puts fr (mjoin args)) as Hpieces.
  { clear fr args. intros fr args. revert fr. induction args as [|piece args IH]; intros fr; [done|].
    cbn [write_pieces mjoin list_join]. rewrite uart_puts_app. unfold Uart_write_str. rewrite uart_driver_agrees.
    destruct (uart_puts fr piece) as [[fr1 out1]|]; simpl; [|done]. by rewrite IH. }
  split; [done|]. unfold uart_println, uart_print. rewrite !Hpieces. split.
  - intros (fr' & ->)%uart_puts_sends. by exists fr'.
  - rewrite join_app. cbn [mjoin list_join]. rewrite app_nil_r.
    intros (fr' & ->)%uart_puts_sends. by exists fr'.
Qed.

(** Reading sixteen hexadecimal digits back. *)
Definition digit_value (c : Z) : Z := if c <=? 57 then c - 48 else c - 55.
Definition parse_hex (l : list Z) : Z := foldl (λ acc c, 16 * acc + digit_value c) 0 l.

Definition upper_hex (c : Z) : Prop := 48 ≤ c ≤ 57 ∨ 65 ≤ c ≤ 70.

Lemma hex_char d : 0 ≤ d < 16 →
  ∃ c, HEX_CHARS !! Z.to_nat d = Some c ∧ digit_value c = d ∧ upper_hex c.
Proof.
  intros Hd. assert (∀ n, (n < 16)%nat → ∃ c, HEX_CHARS !! n = Some c ∧
    digit_value c = Z.of_nat n ∧ upper_hex c) as Hall.
  { intros n Hn. unfold upper_hex, digit_value.
    do 16 (destruct n as [|n];
      [eexists; split; [reflexivity|]; simpl; split; [reflexivity|]; intuition lia|]).
    exfalso. lia. }
  destruct (Hall (Z.to_nat d)) as (c & ? & Hc & ?); [lia|]. exists c. rewrite Hc.
  split_and!; [done|lia|done].
Qed.

(** The loop writes the low digits of [val] into the last free places. *)
Lemma hex_loop_spec n val suffix :
  0 ≤ val < 16 ^ Z.of_nat n → (n + length suffix = 16)%nat →
  ∃ digits, hex_loop n (length suffix) val (replicate n 0 ++ suffix) = Ok (digits ++ suffix) ∧
    length digits = n ∧ parse_hex digits = val ∧ Forall upper_hex digits.
Proof.
  revert val suffix. induction n as [|n IH]; intros val suffix Hval Hlen.
  { exists []. split_and!; [done|done| |apply Forall_nil_2].
    change (16 ^ Z.of_nat 0) with 1 in Hval. unfold parse_hex. simpl. lia. }
  cbn [hex_loop]. change 0xF with (Z.ones 4). rewrite Z.land_ones, Z.shiftr_div_pow2 by lia.
  change (2 ^ 4) with 16. pose proof (Z.mod_pos_bound val 16 ltac:(lia)) as Hd.
  destruct (hex_char (val mod 16) Hd) as (c & -> & Hc & Hr). cbn [unwrap mbind outcome_bind].
  rewrite replicate_S_end, <- app_assoc.
  replace (15 - length suffix)%nat with (length (replicate n 0%Z) + 0)%nat
    by (rewrite length_replicate; lia).
  rewrite insert_app_r. cbn [app insert list_insert].
  destruct (IH (val / 16) (c :: suffix)) as (ds & Hrun & Hl & Hp & Hall).
  { rewrite Nat2Z.inj_succ, Z.pow_succ_r in Hval by lia.
    split; [apply Z.div_pos; lia|apply Z.div_lt_upper_bound; lia]. }
  { simpl. lia. }
  simpl length in Hrun. exists (ds ++ [c]). rewrite <- app_assoc. split_and!; [exact Hrun| | |].
  - rewrite length_app. simpl. lia.
  - unfold parse_hex in *. rewrite foldl_app, Hp. simpl. rewrite Hc.
    pose proof (Z.div_mod val 16). lia.
  - apply Forall_app. split; [done|]. by apply Forall_singleton.
Qed.

(** [uart_puts_hex] prints every 64-bit value as sixteen upper-case hexadecimal
    digits that read back as the value; no table access is out of bounds. *)
Theorem uart_hex_roundtrip val :
  in_u 64 val →
  ∃ digits, hex_digits val = Ok digits ∧ length digits = 16%nat ∧ parse_hex digits = val ∧
    Forall upper_hex digits.
Proof.
  intros Hval. destruct (hex_loop_spec 16 val []) as (ds & Hrun & Hl & Hp & Hall); [done|done|].
  rewrite !app_nil_r in Hrun. by exists ds.
Qed.

(** After [gic::init] every interrupt line the distributor has is enabled.
    The loop its comment calls a disabling one writes ones to the set-enable
    registers, which have no other effect than to enable. *)
Theorem gic_init_enables_all typer irq :
  0 ≤ irq < num_interrupts typer → enabled_after irq (gic_init typer) false = true.
Proof.
  intros Hirq. unfold enabled_after. rewrite orb_false_l. apply existsb_exists.
  exists (GICD_ISENABLER0 + irq / 32 * 4, 0xFFFFFFFF). split.
  - apply list_elem_of_In. unfold gic_init. rewrite !elem_of_app. right. left.
    unfold write_range. apply list_elem_of_fmap. exists (irq / 32). split; [done|].
    apply elem_of_seqZ. split; [apply Z.div_pos; lia|]. rewrite Z.add_0_l.
    unfold num_interrupts in *. rewrite Z.div_mul by done.
    apply Z.div_lt_upper_bound; lia.
  - unfold sets_enable. cbn [fst snd]. rewrite Z.eqb_refl. simpl.
    change 0xFFFFFFFF with (Z.ones 32). apply Z.ones_spec_low.
    pose proof (Z.mod_pos_bound irq 32). lia.
Qed.

(** [enable_interrupt] sets exactly the bit of its interrupt in exactly its
    set-enable register and writes the other bits back as they were. *)
Theorem enable_interrupt_spec irq_num current b :
  0 ≤ irq_num → 0 ≤ b →
  let '(reg, v) := enable_interrupt irq_num current in
  reg = GICD_ISENABLER0 + 4 * (irq_num / 32) ∧
  Z.testbit v b = (b =? irq_num mod 32) || Z.testbit current b.
Proof.
  intros Hirq Hb. unfold enable_interrupt. split; [lia|].
  pose proof (Z.mod_pos_bound irq_num 32 ltac:(lia)).
  rewrite Z.lor_spec, orb_comm. f_equal. rewrite Z.shiftl_1_l, Z.pow2_bits_eqb by lia.
  apply Z.eqb_sym.
Qed.

(** The timer is re-armed for 10 ms, to the precision of the counter, at every
    frequency whose hundredth fits the 32-bit timer register. *)
Theorem timer_tval_spec freq :
  0 ≤ freq → freq < 100 * 2 ^ 32 →
  timer_tval freq = freq / 100 ∧ 100 * timer_tval freq ≤ freq < 100 * (timer_tval freq + 1).
Proof.
  intros H0 Hf. unfold timer_tval, wrap.
  assert (0 ≤ freq / 100 < 2 ^ 32) as Hb.
  { split; [apply Z.div_pos; lia|apply Z.div_lt_upper_bound; lia]. }
  rewrite Z.mod_small by done. split; [done|].
  pose proof (Z.div_mod freq 100). pose proof (Z.mod_pos_bound freq 100). lia.
Qed.

Lemma uart_hex_roundtrip_witness :
  ∃ digits, hex_digits 48879 = Ok digits ∧ parse_hex digits = 48879.
Proof.
  destruct (uart_hex_roundtrip 48879) as (ds & Hrun & _ & Hp & _); [done|].
  exists ds. split; [exact Hrun|exact Hp].
Defined.
