(* ===== verification/ArmConsole.v ===== *)
(** * What the AArch64 kernel prints
    ([src/src/main_aarch64.rs], [exceptions.rs], [scheduler.rs])

    The console of the AArch64 kernel is the sequence of bytes written to the data
    register of the UART.  Here are the macros that take the place of the formatting
    ones, the handlers that print before they halt, and the two messages of the
    interrupt path that [ArmScheduler] leaves out. *)
From stdpp Require Import strings.
From S2P Require Import Prelude ArmDevices.

(** ** The copies of the UART routines

    Every module has routines of its own to wait for the FIFO and write to the data
    register, so that no lock is taken: an interrupt handler can print while the
    code it interrupted was printing. *)
Record UartRoutines := mkUartRoutines {
  putc : list Z → Z → option (list Z * list Z);
  putstr : list Z → list Z → option (list Z * list Z);
  puthex : list Z → Z → outcome (option (list Z * list Z))
}.

Definition main_uart : UartRoutines := mkUartRoutines uart_putc uart_puts uart_puts_hex.
Definition exceptions_uart : UartRoutines := mkUartRoutines uart_putc uart_puts uart_puts_hex.
Definition timer_uart : UartRoutines := mkUartRoutines uart_putc uart_puts uart_puts_hex.
Definition mmu_uart : UartRoutines := mkUartRoutines uart_putc uart_puts uart_puts_hex.
Definition scheduler_uart : UartRoutines := mkUartRoutines uart_putc uart_puts uart_puts_hex.

(** What a copy must do, given a flag register that reports room often enough:
    bytes as they are, strings with carriage returns, numbers as sixteen digits
    that read back as the number. *)
Record prints (r : UartRoutines) : Prop := {
  prints_byte fr c : room 1 fr → ∃ fr', putc r fr c = Some (fr', [c]);
  prints_string fr s : room (length (with_crlf s)) fr → ∃ fr', putstr r fr s = Some (fr', with_crlf s);
  prints_hex fr val : in_u 64 val → room 16 fr →
    ∃ fr' digits, puthex r fr val = Ok (Some (fr', digits)) ∧ parse_hex digits = val ∧
      length digits = 16%nat
}.

(** What [uart_puts] of a literal puts on the line, see [uart_puts_sends]. *)
Definition puts (s : string) : list Z := with_crlf (bytes_of s).

(** ** The print macros *)

(** The four shapes of argument the macros tell apart; [MFmt] has at least one
    argument.  [MValue] is the format ["{}"] with one argument. *)
Inductive MacroArgs :=
  | MNone
  | MMsg (msg : string)
  | MValue (val : string)
  | MFmt (fmt : string) (args : list string).

Definition serial_print (a : MacroArgs) : list Z :=
  match a with
  | MNone => []
  | MMsg msg => puts msg
  | MValue val => puts val
  | MFmt fmt _ => puts fmt
  end.

Definition serial_println (a : MacroArgs) : list Z :=
  match a with
  | MNone => with_crlf [newline]
  | MMsg msg => puts msg ++ with_crlf [newline]
  | MValue val => puts val ++ with_crlf [newline]
  | MFmt fmt _ => puts fmt ++ with_crlf [newline]
  end.

(** ** Messages with numbers *)

(** [uart_puts_hex] *)
Definition puts_hex (val : Z) : outcome (list Z) := hex_digits val.

(** The message of [handle_irq] on every hundredth tick. *)
Definition tick_message (ticks : Z) : outcome (list Z) :=
  if ticks mod 100 =? 0 then
    digits ← puts_hex ticks;
    Ok (puts "[IRQ] Timer tick #" ++ digits ++ with_crlf [newline])
  else Ok [].

Section console.
Context `{Build}.

(** The message of [scheduler_switch_task], a byte at a time. *)
Definition switch_message (prev_task next_idx : Z) : outcome (list Z) :=
  p ← (0x30 +u[8] wrap 8 prev_task);
  n ← (0x30 +u[8] wrap 8 next_idx);
  Ok (bytes_of "[S] C=" ++ [p] ++ bytes_of " N=" ++ [n] ++ bytes_of " ").
End console.

(** [alloc_error_handler], up to its halt loop. *)
Definition alloc_error_handler (layout_size layout_align : Z) : outcome (list Z) :=
  size ← puts_hex layout_size;
  align ← puts_hex layout_align;
  Ok (puts (String (Ascii.ascii_of_nat 10) "[PANIC] Allocation error: size=") ++ size
      ++ puts " align=" ++ align ++ with_crlf [newline]).

(** The panic handler, up to its halt loop: it prints where, never why. *)
Definition panic (location_file : option string) : list Z :=
  with_crlf [newline]
  ++ puts "╔════════════════════════════════════════════════════════╗" ++ with_crlf [newline]
  ++ puts "║                    KERNEL PANIC                       ║" ++ with_crlf [newline]
  ++ puts "╚════════════════════════════════════════════════════════╝" ++ with_crlf [newline]
  ++ with_crlf [newline]
  ++ match location_file with
     | Some file => puts "Panic at " ++ puts file ++ with_crlf [newline]
     | None => puts "Panic at <unknown location>" ++ with_crlf [newline]
     end.

(** ** What the console shows *)

Lemma hex_digits_run val :
  in_u 64 val → ∃ digits, hex_digits val = Ok digits ∧ length digits = 16%nat ∧ parse_hex digits = val.
Proof.
  intros Hval. destruct (hex_loop_spec 16 val []) as (ds & Hrun & Hl & Hp & _); [done|done|].
  rewrite !app_nil_r in Hrun. by exists ds.
Qed.

(** All the copies print. *)
Theorem copies_print :
  Forall prints [main_uart; exceptions_uart; timer_uart; mmu_uart; scheduler_uart].
Proof.
  assert (prints main_uart) as Hmain.
  { split; cbn [putc putstr puthex main_uart].
    - intros fr c Hroom. unfold uart_putc. apply wait_tx_room in Hroom as (fr' & -> & _). by exists fr'.
    - intros fr s Hroom. by apply uart_puts_sends.
    - intros fr val Hval Hroom. destruct (hex_digits_run val Hval) as (ds & Hrun & Hl & Hp).
      unfold uart_puts_hex. rewrite Hrun. cbn [mbind outcome_bind].
      destruct (send_bytes_room fr ds) as [fr' ->]; [by rewrite Hl|]. by exists fr', ds. }
  by repeat (apply Forall_cons; split; [exact Hmain|]).
Qed.

(** A message with other text than ["{}"] shows its text and none of its
    arguments: the macros print the format string as it is. *)
Theorem macros_print_the_format fmt args args' :
  serial_println (MFmt fmt args) = serial_println (MFmt fmt args') ∧
  serial_println (MFmt fmt args) = serial_println (MMsg fmt).
Proof. done. Qed.

(** The tick message is printed on hundreds only, and never fails. *)
Lemma tick_message_run ticks :
  in_u 64 ticks → ∃ out, tick_message ticks = Ok out ∧ (ticks mod 100 ≠ 0 → out = []).
Proof.
  intros Ht. unfold tick_message. destruct (_ =? _) eqn:Hm.
  - unfold puts_hex. destruct (hex_digits_run ticks Ht) as (ds & -> & _).
    eexists. split; [done|]. apply Z.eqb_eq in Hm. lia.
  - by exists [].
Qed.

(** A slot number is one digit. *)
Lemma switch_message_run `{Build} p n :
  0 ≤ p < 8 → 0 ≤ n < 8 →
  switch_message p n =
    Ok (bytes_of "[S] C=" ++ [48 + p] ++ bytes_of " N=" ++ [48 + n] ++ bytes_of " ").
Proof.
  intros Hp Hn. unfold switch_message.
  assert (∀ z, 0 ≤ z < 8 → (48 +u[8] wrap 8 z) = Ok (48 + z)) as Hz.
  { intros z Hz. unfold wrap. rewrite Z.mod_small by lia. apply add_u_fits. unfold in_u. lia. }
  by rewrite !Hz.
Qed.
