(* ===== verification/Benchmark.v ===== *)
(** * Time measurement
    ([src/src/benchmark.rs], [src/src/arch/aarch64/benchmark.rs])

    The hardware counters are inputs.  What the kernel computes from two
    readings, the statistics it accumulates and the unit conversions are
    modelled at their 64-bit width. *)
From stdpp Require Import strings.
From S2P Require Import Prelude.

(** ** Conversions that assume 3 GHz *)

Definition cycles_to_us (cycles : Z) : Z := cycles / 3000.
Definition cycles_to_ns (cycles : Z) : Z := cycles / 3.

(** ** The counters *)

(** The counter each architecture is compiled to read; [tsc] and [cntvct_el0] are
    what the hardware answers. *)
Inductive TargetArch := X86_64 | Aarch64.

Definition read_cycles (target_arch : TargetArch) (tsc cntvct_el0 : Z) : Z :=
  match target_arch with X86_64 => tsc | Aarch64 => cntvct_el0 end.
Definition rdtsc (target_arch : TargetArch) (tsc cntvct_el0 : Z) : Z :=
  read_cycles target_arch tsc cntvct_el0.

(** [arch::benchmark::read_counter] and [read_counter_frequency] *)
Definition read_counter (cntvct_el0 : Z) : Z := cntvct_el0.
Definition read_counter_frequency (cntfrq_el0 : Z) : Z := cntfrq_el0.

(** ** The global counters *)

Record SwitchStats := mkSwitchStats {
  CONTEXT_SWITCH_COUNT : Z;
  CONTEXT_SWITCH_CYCLES : Z
}.

Definition stats_zero : SwitchStats := mkSwitchStats 0 0.

(** [fetch_add] wraps in every build. *)
Definition record_context_switch (s : SwitchStats) (cycles : Z) : SwitchStats :=
  mkSwitchStats (wrap 64 (CONTEXT_SWITCH_COUNT s + 1))
    (wrap 64 (CONTEXT_SWITCH_CYCLES s + cycles)).

Definition get_context_switch_stats (s : SwitchStats) : Z * Z * Z :=
  let count := CONTEXT_SWITCH_COUNT s in
  let total_cycles := CONTEXT_SWITCH_CYCLES s in
  let avg_cycles := if 0 <? count then total_cycles / count else 0 in
  (count, total_cycles, avg_cycles).

Record BenchmarkResults := mkBenchmarkResults {
  boot_time_us : Z;
  boot_time_cycles : Z;
  context_switches : Z;
  avg_context_switch_ns : Z;
  timer_ticks : Z;
  uptime_ms : Z
}.

Section measure.
Context `{Build}.

Definition collect_results (s : SwitchStats) (ticks boot_cycles : Z) : outcome BenchmarkResults :=
  let boot_time_us := cycles_to_us boot_cycles in
  let '(switches, _total_cycles, avg_cycles) := get_context_switch_stats s in
  let avg_context_switch_ns := cycles_to_ns avg_cycles in
  uptime_ms ← ticks *u[64] 10;
  Ok (mkBenchmarkResults boot_time_us boot_cycles switches avg_context_switch_ns ticks uptime_ms).

(** A division of [u64]s. *)
Definition div_u (a b : Z) : outcome Z := if decide (b = 0) then Panic else Ok (a / b).

(** What [benchmark_context_switches] (and [benchmark_task]) return for the
    readings taken before and after the loop: the subtraction is checked. *)
Definition benchmark_context_switches (start end_ iterations : Z) : outcome Z :=
  total_cycles ← end_ -u[64] start;
  div_u total_cycles iterations.

(** The other two benchmarks use [wrapping_sub]. *)
Definition benchmark_syscall_latency (start end_ iterations : Z) : outcome Z :=
  let total_cycles := wrap 64 (end_ - start) in
  div_u total_cycles iterations.

Definition benchmark_ipc_throughput (start end_ message_count : Z) : outcome (Z * Z) :=
  let total_cycles := wrap 64 (end_ - start) in
  avg_cycles_per_msg ← div_u total_cycles message_count;
  let throughput :=
    if 0 <? avg_cycles_per_msg then 3000000000 / avg_cycles_per_msg else 0 in
  Ok (avg_cycles_per_msg, throughput).

(** ** Verdicts *)

Inductive Verdict := PASS | FAIL | WARN.

(** The two criteria [BenchmarkResults::print] judges. *)
Definition results_print (r : BenchmarkResults) : Verdict * Verdict :=
  (if boot_time_us r <? 10000 then PASS else FAIL,
   if avg_context_switch_ns r <? 5000 then PASS else WARN).

(** The performance summary of [run_benchmark_suite]; the switch time is shown
    only when a switch was recorded. *)
Record Summary := mkSummary {
  syscall_ns : Z;
  ipc_ns : Z;
  switch_ns : option Z;
  syscall_pass : Verdict;
  switch_pass : Verdict
}.

(** [run_benchmark_suite], given the four counter readings it takes. *)
Definition run_benchmark_suite (s : SwitchStats) (r1 r2 r3 r4 : Z) : outcome Summary :=
  syscall_cycles ← benchmark_syscall_latency r1 r2 10000;
  let syscall_ns := cycles_to_ns syscall_cycles in
  '(ipc_cycles, _) ← benchmark_ipc_throughput r3 r4 10000;
  let ipc_ns := cycles_to_ns ipc_cycles in
  let '(switches, _total, avg_switch_cycles) := get_context_switch_stats s in
  Ok (mkSummary syscall_ns ipc_ns
        (if 0 <? switches then Some (cycles_to_ns avg_switch_cycles) else None)
        (if syscall_ns <? 1000 then PASS else WARN)
        (if cycles_to_ns avg_switch_cycles <? 5000 then PASS else WARN)).

Definition estimate_memory_footprint : Z := (100 + 8192 + 3 * 32) * 1024.

(** ** The AArch64 counter; [freq] is what CNTFRQ_EL0 answers *)

Definition ticks_to_us (freq ticks : Z) : outcome Z :=
  scaled ← ticks *u[64] 1000000; div_u scaled freq.

Definition ticks_to_ns (freq ticks : Z) : outcome Z :=
  scaled ← ticks *u[64] 1000000000; div_u scaled freq.

(** The unit tests of the AArch64 counter. *)
Definition assert_ (b : bool) : outcome () := if b then Ok tt else Panic.

Definition test_counter_reads (c1 c2 : Z) : outcome () := assert_ (c1 <? c2).

Definition test_frequency_read (freq : Z) : outcome () :=
  _ ← assert_ (0 <? freq); assert_ (1000000 <=? freq).

Definition test_time_conversion (freq : Z) : outcome () :=
  let ticks := freq in
  us ← ticks_to_us freq ticks;
  _ ← assert_ (us =? 1000000);
  ticks_ms ← div_u freq 1000;
  us_ms ← ticks_to_us freq ticks_ms;
  assert_ (us_ms =? 1000).
End measure.

Definition get_counter_info (freq : Z) : Z * string :=
  if 1000000000 <=? freq then (freq / 1000000000, "GHz"%string)
  else if 1000000 <=? freq then (freq / 1000000, "MHz"%string)
  else if 1000 <=? freq then (freq / 1000, "KHz"%string)
  else (freq, "Hz"%string).

(** ** What the component promises *)

Lemma record_all l s :
  0 ≤ CONTEXT_SWITCH_COUNT s → 0 ≤ CONTEXT_SWITCH_CYCLES s → Forall (λ c, 0 ≤ c) l →
  in_u 64 (CONTEXT_SWITCH_COUNT s + Z.of_nat (length l)) →
  in_u 64 (CONTEXT_SWITCH_CYCLES s + foldr Z.add 0 l) →
  foldl record_context_switch s l =
    mkSwitchStats (CONTEXT_SWITCH_COUNT s + Z.of_nat (length l)) (CONTEXT_SWITCH_CYCLES s + foldr Z.add 0 l).
Proof.
  unfold in_u. revert s. induction l as [|c l IH]; intros s H1 H2 Hl Hc Hs; simpl in *.
  { destruct s. simpl. f_equal; lia. }
  apply Forall_cons in Hl as [Hc0 Hl].
  assert (0 ≤ foldr Z.add 0 l) by (clear -Hl; induction Hl; simpl; lia).
  rewrite IH; unfold record_context_switch, wrap; simpl; rewrite ?Z.mod_small by lia; try lia.
  - f_equal; lia.
  - done.
Qed.

(** The context switch statistics are the mean.  Whatever durations are
    recorded, as long as their number and sum fit 64 bits, the statistics are
    their number, their sum and the sum divided by the number rounded down
    (zero when nothing was recorded). *)
Theorem switch_stats_mean l :
  Forall (λ c, 0 ≤ c) l → in_u 64 (Z.of_nat (length l)) → in_u 64 (foldr Z.add 0 l) →
  get_context_switch_stats (foldl record_context_switch stats_zero l) =
    (Z.of_nat (length l), foldr Z.add 0 l, foldr Z.add 0 l / Z.of_nat (length l)).
Proof.
  intros Hl Hn Hs. rewrite record_all by done. unfold get_context_switch_stats. simpl.
  destruct l; simpl; [done|]. by rewrite !Z.add_0_l.
Qed.

(** Converting counter ticks.  Both conversions are exact, rounded down, as
    long as the scaled tick count fits 64 bits, which for nanoseconds bounds
    the interval to 18446744073 ticks; past that bound a build with overflow
    checks panics and any other build answers too small a time.  A counter
    frequency of zero panics in every build. *)
Theorem ticks_conversion `{Build} freq ticks :
  0 < freq → 0 ≤ ticks →
  (ticks ≤ 18446744073709 → ticks_to_us freq ticks = Ok (ticks * 1000000 / freq)) ∧
  (ticks ≤ 18446744073 → ticks_to_ns freq ticks = Ok (ticks * 1000000000 / freq)) ∧
  (18446744073 < ticks →
     match build with
     | Dev => ticks_to_ns freq ticks = Panic
     | Release => ∃ t, ticks_to_ns freq ticks = Ok t ∧ t * freq < ticks * 1000000000
     end) ∧
  (in_u 64 (ticks * 1000000000) → ticks_to_ns 0 ticks = Panic).
Proof.
  intros Hf Ht. unfold ticks_to_us, ticks_to_ns, div_u. split_and!.
  - intros. rewrite mul_u_fits by (unfold in_u; lia). simpl. by rewrite decide_False by lia.
  - intros. rewrite mul_u_fits by (unfold in_u; lia). simpl. by rewrite decide_False by lia.
  - intros Hov. unfold mul_u, overflow.
    rewrite (decide_False (P := 0 ≤ ticks * 1000000000 < 2 ^ 64)) by lia.
    destruct build; simpl; [done|]. rewrite decide_False by lia. eexists. split; [done|].
    unfold wrap. pose proof (Z.mod_le (ticks * 1000000000) (2 ^ 64)).
    assert (ticks * 1000000000 mod 2 ^ 64 ≠ ticks * 1000000000) as Hne.
    { intros Heq. pose proof (Z.mod_pos_bound (ticks * 1000000000) (2 ^ 64)). lia. }
    pose proof (Z.mul_div_le (ticks * 1000000000 mod 2 ^ 64) freq Hf). lia.
  - intros. by rewrite mul_u_fits.
Qed.

(** The unit test of the conversions passes on exactly the counters whose frequency
    is a whole number of kilohertz; on any other the millisecond comes out a
    microsecond short. *)
Theorem conversion_test_passes `{Build} freq :
  0 < freq ≤ 18446744073709 →
  test_time_conversion freq = if freq mod 1000 =? 0 then Ok tt else Panic.
Proof.
  intros Hf. unfold test_time_conversion, ticks_to_us, div_u.
  assert (0 ≤ freq / 1000 ≤ freq) as Hq
    by (split; [apply Z.div_pos|apply Z.div_le_upper_bound]; lia).
  rewrite !mul_u_fits by (unfold in_u; lia). cbn [mbind outcome_bind].
  rewrite !(decide_False (P := freq = 0)) by lia. cbn [mbind outcome_bind].
  rewrite Z.mul_comm, Z.div_mul, Z.eqb_refl by lia. cbn [assert_ mbind outcome_bind].
  rewrite decide_False by lia. cbn [mbind outcome_bind].
  rewrite mul_u_fits by (unfold in_u; lia). cbn [mbind outcome_bind].
  rewrite decide_False by lia. cbn [mbind outcome_bind].
  pose proof (Z.div_mod freq 1000 ltac:(lia)) as Hdm. pose proof (Z.mod_pos_bound freq 1000 ltac:(lia)) as Hm.
  assert (freq / 1000 * 1000000 = 1000 * freq - 1000 * (freq mod 1000)) as -> by lia.
  destruct (freq mod 1000 =? 0) eqn:Hz; [apply Z.eqb_eq in Hz|apply Z.eqb_neq in Hz].
  - rewrite Hz, Z.mul_0_r, Z.sub_0_r, Z.div_mul by lia. done.
  - assert ((1000 * freq - 1000 * (freq mod 1000)) / freq < 1000) as Hlt
      by (apply Z.div_lt_upper_bound; lia).
    unfold assert_. rewrite (proj2 (Z.eqb_neq _ _)) by lia. done.
Qed.

Lemma wrap_elapsed start elapsed :
  in_u 64 start → in_u 64 elapsed → wrap 64 (wrap 64 (start + elapsed) - start) = elapsed.
Proof.
  unfold in_u, wrap. intros. rewrite Zminus_mod_idemp_l.
  replace (start + elapsed - start) with elapsed by lia. by apply Z.mod_small.
Qed.

(** An interval measured across a wrap of the cycle counter is right for the
    benchmarks that use [wrapping_sub]; the context switch benchmark, which
    uses a checked subtraction, panics there in a build with overflow checks
    and agrees otherwise. *)
Theorem measured_interval `{Build} start elapsed n :
  in_u 64 start → in_u 64 elapsed → 0 < n →
  let end_ := wrap 64 (start + elapsed) in
  benchmark_syscall_latency start end_ n = Ok (elapsed / n) ∧
  benchmark_context_switches start end_ n =
    (if decide (start + elapsed < 2 ^ 64) then Ok (elapsed / n)
     else match build with Dev => Panic | Release => Ok (elapsed / n) end).
Proof.
  intros Hs He Hn end_. pose proof (wrap_elapsed start elapsed Hs He) as Hwrap. fold end_ in Hwrap.
  unfold in_u in Hs, He.
  unfold benchmark_syscall_latency, benchmark_context_switches, div_u. rewrite Hwrap.
  rewrite (decide_False (P := n = 0)) by lia. split; [done|]. unfold sub_u, overflow.
  destruct (decide (start + elapsed < 2 ^ 64)) as [Hlt|Hlt].
  - assert (end_ - start = elapsed) as ->.
    { unfold end_, wrap. rewrite Z.mod_small by lia. lia. }
    rewrite (decide_True (P := 0 ≤ elapsed < 2 ^ 64)) by done. simpl.
    by rewrite (decide_False (P := n = 0)) by lia.
  - assert (end_ - start < 0).
    { unfold end_, wrap. rewrite <- (Z_mod_plus_full _ (-1)), Z.mod_small; lia. }
    rewrite (decide_False (P := 0 ≤ end_ - start < 2 ^ 64)) by lia.
    destruct build; [done|]. simpl.
    by rewrite Hwrap, (decide_False (P := n = 0)) by lia.
Qed.

(** The suite's verdicts.  It never panics; the syscall criterion passes
    exactly when its 10000 iterations took fewer than 30 million counter ticks;
    the switch criterion passes exactly when the mean of the recorded switches is
    below 15000 ticks, and in particular when none was recorded, as at boot,
    where no switch time is shown. *)
Theorem benchmark_verdicts l r1 e1 r3 r4 :
  in_u 64 r1 → in_u 64 e1 → Forall (λ c, 0 ≤ c) l →
  in_u 64 (Z.of_nat (length l)) → in_u 64 (foldr Z.add 0 l) →
  ∃ s, run_benchmark_suite (foldl record_context_switch stats_zero l) r1 (wrap 64 (r1 + e1)) r3 r4 = Ok s ∧
    (syscall_pass s = PASS ↔ e1 < 30000000) ∧
    (switch_pass s = PASS ↔ l = [] ∨ foldr Z.add 0 l < 15000 * Z.of_nat (length l)) ∧
    (switch_ns s = None ↔ l = []).
Proof.
  intros Hr He Hl Hn Hs. unfold run_benchmark_suite, benchmark_syscall_latency, benchmark_ipc_throughput, div_u.
  rewrite wrap_elapsed by done. cbn [mbind outcome_bind decide].
  rewrite !(decide_False (P := 10000 = 0)) by lia. cbn [mbind outcome_bind].
  rewrite record_all by done. unfold get_context_switch_stats, cycles_to_ns. cbn [CONTEXT_SWITCH_COUNT CONTEXT_SWITCH_CYCLES stats_zero].
  rewrite !Z.add_0_l. eexists. split; [reflexivity|]. cbn [syscall_pass switch_pass switch_ns].
  rewrite Z.div_div by lia. split_and!.
  - destruct (Z.ltb_spec (e1 / (10000 * 3)) 1000) as [Hlt|Hge]; split; try done; intros Hx.
    + pose proof (Z.mul_succ_div_gt e1 (10000 * 3)). lia.
    + exfalso. assert (e1 / (10000 * 3) < 1000); [|lia]. apply Z.div_lt_upper_bound; lia.
  - destruct l as [|c l]; [simpl; split; auto|]. set (n := Z.of_nat (length (c :: l))) in *.
    set (t := foldr Z.add 0 (c :: l)) in *. assert (0 < n) by (unfold n; simpl; lia).
    rewrite (proj2 (Z.ltb_lt 0 n)) by done. rewrite Z.div_div by lia.
    destruct (Z.ltb_spec (t / (n * 3)) 5000) as [Hlt|Hge]; split; try done; intros Hx.
    + right. pose proof (Z.mul_succ_div_gt t (n * 3)). nia.
    + exfalso. destruct Hx as [|Hx]; [done|].
      assert (t / (n * 3) < 5000); [|lia]. apply Z.div_lt_upper_bound; lia.
  - destruct l as [|c l]; [done|]. by rewrite (proj2 (Z.ltb_lt 0 _)) by (simpl; lia).
Qed.

(** The conversions assume a 3 GHz counter.  On AArch64 [read_cycles] is the
    generic timer: at any frequency below 1 GHz an interval of ten ticks or more
    is reported at less than half of its real length in nanoseconds. *)
Theorem cycles_to_ns_assumes_3GHz `{Build} freq ticks :
  0 < freq < 1000000000 → 10 ≤ ticks ≤ 18446744073 →
  ∃ ns, ticks_to_ns freq ticks = Ok ns ∧ 2 * cycles_to_ns ticks < ns.
Proof.
  intros Hf Ht. unfold ticks_to_ns, div_u. rewrite mul_u_fits by (unfold in_u; lia). cbn [mbind outcome_bind].
  rewrite decide_False by lia. eexists. split; [done|]. unfold cycles_to_ns.
  assert (ticks ≤ ticks * 1000000000 / freq) as Hle by (apply Z.div_le_lower_bound; nia).
  pose proof (Z.mul_div_le ticks 3). lia.
Qed.

Lemma benchmark_verdicts_witness :
  ∃ s, run_benchmark_suite stats_zero 100 5100 5200 5300 = Ok s ∧ switch_pass s = PASS.
Proof.
  destruct (benchmark_verdicts [] 100 5000 5200 5300) as (s & Hrun & _ & Hp & _);
    [done|done|apply Forall_nil_2|done|done|].
  exists s. split; [exact Hrun|]. apply Hp. left. reflexivity.
Defined.

Lemma cycles_to_ns_assumes_3GHz_witness :
  ∃ ns, ticks_to_ns (H := Dev) 62500000 3000 = Ok ns ∧ 2 * cycles_to_ns 3000 < ns.
Proof. apply (cycles_to_ns_assumes_3GHz (H := Dev) 62500000 3000); lia. Defined.

Lemma ticks_conversion_witness : ticks_to_ns (H := Dev) 62500000 1000 = Ok 16000.
Proof.
  destruct (ticks_conversion (H := Dev) 62500000 1000) as (_ & Hns & _); [lia|lia|].
  apply Hns. lia.
Defined.
