(* ===== verification/ArmKernel.v ===== *)
(** * The AArch64 kernel's start
    ([src/src/main_aarch64.rs], [src/src/arch/aarch64/mod.rs])

    [kernel_main], which [ArmBoot] ends in, as a composition of the components:
    the architecture's initialisation, the heap, the demo suite, the benchmarks,
    the three tasks and the jump into the first one.  Interrupts are masked until
    the end and are not followed inside [kernel_main].  Its messages are left out
    and the task bodies are in [ArmTasks];
    the lines of the demo suite keep the form they have on x86-64. *)
From stdpp Require Import strings.
From S2P Require Import Prelude Words Capability WasmRuntime Demos Benchmark Arm ArmDevices.
From S2P Require Import ArmScheduler ArmTurns.

(** What the machine and the linker provide: the registers the code reads, and
    the addresses of its statics and functions. *)
Record Hardware := mkHardware {
  hw_typer : Z;              (* GICD_TYPER *)
  hw_isenabler : Z;          (* GICD_ISENABLER0 when it is read back *)
  hw_freq : Z;               (* CNTFRQ_EL0 *)
  hw_start : Z; hw_end : Z;  (* CNTVCT_EL0 around the counter test *)
  hw_suite : Z * Z * Z * Z;  (* and in the benchmark suite *)
  hw_vectors : Z;            (* exception_vector_table *)
  hw_heap : Z;               (* HEAP_MEMORY *)
  hw_stacks : list Z;        (* the stacks inside SCHEDULER *)
  hw_task1 : Z; hw_task2 : Z; hw_task3 : Z;  (* entry points *)
  hw_bench_a : Z; hw_bench_b : Z
}.

Definition HEAP_SIZE : Z := 4 * 1024 * 1024.
Definition RUN_BENCHMARK : bool := false.

(** The state [kernel_main] builds up. *)
Record ArmKernel := mkArmKernel {
  vbar_el1 : option Z;
  gic_writes : list (Z * Z);
  cntp_tval : Z;
  cntp_ctl : Z;
  heap : option (Z * Z);
  kernel_space : option CSpace;
  wasm : Globals;
  switch_stats : SwitchStats;
  statics : Statics;
  irq_masked : bool
}.

Definition set_statics (k : ArmKernel) (st : Statics) : ArmKernel :=
  mkArmKernel (vbar_el1 k) (gic_writes k) (cntp_tval k) (cntp_ctl k) (heap k) (kernel_space k)
    (wasm k) (switch_stats k) st (irq_masked k).

(** The statics before [kernel_main]. *)
Definition at_entry (hw : Hardware) : ArmKernel :=
  mkArmKernel None [] 0 0 None None (mkGlobals [] [] []) stats_zero
    (mkStatics (Scheduler_new (hw_stacks hw)) 0 0 false []) true.

(** ** [arch::init] *)

Definition exceptions_init (hw : Hardware) (k : ArmKernel) : ArmKernel :=
  mkArmKernel (Some (hw_vectors hw)) (gic_writes k) (cntp_tval k) (cntp_ctl k) (heap k)
    (kernel_space k) (wasm k) (switch_stats k) (statics k) (irq_masked k).

Definition gic_write (ws : list (Z * Z)) (k : ArmKernel) : ArmKernel :=
  mkArmKernel (vbar_el1 k) (gic_writes k ++ ws) (cntp_tval k) (cntp_ctl k) (heap k)
    (kernel_space k) (wasm k) (switch_stats k) (statics k) (irq_masked k).

Definition timer_init (hw : Hardware) (k : ArmKernel) : ArmKernel :=
  mkArmKernel (vbar_el1 k) (gic_writes k) (timer_tval (hw_freq hw)) 1 (heap k)
    (kernel_space k) (wasm k) (switch_stats k) (statics k) (irq_masked k).

Definition arch_init (hw : Hardware) (k : ArmKernel) : ArmKernel :=
  let k := exceptions_init hw k in
  let k := gic_write (gic_init (hw_typer hw)) k in
  let k := timer_init hw k in
  gic_write [enable_timer_interrupt (hw_isenabler hw)] k.

Definition init_heap (hw : Hardware) (k : ArmKernel) : ArmKernel :=
  mkArmKernel (vbar_el1 k) (gic_writes k) (cntp_tval k) (cntp_ctl k) (Some (hw_heap hw, HEAP_SIZE))
    (kernel_space k) (wasm k) (switch_stats k) (statics k) (irq_masked k).

(** ** [kernel_main] *)

Definition set_kernel_space (k : ArmKernel) (c : option CSpace) : ArmKernel :=
  mkArmKernel (vbar_el1 k) (gic_writes k) (cntp_tval k) (cntp_ctl k) (heap k) c
    (wasm k) (switch_stats k) (statics k) (irq_masked k).

Definition set_wasm (k : ArmKernel) (gl : Globals) : ArmKernel :=
  mkArmKernel (vbar_el1 k) (gic_writes k) (cntp_tval k) (cntp_ctl k) (heap k) (kernel_space k)
    gl (switch_stats k) (statics k) (irq_masked k).

Definition unmask_irq (k : ArmKernel) : ArmKernel :=
  mkArmKernel (vbar_el1 k) (gic_writes k) (cntp_tval k) (cntp_ctl k) (heap k) (kernel_space k)
    (wasm k) (switch_stats k) (statics k) false.

Definition on_scheduler (st : Statics) (s : Scheduler) : Statics :=
  mkStatics s (CONTEXT_SWITCH_COUNTER st) (TIMER_TICKS st) (SCHEDULER_ENABLED st) (device_log st).

Definition with_ticks (st : Statics) (ticks : Z) : Statics :=
  mkStatics (SCHEDULER st) (CONTEXT_SWITCH_COUNTER st) ticks (SCHEDULER_ENABLED st) (device_log st).

Section kernel_main.
Context `{Build} {G : Type} `{!Wasmi G} (hw : Hardware) (fuel : nat) (images : Images).

(** The map test: [insert] twice and [get]. *)
Definition map_test : option Z := (<[2 := 200]> (<[1 := 100]> (∅ : gmap Z Z))) !! 1.
Example map_test_answer : map_test = Some 100.
Proof. reflexivity. Qed.

(** The counter test: the numbers it prints. *)
Definition counter_test : outcome (Z * Z * Z) :=
  resolution ← ticks_to_ns (hw_freq hw) 1;
  elapsed_ticks ← (hw_end hw -u[64] hw_start hw);
  elapsed_us ← ticks_to_us (hw_freq hw) elapsed_ticks;
  Ok (resolution, elapsed_ticks, elapsed_us).

Definition k_spawn (k : ArmKernel) (entry_point : Z) : outcome ArmKernel :=
  '(s, _) ← spawn (SCHEDULER (statics k)) entry_point;
  Ok (set_statics k (on_scheduler (statics k) s)).

(** The two modes.  The start time that the benchmark mode records is read
    nowhere. *)
Definition spawn_tasks (k : ArmKernel) : outcome ArmKernel :=
  if RUN_BENCHMARK then
    k ← k_spawn k (hw_bench_a hw);
    k ← k_spawn k (hw_bench_b hw);
    Ok (set_statics k (reset_switch_counter (statics k)))
  else
    k ← k_spawn k (hw_task1 hw);
    k ← k_spawn k (hw_task2 hw);
    k_spawn k (hw_task3 hw).

(** Up to the jump, after which [kernel_main]'s code is not executed any more;
    [None] when the demo suite ran out of delivery fuel. *)
Definition prepare (k : ArmKernel) : outcome (option ArmKernel) :=
  let k := arch_init hw k in
  let k := init_heap hw k in
  let k := set_kernel_space k (capability_init (kernel_space k)) in
  '(r, gl) ← run_all_demos (G := G) fuel images (wasm k);
  let k := set_wasm k gl in
  match r with
  | None => Ok None
  | Some _ =>
      _ ← counter_test;
      let '(r1, r2, r3, r4) := hw_suite hw in
      _ ← run_benchmark_suite (switch_stats k) r1 r2 r3 r4;
      k ← spawn_tasks k;
      let k := unmask_irq k in
      Ok (Some (set_statics k (enable_scheduler (statics k))))
  end.

Definition kernel_main (k : ArmKernel) (c : Cpu) : outcome (option (ArmKernel * Cpu)) :=
  k ← prepare k;
  match k with
  | None => Ok None
  | Some k =>
      '(s, c) ← launch_first_task (SCHEDULER (statics k)) c;
      Ok (Some (set_statics k (on_scheduler (statics k) s), c))
  end.
End kernel_main.

(** ** The run of [kernel_main] *)

(** A machine the kernel is meant for: stacks in range, a counter that runs
    forward, whose frequency fits the timer register, and a counter test that does
    not take more than 2^64 / 10^6 ticks. *)
Record hw_ok (hw : Hardware) : Prop := {
  ok_num_stacks : length (hw_stacks hw) = 8%nat;
  ok_hw_stacks : Forall (λ a, 0 ≤ a ∧ a + TASK_STACK_SIZE < 2 ^ 64) (hw_stacks hw);
  ok_freq : 0 < hw_freq hw < 100 * 2 ^ 32;
  ok_count : 0 ≤ hw_start hw ≤ hw_end hw ∧ hw_end hw < 2 ^ 64 ∧
    (hw_end hw - hw_start hw) * 1000000 < 2 ^ 64
}.

Section boot.
Context `{Build}.

(** A task as [spawn] makes it. *)
Definition fresh_task (entry stack id : Z) : Task :=
  mkTask (TaskContext_init entry (stack + TASK_STACK_SIZE)) stack TaskState_Ready id.

Lemma spawn_at s e t :
  0 ≤ num_tasks s < 8 → tasks s !! Z.to_nat (num_tasks s) = Some t →
  0 ≤ task_stack t ∧ task_stack t + TASK_STACK_SIZE < 2 ^ 64 →
  spawn s e = Ok (mkScheduler (<[Z.to_nat (num_tasks s) := fresh_task e (task_stack t) (num_tasks s)]> (tasks s))
    (num_tasks s + 1) (current_task s), Some (num_tasks s)).
Proof.
  intros Hn Ht Hst. unfold spawn, MAX_TASKS. rewrite decide_False by lia. unfold get_task. rewrite Ht.
  cbn [unwrap mbind outcome_bind]. rewrite add_u_fits by (unfold in_u, TASK_STACK_SIZE in *; lia).
  cbn [mbind outcome_bind]. rewrite add_u_fits by (unfold in_u; simpl; lia). done.
Qed.

Definition three_tasks (hw : Hardware) (a0 a1 a2 : Z) (rest : list Z) : Scheduler :=
  mkScheduler (fresh_task (hw_task1 hw) a0 0 :: fresh_task (hw_task2 hw) a1 1
    :: fresh_task (hw_task3 hw) a2 2 :: (Task_new <$> rest)) 3 0.

Lemma spawn_tasks_run hw k a0 a1 a2 rest :
  hw_ok hw → hw_stacks hw = a0 :: a1 :: a2 :: rest →
  SCHEDULER (statics k) = Scheduler_new (hw_stacks hw) →
  spawn_tasks hw k = Ok (set_statics k (on_scheduler (statics k) (three_tasks hw a0 a1 a2 rest))).
Proof.
  intros Hok Hs Hk. pose proof (ok_hw_stacks _ Hok) as Hst. rewrite Hs in Hst, Hk.
  apply Forall_cons in Hst as [H0 [H1 [H2 _]%Forall_cons]%Forall_cons].
  unfold spawn_tasks, k_spawn, RUN_BENCHMARK. rewrite Hk.
  rewrite (spawn_at _ _ (Task_new a0)) by (done || lia). cbn [mbind outcome_bind].
  cbn [statics set_statics on_scheduler SCHEDULER].
  rewrite (spawn_at _ _ (Task_new a1)) by (done || simpl; lia). cbn [mbind outcome_bind].
  cbn [statics set_statics on_scheduler SCHEDULER].
  rewrite (spawn_at _ _ (Task_new a2)) by (done || simpl; lia). done.
Qed.

Lemma counter_test_run hw : hw_ok hw → ∃ r, counter_test hw = Ok r.
Proof.
  intros [_ _ Hf (H0 & H1 & H2)]. unfold counter_test, ticks_to_ns, ticks_to_us, div_u.
  rewrite mul_u_fits by (unfold in_u; lia). cbn [mbind outcome_bind]. rewrite decide_False by lia.
  cbn [mbind outcome_bind]. rewrite sub_u_fits by (unfold in_u; lia). cbn [mbind outcome_bind].
  rewrite mul_u_fits by (unfold in_u; lia). cbn [mbind outcome_bind]. rewrite decide_False by lia.
  by eexists.
Qed.

Lemma suite_run s r1 r2 r3 r4 : ∃ v, run_benchmark_suite s r1 r2 r3 r4 = Ok v.
Proof. unfold run_benchmark_suite. by eexists. Qed.

(** The scheduler when the first task is entered. *)
Definition launched (hw : Hardware) (a0 a1 a2 : Z) (rest : list Z) : Scheduler :=
  put_task (three_tasks hw a0 a1 a2 rest) 0
    (set_task_state TaskState_Running (fresh_task (hw_task1 hw) a0 0)).

Lemma three_tasks_inv hw a0 a1 a2 rest :
  hw_ok hw → hw_stacks hw = a0 :: a1 :: a2 :: rest → arm_inv (three_tasks hw a0 a1 a2 rest).
Proof.
  intros [Hl Hst _ _] Hs. rewrite Hs in Hl, Hst.
  apply Forall_cons in Hst as [H0 [H1 [H2 Hrest]%Forall_cons]%Forall_cons].
  split; simpl.
  - rewrite length_fmap. simpl in Hl. lia.
  - unfold MAX_TASKS. lia.
  - lia.
  - repeat (apply Forall_cons; split; [by split|]). apply Forall_fmap.
    eapply Forall_impl; [exact Hrest|]. by split.
  - intros [|[|[|i]]] t Ht Hi; [injection Ht as <-; done..|lia].
Qed.

Lemma launched_turning hw a0 a1 a2 rest st :
  hw_ok hw → hw_stacks hw = a0 :: a1 :: a2 :: rest → SCHEDULER_ENABLED st = true →
  turning (on_scheduler st (launched hw a0 a1 a2 rest)).
Proof.
  intros Hok Hs Hen. split; cbn [SCHEDULER SCHEDULER_ENABLED on_scheduler]; [| |done|done].
  - apply (put_task_inv _ _ _ (fresh_task (hw_task1 hw) a0 0)); try done; [by apply three_tasks_inv|].
    pose proof (ok_hw_stacks _ Hok) as Hst. rewrite Hs in Hst.
    apply Forall_cons in Hst as [H0 _]. by split.
  - intros [|[|[|i]]] t Ht Hi; [injection Ht as <-; done..|]. simpl in Hi. lia.
Qed.
End boot.

Section start.
Context `{Build} {G : Type} `{!Wasmi G, !TypedGuest G, !EndingGuest G, !QuietGuest G}.

(** The state in which the first task is entered. *)
Definition started (hw : Hardware) (gl : Globals) (s : Scheduler) : ArmKernel :=
  mkArmKernel (Some (hw_vectors hw))
    (gic_init (hw_typer hw) ++ [enable_timer_interrupt (hw_isenabler hw)])
    (timer_tval (hw_freq hw)) 1 (Some (hw_heap hw, HEAP_SIZE)) (Some CSpace_new) gl stats_zero
    (mkStatics s 0 0 true []) false.

Lemma arch_init_run hw :
  init_heap hw (arch_init hw (at_entry hw)) =
    mkArmKernel (Some (hw_vectors hw))
      (gic_init (hw_typer hw) ++ [enable_timer_interrupt (hw_isenabler hw)])
      (timer_tval (hw_freq hw)) 1 (Some (hw_heap hw, HEAP_SIZE)) None (mkGlobals [] [] []) stats_zero
      (mkStatics (Scheduler_new (hw_stacks hw)) 0 0 false []) true.
Proof. reflexivity. Qed.

Lemma prepare_run hw fuel images a0 a1 a2 rest :
  hw_ok hw → hw_stacks hw = a0 :: a1 :: a2 :: rest → (66 <= fuel)%nat →
  ∃ gl, prepare (G := G) hw fuel images (at_entry hw) =
      Ok (Some (started hw gl (three_tasks hw a0 a1 a2 rest))) ∧ confined gl.
Proof.
  intros Hok Hs Hfuel. destruct (demos_run fuel images _ Hfuel no_messages_confined) as (gl & Hdemos & Hconf).
  exists gl. split; [|done]. unfold prepare. rewrite arch_init_run.
  cbn [wasm kernel_space set_kernel_space]. rewrite Hdemos. cbn [mbind outcome_bind].
  destruct (counter_test_run hw Hok) as [r ->]. cbn [mbind outcome_bind].
  destruct (hw_suite hw) as [[[r1 r2] r3] r4].
  change (switch_stats (set_wasm _ _)) with stats_zero.
  destruct (suite_run stats_zero r1 r2 r3 r4) as [v ->]. cbn [mbind outcome_bind].
  rewrite (spawn_tasks_run hw _ a0 a1 a2 rest) by done. reflexivity.
Qed.
End start.

(** ** Ticks before the first task *)
Section early.
Context `{Build}.

(** The tasks' turns after a launch in the middle of a turn of ten ticks. *)
Lemma launched_turns hw a0 a1 a2 rest k o qs sw us :
  hw_ok hw → hw_stacks hw = a0 :: a1 :: a2 :: rest →
  SCHEDULER k = launched hw a0 a1 a2 rest → SCHEDULER_ENABLED k = true → 0 ≤ TIMER_TICKS k →
  Forall tick_ok qs → tick_ok sw → TIMER_TICKS k mod 10 + Z.of_nat (length qs) = 9 → Forall turn_ok us →
  TIMER_TICKS k + 10 + 10 * Z.of_nat (length us) < 2 ^ 64 →
  ∃ st o', run_ticks (qs ++ [sw] ++ ticks_of us) k o = Ok (st, o') ∧
    current_task (SCHEDULER st) = Z.of_nat (S (length us)) mod 3 ∧ all_runnable (SCHEDULER st).
Proof.
  intros Hok Hs Hk Hen Hpos Hqs Hsw Hmod Hus Hfit.
  assert (turning k) as Hturn.
  { destruct (launched_turning hw a0 a1 a2 rest k Hok Hs Hen) as [H1 H2 H3 _]. cbn [on_scheduler SCHEDULER] in *.
    rewrite <- Hk in H1, H2, H3. by split. }
  assert (TIMER_TICKS k mod 10 ≤ TIMER_TICKS k ∧ 0 ≤ TIMER_TICKS k mod 10) as [Hle Hm0].
  { split; [by apply Z.mod_le|by apply Z.mod_pos_bound]. }
  destruct (rest_of_turn qs sw k o) as (k1 & c1 & v & Hrun & Hk1 & Hn1 & Hcur1 & Ht1 & _); [done..|lia|].
  destruct (many_turns us k1 (Some c1) Hus) as (st & o' & Hrun' & [Hst _ _] & _ & Hcur & _).
  { split; [done| |lia]. rewrite Ht1. pose proof (Z.div_mod (TIMER_TICKS k) 10 ltac:(lia)).
    replace (TIMER_TICKS k + Z.of_nat (length qs) + 1) with ((TIMER_TICKS k / 10 + 1) * 10) by lia.
    by apply Z.mod_mul. }
  exists st, o'. rewrite app_assoc, run_ticks_app, Hrun. cbn [mbind outcome_bind]. split_and!; [done| |by destruct Hst].
  rewrite Hcur. unfold slot_after. rewrite Hcur1, Hn1. unfold next_slot. rewrite Hk.
  change (num_tasks (launched hw a0 a1 a2 rest)) with 3. change (current_task (launched hw a0 a1 a2 rest)) with 0.
  change ((0 + 1) mod 3) with 1. f_equal. lia.
Qed.
End early.

(** ** What the start promises *)
Section theorems.
Context `{Build} {G : Type} `{!Wasmi G, !TypedGuest G}.

(** C38: the window before the jump.  Interrupts are unmasked and task switching
    is enabled before the first task is entered, so a tenth tick can come
    between [enable_scheduler] and the reading of the first task's context.  It saves [kernel_main] itself as task 0, whose entry point is then
    nowhere, and enters task 2; and when slot 0 gets its turn, [kernel_main] ends
    with a jump to the point where it was interrupted, instead of task 1. *)
Theorem launch_race `{!EndingGuest G, !QuietGuest G} hw fuel images ticks irq clob c c2 :
  hw_ok hw → (66 <= fuel)%nat → length (gpr c) = 31%nat → length clob = 31%nat →
  0 ≤ ticks < 2 ^ 64 - 1 → (ticks + 1) mod 10 = 0 →
  ∃ k k' c' s c3, prepare (G := G) hw fuel images (at_entry hw) = Ok (Some k) ∧
    el1_spx_irq irq clob (with_ticks (statics k) ticks) c = Ok (k', c') ∧
    cpu_pc c' = hw_task2 hw ∧
    (ctx_pc ∘ task_context) <$> take 3 (tasks (SCHEDULER k')) = [cpu_elr c; hw_task2 hw; hw_task3 hw] ∧
    launch_first_task (SCHEDULER k') c2 = Ok (s, c3) ∧ cpu_pc c3 = cpu_elr c.
Proof.
  intros Hok Hfuel Hl Hclob Hticks Hmod. pose proof (ok_num_stacks _ Hok) as Hlen.
  destruct (hw_stacks hw) as [|a0 [|a1 [|a2 rest]]] eqn:Hs; try done. clear Hlen.
  destruct (prepare_run (G := G) hw fuel images a0 a1 a2 rest Hok Hs Hfuel) as (gl & Hprep & _).
  set (s0 := three_tasks hw a0 a1 a2 rest) in *.
  set (k0 := with_ticks (statics (started hw gl s0)) ticks).
  destruct (irq_switch_run irq clob k0 c (fresh_task (hw_task1 hw) a0 0))
    as (i & t' & k' & c' & Hi & Hnot & _ & Ht' & Hirq & Hs' & _ & _ & _ & _ & _ & Hpc & _);
    [done|done|simpl; unfold in_u; lia|unfold switch_tick; simpl; by rewrite Hmod|
     by apply three_tasks_inv|done|done|].
  change (SCHEDULER k0) with s0 in *.
  assert (i = 1) as ->.
  { destruct (decide (i = 1)) as [|Hne]; [done|]. exfalso. apply (Hnot 1); [lia|]. by eexists. }
  injection Ht' as <-.
  exists (started hw gl s0), k', c'. do 2 eexists.
  split_and!; [exact Hprep|exact Hirq|exact Hpc|by rewrite Hs'|by rewrite Hs'|done].
Qed.
End theorems.

(** ** A concrete machine: QEMU's, with a 62.5 MHz counter *)
Definition sample_hw : Hardware :=
  mkHardware 8 0 62500000 1000 2000 (0, 0, 0, 0) 0x40081000 0x40100000 sample_stacks
    0x40090000 0x400a0000 0x400b0000 0x400c0000 0x400d0000.

Lemma sample_hw_ok : hw_ok sample_hw.
Proof.
  split; [done| |done|done].
  repeat (apply Forall_cons; split; [done|]). by apply Forall_nil_2.
Qed.


Lemma launch_race_witness :
  ∃ k k' c', prepare (H := Dev) (G := Client) sample_hw 66 sample_images (at_entry sample_hw) = Ok (Some k) ∧
    el1_spx_irq (H := Dev) 30 (replicate 31 0) (with_ticks (statics k) 9) sample_cpu = Ok (k', c') ∧
    cpu_pc c' = 0x400a0000.
Proof.
  destruct (launch_race (TypedGuest0 := client_typed (H := Dev)) (EndingGuest0 := client_ending)
    (QuietGuest0 := client_quiet) sample_hw 66 sample_images 9 30 (replicate 31 0) sample_cpu sample_cpu
    sample_hw_ok) as (k & k' & c' & s & c3 & Hprep & Hirq & Hpc & _); [lia|done|done|done|done|].
  exists k, k', c'. split; [exact Hprep|]. split; [exact Hirq|exact Hpc].
Defined.
