(* ===== verification/ArmTasks.v ===== *)
(** * The AArch64 demo tasks ([src/src/main_aarch64.rs])

    The bodies of the tasks [kernel_main] spawns, and what they print while the
    timer interrupt takes the core from them and gives it back.  A body is an
    endless loop of the source; the machine code the compiler makes of it is a
    parameter, tied to the body by what it does to registers, program counter and
    console.  The code must keep its state in registers: a resumed task gets all of
    them back, but not its stack pointer ([arm_cycle_resumes]). *)
From stdpp Require Import strings.
From S2P Require Import Prelude Words Capability WasmRuntime Demos Benchmark Arm ArmDevices ArmConsole.
From S2P Require Import ArmScheduler ArmTurns ArmKernel.

(** ** The bodies *)

(** Before the volatile write, or in the busy wait with so many turns left. *)
Inductive TaskPc := AtWrite | Busy (spins : Z).

(** [loop { write_volatile(uart, letter); for _ in 0..50000 { nop } }]: a step
    and the bytes it writes.  The write does not wait for room in the FIFO. *)
Definition letter_loop (letter : Z) (pc : TaskPc) : TaskPc * list Z :=
  match pc with
  | AtWrite => (Busy 50000, [letter])
  | Busy spins => if decide (0 < spins) then (Busy (spins - 1), []) else (AtWrite, [])
  end.

Definition task1 : TaskPc → TaskPc * list Z := letter_loop 65.
Definition task2 : TaskPc → TaskPc * list Z := letter_loop 66.
Definition task3 : TaskPc → TaskPc * list Z := letter_loop 67.

(** The two benchmark tasks, which only pass the time. *)
Definition bench_task_a (pc : TaskPc) : TaskPc * list Z :=
  match pc with
  | AtWrite => (Busy 100, [])
  | Busy spins => if decide (0 < spins) then (Busy (spins - 1), []) else (AtWrite, [])
  end.
Definition bench_task_b (pc : TaskPc) : TaskPc * list Z := (AtWrite, []).

(** Where [n] steps lead, and what they print. *)
Section steps.
Context {P : Type} (next : P → P * list Z).

Fixpoint after (n : nat) (p : P) : P :=
  match n with O => p | S n => after n (next p).1 end.

Fixpoint output (n : nat) (p : P) : list Z :=
  match n with O => [] | S n => (next p).2 ++ output n (next p).1 end.

Lemma after_add m n p : after (m + n) p = after n (after m p).
Proof. revert p. induction m as [|m IH]; intros p; [done|]. apply IH. Qed.

Lemma output_add m n p : output (m + n) p = output m p ++ output n (after m p).
Proof. revert p. induction m as [|m IH]; intros p; [done|]. simpl. by rewrite IH, app_assoc. Qed.
End steps.

(** ** Machine code *)

(** The code of a task: its positions, what an instruction makes of the
    processor and prints, and how the position shows in the general registers, the
    program counter and the processor state; [enough m] instructions get as far as
    [m] steps of the body. *)
Record TaskCode := mkTaskCode {
  pos : Type;
  start : pos;
  next : pos → pos * list Z;
  exec : Cpu → Cpu * list Z;
  view : list Z → Z → Z → option pos;
  enough : nat → nat
}.

Definition seen (code : TaskCode) (c : Cpu) : option (pos code) :=
  view code (gpr c) (cpu_pc c) (cpu_spsr c).

(** What it is to be the code of [body] at address [entry]: entered at [entry] it is at its
    start whatever the registers hold; every instruction goes to the next position
    and prints what it should; and it prints what the body prints, no less. *)
Record compiled (entry : Z) (body : TaskPc → TaskPc * list Z) (code : TaskCode) : Prop := {
  enters regs : length regs = 31%nat → view code regs entry 5 = Some (start code);
  follows c p : length (gpr c) = 31%nat → seen code c = Some p →
    length (gpr (exec code c).1) = 31%nat ∧ (exec code c).2 = (next code p).2 ∧
    seen code (exec code c).1 = Some (next code p).1;
  faithful n : ∃ m, output (next code) n (start code) = output body m AtWrite;
  progresses m :
    (length (output body m AtWrite) <= length (output (next code) (enough code m) (start code)))%nat
}.

Fixpoint run_code (code : TaskCode) (n : nat) (c : Cpu) : Cpu * list Z :=
  match n with
  | O => (c, [])
  | S n =>
      let '(c, out) := exec code c in
      let '(c, out') := run_code code n c in (c, out ++ out')
  end.

(** ** The console under preemption *)

(** The processor when it takes an interrupt: the program counter is kept in
    ELR_EL1, the processor state in SPSR_EL1. *)
Definition take_irq (c : Cpu) : Cpu :=
  mkCpu (gpr c) (cpu_sp c) (cpu_pc c) (cpu_sp_el0 c) (cpu_pc c) (cpu_spsr c) (cpu_mem c).

(** The running task executes so many instructions, then the timer interrupts it. *)
Record Slice := mkSlice { steps : nat; slice_irq : Z; slice_clobbered : list Z }.

Inductive Origin := FromKernel | FromTask (slot : nat).

#[global] Instance Origin_eq_dec : EqDecision Origin.
Proof. solve_decision. Defined.

Definition stamp (o : Origin) (bytes : list Z) : list (Origin * Z) := pair o <$> bytes.
Definition bytes_from (o : Origin) (con : list (Origin * Z)) : list Z :=
  snd <$> filter (λ e, e.1 = o) con.

Definition running_slot (k : Statics) : nat := Z.to_nat (current_task (SCHEDULER k)).

Section console.
Context `{Build} (codes : nat → TaskCode).

(** What the interrupt that leads from [k] to [k'] prints. *)
Definition kernel_message (k k' : Statics) : outcome (list Z) :=
  tick ← tick_message (TIMER_TICKS k');
  switch ← (if SCHEDULER_ENABLED k' && (TIMER_TICKS k' mod 10 =? 0)
            then switch_message (current_task (SCHEDULER k)) (current_task (SCHEDULER k'))
            else Ok []);
  Ok (tick ++ switch).

Definition run_slice (sl : Slice) (k : Statics) (c : Cpu) : outcome (Statics * Cpu * list (Origin * Z)) :=
  let i := running_slot k in
  let '(c, out) := run_code (codes i) (steps sl) c in
  '(k', c) ← el1_spx_irq (slice_irq sl) (slice_clobbered sl) k (take_irq c);
  msg ← kernel_message k k';
  Ok (k', c, stamp (FromTask i) out ++ stamp FromKernel msg).

Fixpoint run_slices (sls : list Slice) (k : Statics) (c : Cpu)
    : outcome (Statics * Cpu * list (Origin * Z)) :=
  match sls with
  | [] => Ok (k, c, [])
  | sl :: sls =>
      '(k, c, con) ← run_slice sl k c;
      '(k, c, con') ← run_slices sls k c;
      Ok (k, c, con ++ con')
  end.
End console.

(** How many instructions slot [i] of [n] gets: slice by slice, ten to a turn, from
    tick [t] on. *)
Fixpoint given (i n t : Z) (sls : list Slice) : nat :=
  match sls with
  | [] => O
  | sl :: sls => (if (t / 10) mod n =? i then steps sl else O) + given i n (t + 1) sls
  end.

(** ** One slice *)

Lemma run_code_spec entry body code n c p :
  compiled entry body code → length (gpr c) = 31%nat → seen code c = Some p →
  length (gpr (run_code code n c).1) = 31%nat ∧ (run_code code n c).2 = output (next code) n p ∧
  seen code (run_code code n c).1 = Some (after (next code) n p).
Proof.
  intros Hcode. revert c p. induction n as [|n IH]; intros c p Hl Hp; [done|]. cbn [run_code].
  destruct (follows _ _ _ Hcode c p Hl Hp) as (Hl1 & Hout & Hp1).
  destruct (exec code c) as [c1 out]. cbn [fst snd] in *. destruct (IH c1 _ Hl1 Hp1) as (Hl2 & Hout2 & Hp2).
  destruct (run_code code n c1) as [c2 out']. cbn [fst snd] in *. split_and!; [done|by rewrite Hout, Hout2|done].
Qed.

Lemma bytes_from_app o con con' : bytes_from o (con ++ con') = bytes_from o con ++ bytes_from o con'.
Proof. unfold bytes_from. by rewrite filter_app, fmap_app. Qed.

Lemma bytes_from_stamp o o' bytes :
  bytes_from o (stamp o' bytes) = if decide (o' = o) then bytes else [].
Proof.
  unfold bytes_from, stamp. case_decide as Ho.
  - subst o'. induction bytes as [|b bytes IH]; [done|]. rewrite fmap_cons, filter_cons_True by done.
    cbn [fmap list_fmap snd]. f_equal. exact IH.
  - induction bytes as [|b bytes IH]; [done|]. rewrite fmap_cons, filter_cons_False by done. apply IH.
Qed.

Section run.
Context `{Build} (entries : nat → Z) (bodies : nat → TaskPc → TaskPc * list Z) (codes : nat → TaskCode).
Context (n : Z) (Hn : 0 < n ≤ 8).
Context (Hcodes : ∀ i, Z.of_nat i < n → compiled (entries i) (bodies i) (codes i)).

(** The position of task [i] after so many instructions of its own. *)
Definition pos_at (i : nat) (count : nat) : pos (codes i) := after (next (codes i)) count (start (codes i)).

Definition context_seen (i : nat) (ctx : TaskContext) : option (pos (codes i)) :=
  view (codes i) (ctx_x ctx) (ctx_pc ctx) (ctx_pstate ctx).

(** Task [i] has executed [T i] instructions: the running one stands where the
    processor is, the others where their saved context says. *)
Record in_turn (T : nat → nat) (k : Statics) (c : Cpu) : Prop := {
  it_turning : turning k;
  it_num : num_tasks (SCHEDULER k) = n;
  it_ticks : 0 ≤ TIMER_TICKS k;
  it_current : current_task (SCHEDULER k) = (TIMER_TICKS k / 10) mod n;
  it_gpr : length (gpr c) = 31%nat;
  it_running : seen (codes (running_slot k)) c = Some (pos_at (running_slot k) (T (running_slot k)));
  it_saved i t : tasks (SCHEDULER k) !! i = Some t → Z.of_nat i < n → i ≠ running_slot k →
    context_seen i (task_context t) = Some (pos_at i (T i))
}.

Definition advance (T : nat → nat) (i m : nat) : nat → nat :=
  λ j, if decide (j = i) then (T j + m)%nat else T j.

Lemma next_tenth t : 0 ≤ t → (t + 1) / 10 = t / 10 + if (t + 1) mod 10 =? 0 then 1 else 0.
Proof.
  intros Ht. pose proof (Z.div_mod t 10). pose proof (Z.mod_pos_bound t 10).
  pose proof (Z.div_mod (t + 1) 10). pose proof (Z.mod_pos_bound (t + 1) 10).
  destruct (_ =? 0) eqn:Hm; [apply Z.eqb_eq in Hm|apply Z.eqb_neq in Hm]; lia.
Qed.

Lemma running_slot_current k T c : in_turn T k c → Z.of_nat (running_slot k) = current_task (SCHEDULER k).
Proof.
  intros Hk. unfold running_slot. rewrite (it_current _ _ _ Hk). apply Z2Nat.id.
  apply Z.mod_pos_bound. lia.
Qed.

(** The task's own instructions. *)
Lemma code_step T k c m :
  in_turn T k c →
  in_turn (advance T (running_slot k) m) k (run_code (codes (running_slot k)) m c).1 ∧
  (run_code (codes (running_slot k)) m c).2 =
    output (next (codes (running_slot k))) m (pos_at (running_slot k) (T (running_slot k))).
Proof.
  intros Hk. pose proof (running_slot_current k T c Hk) as Hslot.
  pose proof Hk as [Hturn Hnum Hpos Hcur Hl Hrun Hsaved].
  assert (Z.of_nat (running_slot k) < n) as Hlt.
  { rewrite Hslot, Hcur. apply Z.mod_pos_bound. lia. }
  destruct (run_code_spec _ _ _ m c _ (Hcodes _ Hlt) Hl Hrun) as (Hl' & Hout & Hseen).
  split; [|done]. split; [done..| |].
  - rewrite Hseen. unfold pos_at, advance. rewrite decide_True by done. by rewrite after_add.
  - intros i t Ht Hi Hne. unfold advance. rewrite decide_False by done. by apply (Hsaved i t).
Qed.

(** After a switch every task's slot holds its position. *)
Lemma switched_contexts T k c k' :
  in_turn T k c →
  (∀ i u, tasks (SCHEDULER k) !! i = Some u → ∃ u', tasks (SCHEDULER k') !! i = Some u' ∧
     task_context u' = context_after (SCHEDULER k) (take_irq c) i u ∧ task_stack u' = task_stack u) →
  ∀ i t, tasks (SCHEDULER k') !! i = Some t → Z.of_nat i < n →
    context_seen i (task_context t) = Some (pos_at i (T i)).
Proof.
  intros Hk Hslots i t Ht Hi. pose proof (running_slot_current k T c Hk) as Hslot.
  destruct Hk as [Hturn Hnum Hpos Hcur Hl Hrun Hsaved].
  destruct (lookup_used (SCHEDULER k) (Z.of_nat i) (turn_inv k Hturn)) as [u Hu]; [lia|]. rewrite Nat2Z.id in Hu.
  destruct (Hslots i u Hu) as (u' & Hu' & Hctx & _). assert (u' = t) as -> by congruence.
  rewrite Hctx. unfold context_after. case_decide as Hi'.
  - assert (i = running_slot k) as -> by lia. exact Hrun.
  - apply (Hsaved i u); [done|done|lia].
Qed.

Lemma interrupt_step T k c irq clob :
  in_turn T k c → length clob = 31%nat → TIMER_TICKS k + 1 < 2 ^ 64 →
  ∃ k' c' msg, el1_spx_irq irq clob k (take_irq c) = Ok (k', c') ∧ kernel_message k k' = Ok msg ∧
    in_turn T k' c' ∧ TIMER_TICKS k' = TIMER_TICKS k + 1.
Proof.
  intros Hk Hclob Hfit. pose proof Hk as [Hturn Hnum Hpos Hcur Hl Hrun Hsaved].
  pose proof (next_tenth _ Hpos) as Htenth. pose proof (turn_enabled k Hturn) as Hen.
  destruct (tick_message_run (TIMER_TICKS k + 1)) as (tick & Htick & _); [unfold in_u; lia|].
  assert (0 ≤ current_task (SCHEDULER k) < n) as Hc by (rewrite Hcur; apply Z.mod_pos_bound; lia).
  destruct ((TIMER_TICKS k + 1) mod 10 =? 0) eqn:Hmod.
  - destruct (switch_turn (mkTick irq clob (take_irq c)) k)
      as (k' & c' & u & Hirq & Hturn' & Hnum' & Hcur' & Ht & _ & Hslots & Hu & Hx & Hpc & Hps & _);
      [by split|done|unfold in_u; lia|by apply Z.eqb_eq|].
    cbn [tick_irq tick_clobbered tick_cpu] in Hirq, Hslots.
    pose proof (switched_contexts T k c k' Hk Hslots) as Hall.
    assert (0 ≤ next_slot (SCHEDULER k) < n) as Hb by (unfold next_slot; rewrite Hnum; apply Z.mod_pos_bound; lia).
    do 3 eexists. split; [exact Hirq|]. split.
    { unfold kernel_message. rewrite Ht, Htick, (turn_enabled k' Hturn'), Hmod, Hcur', switch_message_run by lia.
      reflexivity. }
    split; [|done]. split; [done|congruence|lia| | | |].
    + rewrite Hcur', Ht, Htenth. unfold next_slot. rewrite Hcur, Hnum. by rewrite Zplus_mod_idemp_l.
    + rewrite Hx. apply (ok_regs u).
      apply (Forall_lookup_1 _ _ _ _ (inv_tasks _ (turn_inv k' Hturn')) Hu).
    + unfold running_slot. rewrite Hcur'. unfold seen. rewrite Hx, Hpc, Hps.
      apply (Hall _ u); [done|lia].
    + intros i t Hi Hlt _. by apply Hall.
  - destruct (irq_quiet_run irq clob k (take_irq c)) as (k' & m & Hirq & Hs & Ht & Hen' & _ & _);
      [done|done|unfold in_u; lia|unfold switch_tick; rewrite Hmod; apply andb_false_r|].
    do 3 eexists. split; [exact Hirq|]. split.
    { unfold kernel_message. rewrite Ht, Htick, Hmod, andb_false_r. reflexivity. }
    split; [|done]. destruct Hturn as [? ? ? ?].
    split; [split; rewrite ?Hs, ?Hen'; done|by rewrite Hs|lia| |done| |].
    + rewrite Hs, Hcur, Ht, Htenth, Z.add_0_r. done.
    + unfold running_slot. rewrite Hs. exact Hrun.
    + unfold running_slot. rewrite Hs. exact Hsaved.
Qed.

Lemma slice_step T k c sl :
  in_turn T k c → length (slice_clobbered sl) = 31%nat → TIMER_TICKS k + 1 < 2 ^ 64 →
  ∃ k' c' msg, run_slice codes sl k c = Ok (k', c',
      stamp (FromTask (running_slot k))
        (output (next (codes (running_slot k))) (steps sl) (pos_at (running_slot k) (T (running_slot k))))
      ++ stamp FromKernel msg) ∧
    in_turn (advance T (running_slot k) (steps sl)) k' c' ∧ TIMER_TICKS k' = TIMER_TICKS k + 1.
Proof.
  intros Hk Hclob Hfit. unfold run_slice. destruct (code_step T k c (steps sl) Hk) as [Hk1 Hout].
  destruct (run_code _ _ _) as [c1 out]. cbn [fst snd] in Hk1, Hout. subst out.
  destruct (interrupt_step _ k c1 (slice_irq sl) (slice_clobbered sl) Hk1 Hclob Hfit)
    as (k' & c' & msg & -> & Hmsg & Hk' & Ht). cbn [mbind outcome_bind]. rewrite Hmsg.
  exists k', c', msg. done.
Qed.

Lemma slices_run T k c sls :
  in_turn T k c → Forall (λ sl, length (slice_clobbered sl) = 31%nat) sls →
  TIMER_TICKS k + Z.of_nat (length sls) < 2 ^ 64 →
  ∃ k' c' con, run_slices codes sls k c = Ok (k', c', con) ∧
    ∀ i, Z.of_nat i < n → bytes_from (FromTask i) con =
      output (next (codes i)) (given (Z.of_nat i) n (TIMER_TICKS k) sls) (pos_at i (T i)).
Proof.
  revert T k c. induction sls as [|sl sls IH]; intros T k c Hk Hok Hfit; [by exists k, c, []|].
  apply Forall_cons in Hok as [Hclob Hok]. cbn [length] in Hfit.
  destruct (slice_step T k c sl Hk Hclob) as (k1 & c1 & msg & Hrun & Hk1 & Ht1); [lia|].
  destruct (IH _ k1 c1 Hk1 Hok) as (k' & c' & con & Hrest & Hbytes); [lia|].
  cbn [run_slices given]. rewrite Hrun. cbn [mbind outcome_bind]. rewrite Hrest. cbn [mbind outcome_bind].
  do 3 eexists. split; [done|]. intros i Hi.
  rewrite !bytes_from_app, !bytes_from_stamp, Hbytes, Ht1 by done. rewrite (decide_False (P := FromKernel = _)) by done.
  rewrite <- (it_current _ _ _ Hk), <- (running_slot_current k T c Hk), app_nil_r.
  unfold advance. destruct (decide (i = running_slot k)) as [->|Hne].
  - rewrite decide_True, Z.eqb_refl by done. unfold pos_at. by rewrite output_add, <- after_add.
  - rewrite decide_False by congruence. rewrite (proj2 (Z.eqb_neq _ _)) by lia. done.
Qed.
End run.

(** ** From power-on to letters *)
Section boot.
Context `{Build} {G : Type} `{!Wasmi G, !TypedGuest G, !EndingGuest G, !QuietGuest G}.

Lemma kernel_main_run hw fuel images c a0 a1 a2 rest :
  hw_ok hw → hw_stacks hw = a0 :: a1 :: a2 :: rest → (66 <= fuel)%nat →
  ∃ k c', kernel_main (G := G) hw fuel images (at_entry hw) c = Ok (Some (k, c')) ∧
    turning (statics k) ∧ SCHEDULER (statics k) = launched hw a0 a1 a2 rest ∧
    TIMER_TICKS (statics k) = 0 ∧ gpr c' = gpr c ∧ cpu_pc c' = hw_task1 hw ∧ cpu_spsr c' = 5.
Proof.
  intros Hok Hs Hfuel.
  destruct (prepare_run (G := G) hw fuel images a0 a1 a2 rest Hok Hs Hfuel) as (gl & Hprep & _).
  unfold kernel_main. rewrite Hprep. cbn [mbind outcome_bind].
  eexists _, _. split; [reflexivity|]. split; [|done].
  exact (launched_turning hw a0 a1 a2 rest (mkStatics (Scheduler_new []) 0 0 true []) Hok Hs eq_refl).
Qed.

Definition task_entries (hw : Hardware) (i : nat) : Z :=
  default 0 ([hw_task1 hw; hw_task2 hw; hw_task3 hw] !! i).
Definition task_bodies (i : nat) : TaskPc → TaskPc * list Z := default task1 ([task1; task2; task3] !! i).

(** Entered, the tasks stand at their start. *)
Lemma launched_in_turn hw codes k c a0 a1 a2 rest :
  (∀ i, Z.of_nat i < 3 → compiled (task_entries hw i) (task_bodies i) (codes i)) →
  turning k → SCHEDULER k = launched hw a0 a1 a2 rest → 0 ≤ TIMER_TICKS k < 10 →
  length (gpr c) = 31%nat → cpu_pc c = hw_task1 hw → cpu_spsr c = 5 →
  in_turn codes 3 (λ _, O) k c.
Proof.
  intros Hcodes Hturn Hs Ht Hl Hpc Hps.
  split; [done|by rewrite Hs|lia|by rewrite Hs, Z.div_small by lia|done| |].
  - unfold running_slot. rewrite Hs. unfold seen. rewrite Hpc, Hps.
    by apply (enters _ _ _ (Hcodes 0%nat ltac:(lia))).
  - unfold running_slot. rewrite Hs. intros [|[|[|i]]] t Hi Hlt Hne; [done| | |lia]; injection Hi as <-.
    + by apply (enters _ _ _ (Hcodes 1%nat ltac:(lia))).
    + by apply (enters _ _ _ (Hcodes 2%nat ltac:(lia))).
Qed.
End boot.

(** From this state on, after [ticks] ticks, and however many instructions run
    between any two timer interrupts: the kernel does not panic; slot [i] gets the slices
    of every third turn of ten; what it prints is what its code prints alone in
    as many instructions, which is what its body prints, and no less than the
    instructions allow. *)
Definition print_undisturbed `{Build} (codes : nat → TaskCode) (ticks : Z) (k : Statics) (c : Cpu) : Prop :=
  ∀ slices, Forall (λ sl, length (slice_clobbered sl) = 31%nat) slices →
    ticks + Z.of_nat (length slices) < 2 ^ 64 →
    ∃ st c'' con, run_slices codes slices k c = Ok (st, c'', con) ∧
      ∀ i body, [task1; task2; task3] !! i = Some body →
        let count := given (Z.of_nat i) 3 ticks slices in
        let printed := bytes_from (FromTask i) con in
        printed = output (next (codes i)) count (start (codes i)) ∧
        (∃ m, printed = output body m AtWrite) ∧
        ∀ m, (enough (codes i) m <= count)%nat →
          (length (output body m AtWrite) <= length printed)%nat.

Lemma in_turn_undisturbed `{Build} hw codes k c :
  (∀ i, Z.of_nat i < 3 → compiled (task_entries hw i) (task_bodies i) (codes i)) →
  in_turn codes 3 (λ _, O) k c → print_undisturbed codes (TIMER_TICKS k) k c.
Proof.
  intros Hcodes Hk slices Hslices Hfit.
  destruct (slices_run (task_entries hw) task_bodies codes 3 ltac:(lia) Hcodes (λ _, O) k c slices Hk Hslices Hfit)
    as (st & c'' & con & Hrun & Hbytes).
  exists st, c'', con. split; [done|]. intros i body Hbody count printed.
  assert (Z.of_nat i < 3) as Hi by (apply lookup_lt_Some in Hbody; simpl in Hbody; lia).
  assert (task_bodies i = body) as Hb by (unfold task_bodies; by rewrite Hbody).
  assert (printed = output (next (codes i)) count (start (codes i))) as Hp by (apply (Hbytes i Hi)).
  destruct (Hcodes i Hi) as [_ _ Hfaithful Hprog]. rewrite Hb in *.
  split_and!; [done|rewrite Hp; apply Hfaithful|]. intros m Hm. rewrite Hp.
  replace count with (enough (codes i) m + (count - enough (codes i) m))%nat by lia.
  rewrite output_add, length_app. specialize (Hprog m). lia.
Qed.

Section theorems.
Context `{Build} {G : Type} `{!Wasmi G, !TypedGuest G}.

End theorems.

(** ** Code for the tasks: two instructions, the count in x8 *)

Definition letter_code (entry letter : Z) : TaskCode := {|
  pos := TaskPc;
  start := AtWrite;
  next := letter_loop letter;
  exec c :=
    if cpu_pc c =? entry then (set_pc (set_x c 8 50000) (entry + 4), [letter])
    else if decide (0 < x c 8) then (set_x c 8 (x c 8 - 1), []) else (set_pc c entry, []);
  view regs pc pstate :=
    if pc =? entry then Some AtWrite
    else if pc =? entry + 4 then Some (Busy (default 0 (regs !! 8%nat))) else None;
  enough m := m
|}.

Lemma letter_code_compiled entry letter : compiled entry (letter_loop letter) (letter_code entry letter).
Proof.
  split; cbn [view start next letter_code enough].
  - intros regs _. by rewrite Z.eqb_refl.
  - intros c p Hl. unfold seen. cbn [view exec letter_code].
    destruct (cpu_pc c =? entry) eqn:He; [|destruct (cpu_pc c =? entry + 4) eqn:He4; [|done]].
    + intros [= <-]. cbn [fst snd letter_loop set_pc set_x gpr cpu_pc]. rewrite length_insert.
      rewrite (proj2 (Z.eqb_neq (entry + 4) entry)) by lia. rewrite Z.eqb_refl.
      by rewrite list_lookup_insert_eq by lia.
    + intros [= <-]. unfold letter_loop, x. case_decide; cbn [fst snd set_pc set_x gpr cpu_pc].
      * rewrite length_insert, He, He4, list_lookup_insert_eq by lia. done.
      * by rewrite Z.eqb_refl.
  - intros m. by exists m.
  - done.
Qed.

Definition sample_codes (i : nat) : TaskCode :=
  match i with
  | O => letter_code 0x40090000 65
  | S O => letter_code 0x400a0000 66
  | _ => letter_code 0x400b0000 67
  end.

Definition sample_slices : list Slice := replicate 25 (mkSlice 3 30 (replicate 31 0)).

