(* ===== verification/Boot.v ===== *)
(** * The x86-64 boot demonstrations ([src/src/main.rs])

    What [kernel_main] runs after the subsystems are up: the self-test of the
    capability system and the multitasking demo, in which a sender passes three
    messages to a receiver next to two busy tasks.  A task body is a resumption:
    its program counter says at which [task_yield] it stopped, and a slice runs
    it to the next one.  The demo is followed as it runs between timer ticks;
    what the benchmark task reads off the clocks is an input. *)
From stdpp Require Import strings.
From S2P Require Import Prelude Capability Syscall Task Scheduler Switch Ipc Benchmark.

(** ** The self-test of the capability system *)

Inductive TestLine := TestOk (step : nat) | TestFail (step : nat).

Definition passed (step : nat) (r : SyscallResult) (on_success : bool) : TestLine :=
  match r, on_success with
  | SyscallResult_Success _, true | SyscallResult_Error _, false => TestOk step
  | _, _ => TestFail step
  end.

(** [test_capability_system]: the verdicts it prints, in order. *)
Definition test_capability_system `{Build} (ctx : SyscallContext) : outcome (list TestLine) :=
  let rights_all := encode_rights Rights_ALL in
  '(ctx, result, _) ← syscall ctx 0 0 0x1000 rights_all 0;
  match result with
  | SyscallResult_Error _ => Ok [TestFail 1]
  | SyscallResult_Success cap1_id =>
      let rights_read := encode_rights Rights_READ in
      '(ctx, result, _) ← syscall ctx 1 cap1_id rights_read 0 0;
      match result with
      | SyscallResult_Error _ => Ok [TestOk 1; TestFail 2]
      | SyscallResult_Success cap2_id =>
          let rights_write := encode_rights Rights_READ_WRITE in
          '(ctx, r3, _) ← syscall ctx 1 cap2_id rights_write 0 0;
          '(ctx, r4, _) ← syscall ctx 3 cap2_id 0 0 0;
          '(ctx, r5, _) ← syscall ctx 2 cap2_id 0 0 0;
          '(ctx, r6, _) ← syscall ctx 3 cap2_id 0 0 0;
          Ok [TestOk 1; TestOk 2; passed 3 r3 false; passed 4 r4 true; passed 5 r5 true;
              passed 6 r6 false]
      end
  end.

(** ** Task bodies *)

Inductive ReceiverPc :=
  | RStart
  | RLoop (receiver_id : TaskId) (receiver_cspace : CSpace) (remaining : nat)
  | RFailed
  | RIdle.

Inductive SenderPc :=
  | SWait (n : nat)
  | SSend (sender_id : TaskId) (sender_cspace : CSpace) (i : nat)
  | SIdle.

Inductive BenchPc := BWarm (n : nat) | BRun (n : nat) | BTail (n : nat) | BIdle.
Inductive Task3Pc := TLoop (i : nat) | TIdle.

Inductive Program :=
  | IpcReceiver (pc : ReceiverPc)
  | IpcSender (pc : SenderPc)
  | BenchmarkTask (pc : BenchPc)
  | Task3 (pc : Task3Pc).

Inductive DemoEvent :=
  | EndpointCreated (r : result IpcError CapabilityId)
  | MessageSent (i : nat) (r : result IpcError ())
  | MessageReceived (m : Message)
  | ReceiveFailed (e : IpcError)
  | BenchmarkDone (r : BenchmarkResults)
  | Task3Iteration (i : nat).

(** [scheduler::current_task_id] and [scheduler::current_task_cspace]. *)
Definition k_current_task_id : K (option TaskId) :=
  with_guard SCHEDULER (guard ← get_scheduler; mret (current_task_id guard)).
Definition k_current_task_cspace : K (option CSpace) :=
  with_guard SCHEDULER (guard ← get_scheduler; mret (current_task_cspace guard)).

(** [vec![b'A' + i, b'0' + i, 0]] *)
Definition message_data (i : nat) : list Z := [65 + Z.of_nat i; 48 + Z.of_nat i; 0].

(** One turn of the sending loop, and of the idle loop after it. *)
Definition sender_send (sender_id : TaskId) (sender_cspace : CSpace) (i : nat)
    : K (SenderPc * list DemoEvent) :=
  if decide (i < 3)%nat then
    r ← send_message sender_id sender_cspace (CapabilityId_new 1) (message_data i);
    mret (SSend sender_id sender_cspace (S i), [MessageSent i r])
  else mret (SIdle, []).

Definition ipc_sender_main (pc : SenderPc) : K (SenderPc * list DemoEvent) :=
  match pc with
  | SWait (S n) => mret (SWait n, [])
  | SWait O =>
      id ← k_current_task_id;
      sender_id ← k_lift (unwrap id);
      cs ← k_current_task_cspace;
      sender_cspace ← k_lift (unwrap cs);
      sender_send sender_id sender_cspace 0
  | SSend sender_id sender_cspace i => sender_send sender_id sender_cspace i
  | SIdle => mret (SIdle, [])
  end.

(** The [while received < 3] loop, [remaining] being [3 - received], up to the
    next yield. *)
Fixpoint receiver_loop (receiver_id : TaskId) (receiver_cspace : CSpace) (remaining : nat)
    : K (ReceiverPc * list DemoEvent) :=
  match remaining with
  | O => mret (RIdle, [])
  | S n =>
      r ← try_receive_message receiver_id receiver_cspace (CapabilityId_new 1);
      match r with
      | ROk (Some msg) =>
          '(pc, log) ← receiver_loop receiver_id receiver_cspace n;
          mret (pc, MessageReceived msg :: log)
      | ROk None => mret (RLoop receiver_id receiver_cspace remaining, [])
      | RErr e => mret (RLoop receiver_id receiver_cspace remaining, [ReceiveFailed e])
      end
  end.

Definition ipc_receiver_main (pc : ReceiverPc) : K (ReceiverPc * list DemoEvent) :=
  match pc with
  | RStart =>
      id ← k_current_task_id;
      receiver_id ← k_lift (unwrap id);
      cs ← k_current_task_cspace;
      receiver_cspace ← k_lift (unwrap cs);
      r ← create_endpoint (CapabilityId_new 100);
      match r with
      | ROk _ =>
          '(pc, log) ← receiver_loop receiver_id receiver_cspace 3;
          mret (pc, EndpointCreated r :: log)
      | RErr _ => mret (RFailed, [EndpointCreated r])
      end
  | RLoop receiver_id receiver_cspace remaining =>
      receiver_loop receiver_id receiver_cspace remaining
  | RFailed => mret (RFailed, [])
  | RIdle => mret (RIdle, [])
  end.

(** What [benchmark_task] reads: the cycle counter around its ten yields, and
    the tick counter and the boot time when it collects the results. *)
Record Clock := mkClock { clk_start : Z; clk_end : Z; clk_ticks : Z; clk_boot_cycles : Z }.

(** [benchmark_task] on the statistics: its loops and yields around what it does
    after its second loop and at the end, and those two steps. *)
Definition benchmark_slices (measure : SwitchStats → outcome SwitchStats)
    (results : SwitchStats → outcome BenchmarkResults)
    (pc : BenchPc) (s : SwitchStats) : outcome (BenchPc * SwitchStats * list DemoEvent) :=
  match pc with
  | BWarm (S n) => Ok (BWarm n, s, [])
  | BWarm O => Ok (BRun 9, s, [])
  | BRun (S n) => Ok (BRun n, s, [])
  | BRun O =>
      s ← measure s;
      Ok (BTail 4, s, [])
  | BTail (S n) => Ok (BTail n, s, [])
  | BTail O => r ← results s; Ok (BIdle, s, [BenchmarkDone r])
  | BIdle => Ok (BIdle, s, [])
  end.

Definition benchmark_task `{Build} (c : Clock)
    : BenchPc → SwitchStats → outcome (BenchPc * SwitchStats * list DemoEvent) :=
  benchmark_slices
    (λ s, avg_cycles ← benchmark_context_switches (clk_start c) (clk_end c) 10;
          Ok (record_context_switch s avg_cycles))
    (λ s, collect_results s (clk_ticks c) (clk_boot_cycles c)).

Definition task3_main (pc : Task3Pc) : Task3Pc * list DemoEvent :=
  match pc with
  | TLoop i => if decide (i < 5)%nat then (TLoop (S i), [Task3Iteration i]) else (TIdle, [])
  | TIdle => (TIdle, [])
  end.

(** Run a task from one yield to the next, given the body of the benchmark
    task. *)
Definition BenchBody : Type :=
  BenchPc → SwitchStats → outcome (BenchPc * SwitchStats * list DemoEvent).

Definition slice (bench : BenchBody) (p : Program) (s : SwitchStats)
    : K (Program * SwitchStats * list DemoEvent) :=
  match p with
  | IpcReceiver pc => '(pc, log) ← ipc_receiver_main pc; mret (IpcReceiver pc, s, log)
  | IpcSender pc => '(pc, log) ← ipc_sender_main pc; mret (IpcSender pc, s, log)
  | BenchmarkTask pc => '(pc, s, log) ← k_lift (bench pc s); mret (BenchmarkTask pc, s, log)
  | Task3 pc => let '(pc, log) := task3_main pc in mret (Task3 pc, s, log)
  end.

(** [task_yield] on the kernel's globals, from a task with interrupts on. *)
Definition k_yield : K () := λ k,
  match task_yield (bool_decide (SCHEDULER ∈ k_held k)) true (k_scheduler k) with
  | Ok y => Ok (tt, mkKernel (k_registry k) (y_scheduler y) (k_held k) (k_trace k))
  | Panic => Panic
  | Hang => Hang
  end.

(** ** The demo *)

Record Demo := mkDemo {
  d_kernel : Kernel;
  d_programs : gmap TaskId Program;
  d_stats : SwitchStats;
  d_log : list DemoEvent
}.

(** The current task runs to its next yield, and yields. *)
Definition demo_step (bench : BenchBody) (d : Demo) : outcome Demo :=
  i ← unwrap (current_task_id (k_scheduler (d_kernel d)));
  p ← unwrap (d_programs d !! i);
  '((p, s, log), k) ← slice bench p (d_stats d) (d_kernel d);
  '(_, k) ← k_yield k;
  Ok (mkDemo k (<[i := p]> (d_programs d)) s (d_log d ++ log)).

Fixpoint demo_run (bench : BenchBody) (n : nat) (d : Demo) : outcome Demo :=
  match n with
  | O => Ok d
  | S n => d ← demo_step bench d; demo_run bench n d
  end.

Definition endpoint_cap (r : Rights) : Capability :=
  Capability_new (CapabilityId_new 1) ResourceType_Endpoint 100 r.

(** [test_scheduler] up to its jump into the first task.  [stacks] are the
    addresses of the four boxed stacks, [entries] those of the task bodies. *)
Definition test_scheduler `{Build} (wrapper : Z) (stacks entries : nat → Z) (k : Kernel)
    : outcome Demo :=
  '(n, receiver) ← Task_new 1 (stacks 0%nat) wrapper "ipc_receiver" (entries 0%nat) Priority_Normal;
  '(n, sender) ← Task_new n (stacks 1%nat) wrapper "ipc_sender" (entries 1%nat) Priority_Normal;
  '(n, bencher) ← Task_new n (stacks 2%nat) wrapper "benchmark" (entries 2%nat) Priority_Normal;
  '(n, task3) ← Task_new n (stacks 3%nat) wrapper "task3" (entries 3%nat) Priority_Normal;
  let receiver := with_cspace (λ cs, (CSpace_insert cs (endpoint_cap Rights_READ)).1) receiver in
  let sender := with_cspace (λ cs,
    (CSpace_insert cs (endpoint_cap (mkRights false true false false))).1) sender in
  '(_, k) ← on_scheduler (λ sched,
    let '(sched, id_receiver) := add_task sched receiver in
    let '(sched, id_sender) := add_task sched sender in
    let '(sched, id_bench) := add_task sched bencher in
    let '(sched, id3) := add_task sched task3 in
    (schedule sched).1) k;
  current_id ← unwrap (current_task_id (k_scheduler k));
  task ← unwrap (sched ← k_scheduler k; get_task sched current_id);
  Ok (mkDemo k
    (list_to_map [(task_id receiver, IpcReceiver RStart); (task_id sender, IpcSender (SWait 3));
                  (task_id bencher, BenchmarkTask (BWarm 2)); (task_id task3, Task3 (TLoop 0))])
    stats_zero []).

(** The end of [test_scheduler]: the copy of the current task's context that
    [switch_context] is given. *)
Definition first_task_context (d : Demo) : outcome TaskContext :=
  sched ← unwrap (k_scheduler (d_kernel d));
  current_id ← unwrap (current_task sched);
  task ← unwrap (get_task sched current_id);
  Ok (task_context task).

(** The globals after [ipc::init] and [scheduler::init]. *)
Definition booted : Kernel := idle IpcRegistry_new Scheduler_new [].

(** ** What the demonstrations show *)

(** The self-test never gets past its first step.  Its opening call asks for
    a fresh token, which the system call interface refuses to everybody, so on
    every boot and from every context the test reports one failure and leaves
    the five checks after it undone. *)
Theorem self_test_stops_at_once `{Build} ctx : test_capability_system ctx = Ok [TestFail 1].
Proof. reflexivity. Qed.

Definition is_ipc_event (e : DemoEvent) : bool :=
  match e with
  | EndpointCreated _ | MessageSent _ _ | MessageReceived _ | ReceiveFailed _ => true
  | _ => false
  end.

Definition ipc_events (d : Demo) : list DemoEvent := List.filter is_ipc_event (d_log d).

(** What a run of the demo should report: the endpoint, then each message sent
    and received before the next one is sent. *)
Definition expected_log : list DemoEvent :=
  EndpointCreated (ROk (CapabilityId_new 100)) ::
  (seq 0 3 ≫= λ i,
    [MessageSent i (ROk tt);
     MessageReceived (mkMessage (TaskId_new 2) (message_data i) None)]).

Section runs.
Context (bench : BenchBody).

Lemma demo_run_add m n d : demo_run bench (m + n) d = d ← demo_run bench m d; demo_run bench n d.
Proof.
  revert d. induction m as [|m IH]; intros d; simpl; [done|].
  destruct (demo_step bench d) as [d'| |]; simpl; [apply IH|done|done].
Qed.

(** A state that comes back after [p] steps is all there is to see. *)
Lemma demo_run_cycle p d n :
  (0 < p)%nat → demo_run bench p d = Ok d →
  ∃ j, (j < p)%nat ∧ demo_run bench n d = demo_run bench j d.
Proof.
  intros Hp Hcyc. induction n as [n IH] using lt_wf_ind.
  destruct (decide (n < p)%nat) as [|Hge]; [by exists n|].
  destruct (IH (n - p)%nat) as (j & Hj & Hrun); [lia|]. exists j. split; [done|].
  replace n with (p + (n - p))%nat by lia. by rewrite demo_run_add, Hcyc.
Qed.

(** Only what the body does matters. *)
Lemma demo_run_ext bench' n d :
  (∀ pc s, bench pc s = bench' pc s) → demo_run bench n d = demo_run bench' n d.
Proof.
  intros Hb. assert (∀ d, demo_step bench d = demo_step bench' d) as Hstep.
  { intros d'. unfold demo_step.
    assert (∀ p s k, slice bench p s k = slice bench' p s k) as Hs.
    { intros [] s k; try done. unfold slice, mbind, K_bind, k_lift. by rewrite Hb. }
    destruct (current_task_id _) as [i|]; [|done]. simpl.
    destruct (d_programs d' !! i) as [p|]; [|done]. simpl. by rewrite Hs. }
  revert d. induction n as [|n IH]; intros d; simpl; [done|]. rewrite Hstep.
  by destruct (demo_step bench' d) as [d'| |]; simpl.
Qed.
End runs.

(** The state [test_scheduler] builds, when no stack wraps around the address
    space. *)
Definition entry_context (stack wrapper entry : Z) : TaskContext :=
  mkTaskContext (stack + TASK_STACK_SIZE) (stack + TASK_STACK_SIZE) 0 0 0 0 0 entry
    0 0 0 0 0 0 0 0 0x200 wrapper.

Lemma Task_new_fits `{Build} n stack wrapper name entry :
  in_u 64 (stack + TASK_STACK_SIZE) →
  Task_new n stack wrapper name entry Priority_Normal =
    Ok (wrap 64 (n + 1),
        mkTask (TaskId_new n) TaskState_Ready (entry_context stack wrapper entry) stack
          CSpace_new Priority_Normal name).
Proof. intros Hs. unfold Task_new. by rewrite add_u_fits. Qed.

Definition stacks_fit (stacks : nat → Z) : Prop := ∀ i, in_u 64 (stacks i + TASK_STACK_SIZE).

(** The demo begins with the receiver. *)
Lemma first_task_run `{Build} wrapper stacks entries tr d0 :
  stacks_fit stacks →
  test_scheduler wrapper stacks entries (idle IpcRegistry_new Scheduler_new tr) = Ok d0 →
  first_task_context d0 = Ok (entry_context (stacks 0%nat) wrapper (entries 0%nat)).
Proof.
  intros Hfit. unfold test_scheduler.
  do 4 (rewrite Task_new_fits by apply Hfit; cbn [mbind outcome_bind]).
  intros [= <-]. reflexivity.
Qed.

(** The demo starts, and from its 80th slice on it repeats itself every four,
    whatever the benchmark task measures. *)
Lemma demo_settles `{Build} wrapper stacks entries tr
    (measured : SwitchStats → SwitchStats) (results : SwitchStats → BenchmarkResults) :
  stacks_fit stacks →
  ∃ d0 d, test_scheduler wrapper stacks entries (idle IpcRegistry_new Scheduler_new tr) = Ok d0 ∧
    demo_run (benchmark_slices (λ s, Ok (measured s)) (λ s, Ok (results s))) 80 d0 = Ok d ∧
    demo_run (benchmark_slices (λ s, Ok (measured s)) (λ s, Ok (results s))) 4 d = Ok d ∧
    ∀ j, (j < 4)%nat → ∃ d', demo_run (benchmark_slices (λ s, Ok (measured s)) (λ s, Ok (results s))) j d = Ok d' ∧ ipc_events d' = expected_log ∧
      k_held (d_kernel d') = [].
Proof.
  intros Hfit. unfold test_scheduler.
  do 4 (rewrite Task_new_fits by apply Hfit; cbn [mbind outcome_bind]).
  generalize (entry_context (stacks 0%nat) wrapper (entries 0%nat)) as c0, (stacks 0%nat) as s0.
  generalize (entry_context (stacks 1%nat) wrapper (entries 1%nat)) as c1, (stacks 1%nat) as s1.
  generalize (entry_context (stacks 2%nat) wrapper (entries 2%nat)) as c2, (stacks 2%nat) as s2.
  generalize (entry_context (stacks 3%nat) wrapper (entries 3%nat)) as c3, (stacks 3%nat) as s3.
  intros c3 s3 c2 s2 c1 s1 c0 s0.
  eexists _, _. split; [vm_compute; reflexivity|]. split; [vm_compute; reflexivity|].
  split; [vm_compute; reflexivity|]. intros j Hj.
  assert (j = 0 ∨ j = 1 ∨ j = 2 ∨ j = 3)%nat as [->|[->|[->| ->]]] by lia.
  all: eexists; split; [vm_compute; reflexivity|]; split; reflexivity.
Qed.

(** Clock readings on which the benchmark task's arithmetic does not overflow. *)
Definition clock_ok (c : Clock) : Prop :=
  0 ≤ clk_start c ≤ clk_end c ∧ clk_end c < 2 ^ 64 ∧ in_u 64 (clk_ticks c * 10).

Lemma benchmark_task_fits `{Build} c :
  clock_ok c → ∃ measured results, ∀ pc s,
    benchmark_task c pc s = benchmark_slices (λ s, Ok (measured s)) (λ s, Ok (results s)) pc s.
Proof.
  intros (Hs & He & Ht).
  exists (λ s, record_context_switch s ((clk_end c - clk_start c) / 10)), (λ s,
    mkBenchmarkResults (cycles_to_us (clk_boot_cycles c)) (clk_boot_cycles c)
      (CONTEXT_SWITCH_COUNT s) (cycles_to_ns (get_context_switch_stats s).2) (clk_ticks c)
      (clk_ticks c * 10)).
  intros pc s. unfold benchmark_task, benchmark_context_switches.
  rewrite sub_u_fits by (unfold in_u; lia).
  destruct pc as [[]|[]|[]|]; try done. simpl. unfold collect_results.
  rewrite mul_u_fits by done. done.
Qed.

(** The demo from any booted kernel, whatever locks were taken before. *)
Lemma demo_delivers `{Build} wrapper stacks entries tr c :
  stacks_fit stacks → clock_ok c →
  ∃ d0, test_scheduler wrapper stacks entries (idle IpcRegistry_new Scheduler_new tr) = Ok d0 ∧
    ∀ n, ∃ d, demo_run (benchmark_task c) n d0 = Ok d ∧
      ((80 <= n)%nat → ipc_events d = expected_log ∧ k_held (d_kernel d) = []).
Proof.
  intros Hfit (measured & results & Hb)%benchmark_task_fits.
  destruct (demo_settles wrapper stacks entries tr measured results Hfit) as (d0 & d & H0 & Hd & Hcyc & Hall).
  exists d0. split; [done|]. intros n. rewrite (demo_run_ext _ _ n d0 Hb).
  destruct (decide (80 <= n)%nat) as [Hn|Hn].
  - replace n with (80 + (n - 80))%nat by lia. rewrite demo_run_add, Hd. simpl.
    destruct (demo_run_cycle _ 4 d (n - 80) ltac:(lia) Hcyc) as (j & Hj & ->).
    destruct (Hall j Hj) as (d' & -> & ? & ?). by exists d'.
  - replace 80%nat with (n + (80 - n))%nat in Hd by lia. rewrite demo_run_add in Hd.
    destruct (demo_run _ n d0) as [d'| |]; [|done..]. exists d'. split; [done|]. lia.
Qed.

(** The demo works.  On a booted kernel, wherever the four stacks are
    allocated and with clocks that run forwards, the setup succeeds, no task ever
    panics or spins on a lock, and
    from the 80th slice on, for ever, the receiver has got exactly the three
    messages of the sender, each once, in order and from the sender's task id,
    with no failed send or receive. *)
Theorem ipc_demo_delivers `{Build} wrapper stacks entries c :
  stacks_fit stacks → clock_ok c →
  ∃ d0, test_scheduler wrapper stacks entries booted = Ok d0 ∧
    ∀ n, ∃ d, demo_run (benchmark_task c) n d0 = Ok d ∧
      ((80 <= n)%nat → ipc_events d = expected_log ∧ k_held (d_kernel d) = []).
Proof. apply demo_delivers. Qed.

Definition sample_clock : Clock := mkClock 1000 9000 50 30000.

Lemma ipc_demo_delivers_witness :
  ∃ d0, test_scheduler (H := Dev) 0x600000 (λ i, 0x100000 + 0x10000 * Z.of_nat (Nat.min i 3))
      (λ _, 0x500000) booted = Ok d0 ∧
    ∃ d, demo_run (benchmark_task (H := Dev) sample_clock) 100 d0 = Ok d ∧
      ipc_events d = expected_log.
Proof.
  destruct (ipc_demo_delivers (H := Dev) 0x600000
    (λ i, 0x100000 + 0x10000 * Z.of_nat (Nat.min i 3)) (λ _, 0x500000) sample_clock)
    as (d0 & H0 & Hall).
  - intros i. unfold in_u, TASK_STACK_SIZE. lia.
  - done.
  - exists d0. split; [exact H0|]. destruct (Hall 100%nat) as (d & Hd & Hlog).
    exists d. split; [exact Hd|]. apply Hlog. lia.
Defined.
