(* ===== verification/DemoTicks.v ===== *)
(** * The x86-64 demo under the timer ([src/src/main.rs], [interrupts.rs])

    [Boot] follows the multitasking demo from yield to yield.  Here a timer tick may
    come before and after every operation of a task, and while it holds the lock the
    operation takes: the four tasks, the registry and the scheduler are put on the core of
    [Preempt].  A move is a tick, a yield, the taking of a lock or the operation under
    it; without ticks the moves are the demo of [Boot].  A tick that spins for ever, on the
    scheduler's lock, is no move.  Ticks during the serial output of the tasks are left out, see
    [Exceptions]. *)
From stdpp Require Import strings.
From S2P Require Import Prelude Capability Task Scheduler Switch Interrupts Preempt Ipc Benchmark Boot.

(** ** Tasks one operation at a time *)

(** Before the next operation of a slice, or at the [task_yield] that ends it; and
    in between, with what was read from the scheduler. *)
Inductive Point :=
  | Doing (p : Program)
  | Yielding (p : Program)
  | ReceiverHasId (receiver_id : TaskId)
  | ReceiverHasCspace (receiver_id : TaskId) (receiver_cspace : CSpace)
  | SenderHasId (sender_id : TaskId).

Section demo.
Context (bench : BenchBody).

(** The next operation: where it leads, and what it reports. *)
Definition operation (f : Point) (s : SwitchStats) : K (Point * SwitchStats * list DemoEvent) :=
  match f with
  | Doing (IpcReceiver RStart) =>
      id ← k_current_task_id;
      receiver_id ← k_lift (unwrap id);
      mret (ReceiverHasId receiver_id, s, [])
  | ReceiverHasId receiver_id =>
      cs ← k_current_task_cspace;
      receiver_cspace ← k_lift (unwrap cs);
      mret (ReceiverHasCspace receiver_id receiver_cspace, s, [])
  | ReceiverHasCspace receiver_id receiver_cspace =>
      r ← create_endpoint (CapabilityId_new 100);
      mret (match r with
            | ROk _ => Doing (IpcReceiver (RLoop receiver_id receiver_cspace 3))
            | RErr _ => Yielding (IpcReceiver RFailed)
            end, s, [EndpointCreated r])
  | Doing (IpcReceiver (RLoop receiver_id receiver_cspace O)) => mret (Yielding (IpcReceiver RIdle), s, [])
  | Doing (IpcReceiver (RLoop receiver_id receiver_cspace (S n))) =>
      r ← try_receive_message receiver_id receiver_cspace (CapabilityId_new 1);
      mret (match r with
            | ROk (Some msg) => (Doing (IpcReceiver (RLoop receiver_id receiver_cspace n)), s, [MessageReceived msg])
            | ROk None => (Yielding (IpcReceiver (RLoop receiver_id receiver_cspace (S n))), s, [])
            | RErr e => (Yielding (IpcReceiver (RLoop receiver_id receiver_cspace (S n))), s, [ReceiveFailed e])
            end)
  | Doing (IpcSender (SWait O)) =>
      id ← k_current_task_id;
      sender_id ← k_lift (unwrap id);
      mret (SenderHasId sender_id, s, [])
  | SenderHasId sender_id =>
      cs ← k_current_task_cspace;
      sender_cspace ← k_lift (unwrap cs);
      mret (Doing (IpcSender (SSend sender_id sender_cspace 0)), s, [])
  | Doing p => '(p, s, log) ← slice bench p s; mret (Yielding p, s, log)
  | Yielding p => mret (Yielding p, s, [])
  end.

(** The lock an operation begins by taking. *)
Definition first_lock (f : Point) : option TaskLock :=
  match f with
  | Doing (IpcReceiver RStart) | ReceiverHasId _ | Doing (IpcSender (SWait O)) | SenderHasId _ =>
      Some SchedulerLock
  | ReceiverHasCspace _ _ | Doing (IpcReceiver (RLoop _ _ (S _))) => Some RegistryLock
  | Doing (IpcSender (SSend _ _ i)) => if decide (i < 3)%nat then Some RegistryLock else None
  | _ => None
  end.

(** Operations up to the next yield. *)
Fixpoint to_yield (n : nat) (f : Point) (s : SwitchStats) : K (Point * SwitchStats * list DemoEvent) :=
  match n, f with
  | S n, Doing _ | S n, ReceiverHasId _ | S n, ReceiverHasCspace _ _ | S n, SenderHasId _ =>
      '(f, s, log) ← operation f s;
      '(f, s, log') ← to_yield n f s;
      mret (f, s, log ++ log')
  | _, _ => mret (f, s, [])
  end.

(** ** The machine *)

Record World := mkWorld {
  w_core : Core;
  w_registry : option IpcRegistry;
  w_trace : list LockEvent;
  w_points : gmap TaskId Point;
  w_stats : SwitchStats;
  w_log : list DemoEvent
}.

Definition set_core (c : Core) (w : World) : World :=
  mkWorld c (w_registry w) (w_trace w) (w_points w) (w_stats w) (w_log w).

(** The kernel as task [o] sees it: the locks that others hold are taken. *)
Definition others_hold (o : TaskId) (l : TaskLock) (c : Core) : bool :=
  match lock_owner c !! l with Some j => negb (bool_decide (j = o)) | None => false end.

Definition kernel_of (o : TaskId) (w : World) : Kernel :=
  mkKernel (w_registry w) (Some (core_scheduler (w_core w)))
    ((if others_hold o SchedulerLock (w_core w) then [SCHEDULER] else []) ++
     (if others_hold o RegistryLock (w_core w) then [IPC_REGISTRY] else []))
    (w_trace w).

(** The core after an operation: its lock is free again. *)
Definition after_operation (l : option TaskLock) (s : Scheduler) (c : Core) : Core :=
  mkCore s (core_ticks c) (in_service c) (pending c)
    (match l with Some l => delete l (lock_owner c) | None => lock_owner c end).

Inductive Move := MTick | MYield | MLock | MOperate.

#[global] Instance Move_eq_dec : EqDecision Move.
Proof. solve_decision. Defined.

Definition may_operate (o : TaskId) (f : Point) (c : Core) : bool :=
  match f with
  | Yielding _ => false
  | _ => match first_lock f with
         | Some l => bool_decide (lock_owner c !! l = Some o)
         | None => true
         end
  end.

(** A move of the current task, or a tick while it runs; [None] when it cannot be
    made now: no tick is delivered while one is being served, and a lock that is
    held is waited for. *)
Definition move (m : Move) (w : World) : option World :=
  o ← current_task (core_scheduler (w_core w));
  f ← w_points w !! o;
  match m with
  | MTick =>
      if in_service (w_core w) then None
      else match core_tick o (w_core w) with Ok c => Some (set_core c w) | _ => None end
  | MYield =>
      match f with
      | Yielding p =>
          match core_yield o (w_core w) with
          | Ok c => Some (mkWorld c (w_registry w) (w_trace w) (<[o := Doing p]> (w_points w)) (w_stats w) (w_log w))
          | _ => None
          end
      | _ => None
      end
  | MLock =>
      l ← first_lock f;
      if is_locked l (w_core w) then None else Some (set_core (set_owner l (Some o) (w_core w)) w)
  | MOperate =>
      if may_operate o f (w_core w) then
        match operation f (w_stats w) (kernel_of o w) with
        | Ok ((f', s, log), k) =>
            sched ← k_scheduler k;
            Some (mkWorld (after_operation (first_lock f) sched (w_core w)) (k_registry k) (k_trace k)
                    (<[o := f']> (w_points w)) s (w_log w ++ log))
        | _ => None
        end
      else None
  end.

Fixpoint moves (ms : list Move) (w : World) : option World :=
  match ms with
  | [] => Some w
  | m :: ms => w ← move m w; moves ms w
  end.

Lemma moves_app ms1 ms2 w : moves (ms1 ++ ms2) w = w ← moves ms1 w; moves ms2 w.
Proof. revert w. induction ms1 as [|m ms1 IH]; intros w; simpl; [done|].
destruct (move m w); simpl; [apply IH|done]. Qed.
End demo.

(** The demo with the first task entered, after [ticks] timer ticks. *)
Definition launched (ticks : Z) (d : Demo) : option World :=
  s ← k_scheduler (d_kernel d);
  Some (mkWorld (mkCore s ticks false ∅ ∅) (k_registry (d_kernel d)) (k_trace (d_kernel d))
          (Doing <$> d_programs d) (d_stats d) (d_log d)).

(** What the log says of the messages. *)
Definition attempts (log : list DemoEvent) : list (nat * result IpcError ()) :=
  omap (λ e, match e with MessageSent i r => Some (i, r) | _ => None end) log.
Definition received (log : list DemoEvent) : list Message :=
  omap (λ e, match e with MessageReceived m => Some m | _ => None end) log.
Definition failures (log : list DemoEvent) : list IpcError :=
  omap (λ e, match e with
             | ReceiveFailed e => Some e
             | EndpointCreated (RErr e) => Some e
             | _ => None
             end) log.

(** ** The operations make up the slices *)
Section slices.
Context (bench : BenchBody).

Definition slice_fuel (p : Program) : nat :=
  match p with
  | IpcReceiver RStart => 7
  | IpcReceiver (RLoop _ _ n) => S n
  | IpcSender (SWait O) => 3
  | _ => 1
  end.

Lemma to_yield_S n f s k :
  (∀ p, f ≠ Yielding p) →
  to_yield bench (S n) f s k =
  ('(f, s, log) ← operation bench f s;
   '(f, s, log') ← to_yield bench n f s;
   mret (f, s, log ++ log')) k.
Proof. intros Hf. destruct f as [p|p| | |]; try done. by destruct (Hf p). Qed.

Lemma to_yield_yielding n p s k : to_yield bench n (Yielding p) s k = Ok ((Yielding p, s, []), k).
Proof. by destruct n. Qed.

Lemma receiver_operations i cs n s k :
  to_yield bench (S n) (Doing (IpcReceiver (RLoop i cs n))) s k =
  ('(pc, log) ← receiver_loop i cs n; mret (Yielding (IpcReceiver pc), s, log)) k.
Proof.
  revert s k. induction n as [|n IH]; intros s k; [done|].
  rewrite to_yield_S by done. cbn [operation receiver_loop]. unfold mbind, K_bind, mret, K_ret in *.
  destruct (try_receive_message _ _ _ k) as [[[[m|]|e] k']| |]; rewrite ?to_yield_yielding; [|done..].
  rewrite (IH s k'). by destruct (receiver_loop _ _ _ _) as [[[pc log] k'']| |].
Qed.

(** A slice of the demo, operation by operation. *)
Lemma slice_operations p s k :
  to_yield bench (slice_fuel p) (Doing p) s k =
  ('(p, s, log) ← slice bench p s; mret (Yielding p, s, log)) k.
Proof.
  assert (∀ p, operation bench (Doing p) s = ('(p, s, log) ← slice bench p s; mret (Yielding p, s, log)) →
    to_yield bench 1 (Doing p) s k = ('(p, s, log) ← slice bench p s; mret (Yielding p, s, log)) k) as Hone.
  { intros q Hq. rewrite to_yield_S, Hq by done. unfold mbind, K_bind, mret, K_ret.
    destruct (slice bench q s k) as [[[[p' s'] log] k']| |]; [|done..].
    by rewrite to_yield_yielding, app_nil_r. }
  destruct p as [[|i cs n| |]|[[|n]|i cs n|]|[[]|[]|[]|]|[]]; try (by apply Hone).
  - cbn [slice_fuel]. rewrite to_yield_S by done. cbn [operation slice ipc_receiver_main].
    unfold mbind, K_bind, mret, K_ret.
    destruct (k_current_task_id k) as [[[i|] k1]| |]; [|done..]. unfold k_lift. cbn [unwrap].
    rewrite to_yield_S by done. cbn [operation]. unfold mbind, K_bind, mret, K_ret, k_lift.
    destruct (k_current_task_cspace k1) as [[[cs|] k2]| |]; [|done..]. cbn [unwrap].
    rewrite to_yield_S by done. cbn [operation]. unfold mbind, K_bind, mret, K_ret.
    destruct (create_endpoint _ k2) as [[[c|e] k3]| |]; rewrite ?to_yield_yielding; [|done..].
    rewrite (receiver_operations i cs 3 s k3).
    unfold mbind, K_bind, mret, K_ret.
    by destruct (receiver_loop _ _ _ _) as [[[pc log] k4]| |].
  - cbn [slice_fuel]. rewrite (receiver_operations i cs n s k). cbn [slice ipc_receiver_main].
    unfold mbind, K_bind, mret, K_ret.
    by destruct (receiver_loop _ _ _ _) as [[[pc log] k4]| |].
  - cbn [slice_fuel]. rewrite to_yield_S by done. cbn [operation slice ipc_sender_main].
    unfold mbind, K_bind, mret, K_ret.
    destruct (k_current_task_id k) as [[[i|] k1]| |]; [|done..]. unfold k_lift. cbn [unwrap].
    rewrite to_yield_S by done. cbn [operation]. unfold mbind, K_bind, mret, K_ret, k_lift.
    destruct (k_current_task_cspace k1) as [[[cs|] k2]| |]; [|done..]. cbn [unwrap].
    rewrite to_yield_S by done. cbn [operation slice ipc_sender_main]. unfold mbind, K_bind, mret, K_ret.
    destruct (sender_send i cs 0 k2) as [[[pc log] k3]| |]; [|done..].
    by rewrite to_yield_yielding, app_nil_r.
Qed.
End slices.

(** ** Without ticks it is the demo of [Boot] *)

Lemma current_unblock s l : current_task (foldl unblock_task s l) = current_task s.
Proof.
  revert s. induction l as [|i l IH]; intros s; simpl; [done|]. rewrite IH. unfold unblock_task.
  destruct (get_task s i) as [t|]; [|done]. by destruct (is_state _ t).
Qed.

(** Reading the scheduler under its lock. *)
Definition scheduler_section (tr : list LockEvent) : list LockEvent :=
  tr ++ [Acquired SCHEDULER; Released SCHEDULER].

Lemma current_task_id_run r s tr :
  k_current_task_id (idle r s tr) = Ok (current_task s, idle r s (scheduler_section tr)).
Proof.
  unfold k_current_task_id, with_guard, mbind, K_bind, idle, scheduler_section. simpl.
  by rewrite <- app_assoc.
Qed.

Lemma current_task_cspace_run r s tr :
  k_current_task_cspace (idle r s tr) =
    Ok (current_task_cspace (Some s), idle r s (scheduler_section tr)).
Proof.
  unfold k_current_task_cspace, with_guard, mbind, K_bind, idle, scheduler_section. simpl.
  by rewrite <- app_assoc.
Qed.

Lemma task_yield_scheduler flag s y :
  task_yield false flag (Some s) = Ok y → is_Some (y_scheduler y).
Proof. unfold task_yield, unwrap, mbind, outcome_bind. intros. repeat case_match; simplify_eq; by eexists. Qed.

Section quiet.
Context (bench : BenchBody).

(** An operation that finds the locks free leaves them free, and the core to the
    same task. *)
Lemma operation_idle f s r sc tr x k' :
  operation bench f s (idle r sc tr) = Ok (x, k') →
  ∃ r' sc' tr', k' = idle r' sc' tr' ∧ current_task sc' = current_task sc.
Proof.
  assert (∀ i cs j y k', sender_send i cs j (idle r sc tr) = Ok (y, k') →
    ∃ r' sc' tr', k' = idle r' sc' tr' ∧ current_task sc' = current_task sc) as Hsend.
  { intros i cs j y k1. unfold sender_send. case_decide; [|intros [= _ <-]; by eauto 10].
    unfold mbind, K_bind. rewrite send_message_run. unfold mret, K_ret. intros Hm.
    repeat case_match; simplify_eq; eexists _, _, _; (split; [reflexivity|]); by rewrite ?current_unblock. }
  intros Hop. destruct f as [p|p|i|i cs|i].
  - destruct p as [[|i cs [|n]| |]|[[|n]|i cs n|]|pc|pc];
      cbn [operation slice ipc_receiver_main ipc_sender_main] in Hop;
      unfold mbind, K_bind, mret, K_ret, k_lift in Hop.
    1,6: rewrite current_task_id_run in Hop; revert Hop; generalize (unwrap (current_task sc));
      intros [] [= <- <-]; eauto 10.
    2: { rewrite try_receive_run in Hop. repeat case_match; simplify_eq/=; eauto 10. }
    5: { destruct (sender_send i cs n (idle r sc tr)) as [[[p log] k1]| |] eqn:Hs; [|done..].
      injection Hop as <- <-. exact (Hsend i cs n _ k1 Hs). }
    all: repeat case_match; simplify_eq/=; eauto 10.
  - injection Hop as <- <-; eauto 10.
  - cbn [operation] in Hop. unfold mbind, K_bind, k_lift in Hop. rewrite current_task_cspace_run in Hop.
    destruct (current_task_cspace _); [|done]; injection Hop as <- <-; eauto 10.
  - cbn [operation] in Hop. unfold mbind, K_bind in Hop. rewrite create_endpoint_run in Hop.
    injection Hop as <- <-; eauto 10.
  - cbn [operation] in Hop. unfold mbind, K_bind, k_lift in Hop. rewrite current_task_cspace_run in Hop.
    destruct (current_task_cspace _); [|done]; injection Hop as <- <-; eauto 10.
Qed.

(** A world in which no lock is held. *)
Definition resting (sc : Scheduler) (ticks : Z) (serving : bool) (pend : gmap TaskId (list IrqEvent))
    (r : IpcRegistry) (tr : list LockEvent) (points : gmap TaskId Point) (s : SwitchStats)
    (log : list DemoEvent) : World :=
  mkWorld (mkCore sc ticks serving pend ∅) (Some r) tr points s log.

Lemma operation_moves sc t sv pd r tr points s lg o f f' s' log k' :
  current_task sc = Some o → points !! o = Some f → (∀ p, f ≠ Yielding p) →
  operation bench f s (idle r sc tr) = Ok ((f', s', log), k') →
  ∃ ms r' sc' tr', k' = idle r' sc' tr' ∧ current_task sc' = Some o ∧ (MTick ∉ ms) ∧
    moves bench ms (resting sc t sv pd r tr points s lg) =
      Some (resting sc' t sv pd r' tr' (<[o := f']> points) s' (lg ++ log)).
Proof.
  intros Ho Hf Hny Hop. destruct (operation_idle f s r sc tr _ k' Hop) as (r' & sc' & tr' & -> & Hcur).
  exists match first_lock f with Some _ => [MLock; MOperate] | None => [MOperate] end, r', sc', tr'.
  split_and!; [done|congruence|destruct (first_lock f); set_solver|].
  assert (∀ owner, others_hold o SchedulerLock (mkCore sc t sv pd owner) = false →
    others_hold o RegistryLock (mkCore sc t sv pd owner) = false →
    may_operate o f (mkCore sc t sv pd owner) = true →
    move bench MOperate (mkWorld (mkCore sc t sv pd owner) (Some r) tr points s lg) =
    Some (mkWorld (after_operation (first_lock f) sc' (mkCore sc t sv pd owner)) (Some r') tr'
            (<[o := f']> points) s' (lg ++ log))) as Hmove.
  { intros owner Hs Hr Hm. unfold move. cbn [w_core core_scheduler w_points]. rewrite Ho. simpl.
    rewrite Hf. simpl. rewrite Hm. unfold kernel_of. cbn [w_core w_registry w_trace core_scheduler].
    rewrite Hs, Hr. simpl. unfold idle in Hop. by rewrite Hop. }
  destruct (first_lock f) as [l|] eqn:Hl.
  - cbn [moves]. assert (move bench MLock (resting sc t sv pd r tr points s lg) =
      Some (mkWorld (mkCore sc t sv pd {[l := o]}) (Some r) tr points s lg)) as ->.
    { unfold move, resting. cbn [w_core core_scheduler w_points]. rewrite Ho. simpl. rewrite Hf. simpl.
      by rewrite Hl. }
    cbn [mbind option_bind]. rewrite Hmove.
    + simpl. unfold resting, after_operation. simpl. by rewrite delete_singleton_eq.
    + unfold others_hold. cbn [lock_owner]. destruct l; [by rewrite lookup_singleton_eq, bool_decide_true|done].
    + unfold others_hold. cbn [lock_owner]. destruct l; [done|by rewrite lookup_singleton_eq, bool_decide_true].
    + unfold may_operate. rewrite Hl. cbn [lock_owner]. rewrite lookup_singleton_eq, bool_decide_true by done.
      by destruct f.
  - cbn [moves]. unfold resting at 1. rewrite Hmove; [done|done|done|]. unfold may_operate. rewrite Hl.
    destruct f; try done. by destruct (Hny p).
Qed.

Lemma to_yield_moves n sc t sv pd r tr points s lg o f f' s' log k' :
  current_task sc = Some o → points !! o = Some f →
  to_yield bench n f s (idle r sc tr) = Ok ((f', s', log), k') →
  ∃ ms r' sc' tr', k' = idle r' sc' tr' ∧ current_task sc' = Some o ∧ (MTick ∉ ms) ∧
    moves bench ms (resting sc t sv pd r tr points s lg) =
      Some (resting sc' t sv pd r' tr' (<[o := f']> points) s' (lg ++ log)).
Proof.
  revert sc r tr points s lg f log. induction n as [|n IH]; intros sc r tr points s lg f log Ho Hf Hrun.
  { injection Hrun as <- <- <- <-. exists [], r, sc, tr. rewrite app_nil_r, insert_id by done.
    split_and!; [done|done|apply not_elem_of_nil|done]. }
  assert ((∃ p, f = Yielding p) ∨ ∀ p, f ≠ Yielding p) as [[p ->]|Hny].
  { destruct f; (by left; eexists) || (by right). }
  { rewrite to_yield_yielding in Hrun. injection Hrun as <- <- <- <-. exists [], r, sc, tr.
    rewrite app_nil_r, insert_id by done. split_and!; [done|done|apply not_elem_of_nil|done]. }
  rewrite to_yield_S in Hrun by done. unfold mbind, K_bind in Hrun.
  destruct (operation bench f s (idle r sc tr)) as [[[[f1 s1] log1] k1]| |] eqn:Hop; [|done..].
  destruct (operation_moves sc t sv pd r tr points s lg o f f1 s1 log1 k1 Ho Hf Hny Hop)
    as (ms & r1 & sc1 & tr1 & -> & Ho1 & Hms & Hrun1).
  destruct (to_yield bench n f1 s1 _) as [[[[f2 s2] log2] k2]| |] eqn:Hrest; [|done..].
  injection Hrun as <- <- <- <-.
  destruct (IH sc1 r1 tr1 (<[o := f1]> points) s1 (lg ++ log1) f1 log2 Ho1 (lookup_insert_eq _ _ _) Hrest)
    as (ms' & r2 & sc2 & tr2 & -> & Ho2 & Hms' & Hrun2).
  exists (ms ++ ms'), r2, sc2, tr2. split_and!; [done|done|by rewrite not_elem_of_app|].
  rewrite moves_app, Hrun1. simpl. by rewrite Hrun2, insert_insert_eq, app_assoc.
Qed.

(** A world between two slices, and the demo it stands for. *)
Definition stands_for (w : World) (d : Demo) : Prop :=
  ∃ r sc tr t sv pd, d_kernel d = idle r sc tr ∧
    w = resting sc t sv pd r tr (Doing <$> d_programs d) (d_stats d) (d_log d).

Lemma step_moves w d d' :
  stands_for w d → demo_step bench d = Ok d' →
  ∃ ms w', (MTick ∉ ms) ∧ moves bench ms w = Some w' ∧ stands_for w' d'.
Proof.
  intros (r & sc & tr & t & sv & pd & Hk & ->) Hstep. unfold demo_step in Hstep.
  rewrite Hk in Hstep. cbn [k_scheduler idle] in Hstep. unfold current_task_id in Hstep. simpl in Hstep.
  destruct (current_task sc) as [o|] eqn:Ho; [|done]. simpl in Hstep.
  destruct (d_programs d !! o) as [p|] eqn:Hp; [|done]. simpl in Hstep.
  destruct (slice bench p (d_stats d) (idle r sc tr)) as [[[[p' s'] log] k']| |] eqn:Hs; [|done..].
  simpl in Hstep.
  pose proof (slice_operations bench p (d_stats d) (idle r sc tr)) as Hops.
  unfold mbind, K_bind in Hops. rewrite Hs in Hops.
  destruct (to_yield_moves _ sc t sv pd r tr (Doing <$> d_programs d) (d_stats d) (d_log d) o (Doing p)
    _ _ _ _ Ho ltac:(by rewrite lookup_fmap, Hp) Hops) as (ms & r' & sc' & tr' & -> & Ho' & Hms & Hrun).
  unfold k_yield in Hstep. cbn [k_held k_scheduler k_registry k_trace idle] in Hstep.
  rewrite bool_decide_false in Hstep by apply not_elem_of_nil.
  destruct (task_yield false true (Some sc')) as [y| |] eqn:Hy; [|done..].
  simpl in Hstep. injection Hstep as <-.
  destruct (task_yield_scheduler true sc' y Hy) as [sc2 Hsc2].
  set (c2 := play o match y_switch y with Some (_, n) => [SwitchedTo n] | None => [] end sc2 t sv
    (mkCore sc' t sv pd ∅)).
  exists (ms ++ [MYield]), (set_core c2 (resting sc' t sv pd r' tr'
    (Doing <$> <[o := p']> (d_programs d)) s' (d_log d ++ log))).
  split_and!; [set_solver| |].
  - rewrite moves_app, Hrun. cbn [mbind option_bind moves]. unfold move, resting.
    cbn [w_core core_scheduler w_points]. rewrite Ho'. simpl. rewrite lookup_insert_eq. simpl.
    unfold core_yield. cbn [core_scheduler].
    change (is_locked SchedulerLock (mkCore sc' t sv pd ∅)) with false. rewrite Hy. simpl. rewrite Hsc2.
    simpl. by rewrite insert_insert_eq, fmap_insert.
  - exists r', sc2, tr', t. unfold c2, play, set_core, resting. rewrite Hsc2.
    cbn [d_kernel d_programs d_stats d_log].
    destruct (y_switch y) as [[? n]|]; eexists _, _; (split; [done|done]).
Qed.

(** A demo of [Boot] is a run in which no tick comes. *)
Lemma quiet_moves n w d d' :
  stands_for w d → demo_run bench n d = Ok d' →
  ∃ ms w', (MTick ∉ ms) ∧ moves bench ms w = Some w' ∧ stands_for w' d'.
Proof.
  revert w d. induction n as [|n IH]; intros w d Hw Hrun; simpl in Hrun.
  { injection Hrun as <-. exists [], w. split_and!; [apply not_elem_of_nil|done|done]. }
  destruct (demo_step bench d) as [d1| |] eqn:Hstep; [|done..]. simpl in Hrun.
  destruct (step_moves w d d1 Hw Hstep) as (ms1 & w1 & Hms1 & Hrun1 & Hw1).
  destruct (IH w1 d1 Hw1 Hrun) as (ms2 & w2 & Hms2 & Hrun2 & Hw2).
  exists (ms1 ++ ms2), w2. split_and!; [by rewrite not_elem_of_app| |done].
  by rewrite moves_app, Hrun1.
Qed.
End quiet.
