(* ===== verification/DemoOrder.v ===== *)
(** * What the timer does to the x86-64 demo ([src/src/main.rs])

    The invariant of every run of [DemoTicks]: which messages were lost, queued
    and received, who holds which lock, and that no operation panics.  Preemption
    never disorders messages, but single runs show that it can hang the kernel and
    lose messages. *)
From stdpp Require Import strings.
From S2P Require Import Prelude Capability Task Scheduler Switch Interrupts Preempt Ipc Benchmark Boot DemoTicks.

(** ** The messages *)

(** The sender and the receiver, and the capabilities [test_scheduler] gives them. *)
Definition receiver : TaskId := TaskId_new 1.
Definition sender : TaskId := TaskId_new 2.
Definition receiver_caps : CSpace := (CSpace_insert CSpace_new (endpoint_cap Rights_READ)).1.
Definition sender_caps : CSpace :=
  (CSpace_insert CSpace_new (endpoint_cap (mkRights false true false false))).1.

Definition message (i : nat) : Message := mkMessage sender (message_data i) None.

(** How many messages the receiver still waits for, when it has its endpoint; how
    many the sender has tried to send. *)
Definition remaining (f : Point) : option nat :=
  match f with
  | Doing (IpcReceiver pc) | Yielding (IpcReceiver pc) =>
      match pc with RStart => None | RLoop _ _ n => Some n | RFailed | RIdle => Some O end
  | _ => None
  end.

Definition tried (f : Point) : nat :=
  match f with
  | Doing (IpcSender pc) | Yielding (IpcSender pc) =>
      match pc with SWait _ => 0 | SSend _ _ i => i | SIdle => 3 end
  | _ => 0
  end.

Definition program_ok (i : TaskId) (p : Program) : Prop :=
  match p with
  | IpcReceiver (RLoop j cs _) => i = receiver ∧ j = receiver ∧ cs = receiver_caps
  | IpcReceiver RFailed => False
  | IpcReceiver _ => i = receiver
  | IpcSender (SSend j cs n) => i = sender ∧ j = sender ∧ cs = sender_caps ∧ (n ≤ 3)%nat
  | IpcSender _ => i = sender
  | _ => i ≠ receiver ∧ i ≠ sender
  end.

Definition point_ok (i : TaskId) (f : Point) : Prop :=
  match f with
  | Doing (IpcReceiver pc) => program_ok i (IpcReceiver pc)
  | Yielding (IpcReceiver pc) => pc ≠ RStart ∧ program_ok i (IpcReceiver pc)
  | Doing p | Yielding p => program_ok i p
  | ReceiverHasId j => i = receiver ∧ j = receiver
  | ReceiverHasCspace j cs => i = receiver ∧ j = receiver ∧ cs = receiver_caps
  | SenderHasId j => i = sender ∧ j = sender
  end.

(** The first [lost] messages meet no endpoint, the [sent] after them are queued. *)
Definition outcomes (lost sent : nat) : list (nat * result IpcError ()) :=
  ((λ i, (i, RErr IpcError_EndpointNotFound)) <$> seq 0 lost) ++ ((λ i, (i, ROk tt)) <$> seq lost sent).

Definition endpoint_100 (q : list Message) : IpcRegistry :=
  mkIpcRegistry [mkIpcEndpoint (CapabilityId_new 100) q [] 16].

Definition messages_ok (registry : option IpcRegistry) (fr fs : Point) (log : list DemoEvent) : Prop :=
  ∃ lost sent, attempts log = outcomes lost sent ∧ (lost + sent = tried fs)%nat ∧ failures log = [] ∧
    match remaining fr with
    | None => registry = Some IpcRegistry_new ∧ sent = O ∧ received log = []
    | Some n => ∃ q, registry = Some (endpoint_100 q) ∧
        received log ++ q = message <$> seq lost sent ∧ (length (received log) + n = 3)%nat
    end.

Lemma log_app l1 l2 :
  attempts (l1 ++ l2) = attempts l1 ++ attempts l2 ∧ received (l1 ++ l2) = received l1 ++ received l2 ∧
  failures (l1 ++ l2) = failures l1 ++ failures l2.
Proof. by unfold attempts, received, failures; rewrite !omap_app. Qed.

Lemma messages_ok_app registry fr fs fs' log log' :
  messages_ok registry fr fs log → attempts log' = [] → received log' = [] → failures log' = [] →
  tried fs' = tried fs → messages_ok registry fr fs' (log ++ log').
Proof.
  intros Hok Ha Hr Hf Ht. unfold messages_ok. destruct (log_app log log') as (-> & -> & ->).
  by rewrite Ha, Hr, Hf, !app_nil_r, Ht.
Qed.

Lemma outcomes_lost n : outcomes n 0 ++ [(n, RErr IpcError_EndpointNotFound)] = outcomes (S n) 0.
Proof. unfold outcomes. by rewrite seq_S, fmap_app, !app_nil_r. Qed.

Lemma outcomes_sent lost n : outcomes lost n ++ [((lost + n)%nat, ROk tt)] = outcomes lost (S n).
Proof. unfold outcomes. by rewrite seq_S, fmap_app, app_assoc. Qed.

Lemma tried_bound i f : point_ok i f → (tried f ≤ 3)%nat.
Proof. destruct f as [[[]|[]|[]|[]]|[[]|[]|[]|[]]|j|j cs|j]; cbn [point_ok program_ok tried]; try lia;
  intuition. Qed.

(** How many operations may be left of a turn, and how many turns the sender needs
    to get idle. *)
Definition ops (f : Point) : nat :=
  match f with
  | Doing p => slice_fuel p
  | Yielding _ => 0
  | ReceiverHasId _ => 6
  | ReceiverHasCspace _ _ => 5
  | SenderHasId _ => 2
  end.

Definition sender_turns (pc : SenderPc) : nat :=
  match pc with SWait n => n + 4 | SSend _ _ i => 4 - i | SIdle => 0 end.

Definition turns_left (f : Point) : nat :=
  match f with
  | Doing (IpcSender pc) => sender_turns pc
  | Yielding (IpcSender SIdle) => 0
  | Yielding (IpcSender pc) => S (sender_turns pc)
  | SenderHasId _ => 4
  | _ => 0
  end.

(** Everything queued has been received. *)
Definition drained (registry : option IpcRegistry) (fr : Point) : Prop :=
  registry = Some (endpoint_100 []) ∧ is_Some (remaining fr).

Lemma nothing_remains registry fr fs log :
  messages_ok registry fr fs log → (tried fs ≤ 3)%nat → remaining fr = Some O → drained registry fr.
Proof.
  intros (lost & sent & _ & Ht & _ & Hr) Hle Hfr. unfold drained. rewrite Hfr in Hr |- *.
  destruct Hr as (q & -> & Hq & Hlen). apply (f_equal length) in Hq.
  rewrite length_app, length_fmap, length_seq in Hq. split; [|by eexists].
  destruct q; [done|]. simpl in Hq. lia.
Qed.

(** The other locks an operation may find taken. *)
Definition locks_for (f : Point) (held : list Lock) : Prop :=
  match first_lock f with
  | Some SchedulerLock => held = [] ∨ held = [IPC_REGISTRY]
  | Some RegistryLock => held = []
  | None => True
  end.

Lemma read_current r sc held tr :
  held = [] ∨ held = [IPC_REGISTRY] →
  k_current_task_id (mkKernel r (Some sc) held tr) =
    Ok (current_task sc, mkKernel r (Some sc) held (scheduler_section tr)) ∧
  k_current_task_cspace (mkKernel r (Some sc) held tr) =
    Ok (current_task_cspace (Some sc), mkKernel r (Some sc) held (scheduler_section tr)).
Proof.
  intros [->| ->]; unfold k_current_task_id, k_current_task_cspace, with_guard, mbind, K_bind, scheduler_section;
    simpl; by rewrite <- !app_assoc.
Qed.

Section operations.
Context (bench : BenchBody).

Lemma receiver_operation sc f fs reg held tr s lg :
  current_task sc = Some receiver → current_task_cspace (Some sc) = Some receiver_caps →
  point_ok receiver f → (∀ p, f ≠ Yielding p) → locks_for f held → messages_ok reg f fs lg →
    (tried fs ≤ 3)%nat →
  ∃ f' log reg' tr',
    operation bench f s (mkKernel reg (Some sc) held tr) = Ok ((f', s, log), mkKernel reg' (Some sc) held tr') ∧
    point_ok receiver f' ∧ messages_ok reg' f' fs (lg ++ log) ∧ (ops f' < ops f)%nat ∧
    (∀ p, f' = Yielding p → drained reg' f').
Proof.
  intros Hcur Hcs Hf Hny Hheld Hmsg Htried.
  destruct f as [[[|j cs [|n]| |]|[]|pc|pc]|p|j|j cs|j]; try done; try (by destruct Hf).
  - destruct (read_current reg sc held tr Hheld) as [Hid _].
    eexists (ReceiverHasId receiver), [], reg, _. split_and!; [|done|by rewrite app_nil_r|cbn; lia|done].
    cbn [operation]. unfold mbind, K_bind. rewrite Hid, Hcur. reflexivity.
  - eexists _, _, _, _. split_and!; [reflexivity|done| |cbn; lia|].
    + destruct Hmsg as (lost & sent & ? & ? & ? & ?). rewrite app_nil_r. by exists lost, sent.
    + intros _ _. by apply (nothing_remains _ (Doing (IpcReceiver (RLoop j cs 0))) fs lg).
  - destruct Hf as (_ & -> & ->). cbn in Hheld. subst held.
    destruct Hmsg as (lost & sent & Ha & Ht & Hfl & q & -> & Hq & Hlen).
    destruct q as [|m q].
    + eexists (Yielding (IpcReceiver (RLoop receiver receiver_caps (S n)))), [], _, _.
      split_and!; [|done| |cbn; lia|by intros _ _].
      * cbn [operation]. unfold mbind, K_bind.
        pose proof (try_receive_run receiver receiver_caps (CapabilityId_new 1) (endpoint_100 []) sc tr) as Hrun.
        unfold idle in Hrun. rewrite Hrun. reflexivity.
      * rewrite app_nil_r. exists lost, sent. split_and!; [done..|]. by exists [].
    + eexists (Doing (IpcReceiver (RLoop receiver receiver_caps n))), [MessageReceived m], _, _.
      split_and!; [|done| |cbn; lia|done].
      * cbn [operation]. unfold mbind, K_bind.
        pose proof (try_receive_run receiver receiver_caps (CapabilityId_new 1) (endpoint_100 (m :: q)) sc tr) as Hrun.
        unfold idle in Hrun. rewrite Hrun. reflexivity.
      * exists lost, sent. destruct (log_app lg [MessageReceived m]) as (-> & -> & ->).
        rewrite !app_nil_r. split_and!; [done..|]. exists q. split_and!; [done|by rewrite <- app_assoc|].
        rewrite length_app. simpl. lia.
  - eexists (Yielding (IpcReceiver RIdle)), _, _, _. split_and!; [reflexivity|done| |cbn; lia|].
    + destruct Hmsg as (lost & sent & ? & ? & ? & ?). rewrite app_nil_r. by exists lost, sent.
    + intros _ _. by apply (nothing_remains _ (Doing (IpcReceiver RIdle)) fs lg).
  - by destruct (Hny p).
  - destruct Hf as [_ ->]. destruct (read_current reg sc held tr Hheld) as [_ Hrun].
    eexists (ReceiverHasCspace receiver receiver_caps), [], reg, _.
    split_and!; [|done|by rewrite app_nil_r|cbn; lia|done].
    cbn [operation]. unfold mbind, K_bind. rewrite Hrun, Hcs. reflexivity.
  - destruct Hf as (_ & -> & ->). cbn in Hheld. subst held.
    destruct Hmsg as (lost & sent & Ha & Ht & Hfl & -> & -> & Hr).
    eexists (Doing (IpcReceiver (RLoop receiver receiver_caps 3))), [EndpointCreated (ROk (CapabilityId_new 100))], _, _.
    split_and!; [|done| |cbn; lia|done].
    + cbn [operation]. unfold mbind, K_bind.
      pose proof (create_endpoint_run (CapabilityId_new 100) IpcRegistry_new sc tr) as Hrun.
      unfold idle in Hrun. rewrite Hrun. reflexivity.
    + exists lost, O. destruct (log_app lg [EndpointCreated (ROk (CapabilityId_new 100))]) as (-> & -> & ->).
      rewrite !app_nil_r. split_and!; [done..|]. exists []. by rewrite Hr.
Qed.

Lemma send_lost sc tr i lg fr :
  (i < 3)%nat → remaining fr = None →
    messages_ok (Some IpcRegistry_new) fr (Doing (IpcSender (SSend sender sender_caps i))) lg →
  ∃ tr', sender_send sender sender_caps i (idle IpcRegistry_new sc tr) =
      Ok ((SSend sender sender_caps (S i), [MessageSent i (RErr IpcError_EndpointNotFound)]), idle IpcRegistry_new sc tr') ∧
    messages_ok (Some IpcRegistry_new) fr (Yielding (IpcSender (SSend sender sender_caps (S i))))
      (lg ++ [MessageSent i (RErr IpcError_EndpointNotFound)]).
Proof.
  intros Hi Hfr (lost & sent & Ha & Ht & Hfl & Hr). rewrite Hfr in Hr. destruct Hr as (_ & -> & Hr).
  cbn [tried] in Ht. assert (lost = i) as -> by lia. eexists. split.
  - unfold sender_send. rewrite decide_True by done. unfold mbind, K_bind.
    rewrite (send_message_run sender sender_caps (CapabilityId_new 1) (message_data i) IpcRegistry_new sc tr).
    reflexivity.
  - exists (S i), O. destruct (log_app lg [MessageSent i (RErr IpcError_EndpointNotFound)]) as (-> & -> & ->).
    rewrite Hfr, Ha, Hfl, Hr. split_and!; [apply outcomes_lost|cbn [tried]; lia|done..].
Qed.

Lemma send_queued sc tr i q lg fr n :
  (i < 3)%nat → remaining fr = Some n →
  messages_ok (Some (endpoint_100 q)) fr (Doing (IpcSender (SSend sender sender_caps i))) lg →
  ∃ tr', sender_send sender sender_caps i (idle (endpoint_100 q) sc tr) =
      Ok ((SSend sender sender_caps (S i), [MessageSent i (ROk tt)]), idle (endpoint_100 (q ++ [message i])) sc tr') ∧
    messages_ok (Some (endpoint_100 (q ++ [message i]))) fr
      (Yielding (IpcSender (SSend sender sender_caps (S i)))) (lg ++ [MessageSent i (ROk tt)]).
Proof.
  intros Hi Hfr (lost & sent & Ha & Ht & Hfl & Hr). rewrite Hfr in Hr.
  destruct Hr as (q' & [= <-] & Hq & Hlen). cbn [tried] in Ht.
  assert (length q <= sent)%nat as Hq3.
  { apply (f_equal length) in Hq. rewrite length_app, length_fmap, length_seq in Hq. lia. }
  eexists. split.
  - unfold sender_send. rewrite decide_True by done. unfold mbind, K_bind.
    rewrite (send_message_run sender sender_caps (CapabilityId_new 1) (message_data i) (endpoint_100 q) sc tr).
    replace (ipc_target Rights_write sender_caps (CapabilityId_new 1)) with (Some (CapabilityId_new 100)) by reflexivity.
    cbn [IpcRegistry_get_endpoint endpoints endpoint_100 find_key].
    replace (IpcRegistry_get_endpoint (endpoint_100 q) (CapabilityId_new 100))
      with (Some (mkIpcEndpoint (CapabilityId_new 100) q [] 16)) by reflexivity.
    rewrite decide_False by (cbn; unfold MAX_MESSAGE_SIZE; lia). rewrite decide_False by (cbn; lia).
    reflexivity.
  - exists lost, (S sent). destruct (log_app lg [MessageSent i (ROk tt)]) as (-> & -> & ->).
    rewrite Hfr, Ha, Hfl, !app_nil_r. cbn [attempts omap list_omap]. rewrite <- outcomes_sent, Ht.
    split_and!; [done|cbn [tried]; lia|done|]. exists (q ++ [message i]). split_and!; [done| |done].
    rewrite app_assoc, Hq, seq_S, fmap_app, Ht. done.
Qed.

Lemma sender_operation sc f fr reg held tr s lg :
  current_task sc = Some sender → current_task_cspace (Some sc) = Some sender_caps →
  point_ok sender f → (∀ p, f ≠ Yielding p) → locks_for f held → messages_ok reg fr f lg →
  ∃ f' log reg' tr',
    operation bench f s (mkKernel reg (Some sc) held tr) = Ok ((f', s, log), mkKernel reg' (Some sc) held tr') ∧
    point_ok sender f' ∧ messages_ok reg' fr f' (lg ++ log) ∧
    (ops f' < ops f ∧ turns_left f' ≤ turns_left f)%nat.
Proof.
  intros Hcur Hcs Hf Hny Hheld Hmsg.
  destruct f as [[[]|[[|n]|j cs i|]|[]|[]]|p|j|j cs|j]; try done; try (by destruct Hf);
    try (by destruct (Hny p)).
  - destruct (read_current reg sc held tr Hheld) as [Hid _].
    eexists (SenderHasId sender), [], reg, _. split_and!; [|done|by rewrite app_nil_r|cbn; lia..].
    cbn [operation]. unfold mbind, K_bind. rewrite Hid, Hcur. reflexivity.
  - eexists (Yielding (IpcSender (SWait n))), [], _, _.
    split_and!; [reflexivity|done|by rewrite app_nil_r|cbn; lia..].
  - destruct Hf as (_ & -> & -> & Hi). unfold locks_for in Hheld. cbn [first_lock] in Hheld.
    cbn [operation slice ipc_sender_main]. unfold mbind, K_bind, mret, K_ret.
    destruct (decide (i < 3)%nat) as [Hi3|Hi3].
    + subst held. pose proof Hmsg as (lost & sent & _ & _ & _ & Hr).
      destruct (remaining fr) as [n|] eqn:Hfr.
      * destruct Hr as (q & -> & _). destruct (send_queued sc tr i q lg fr n Hi3 Hfr Hmsg) as (tr' & Hrun & Hok).
        unfold idle in Hrun. rewrite Hrun. eexists _, _, _, _.
        split_and!; [reflexivity|by split_and!|done|cbn; lia|].
        unfold turns_left, sender_turns. lia.
      * destruct Hr as (-> & _). destruct (send_lost sc tr i lg fr Hi3 Hfr Hmsg) as (tr' & Hrun & Hok).
        unfold idle in Hrun. rewrite Hrun. eexists _, _, _, _.
        split_and!; [reflexivity|by split_and!|done|cbn; lia|].
        unfold turns_left, sender_turns. lia.
    + unfold sender_send. rewrite decide_False by done.
      eexists _, _, _, _. split_and!; [reflexivity|done| |cbn; lia..].
      apply (messages_ok_app _ _ _ _ _ _ Hmsg); try done.
      cbn [tried]. lia.
  - eexists (Yielding (IpcSender SIdle)), [], _, _.
    split_and!; [reflexivity|done|by rewrite app_nil_r|cbn; lia..].
  - destruct Hf as [_ ->]. destruct (read_current reg sc held tr Hheld) as [_ Hrun].
    eexists (Doing (IpcSender (SSend sender sender_caps 0))), [], reg, _.
    split_and!; [|split_and!; (done || lia)| |cbn; lia..].
    + cbn [operation]. unfold mbind, K_bind. rewrite Hrun, Hcs. reflexivity.
    + rewrite app_nil_r. exact Hmsg.
Qed.

(** The other two tasks do not touch the messages. *)
Definition minds_its_business : Prop :=
  ∀ pc s, ∃ pc' s' log, bench pc s = Ok (pc', s', log) ∧
    attempts log = [] ∧ received log = [] ∧ failures log = [].

Lemma bystander_operation k o f s :
  minds_its_business → point_ok o f → o ≠ receiver → o ≠ sender → (∀ p, f ≠ Yielding p) →
  ∃ f' s' log, operation bench f s k = Ok ((f', s', log), k) ∧ point_ok o f' ∧
    first_lock f = None ∧ attempts log = [] ∧ received log = [] ∧ failures log = [] ∧ (ops f' < ops f)%nat.
Proof.
  intros Hb Hf Hr Hs Hny.
  destruct f as [[[]|[]|pc|pc]|p|j|j cs|j]; try (by destruct Hf); try done; try (by destruct (Hny p)).
  - destruct (Hb pc s) as (pc' & s' & log & Hpc & Hlog).
    exists (Yielding (BenchmarkTask pc')), s', log. split_and!; [|done|done|apply Hlog..|cbn; lia].
    cbn [operation slice]. unfold mbind, K_bind, k_lift. by rewrite Hpc.
  - destruct (task3_main pc) as [pc' log] eqn:Hpc.
    exists (Yielding (Task3 pc')), s, log. split_and!; [|done|done| | | |cbn; lia].
    { cbn [operation slice]. unfold mbind, K_bind. by rewrite Hpc. }
    all: destruct pc as [i|]; cbn [task3_main] in Hpc; [case_decide|]; by injection Hpc as <- <-.
Qed.
End operations.

(** ** The invariant of the preempted demo *)

(** What a turn of the scheduler keeps of it. *)
Definition same_tasks (s s' : Scheduler) : Prop :=
  (∀ i, i ∈ ready_queue s' ↔ i ∈ ready_queue s) ∧
  (∀ i, task_cspace <$> get_task s' i = task_cspace <$> get_task s i) ∧
  (is_Some (current_task s) → is_Some (current_task s')).

Lemma same_tasks_schedule s n rest :
  sched_inv s → ready_queue s = n :: rest → same_tasks s (schedule s).1.
Proof.
  intros Hinv Hq. destruct (schedule_cons s n rest Hinv Hq) as (s' & -> & Hq' & Hc & _ & Hget). cbn [fst].
  split_and!; [intros i; rewrite Hq, Hq'; set_solver| |by rewrite Hc].
  intros i. rewrite Hget. by destruct (get_task s i).
Qed.

(** A tick or a yield of the core. *)
Lemma core_turn c c' o l :
  core_inv c → current_task (core_scheduler c) = Some o → core_step l c c' → l = Tick ∨ l = Yield →
  core_inv c' ∧ same_tasks (core_scheduler c) (core_scheduler c') ∧ lock_owner c' = lock_owner c ∧
  (lock_owner c !! SchedulerLock = None ∨ core_scheduler c' = core_scheduler c).
Proof.
  intros Hinv Ho Hstep Hl. split; [by eapply core_step_inv|].
  destruct (core_step_cases l c c' Hstep Hinv) as [(Hny & _ & Htick)|(o' & n & Hn & Hsw)].
  { destruct Hl as [-> | ->]; [|done]. destruct Htick as (_ & -> & ->); [done|].
    split_and!; [by split_and!|done|by right]. }
  destruct (hands_over_split c o' n Hn) as [q Hq].
  assert (∀ rest ticks serving, c' = switched o' n rest ticks serving c →
    same_tasks (core_scheduler c) (core_scheduler c') ∧ lock_owner c' = lock_owner c) as Hsame.
  { intros rest ticks serving ->. destruct (core_scheduler_switched o' n rest ticks serving c) as [-> ->].
    split; [|done]. by apply (same_tasks_schedule _ n q); [apply Hn|]. }
  assert (same_tasks (core_scheduler c) (core_scheduler c') ∧ lock_owner c' = lock_owner c) as [? ?]
    by (destruct Hsw as [[_ ?]|(_ & _ & _ & ?)]; by eapply Hsame).
  split_and!; [done|done|left; apply Hn].
Qed.

Record world_inv (w : World) : Prop := {
  wi_core : core_inv (w_core w);
  wi_current : is_Some (current_task (core_scheduler (w_core w)));
  wi_points i : i ∈ ready_queue (core_scheduler (w_core w)) → is_Some (w_points w !! i);
  wi_queued : receiver ∈ ready_queue (core_scheduler (w_core w)) ∧
    sender ∈ ready_queue (core_scheduler (w_core w));
  wi_point_ok i f : w_points w !! i = Some f → point_ok i f;
  wi_caps : task_cspace <$> get_task (core_scheduler (w_core w)) receiver = Some receiver_caps ∧
    task_cspace <$> get_task (core_scheduler (w_core w)) sender = Some sender_caps;
  wi_locks l i : lock_owner (w_core w) !! l = Some i →
    ∃ f, w_points w !! i = Some f ∧ first_lock f = Some l;
  wi_scheduler_lock i : lock_owner (w_core w) !! SchedulerLock = Some i →
    current_task (core_scheduler (w_core w)) = Some i;
  wi_messages : ∃ fr fs, w_points w !! receiver = Some fr ∧ w_points w !! sender = Some fs ∧
    messages_ok (w_registry w) fr fs (w_log w)
}.

(** The current task and where it is. *)
Lemma current_point w :
  world_inv w → ∃ o f, current_task (core_scheduler (w_core w)) = Some o ∧ w_points w !! o = Some f ∧
    point_ok o f.
Proof.
  intros Hw. destruct (wi_current w Hw) as [o Ho].
  destruct (wi_points w Hw o) as [f Hf]; [by apply (core_current _ (wi_core w Hw))|].
  exists o, f. split_and!; [done|done|by apply (wi_point_ok w Hw)].
Qed.

(** A turn of the core, the points staying what they are as far as locks and
    messages go. *)
Lemma turn_inv w c' points' o l :
  world_inv w → current_task (core_scheduler (w_core w)) = Some o →
  core_step l (w_core w) c' → l = Tick ∨ l = Yield →
  (∀ i f', points' !! i = Some f' → ∃ f, w_points w !! i = Some f ∧ (point_ok i f → point_ok i f')) →
  (∀ i f, w_points w !! i = Some f → ∃ f', points' !! i = Some f' ∧
    (first_lock f ≠ None → f' = f) ∧ (point_ok i f → remaining f' = remaining f) ∧ tried f' = tried f) →
  world_inv (mkWorld c' (w_registry w) (w_trace w) points' (w_stats w) (w_log w)).
Proof.
  intros [Hcore Hcur Hpts Hqd Hok Hcaps Hlocks Hsl (fr & fs & Hfr & Hfs & Hmsg)] Ho Hstep Hl Hback Hforth.
  destruct (core_turn (w_core w) c' o l Hcore Ho Hstep Hl) as (Hcore' & (Hq & Hcs & Hcur') & Hown & Hkeep).
  split; cbn [w_core w_points w_registry w_log].
  - done.
  - auto.
  - intros i Hi%Hq. destruct (Hpts i Hi) as [f Hf]. destruct (Hforth i f Hf) as (f' & -> & _). by eexists.
  - by rewrite !Hq.
  - intros i f' Hf'. destruct (Hback i f' Hf') as (f & Hf & Himp). eauto.
  - by rewrite !Hcs.
  - intros l' i. rewrite Hown. intros (f & Hf & Hfl)%Hlocks. destruct (Hforth i f Hf) as (f' & Hf' & Hsame & _).
    rewrite (Hsame ltac:(congruence)) in Hf'. eauto.
  - intros i. rewrite Hown. intros Hi. destruct Hkeep as [? | ->]; [congruence|auto].
  - destruct (Hforth _ _ Hfr) as (fr' & Hfr' & _ & Hr & _).
    destruct (Hforth _ _ Hfs) as (fs' & Hfs' & _ & _ & Ht).
    exists fr', fs'. split_and!; [done..|]. unfold messages_ok. rewrite Hr by (by apply Hok). rewrite Ht.
    exact Hmsg.
Qed.

Section invariant.
Context (bench : BenchBody) (Hbench : minds_its_business bench).

Lemma kernel_locks w o f :
  world_inv w → current_task (core_scheduler (w_core w)) = Some o → w_points w !! o = Some f →
  may_operate o f (w_core w) = true →
  ∃ held, kernel_of o w = mkKernel (w_registry w) (Some (core_scheduler (w_core w))) held (w_trace w) ∧
    locks_for f held.
Proof.
  intros Hw Ho Hf Hm. eexists. split; [reflexivity|]. unfold locks_for.
  destruct (first_lock f) as [l|] eqn:Hl; [|done].
  assert (lock_owner (w_core w) !! l = Some o) as Hown.
  { unfold may_operate in Hm. rewrite Hl in Hm. destruct f; try done; by apply bool_decide_eq_true in Hm. }
  destruct l; unfold others_hold; rewrite Hown, bool_decide_true by done; cbn [negb app].
  - destruct (lock_owner (w_core w) !! RegistryLock) as [j|]; [|by left].
    destruct (negb _); [by right|by left].
  - destruct (lock_owner (w_core w) !! SchedulerLock) as [j|] eqn:Hs; [|done].
    pose proof (wi_scheduler_lock w Hw j Hs) as Hj. rewrite Ho in Hj. injection Hj as <-.
    by rewrite bool_decide_true.
Qed.

(** What an operation leaves behind. *)
Lemma operated_inv w o f f' s' log reg' tr' :
  world_inv w → current_task (core_scheduler (w_core w)) = Some o → w_points w !! o = Some f →
  point_ok o f' →
  (∀ fr fs, w_points w !! receiver = Some fr → w_points w !! sender = Some fs →
    messages_ok (w_registry w) fr fs (w_log w) →
    ∃ fr' fs', <[o := f']> (w_points w) !! receiver = Some fr' ∧ <[o := f']> (w_points w) !! sender = Some fs' ∧
      messages_ok reg' fr' fs' (w_log w ++ log)) →
  world_inv (mkWorld (after_operation (first_lock f) (core_scheduler (w_core w)) (w_core w)) reg' tr'
    (<[o := f']> (w_points w)) s' (w_log w ++ log)).
Proof.
  intros [[Hs Hcq Hpend Howed] Hcur Hpts Hqd Hok Hcaps Hlocks Hsl (fr & fs & Hfr & Hfs & Hmsg)] Ho Hf Hf' Hnew.
  assert (∀ l i, lock_owner (after_operation (first_lock f) (core_scheduler (w_core w)) (w_core w)) !! l = Some i →
    lock_owner (w_core w) !! l = Some i ∧ i ≠ o) as Hown.
  { intros l i. unfold after_operation. cbn [lock_owner].
    destruct (first_lock f) as [l0|] eqn:Hl0.
    - intros [Hne Hi]%lookup_delete_Some. split; [done|]. intros ->.
      destruct (Hlocks l o Hi) as (? & ? & ?). congruence.
    - intros Hi. split; [done|]. intros ->. destruct (Hlocks l o Hi) as (? & ? & ?). congruence. }
  split; cbn [w_core w_points w_registry w_log after_operation core_scheduler].
  - by split.
  - done.
  - intros i Hi. destruct (decide (i = o)) as [->|Hi']; [by rewrite lookup_insert_eq|].
    rewrite lookup_insert_ne by done. auto.
  - done.
  - intros i g. destruct (decide (i = o)) as [->|Hi'].
    { rewrite lookup_insert_eq. intros [= <-]. done. }
    rewrite lookup_insert_ne by done. apply Hok.
  - done.
  - intros l i [Hi Hne]%Hown. rewrite lookup_insert_ne by done. by apply Hlocks.
  - intros i [Hi _]%Hown. auto.
  - by apply (Hnew fr fs).
Qed.

(** Operation [f] of task [o] leads from [w] to [w'], and the task to [f']. *)
Record operated (w : World) (o : TaskId) (f f' : Point) (w' : World) : Prop := {
  op_points : w_points w' = <[o := f']> (w_points w);
  op_core : w_core w' = after_operation (first_lock f) (core_scheduler (w_core w)) (w_core w);
  op_less : (ops f' < ops f)%nat;
  op_sender : o = sender → (turns_left f' ≤ turns_left f)%nat;
  op_receiver p : o = receiver → f' = Yielding p → drained (w_registry w') f'
}.

Lemma operate_inv w o f :
  world_inv w → current_task (core_scheduler (w_core w)) = Some o → w_points w !! o = Some f →
  may_operate o f (w_core w) = true →
  ∃ w' f', move bench MOperate w = Some w' ∧ world_inv w' ∧ operated w o f f' w'.
Proof.
  intros Hw Ho Hf Hm. destruct (kernel_locks w o f Hw Ho Hf Hm) as (held & Hk & Hheld).
  pose proof (wi_point_ok w Hw o f Hf) as Hok. destruct (wi_caps w Hw) as [Hrc Hsc].
  assert (∀ p, f ≠ Yielding p) as Hny by (by intros p ->).
  assert (∀ x k sc, operation bench f (w_stats w) (kernel_of o w) = Ok (x, k) → k_scheduler k = Some sc →
    move bench MOperate w = Some (mkWorld (after_operation (first_lock f) sc (w_core w)) (k_registry k) (k_trace k)
      (<[o := x.1.1]> (w_points w)) x.1.2 (w_log w ++ x.2))) as Hmove.
  { intros [[f' s'] log] k sc Hop Hsched. unfold move. rewrite Ho. simpl. rewrite Hf. simpl. rewrite Hm, Hop.
    cbn [mbind option_bind]. by rewrite Hsched. }
  destruct (wi_messages w Hw) as (fr & fs & Hfr & Hfs & Hmsg).
  destruct (decide (o = receiver)) as [->|Hor]; [|destruct (decide (o = sender)) as [->|Hos]].
  - assert (f = fr) as -> by congruence.
    assert (current_task_cspace (Some (core_scheduler (w_core w))) = Some receiver_caps) as Hcs.
    { unfold current_task_cspace. simpl. rewrite Ho. simpl. by rewrite <- Hrc; destruct (get_task _ _). }
    destruct (receiver_operation bench _ fr fs _ held (w_trace w) (w_stats w) _ Ho Hcs Hok Hny Hheld Hmsg
      (tried_bound sender fs (wi_point_ok w Hw sender fs Hfs)))
      as (f' & log & reg' & tr' & Hop & Hok' & Hmsg' & Hops & Hdr).
    rewrite <- Hk in Hop. eexists _, f'. split; [by eapply Hmove; [exact Hop|]|].
    split; [|split; [done..|]; intros p _; apply Hdr].
    apply operated_inv; [done..|]. intros. exists f', fs.
    by rewrite lookup_insert_eq, lookup_insert_ne by done.
  - assert (f = fs) as -> by congruence.
    assert (current_task_cspace (Some (core_scheduler (w_core w))) = Some sender_caps) as Hcs.
    { unfold current_task_cspace. simpl. rewrite Ho. simpl. by rewrite <- Hsc; destruct (get_task _ _). }
    destruct (sender_operation bench _ fs fr _ held (w_trace w) (w_stats w) _ Ho Hcs Hok Hny Hheld Hmsg)
      as (f' & log & reg' & tr' & Hop & Hok' & Hmsg' & Hops & Hleft).
    rewrite <- Hk in Hop. eexists _, f'. split; [by eapply Hmove; [exact Hop|]|]. split; [|by split].
    apply operated_inv; [done..|]. intros. exists fr, f'.
    by rewrite lookup_insert_ne, lookup_insert_eq by done.
  - destruct (bystander_operation bench (kernel_of o w) o f (w_stats w) Hbench Hok Hor Hos Hny)
      as (f' & s' & log & Hop & Hok' & _ & Ha & Hr & Hfl & Hops).
    eexists _, f'. split; [by eapply Hmove; [exact Hop|]|]. split; [|by split].
    apply operated_inv; [done..|]. intros. exists fr, fs.
    rewrite !lookup_insert_ne by done. split_and!; [done..|].
    by apply (messages_ok_app _ _ fs).
Qed.

Lemma lock_inv w o f l :
  world_inv w → current_task (core_scheduler (w_core w)) = Some o → w_points w !! o = Some f →
  first_lock f = Some l → world_inv (set_core (set_owner l (Some o) (w_core w)) w).
Proof.
  intros [[Hs Hcq Hpend Howed] Hcur Hpts Hqd Hok Hcaps Hlocks Hsl Hmsg] Ho Hf Hl.
  split; cbn [w_core w_points w_registry w_log set_core set_owner core_scheduler lock_owner];
    [by split|done..| | |done].
  - intros l' i. destruct (decide (l' = l)) as [->|Hne].
    + rewrite lookup_partial_alter_eq. intros [= <-]. by exists f.
    + rewrite lookup_partial_alter_ne by done. apply Hlocks.
  - intros i. destruct (decide (SchedulerLock = l)) as [<-|Hne].
    + rewrite lookup_partial_alter_eq. intros [= <-]. done.
    + rewrite lookup_partial_alter_ne by done. apply Hsl.
Qed.

Lemma move_inv m w w' : world_inv w → move bench m w = Some w' → world_inv w'.
Proof.
  intros Hw Hm. destruct (current_point w Hw) as (o & f & Ho & Hf & Hok).
  pose proof Hm as Hm'. unfold move in Hm. rewrite Ho in Hm. simpl in Hm. rewrite Hf in Hm. simpl in Hm.
  destruct m.
  - destruct (in_service (w_core w)) eqn:Hserv; [done|].
    destruct (core_tick o (w_core w)) as [c| |] eqn:Ht; [|done..]. injection Hm as <-.
    apply (turn_inv w c (w_points w) o Tick); [done|done|by eapply step_tick|by left|by eauto|].
    intros i g Hg. exists g. by split_and!.
  - destruct f as [|p| | |]; try done.
    destruct (core_yield o (w_core w)) as [c| |] eqn:Hy; [|done..]. injection Hm as <-.
    apply (turn_inv w c _ o Yield); [done|done|by eapply step_own_yield|by right| |].
    + intros i g. destruct (decide (i = o)) as [->|Hne].
      * rewrite lookup_insert_eq. intros [= <-]. exists (Yielding p). split; [done|].
        destruct p; cbn [point_ok]; naive_solver.
      * rewrite lookup_insert_ne by done. eauto.
    + intros i g Hg. destruct (decide (i = o)) as [->|Hne].
      * rewrite lookup_insert_eq. assert (g = Yielding p) as -> by congruence.
        exists (Doing p). by split_and!; destruct p.
      * rewrite lookup_insert_ne by done. exists g. by split_and!.
  - destruct (first_lock f) as [l|] eqn:Hl; [|done]. simpl in Hm.
    destruct (is_locked l (w_core w)); [done|]. injection Hm as <-. by eapply lock_inv.
  - destruct (may_operate o f (w_core w)) eqn:Hmay; [|done].
    destruct (operate_inv w o f Hw Ho Hf Hmay) as (w1 & _ & Hw1 & Hinv & _). congruence.
Qed.

Lemma moves_inv ms w w' : world_inv w → moves bench ms w = Some w' → world_inv w'.
Proof.
  revert w. induction ms as [|m ms IH]; intros w Hw; simpl; [by intros [= <-]|].
  destruct (move bench m w) as [w1|] eqn:Hm; [|done]. simpl. apply IH. by eapply move_inv.
Qed.

(** The current task can go on, or spins on a lock. *)
Lemma world_progress w :
  world_inv w → ∃ o f, current_task (core_scheduler (w_core w)) = Some o ∧ w_points w !! o = Some f ∧
    ((∃ m w', m ≠ MTick ∧ move bench m w = Some w') ∨
     ∃ l j, first_lock f = Some l ∧ lock_owner (w_core w) !! l = Some j ∧ j ≠ o).
Proof.
  intros Hw. destruct (current_point w Hw) as (o & f & Ho & Hf & Hok).
  exists o, f. split_and!; [done..|].
  destruct (first_lock f) as [l|] eqn:Hl.
  - destruct (lock_owner (w_core w) !! l) as [j|] eqn:Hj.
    + destruct (decide (j = o)) as [->|Hne]; [|by right; exists l, j].
      left. destruct (operate_inv w o f Hw Ho Hf) as (w' & _ & Hm & _).
      { unfold may_operate. rewrite Hl, Hj. destruct f; try done; by apply bool_decide_true. }
      by exists MOperate, w'.
    + left. eexists MLock, _. split; [done|]. unfold move. rewrite Ho. simpl. rewrite Hf. simpl. rewrite Hl.
      simpl.
      unfold is_locked. rewrite Hj, bool_decide_false by (by intros []). reflexivity.
  - left. assert ((∃ p, f = Yielding p) ∨ may_operate o f (w_core w) = true) as [[p ->]|Hmay].
    { unfold may_operate. rewrite Hl. destruct f; (by right) || (by left; eexists). }
    + pose proof (core_current _ (wi_core w Hw) o Ho) as Hin.
      destruct (ready_queue (core_scheduler (w_core w))) as [|n q] eqn:Hq; [by apply not_elem_of_nil in Hin|].
      assert (hands_over (w_core w) o n) as Hn.
      { unfold hands_over. rewrite Hq. split_and!; [apply (wi_core w Hw)|done|done|].
        destruct (lock_owner (w_core w) !! SchedulerLock) as [i|] eqn:Hi; [|done].
        destruct (wi_locks w Hw _ i Hi) as (g & Hg & Hgl).
        pose proof (wi_scheduler_lock w Hw i Hi). congruence. }
      eexists MYield, _. split; [done|]. unfold move. rewrite Ho. simpl. rewrite Hf. simpl.
      by rewrite (core_yield_run _ o n Hn).
    + destruct (operate_inv w o f Hw Ho Hf Hmay) as (w' & _ & Hm & _). by exists MOperate, w'.
Qed.
End invariant.

(** ** From the launch *)

(** The scheduler [test_scheduler] leaves, over the four contexts and stacks. *)
Definition launched_scheduler (c : nat → TaskContext) (s : nat → Z) : Scheduler :=
  let task i cs name := mkTask (TaskId_new i) TaskState_Ready (c (Z.to_nat i - 1)%nat) (s (Z.to_nat i - 1)%nat)
    cs Priority_Normal name in
  (schedule (add_task (add_task (add_task (add_task Scheduler_new
    (task 1 receiver_caps "ipc_receiver")).1 (task 2 sender_caps "ipc_sender")).1
    (task 3 CSpace_new "benchmark")).1 (task 4 CSpace_new "task3")).1).1.

Definition launched_world (c : nat → TaskContext) (s : nat → Z) (tr : list LockEvent) (ticks : Z) : World :=
  mkWorld (mkCore (launched_scheduler c s) ticks false ∅ ∅) (Some IpcRegistry_new) tr
    (list_to_map [(TaskId_new 1, Doing (IpcReceiver RStart)); (TaskId_new 2, Doing (IpcSender (SWait 3)));
                  (TaskId_new 3, Doing (BenchmarkTask (BWarm 2))); (TaskId_new 4, Doing (Task3 (TLoop 0)))])
    stats_zero [].

Lemma launch_run `{Build} wrapper stacks entries tr ticks :
  stacks_fit stacks →
  ∃ d, test_scheduler wrapper stacks entries (idle IpcRegistry_new Scheduler_new tr) = Ok d ∧
    launched ticks d = Some (launched_world (λ i, entry_context (stacks i) wrapper (entries i)) stacks
      ((tr ++ [Acquired SCHEDULER]) ++ [Released SCHEDULER]) ticks) ∧
    stands_for (launched_world (λ i, entry_context (stacks i) wrapper (entries i)) stacks
      ((tr ++ [Acquired SCHEDULER]) ++ [Released SCHEDULER]) ticks) d.
Proof.
  intros Hfit. unfold test_scheduler.
  do 4 (rewrite Task_new_fits by apply Hfit; cbn [mbind outcome_bind]).
  set (c i := entry_context (stacks i) wrapper (entries i)).
  change (entry_context (stacks 0%nat) wrapper (entries 0%nat)) with (c 0%nat).
  change (entry_context (stacks 1%nat) wrapper (entries 1%nat)) with (c 1%nat).
  change (entry_context (stacks 2%nat) wrapper (entries 2%nat)) with (c 2%nat).
  change (entry_context (stacks 3%nat) wrapper (entries 3%nat)) with (c 3%nat).
  clearbody c.
  eexists. split; [vm_compute; reflexivity|]. split; [vm_compute; reflexivity|].
  exists IpcRegistry_new, (launched_scheduler c stacks), ((tr ++ [Acquired SCHEDULER]) ++ [Released SCHEDULER]), ticks, false, ∅.
  split; vm_compute; reflexivity.
Qed.

Lemma launched_inv c s tr ticks : world_inv (launched_world c s tr ticks).
Proof.
  assert (sched_inv (launched_scheduler c s)) as Hs.
  { unfold launched_scheduler. apply schedule_inv.
    repeat (apply add_task_inv; [|reflexivity|reflexivity]). apply Scheduler_new_inv. }
  assert (current_task (launched_scheduler c s) = Some (TaskId_new 1)) as Hc by reflexivity.
  assert (ready_queue (launched_scheduler c s) = [TaskId_new 2; TaskId_new 3; TaskId_new 4; TaskId_new 1]) as Hq
    by reflexivity.
  split; cbn [launched_world w_core w_points w_registry w_log core_scheduler].
  - split; cbn [core_scheduler pending in_service]; [done| |intros i [? ?]; by rewrite lookup_empty in *|done].
    intros o. rewrite Hc, Hq. intros [= <-]. set_solver.
  - by rewrite Hc.
  - intros i. rewrite Hq. intros Hi.
    repeat (apply elem_of_cons in Hi as [->|Hi]; [by eexists|]). by apply not_elem_of_nil in Hi.
  - rewrite Hq. split; set_solver.
  - intros i f Hf%elem_of_list_to_map_2.
    repeat (apply elem_of_cons in Hf as [[= -> ->]|Hf]; [done|]). by apply not_elem_of_nil in Hf.
  - split; reflexivity.
  - intros l i. cbn [lock_owner]. by rewrite lookup_empty.
  - intros i. cbn [lock_owner]. by rewrite lookup_empty.
  - eexists _, _. split_and!; [reflexivity|reflexivity|]. by exists O, O.
Qed.

Lemma benchmark_bystander `{Build} c : clock_ok c → minds_its_business (benchmark_task c).
Proof.
  intros (measured & results & Hb)%benchmark_task_fits pc s. rewrite Hb.
  destruct pc as [[|n]|[|n]|[|n]|]; eexists _, _, _; (split; [reflexivity|done]).
Qed.

(** What the invariant says of the log. *)
Lemma log_in_order w :
  world_inv w → ∃ lost sent, (lost + sent ≤ 3)%nat ∧ attempts (w_log w) = outcomes lost sent ∧
    failures (w_log w) = [] ∧ received (w_log w) `prefix_of` (message <$> seq lost sent).
Proof.
  intros Hw. destruct (wi_messages w Hw) as (fr & fs & _ & Hfs & lost & sent & Ha & Ht & Hf & Hr).
  exists lost, sent. split_and!; [|done..|].
  - rewrite Ht. apply (tried_bound sender). by apply (wi_point_ok w Hw).
  - destruct (remaining fr) as [n|].
    + destruct Hr as (q & _ & <- & _). by eexists.
    + destruct Hr as (_ & _ & ->). apply prefix_nil.
Qed.

Lemma move_log bench m w w' : move bench m w = Some w' → w_log w `prefix_of` w_log w'.
Proof.
  unfold move. intros. repeat case_match; simplify_option_eq; repeat case_match; simplify_option_eq;
    try done; by apply prefix_app_r.
Qed.

Lemma moves_log bench ms w w' : moves bench ms w = Some w' → w_log w `prefix_of` w_log w'.
Proof.
  revert w. induction ms as [|m ms IH]; intros w; simpl; [by intros [= <-]|].
  destruct (move bench m w) as [w1|] eqn:Hm; [|done]. simpl. intros Hrun.
  etransitivity; [by eapply move_log|by apply IH].
Qed.

(** Messages that were sent too early never arrive. *)
Lemma lost_for_good w w' :
  world_inv w' → attempts (w_log w) = outcomes 3 0 → w_log w `prefix_of` w_log w' → received (w_log w') = [].
Proof.
  intros Hw' Hl [rest Hrest]. destruct (log_in_order w' Hw') as (lost & sent & Hle & Ha & _ & Hr).
  rewrite Hrest in Ha. destruct (log_app (w_log w) rest) as (Happ & _). rewrite Happ, Hl in Ha.
  assert (sent = O) as ->; [|by apply prefix_nil_inv in Hr].
  destruct lost as [|[|[|lost]]]; [| | |lia]; exfalso; destruct sent as [|[|[|[|sent]]]]; try lia; done.
Qed.

(** ** What the timer can and cannot do to the demo *)

(** C10: preemption can delay the demo and lose its first messages, never disorder
    it.  From any booted kernel, the demo of [Boot] is one run of the machine, in
    which no tick comes.  In every run, with ticks anywhere between operations and
    while their locks are held: no operation panics; if the sender's first
    [lost] messages came before the endpoint was there, exactly the others were
    queued; the receiver has got a prefix of those, each once, in order and from
    the sender's id; no receive fails; and the current task can go on or spins on a lock
    that a preempted task holds. *)
Theorem preempted_demo_in_order `{Build} wrapper stacks entries tr ticks c :
  stacks_fit stacks → clock_ok c →
  ∃ d0 w0, test_scheduler wrapper stacks entries (idle IpcRegistry_new Scheduler_new tr) = Ok d0 ∧
    launched ticks d0 = Some w0 ∧
    (∀ n d, demo_run (benchmark_task c) n d0 = Ok d →
      ∃ ms w, (MTick ∉ ms) ∧ moves (benchmark_task c) ms w0 = Some w ∧ stands_for w d) ∧
    ∀ ms w, moves (benchmark_task c) ms w0 = Some w →
      (∃ lost sent, (lost + sent ≤ 3)%nat ∧ attempts (w_log w) = outcomes lost sent ∧
        failures (w_log w) = [] ∧ received (w_log w) `prefix_of` (message <$> seq lost sent)) ∧
      ∃ o f, current_task (core_scheduler (w_core w)) = Some o ∧ w_points w !! o = Some f ∧
        ((∃ m w', m ≠ MTick ∧ move (benchmark_task c) m w = Some w') ∨
         ∃ l j, first_lock f = Some l ∧ lock_owner (w_core w) !! l = Some j ∧ j ≠ o).
Proof.
  intros Hfit Hclock%benchmark_bystander.
  destruct (launch_run wrapper stacks entries tr ticks Hfit) as (d0 & Hd0 & Hw0 & Hstands).
  eexists d0, _. split_and!; [done|exact Hw0|intros n d; by apply quiet_moves|].
  intros ms w Hrun. assert (world_inv w) as Hw.
  { eapply moves_inv; [exact Hclock|apply launched_inv|exact Hrun]. }
  split; [by apply log_in_order|by apply (world_progress _ Hclock)].
Qed.

(** The turns of a run: the other three tasks pass the time, the receiver starts up
    and finds nothing, the sender sends. *)
Definition pass : list Move := [MOperate; MYield].
Definition receiver_starts : list Move :=
  [MLock; MOperate; MLock; MOperate; MLock; MOperate; MLock; MOperate; MYield].
Definition receiver_looks : list Move := [MLock; MOperate; MYield].
Definition sender_reads : list Move := [MLock; MOperate; MLock; MOperate].
Definition sender_sends : list Move := [MLock; MOperate; MYield].
Definition others_pass : list Move := pass ++ pass.

(** A tick while the sender holds the registry, and the others' turns. *)
Definition hanging_run : list Move :=
  receiver_starts ++ pass ++ others_pass ++ receiver_looks ++ pass ++ others_pass ++
  receiver_looks ++ pass ++ others_pass ++ receiver_looks ++ sender_reads ++ [MLock; MTick] ++ others_pass.

(** Ticks that keep the receiver from creating its endpoint. *)
Definition losing_run : list Move :=
  [MTick] ++ pass ++ others_pass ++ [MTick] ++ pass ++ others_pass ++ [MTick] ++ pass ++ others_pass ++
  [MTick] ++ sender_reads ++ sender_sends ++ others_pass ++ [MTick] ++ sender_sends ++ others_pass ++
  [MTick] ++ sender_sends.

Section runs.
Context `{Build} (c : Clock) (contexts : nat → TaskContext) (stacks : nat → Z) (tr : list LockEvent).

Lemma hanging_run_hangs :
  ∃ w, moves (benchmark_task c) hanging_run (launched_world contexts stacks tr 1) = Some w ∧
    received (w_log w) = [] ∧ ∀ m, move (benchmark_task c) m w = None.
Proof.
  eexists. split; [vm_compute; reflexivity|]. split; [reflexivity|]. intros []; vm_compute; reflexivity.
Qed.

Lemma first_lock_hangs :
  ∃ w, moves (benchmark_task c) [MLock] (launched_world contexts stacks tr 1) = Some w ∧
    core_tick receiver (w_core w) = Hang.
Proof. eexists. split; [vm_compute; reflexivity|]. vm_compute. reflexivity. Qed.

Lemma losing_run_loses :
  ∃ w, moves (benchmark_task c) losing_run (launched_world contexts stacks tr 1) = Some w ∧
    attempts (w_log w) = outcomes 3 0.
Proof. eexists. split; [vm_compute; reflexivity|]. reflexivity. Qed.
End runs.

(** C26: the demo's outcome depends on when the timer interrupts.  A single tick, while
    the sender holds the lock of the registry, hangs the kernel for ever: the receiver
    spins on the lock, no further tick is delivered and no move is left.  A tick while a
    task reads its id or capabilities from the scheduler spins at once.  And ticks that
    come in six turns of the receiver let the sender send all its messages
    before there is an endpoint: none of them is ever received. *)
Theorem timer_breaks_the_demo `{Build} wrapper stacks entries tr c :
  stacks_fit stacks → clock_ok c →
  ∃ d0 w0, test_scheduler wrapper stacks entries (idle IpcRegistry_new Scheduler_new tr) = Ok d0 ∧
    launched 1 d0 = Some w0 ∧
    (∃ w, moves (benchmark_task c) hanging_run w0 = Some w ∧
      received (w_log w) = [] ∧ ∀ m, move (benchmark_task c) m w = None) ∧
    (∃ w, moves (benchmark_task c) [MLock] w0 = Some w ∧ core_tick receiver (w_core w) = Hang) ∧
    ∃ w, moves (benchmark_task c) losing_run w0 = Some w ∧
      ∀ ms w', moves (benchmark_task c) ms w = Some w' → received (w_log w') = [].
Proof.
  intros Hfit Hclock%benchmark_bystander.
  destruct (launch_run wrapper stacks entries tr 1 Hfit) as (d0 & Hd0 & Hw0 & _).
  eexists d0, _. split_and!; [done|exact Hw0| | |].
  - apply hanging_run_hangs.
  - apply first_lock_hangs.
  - destruct (losing_run_loses c (λ i, entry_context (stacks i) wrapper (entries i)) stacks
      ((tr ++ [Acquired SCHEDULER]) ++ [Released SCHEDULER])) as (w & Hrun & Hlost).
    exists w. split; [done|]. intros ms w' Hrun'. apply (lost_for_good w); [|done|by eapply moves_log].
    eapply moves_inv; [exact Hclock| |exact Hrun'].
    eapply moves_inv; [exact Hclock|apply launched_inv|exact Hrun].
Qed.

(** ** The sample machine *)

Definition sample_stacks (i : nat) : Z := 0x100000 + 0x10000 * Z.of_nat (Nat.min i 3).

Lemma sample_stacks_fit : stacks_fit sample_stacks.
Proof. intros i. unfold sample_stacks, in_u, TASK_STACK_SIZE. lia. Qed.

Lemma preempted_demo_in_order_witness :
  ∃ d0 w0, launched 1 d0 = Some w0 ∧
    ∃ w, moves (benchmark_task (H := Dev) sample_clock) losing_run w0 = Some w ∧ failures (w_log w) = [].
Proof.
  destruct (preempted_demo_in_order (H := Dev) 0x600000 sample_stacks (λ _, 0x500000) [] 1 sample_clock
    sample_stacks_fit) as (d0 & w0 & Hd0 & Hw0 & _ & Hruns); [done|].
  exists d0, w0. split; [exact Hw0|].
  destruct (moves (benchmark_task (H := Dev) sample_clock) losing_run w0) as [w|] eqn:Hrun.
  - exists w. split; [reflexivity|].
    destruct (Hruns losing_run w Hrun) as [(lost & sent & _ & _ & Hf & _) _]. exact Hf.
  - vm_compute in Hd0. injection Hd0 as <-. vm_compute in Hw0. injection Hw0 as <-. vm_compute in Hrun.
    discriminate.
Defined.

Lemma timer_breaks_the_demo_witness :
  ∃ d0 w0, launched 1 d0 = Some w0 ∧
    ∃ w, moves (benchmark_task (H := Prelude.Release) sample_clock) hanging_run w0 = Some w ∧
      move (benchmark_task (H := Prelude.Release) sample_clock) MTick w = None.
Proof.
  destruct (timer_breaks_the_demo (H := Prelude.Release) 0x600000 sample_stacks (λ _, 0x500000) [] sample_clock
    sample_stacks_fit) as (d0 & w0 & _ & Hw0 & (w & Hrun & _ & Hstuck) & _); [done|].
  exists d0, w0. split; [exact Hw0|]. exists w. split; [exact Hrun|apply Hstuck].
Defined.
