(* ===== verification/DemoProgress.v ===== *)
(** * The x86-64 demo once the timer leaves it alone ([src/src/main.rs])

    [DemoOrder] says that preemption cannot disorder the messages of the demo.  Here:
    if the ticks stop at a moment when no preempted task holds a lock, the demo
    comes to its end, and every message that found the endpoint is received.  Progress is a rank that
    every move other than a tick lowers: the sender's turns, then the receiver's, within
    these the way round the ready queue, and within that the operations of a turn. *)
From Stdlib Require Import Relation_Operators Lexicographic_Product Wf_nat.
From stdpp Require Import strings.
From S2P Require Import Prelude Capability Task Scheduler Switch Interrupts Preempt Ipc Benchmark Boot DemoTicks.
From S2P Require Import DemoOrder.

(** ** What must happen without ticks *)

Section inevitable.
Context (bench : BenchBody).

(** Every run without ticks gets to [P], and none is stuck before. *)
Inductive inevitable (P : World → Prop) (w : World) : Prop :=
  | inevitable_now : P w → inevitable P w
  | inevitable_later m0 w0 :
      m0 ≠ MTick → move bench m0 w = Some w0 →
      (∀ m w', m ≠ MTick → move bench m w = Some w' → inevitable P w') → inevitable P w.

Lemma inevitable_rank {A} (R : A → A → Prop) (rank : World → A) (I P : World → Prop) :
  well_founded R →
  (∀ w, I w → P w ∨ (∃ m0 w0, m0 ≠ MTick ∧ move bench m0 w = Some w0) ∧
    ∀ m w', m ≠ MTick → move bench m w = Some w' → I w' ∧ (P w' ∨ R (rank w') (rank w))) →
  ∀ w, I w → inevitable P w.
Proof.
  intros Hwf Hstep w. remember (rank w) as a eqn:Ha. revert w Ha.
  induction (Hwf a) as [a _ IH]. intros w -> Hw.
  destruct (Hstep w Hw) as [HP|[(m0 & w0 & Hm0 & Hw0) Hall]]; [by left|].
  eapply inevitable_later; [exact Hm0|exact Hw0|]. intros m w' Hm Hw'.
  destruct (Hall m w' Hm Hw') as [HI [HP|HR]]; [by left|by eapply IH].
Qed.

Lemma inevitable_weaken P Q w : (∀ w', P w' → Q w') → inevitable P w → inevitable Q w.
Proof. intros HPQ. induction 1; [left; auto|eapply inevitable_later; eauto]. Qed.
End inevitable.

(** ** The rank *)

(** No task that was preempted holds a lock. *)
Definition calm (w : World) : Prop :=
  ∀ l i, lock_owner (w_core w) !! l = Some i → current_task (core_scheduler (w_core w)) = Some i.

Definition point_of (i : TaskId) (w : World) : Point := default (Doing (Task3 TIdle)) (w_points w !! i).

(** First the sender has to get through its turns, then the receiver needs the rest of
    a turn that is over but for its yield, and one more. *)
Definition at_yield (f : Point) : nat := match f with Yielding _ => 1 | _ => 0 end.

Definition phase (w : World) : nat :=
  match turns_left (point_of sender w) with
  | O => at_yield (point_of receiver w)
  | S n => S (S n)
  end.

Definition awaited (w : World) : TaskId :=
  match turns_left (point_of sender w) with O => receiver | S _ => sender end.

Fixpoint index (i : TaskId) (l : list TaskId) : nat :=
  match l with [] => 0 | j :: l => if decide (i = j) then 0 else S (index i l) end.

(** How many yields it takes until task [i] has the core. *)
Definition distance (i : TaskId) (s : Scheduler) : nat :=
  if decide (current_task s = Some i) then 0 else S (index i (ready_queue s)).

Definition moves_left (w : World) : nat :=
  match current_task (core_scheduler (w_core w)) with
  | Some o => 2 * ops (point_of o w) - (if decide (lock_owner (w_core w) = ∅) then 0 else 1)
  | None => 0
  end.

Definition rank (w : World) : nat * (nat * nat) :=
  (phase w, (distance (awaited w) (core_scheduler (w_core w)), moves_left w)).

Definition lower : nat * (nat * nat) → nat * (nat * nat) → Prop :=
  slexprod nat (nat * nat) lt (slexprod nat nat lt lt).

Lemma lower_wf : well_founded lower.
Proof. apply wf_slexprod; [apply lt_wf|]. apply wf_slexprod; apply lt_wf. Qed.

Lemma index_app i l l' : i ∈ l → index i (l ++ l') = index i l.
Proof.
  induction l as [|j l IH]; [by intros ?%not_elem_of_nil|]. simpl.
  case_decide; [done|]. intros [?|Hi]%elem_of_cons; [done|]. by rewrite IH.
Qed.

(** A turn brings everybody nearer but the task that had it. *)
Lemma distance_schedule s o i n rest :
  sched_inv s → current_task s = Some o → o ≠ i → i ∈ ready_queue s → ready_queue s = n :: rest →
  (distance i (schedule s).1 < distance i s)%nat.
Proof.
  intros Hinv Ho Hoi Hi Hq. destruct (schedule_cons s n rest Hinv Hq) as (s' & -> & Hq' & Hc & _).
  cbn [fst]. unfold distance. rewrite Hc, Ho, (decide_False (P := Some o = Some i)) by congruence.
  case_decide as Hn; [lia|]. rewrite Hq, Hq'. rewrite Hq in Hi. apply elem_of_cons in Hi as [->|Hi]; [done|].
  rewrite index_app by done. simpl. rewrite decide_False by congruence. lia.
Qed.

(** ** Every move lowers it *)

(** The three messages were sent, and those that met an endpoint have been received. *)
Definition delivered (w : World) : Prop :=
  ∃ lost sent, (lost + sent = 3)%nat ∧ attempts (w_log w) = outcomes lost sent ∧
    received (w_log w) = message <$> seq lost sent.

Lemma point_of_Some i w f : w_points w !! i = Some f → point_of i w = f.
Proof. unfold point_of. by intros ->. Qed.

(** The sender is idle and nothing is queued. *)
Lemma drained_delivered w fr :
  world_inv w → turns_left (point_of sender w) = O → w_points w !! receiver = Some fr →
  drained (w_registry w) fr → delivered w.
Proof.
  intros Hw Hleft Hfr [Hreg [n Hn]].
  destruct (wi_messages w Hw) as (fr' & fs & Hfr' & Hfs & lost & sent & Ha & Ht & _ & Hr).
  assert (fr' = fr) as -> by congruence. rewrite Hn in Hr. destruct Hr as (q & Hq & Hrec & _).
  assert (q = []) as -> by (unfold endpoint_100 in *; congruence). rewrite app_nil_r in Hrec.
  exists lost, sent. split_and!; [|done|done]. rewrite Ht. rewrite (point_of_Some _ _ _ Hfs) in Hleft.
  pose proof (wi_point_ok w Hw sender fs Hfs) as Hok.
  destruct fs as [[[]|[]|[]|[]]|[[]|[]|[]|[]]|j|j cs|j];
    cbn [point_ok program_ok turns_left sender_turns tried] in *; try lia; try done;
      intuition (discriminate || lia).
Qed.

(** Nothing can be added to that. *)
Lemma delivered_stable w w' : delivered w → world_inv w' → w_log w `prefix_of` w_log w' → delivered w'.
Proof.
  intros (lost & sent & Hsum & Ha & Hr) Hw' [rest Hrest].
  destruct (log_in_order w' Hw') as (lost' & sent' & Hle & Ha' & _ & Hr').
  rewrite Hrest in Ha', Hr'. destruct (log_app (w_log w) rest) as (Happ & Hrec & _).
  rewrite Happ, Ha in Ha'. rewrite Hrec, Hr in Hr'.
  assert (lost' = lost ∧ sent' = sent ∧ attempts rest = []) as (-> & -> & Hnil).
  { pose proof (f_equal length Ha') as Hlen. unfold outcomes in Hlen.
    rewrite !length_app, !length_fmap, !length_seq in Hlen.
    assert (attempts rest = []) as Hnil by (destruct (attempts rest); [done|simpl in Hlen; lia]).
    rewrite Hnil, app_nil_r in Ha'.
    assert (lost' + sent' = 3)%nat by (rewrite Hnil in Hlen; simpl in Hlen; lia).
    destruct lost as [|[|[|[|]]]], lost' as [|[|[|[|]]]]; try lia;
      destruct sent as [|[|[|[|]]]], sent' as [|[|[|[|]]]]; try lia; try discriminate Ha'; done. }
  exists lost, sent. rewrite Hrest, Happ, Hrec, Hnil, Ha, Hr, app_nil_r. split_and!; [done..|].
  destruct (received rest); [by rewrite app_nil_r|].
  apply prefix_length in Hr'. rewrite length_app in Hr'. simpl in Hr'. lia.
Qed.

Section descent.
Context (bench : BenchBody) (Hbench : minds_its_business bench).

(** A yield. *)
Lemma yield_run w o p w' :
  world_inv w → current_task (core_scheduler (w_core w)) = Some o → w_points w !! o = Some (Yielding p) →
  move bench MYield w = Some w' →
  ∃ n rest, ready_queue (core_scheduler (w_core w)) = n :: rest ∧
    core_scheduler (w_core w') = (schedule (core_scheduler (w_core w))).1 ∧
    lock_owner (w_core w') = lock_owner (w_core w) ∧ w_points w' = <[o := Doing p]> (w_points w).
Proof.
  intros Hw Ho Hf Hm. pose proof (core_current _ (wi_core w Hw) o Ho) as Hin.
  destruct (ready_queue (core_scheduler (w_core w))) as [|n q] eqn:Hq; [by apply not_elem_of_nil in Hin|].
  assert (hands_over (w_core w) o n) as Hn.
  { unfold hands_over. rewrite Hq. split_and!; [apply (wi_core w Hw)|done|done|].
    destruct (lock_owner (w_core w) !! SchedulerLock) as [i|] eqn:Hi; [|done].
    destruct (wi_locks w Hw _ i Hi) as (g & Hg & Hgl).
    pose proof (wi_scheduler_lock w Hw i Hi). assert (g = Yielding p) as -> by congruence. done. }
  unfold move in Hm. rewrite Ho in Hm. simpl in Hm. rewrite Hf in Hm. simpl in Hm.
  rewrite (core_yield_run _ o n Hn) in Hm. injection Hm as <-. exists n, q.
  destruct (core_scheduler_switched o n [] (core_ticks (w_core w)) (in_service (w_core w)) (w_core w)) as [Hs Hl].
  by split_and!.
Qed.

Lemma yield_lowers w o p w' :
  world_inv w → current_task (core_scheduler (w_core w)) = Some o → w_points w !! o = Some (Yielding p) →
  move bench MYield w = Some w' → lower (rank w') (rank w).
Proof.
  intros Hw Ho Hf Hm. destruct (yield_run w o p w' Hw Ho Hf Hm) as (n & rest & Hq & Hs & _ & Hpts).
  destruct (wi_queued w Hw) as [Hrq Hsq]. pose proof (core_sched _ (wi_core w Hw)) as Hinv.
  pose proof (wi_point_ok w Hw o _ Hf) as Hok.
  assert (∀ i, i ≠ o → point_of i w' = point_of i w) as Hother.
  { intros i Hi. unfold point_of. by rewrite Hpts, lookup_insert_ne. }
  assert (point_of o w' = Doing p) as Hself by (by unfold point_of; rewrite Hpts, lookup_insert_eq).
  pose proof (point_of_Some _ _ _ Hf) as Hself0.
  assert (∀ i, i ∈ ready_queue (core_scheduler (w_core w)) → o ≠ i → phase w' = phase w → awaited w' = i →
    awaited w = i → lower (rank w') (rank w)) as Hnear.
  { intros i Hi Hoi Hph Ha' Ha. unfold rank. rewrite Hph, Ha', Ha, Hs. apply right_slex, left_slex.
    by eapply distance_schedule. }
  destruct (turns_left (point_of sender w)) as [|k] eqn:Hleft.
  - assert (turns_left (point_of sender w') = O) as Hleft'.
    { destruct (decide (o = sender)) as [->|Hne]; [|by rewrite Hother].
      rewrite Hself. rewrite Hself0 in Hleft. by destruct p as [|[]|[]|[]]. }
    destruct (decide (o = receiver)) as [->|Hne].
    + apply left_slex. unfold phase. rewrite Hleft, Hleft', Hself, Hself0. cbn. lia.
    + apply (Hnear receiver); [done|done| |by unfold awaited; rewrite Hleft'|by unfold awaited; rewrite Hleft].
      unfold phase. by rewrite Hleft, Hleft', Hother by done.
  - destruct (decide (o = sender)) as [->|Hne].
    + apply left_slex. unfold phase. rewrite Hleft, Hself. rewrite Hself0 in Hleft.
      assert (turns_left (Doing p) = k) as -> by (destruct p as [|[]|[]|[]]; cbn in *; congruence).
      destruct k; [|lia]. unfold at_yield. destruct (point_of receiver w'); lia.
    + apply (Hnear sender); [done|done| |by unfold awaited; rewrite Hother, Hleft|by unfold awaited;
        rewrite Hleft].
      unfold phase. by rewrite Hother, Hleft.
Qed.

(** The locks while nobody is preempted with one. *)
Lemma calm_free w o f :
  world_inv w → calm w → current_task (core_scheduler (w_core w)) = Some o → w_points w !! o = Some f →
  (∀ l, first_lock f = Some l → lock_owner (w_core w) !! l = None) → lock_owner (w_core w) = ∅.
Proof.
  intros Hw Hcalm Ho Hf Hfree. apply map_empty. intros l.
  destruct (lock_owner (w_core w) !! l) as [i|] eqn:Hi; [|done].
  pose proof (Hcalm l i Hi). assert (i = o) as -> by congruence.
  destruct (wi_locks w Hw l o Hi) as (g & Hg & Hgl). assert (g = f) as -> by congruence.
  by rewrite (Hfree l Hgl) in Hi.
Qed.

Lemma ops_pos f : (∀ p, f ≠ Yielding p) → (0 < ops f)%nat.
Proof. intros Hny. destruct f as [[[]|[[]| |]| |]|p|j|j cs|j]; cbn; try lia. by destruct (Hny p). Qed.

Lemma lock_lowers w o f l :
  world_inv w → calm w → current_task (core_scheduler (w_core w)) = Some o → w_points w !! o = Some f →
  first_lock f = Some l → lock_owner (w_core w) !! l = None →
  lower (rank (set_core (set_owner l (Some o) (w_core w)) w)) (rank w).
Proof.
  intros Hw Hcalm Ho Hf Hl Hfree. apply right_slex, right_slex.
  assert (lock_owner (w_core w) = ∅) as Hnone.
  { apply (calm_free w o f); [done..|]. intros l'. congruence. }
  unfold moves_left. cbn [set_core set_owner w_core core_scheduler lock_owner]. rewrite Ho.
  rewrite Hnone, (decide_True (P := ∅ = ∅)), decide_False.
  - unfold point_of, set_core. cbn [w_points]. rewrite Hf. cbn [default id].
    assert (0 < ops f)%nat by (apply ops_pos; by intros p ->). lia.
  - intros He. apply (f_equal (lookup l)) in He. by rewrite lookup_partial_alter_eq in He.
  - done.
Qed.

Lemma operate_lowers w o f f' w' :
  world_inv w → current_task (core_scheduler (w_core w)) = Some o → w_points w !! o = Some f →
  (∀ p, f ≠ Yielding p) → world_inv w' → operated w o f f' w' →
  delivered w' ∨ lower (rank w') (rank w).
Proof.
  intros Hw Ho Hf Hny Hw' [Hpts Hcore Hops Hsend Hrec].
  pose proof (point_of_Some _ _ _ Hf) as Hself0.
  assert (∀ i, i ≠ o → point_of i w' = point_of i w) as Hother.
  { intros i Hi. unfold point_of. by rewrite Hpts, lookup_insert_ne. }
  assert (point_of o w' = f') as Hself by (by unfold point_of; rewrite Hpts, lookup_insert_eq).
  assert (core_scheduler (w_core w') = core_scheduler (w_core w)) as Hs by (by rewrite Hcore).
  assert (moves_left w' < moves_left w)%nat as Hmoves.
  { unfold moves_left. rewrite Hs, Ho, Hself, Hself0. repeat case_decide; lia. }
  assert (phase w' = phase w → awaited w' = awaited w → lower (rank w') (rank w)) as Hsame.
  { intros Hph Ha. unfold rank. rewrite Hph, Ha, Hs. by apply right_slex, right_slex. }
  destruct (decide (o = sender)) as [->|Hos].
  - right. specialize (Hsend eq_refl). rewrite <- Hself, <- Hself0 in Hsend.
    destruct (decide (turns_left (point_of sender w') = turns_left (point_of sender w))) as [Heq|Hne].
    + apply Hsame; [|unfold awaited; by rewrite Heq]. unfold phase. by rewrite Heq, (Hother receiver).
    + apply left_slex. unfold phase. destruct (turns_left (point_of sender w)); [lia|].
      destruct (turns_left (point_of sender w')); [|lia]. destruct (point_of receiver w'); cbn; lia.
  - assert (awaited w' = awaited w) as Ha by (unfold awaited; by rewrite Hother).
    destruct (decide (o = receiver)) as [->|Hor].
    2: { right. apply Hsame; [|done]. unfold phase. by rewrite !Hother. }
    destruct (turns_left (point_of sender w)) as [|k] eqn:Hleft.
    2: { right. apply Hsame; [|done]. unfold phase. by rewrite Hother, Hleft. }
    assert ((∃ p, f' = Yielding p) ∨ at_yield f' = O) as [[p Hp]|Hno].
    { destruct f'; (by right) || (by left; eexists). }
    + left. apply (drained_delivered w' f'); [done|by rewrite Hother|by rewrite Hpts, lookup_insert_eq|].
      by apply (Hrec p).
    + right. apply Hsame; [|done]. unfold phase. rewrite Hother, Hleft, Hself, Hself0, Hno by done.
      destruct f; try done. by destruct (Hny p).
Qed.

(** One move without a tick. *)
Lemma quiet_step w m w' :
  world_inv w → calm w → m ≠ MTick → move bench m w = Some w' →
  (world_inv w' ∧ calm w') ∧ (delivered w' ∨ lower (rank w') (rank w)).
Proof.
  intros Hw Hcalm Hm Hmove. pose proof (move_inv bench Hbench m w w' Hw Hmove) as Hw'.
  destruct (current_point w Hw) as (o & f & Ho & Hf & _). pose proof Hmove as Hrun.
  unfold move in Hrun. rewrite Ho in Hrun. simpl in Hrun. rewrite Hf in Hrun. simpl in Hrun.
  destruct m; [done|..].
  - destruct f as [|p| | |]; try done. clear Hrun.
    split; [split; [done|]|right; by eapply yield_lowers].
    destruct (yield_run w o p w' Hw Ho Hf Hmove) as (_ & _ & _ & _ & Hl & _).
    intros l i. rewrite Hl, (calm_free w o (Yielding p) Hw Hcalm Ho Hf) by done. by rewrite lookup_empty.
  - destruct (first_lock f) as [l|] eqn:Hl; [|done]. simpl in Hrun.
    destruct (is_locked l (w_core w)) eqn:Hfree; [done|]. injection Hrun as <-.
    apply bool_decide_eq_false, eq_None_not_Some in Hfree.
    split; [split; [done|]|right; by eapply lock_lowers].
    intros l' i. cbn [set_core set_owner w_core core_scheduler lock_owner].
    destruct (decide (l' = l)) as [->|Hne]; [rewrite lookup_partial_alter_eq; congruence|].
    rewrite lookup_partial_alter_ne by done. apply Hcalm.
  - destruct (may_operate o f (w_core w)) eqn:Hmay; [|done]. clear Hrun.
    destruct (operate_inv bench Hbench w o f Hw Ho Hf Hmay) as (w1 & f' & Hw1 & _ & Hop).
    assert (w1 = w') as -> by congruence.
    split; [split; [done|]|].
    + intros l i. rewrite (op_core _ _ _ _ _ Hop). cbn [after_operation lock_owner core_scheduler].
      destruct (first_lock f); [|apply Hcalm]. intros [_ ?]%lookup_delete_Some. by apply (Hcalm l).
    + apply (operate_lowers w o f f' w'); [done..|by intros p ->|done|done].
Qed.

(** A calm world is not stuck. *)
Lemma calm_progress w : world_inv w → calm w → ∃ m w', m ≠ MTick ∧ move bench m w = Some w'.
Proof.
  intros Hw Hcalm. destruct (world_progress bench Hbench w Hw) as (o & f & Ho & _ & [Hgo|(l & j & _ & Hj & Hne)]); [done|].
  pose proof (Hcalm l j Hj). congruence.
Qed.

Lemma calm_delivers w :
  world_inv w → calm w → inevitable bench (λ w', world_inv w' ∧ delivered w') w.
Proof.
  intros Hw Hcalm.
  apply (inevitable_rank bench lower rank (λ w, world_inv w ∧ calm w) _ lower_wf); [|done].
  clear w Hw Hcalm. intros w [Hw Hcalm]. right. split; [by apply calm_progress|].
  intros m w' Hm Hmove. destruct (quiet_step w m w' Hw Hcalm Hm Hmove) as [[Hw' Hcalm'] [Hd|Hl]]; auto.
Qed.
End descent.

(** A demo that [test_scheduler] has set up, under ticks and when they stop. *)
Lemma demo_under_ticks `{Build} wrapper stacks entries tr c d0 ticks :
  stacks_fit stacks → clock_ok c →
  test_scheduler wrapper stacks entries (idle IpcRegistry_new Scheduler_new tr) = Ok d0 →
  ∃ w0, launched ticks d0 = Some w0 ∧
    ∀ ms w, moves (benchmark_task c) ms w0 = Some w →
      (∃ lost sent, (lost + sent ≤ 3)%nat ∧ attempts (w_log w) = outcomes lost sent ∧
        failures (w_log w) = [] ∧ received (w_log w) `prefix_of` (message <$> seq lost sent)) ∧
      (∃ o f, current_task (core_scheduler (w_core w)) = Some o ∧ w_points w !! o = Some f ∧
        ((∃ m w', m ≠ MTick ∧ move (benchmark_task c) m w = Some w') ∨
         ∃ l j, first_lock f = Some l ∧ lock_owner (w_core w) !! l = Some j ∧ j ≠ o)) ∧
      (calm w → inevitable (benchmark_task c) delivered w).
Proof.
  intros Hfit Hclock%benchmark_bystander Hd0.
  destruct (launch_run wrapper stacks entries tr ticks Hfit) as (d & Hd & Hw0 & _).
  assert (d = d0) as -> by congruence. eexists. split; [exact Hw0|]. intros ms w Hrun.
  assert (world_inv w) as Hw by (eapply moves_inv; [exact Hclock|apply launched_inv|exact Hrun]).
  split_and!; [by apply log_in_order|by apply (world_progress _ Hclock)|]. intros Hcalm.
  eapply inevitable_weaken; [|by apply calm_delivers]. by intros w1 [_ ?].
Qed.

(** ** The demo comes to its end *)

(** C11: the demo delivers once the timer leaves it alone.  Take any run of the
    preempted demo up to a point at which no preempted task holds a lock.  If no
    tick comes from there on, the run is never stuck and, whatever it does, gets
    after finitely many moves to where all three messages have been sent, those
    that met an endpoint have all been received, in order, and no later
    run, with or without ticks, changes that. *)
Theorem demo_delivers_without_ticks `{Build} wrapper stacks entries tr ticks c :
  stacks_fit stacks → clock_ok c →
  ∃ d0 w0, test_scheduler wrapper stacks entries (idle IpcRegistry_new Scheduler_new tr) = Ok d0 ∧
    launched ticks d0 = Some w0 ∧
    ∀ ms w, moves (benchmark_task c) ms w0 = Some w → calm w →
      inevitable (benchmark_task c)
        (λ w1, ∀ ms' w2, moves (benchmark_task c) ms' w1 = Some w2 → delivered w2) w.
Proof.
  intros Hfit Hclock%benchmark_bystander.
  destruct (launch_run wrapper stacks entries tr ticks Hfit) as (d0 & Hd0 & Hw0 & _).
  eexists d0, _. split_and!; [done|exact Hw0|]. intros ms w Hrun Hcalm.
  assert (world_inv w) as Hw by (eapply moves_inv; [exact Hclock|apply launched_inv|exact Hrun]).
  eapply inevitable_weaken; [|by apply calm_delivers].
  intros w1 [Hw1 Hd] ms' w2 Hrun'. apply (delivered_stable w1); [done| |by eapply moves_log].
  by eapply moves_inv.
Qed.

(** After one tick in the receiver's first turn. *)
Lemma demo_delivers_without_ticks_witness :
  ∃ d0 w0 w, launched 1 d0 = Some w0 ∧ moves (benchmark_task (H := Dev) sample_clock) [MTick] w0 = Some w ∧
    inevitable (benchmark_task (H := Dev) sample_clock)
      (λ w1, ∀ ms' w2, moves (benchmark_task (H := Dev) sample_clock) ms' w1 = Some w2 → delivered w2) w.
Proof.
  destruct (demo_delivers_without_ticks (H := Dev) 0x600000 sample_stacks (λ _, 0x500000) [] 1 sample_clock
    sample_stacks_fit) as (d0 & w0 & Hd0 & Hw0 & Hall); [done|].
  exists d0, w0. specialize (Hall [MTick]).
  destruct (moves (benchmark_task (H := Dev) sample_clock) [MTick] w0) as [w|] eqn:Hrun.
  - exists w. split; [exact Hw0|]. split; [reflexivity|]. apply Hall; [reflexivity|].
    vm_compute in Hd0. injection Hd0 as <-. vm_compute in Hw0. injection Hw0 as <-.
    vm_compute in Hrun. injection Hrun as <-. intros [] i Hi; vm_compute in Hi; discriminate.
  - vm_compute in Hd0. injection Hd0 as <-. vm_compute in Hw0. injection Hw0 as <-. vm_compute in Hrun.
    discriminate.
Defined.
