(* ===== verification/Kernel.v ===== *)
(** * The x86-64 kernel's start
    ([src/src/main.rs], [memory.rs])

    [kernel_main] as a composition of the components: the descriptor tables, the
    physical memory, the heap, capabilities and IPC, the self-tests of debug
    builds, the demo suite, the benchmarks, the timer, and the multitasking
    demo it ends in.  Interrupts are off until the timer is set up; the demo is
    then followed both between timer ticks and, over [DemoOrder] and
    [DemoProgress], with ticks anywhere. *)
From stdpp Require Import strings.
From S2P Require Import Preempt DemoTicks DemoOrder DemoProgress.
From S2P Require Import Prelude Words Capability Syscall Task Scheduler Switch TaskEntry Interrupts Exceptions.
From S2P Require Import Ipc WasmRuntime Demos Memory Benchmark Boot.

(** [OffsetPageTable::new] of the [x86_64] crate, on the address of the level 4
    table. *)
Class OffsetPageTables (M : Type) := OffsetPageTable_new : Z → Z → M.

(** What the boot loader, the linker and the clocks provide. *)
Record BootInfo := mkBootInfo {
  physical_memory_offset : option Z;
  memory_regions : list MemoryRegion;
  level_4_frame : Z;                      (* start of the frame in CR3 *)
  double_fault_stack : Z;                 (* the static array in TSS *)
  boot_start : Z; boot_end : Z;           (* the cycle counter *)
  suite_readings : Z * Z * Z * Z;
  bench_start : Z; bench_end : Z;         (* in [benchmark_task] *)
  bench_ticks : Z;
  wrapper : Z;                            (* [task_entry_wrapper] *)
  demo_stacks : nat → Z; demo_entries : nat → Z
}.

(** The global state when the multitasking demo begins. *)
Record Machine (T M : Type) := mkMachine {
  segments : Segments T;
  mapper : M;
  heap : option (Z * Z);
  kernel_space : option CSpace;
  wasm : Globals;
  BOOT_CYCLES : Z;
  timer_writes : list (Z * Z);
  interrupt_flag : bool
}.
Arguments mkMachine {T M}.
Arguments segments {T M}. Arguments mapper {T M}. Arguments heap {T M}.
Arguments kernel_space {T M}. Arguments wasm {T M}. Arguments BOOT_CYCLES {T M}.
Arguments timer_writes {T M}. Arguments interrupt_flag {T M}.

(** [scheduler::init] *)
Definition scheduler_init : K () := with_guard SCHEDULER (set_scheduler Scheduler_new).

Section memory.
Context {M : Type} `{!VirtAddrs, !OffsetPageTables M}.

Definition active_level_4_table (cr3 physical_memory_offset : Z) : outcome Z :=
  let phys := cr3 in
  virt_add physical_memory_offset phys.

Definition memory_init (cr3 physical_memory_offset : Z) : outcome M :=
  level_4_table ← active_level_4_table cr3 physical_memory_offset;
  Ok (OffsetPageTable_new level_4_table physical_memory_offset).
End memory.

Section kernel_main.
Context `{Build} {T Descriptor M Frame G : Type}.
Context `{!Descriptors T Descriptor, !VirtAddrs, !OffsetPageTables M}.
Context `{!PhysFrames Frame, !Paging M Frame, !Wasmi G}.
Context (fuel : nat) (images : Images).

(** [#[cfg(debug_assertions)]] around a piece of code. *)
Definition in_debug {A} (a : A) (m : outcome A) : outcome A :=
  if debug_assertions then m else Ok a.

(** [int3]: the breakpoint exception, taken and returned from. *)
Definition int3 (idt : gmap Z Gate) : outcome () :=
  match interrupt idt breakpoint 0 (mkIrqState false false 0 None) with
  | Some o => e ← o; match e with Returns _ _ _ => Ok tt | Halts => Hang end
  | None => Hang
  end.

(** Up to the heap. *)
Definition init_memory (boot_info : BootInfo) : outcome (M * option (Z * Z)) :=
  phys_mem_offset ← unwrap (physical_memory_offset boot_info);
  phys_mem_offset ← virt_new phys_mem_offset;
  mapper ← memory_init (level_4_frame boot_info) phys_mem_offset;
  let frame_allocator := BootInfoFrameAllocator_init (memory_regions boot_info) in
  '(mapper, _, r, heap) ← init_heap (Frame := Frame) mapper frame_allocator;
  match r with
  | ROk _ => Ok (mapper, heap)
  | RErr _ => Panic
  end.

(** The self-test of debug builds and the demo suite; [None] when a guest made the
    delivery run out of fuel. *)
Definition run_wasm (gl : Globals) : outcome (option () * Globals) :=
  '(r, gl) ← in_debug (Some tt, gl) (test_wasm_execution (G := G) gl);
  match r with
  | None => Ok (None, gl)
  | Some _ => run_all_demos (G := G) fuel images gl
  end.

Definition kernel_main (boot_info : BootInfo) : outcome (option (Machine T M * Demo)) :=
  seg ← gdt_init (T := T) (double_fault_stack boot_info);
  let idt := IDT (cs seg) in
  _ ← in_debug tt (int3 idt);
  '(mapper, heap) ← init_memory boot_info;
  let kernel_space := capability_init None in
  '(_, k) ← ipc_init (mkKernel None None [] []);
  _ ← in_debug [] (test_capability_system SyscallContext_new);
  '(r, gl) ← run_wasm (mkGlobals [] [] []);
  match r with
  | None => Ok None
  | Some _ =>
      let '(r1, r2, r3, r4) := suite_readings boot_info in
      _ ← run_benchmark_suite stats_zero r1 r2 r3 r4;
      boot_cycles ← (boot_end boot_info -u[64] boot_start boot_info);
      '(writes, flag) ← init_timer 100;
      '(_, k) ← scheduler_init k;
      d ← test_scheduler (wrapper boot_info) (demo_stacks boot_info) (demo_entries boot_info) k;
      Ok (Some (mkMachine seg mapper heap kernel_space gl boot_cycles writes flag, d))
  end.

(** The clock of the demo's benchmark task. *)
Definition demo_clock (boot_info : BootInfo) (m : Machine T M) : Clock :=
  mkClock (bench_start boot_info) (bench_end boot_info) (bench_ticks boot_info) (BOOT_CYCLES m).
End kernel_main.

(** ** The run of [kernel_main] *)

(** What the boot loader documents, and clocks that run forward. *)
Record boot_info_ok (b : BootInfo) : Prop := {
  ok_offset : ∃ off, physical_memory_offset b = Some off ∧ canonical off ∧
    canonical (off + level_4_frame b);
  ok_frame : 0 ≤ level_4_frame b;
  ok_map : memory_map_ok (memory_regions b);
  ok_stack : canonical (double_fault_stack b) ∧ canonical (double_fault_stack b + STACK_SIZE);
  ok_boot : 0 ≤ boot_start b ≤ boot_end b ∧ boot_end b < 2 ^ 64;
  ok_bench : 0 ≤ bench_start b ≤ bench_end b ∧ bench_end b < 2 ^ 64 ∧ in_u 64 (bench_ticks b * 10);
  ok_demo_stacks : stacks_fit (demo_stacks b)
}.

Lemma int3_run `{Build} cs : int3 (IDT cs) = Ok tt.
Proof. unfold int3, interrupt, gate_for. by rewrite idt_lookup. Qed.

Lemma in_debug_run `{Build} {A} (a b : A) m : m = Ok b → ∃ c, in_debug a m = Ok c.
Proof. intros ->. unfold in_debug. destruct debug_assertions; by eexists. Qed.

Section run.
Context `{Build} {T Descriptor M Frame G : Type}.
Context `{!Descriptors T Descriptor, !DescriptorsLaws T Descriptor, !VirtAddrs, !VirtAddrsLaws}.
Context `{!OffsetPageTables M, !PhysFrames Frame, !Paging M Frame}.
Context `{!Wasmi G, !TypedGuest G, !EndingGuest G, !QuietGuest G}.

(** The page table the heap is mapped with. *)
Definition boot_mapper (b : BootInfo) : M :=
  let off := default 0 (physical_memory_offset b) in
  OffsetPageTable_new (off + level_4_frame b) off.

Lemma init_memory_run b :
  boot_info_ok b →
  init_memory (M := M) (Frame := Frame) b =
    '(mapper, _, r, heap) ← init_heap (Frame := Frame) (boot_mapper b)
                              (BootInfoFrameAllocator_init (memory_regions b));
    match r with ROk _ => Ok (mapper, heap) | RErr _ => Panic end.
Proof.
  intros Hok. destruct (ok_offset _ Hok) as (off & Hoff & Hc & Hc4).
  unfold init_memory, boot_mapper, memory_init, active_level_4_table. rewrite Hoff.
  cbn [unwrap mbind outcome_bind default]. rewrite virt_new_canonical by done. cbn [mbind outcome_bind].
  rewrite virt_add_canonical by (done || apply Hok). done.
Qed.

Lemma run_wasm_run fuel images gl :
  (66 <= fuel)%nat → confined gl →
  ∃ gl', run_wasm (G := G) fuel images gl = Ok (Some tt, gl') ∧ confined gl'.
Proof.
  intros Hfuel Hgl. unfold run_wasm, in_debug. destruct debug_assertions.
  - destruct (self_test_run (G := G) gl Hgl) as (gl1 & -> & Hgl1). cbn [mbind outcome_bind].
    by apply demos_run.
  - cbn [mbind outcome_bind]. by apply demos_run.
Qed.

Lemma gdt_init_run b :
  boot_info_ok b → ∃ seg : Segments T, gdt_init (double_fault_stack b) = Ok seg.
Proof.
  intros Hok. destruct (ok_stack _ Hok) as [Hs He]. unfold gdt_init. rewrite TSS_run by done.
  cbn [mbind outcome_bind]. destruct (GDT_run (T := T) (Descriptor := Descriptor)
    (<[0%nat := double_fault_stack b + STACK_SIZE]> (replicate 7 0))) as (g & s & -> & _). by eexists.
Qed.
End run.

(** The jump [test_scheduler] ends in: the wrapper, and then the entry point. *)
Lemma first_jump `{Build} stack wrapper entry base terminate_task label c old new :
  in_u 64 (stack + TASK_STACK_SIZE) → wrapper = addr_add base 0 → switch_ok c old new →
  load_words (x86_mem c) new 18 = context_words (entry_context stack wrapper entry) →
  ∃ c1, step_entry base terminate_task (switch_context label c old new) = Some c1 ∧ rip c1 = entry.
Proof.
  intros Hfit Hw Hsw Hwords.
  destruct (fresh_switch_run 1 stack wrapper "ipc_receiver" entry Priority_Normal _ _ label c old new
    (Task_new_fits 1 stack wrapper "ipc_receiver" entry Hfit) Hfit Hsw Hwords) as (Hrip & Hdi & _ & _ & Hl).
  destruct (step_call base terminate_task (switch_context label c old new)) as (c1 & Hstep & Hc1 & _);
    [congruence|done|]. exists c1. split; [done|congruence].
Qed.

(** ** What the start promises *)
Section theorems.
Context `{Build} {T Descriptor M Frame G : Type}.
Context `{!Descriptors T Descriptor, !DescriptorsLaws T Descriptor, !VirtAddrs, !VirtAddrsLaws}.
Context `{!OffsetPageTables M, !PhysFrames Frame, !Paging M Frame, !Wasmi G}.


(** No memory, no kernel.  Without the offset of the physical memory, or when a
    page of the heap cannot be mapped, [kernel_main] panics before anything
    else is set up, in every build and whatever the demo modules are. *)
Theorem x86_boot_needs_memory fuel images b :
  boot_info_ok b →
  (∀ mapper' fa' e h,
     init_heap (Frame := Frame) (boot_mapper b) (BootInfoFrameAllocator_init (memory_regions b)) =
       Ok (mapper', fa', RErr e, h) →
     kernel_main (T := T) (M := M) (Frame := Frame) (G := G) fuel images b = Panic) ∧
  kernel_main (T := T) (M := M) (Frame := Frame) (G := G) fuel images
    (mkBootInfo None (memory_regions b) (level_4_frame b) (double_fault_stack b) (boot_start b)
       (boot_end b) (suite_readings b) (bench_start b) (bench_end b) (bench_ticks b) (wrapper b)
       (demo_stacks b) (demo_entries b)) = Panic.
Proof.
  intros Hok. destruct (gdt_init_run (T := T) b Hok) as [seg Hseg].
  assert (in_debug tt (int3 (IDT (cs seg))) = Ok tt) as Hint
    by (rewrite int3_run; unfold in_debug; by destruct debug_assertions).
  unfold kernel_main. cbn [double_fault_stack]. rewrite Hseg. cbn [mbind outcome_bind].
  rewrite Hint. cbn [mbind outcome_bind]. split; [|done].
  intros mapper' fa' e h Hheap. rewrite init_memory_run, Hheap by done. done.
Qed.
End theorems.

(** ** A concrete machine: 16 MB of usable memory, one usable page for the second *)

#[global] Instance flat_page_tables : OffsetPageTables FlatPaging := λ _ _, ∅.

Definition sample_boot (regions : list MemoryRegion) : BootInfo :=
  mkBootInfo (Some 0x18000000000) regions 0x101000 0x300000 1000 9000000 (10, 20, 30, 40) 1000 9000 50
    0x600000 (λ i, 0x100000 + 0x10000 * Z.of_nat (Nat.min i 3)) (λ _, 0x500000).

Lemma sample_boot_ok regions : memory_map_ok regions → boot_info_ok (sample_boot regions).
Proof.
  intros Hm. split; simpl; try done.
  - eexists. split; [done|]. split; left; lia.
  - split; left; unfold STACK_SIZE; lia.
  - intros i. unfold in_u, TASK_STACK_SIZE. simpl. lia.
Qed.

Definition one_page : list MemoryRegion := [mkMemoryRegion 0x100000 0x101000 MemoryRegionKind_Usable].

Lemma one_page_ok : memory_map_ok one_page.
Proof. split; [by repeat constructor|simpl; split; [apply Forall_nil_2|done]]. Qed.


Lemma x86_boot_needs_memory_witness :
  kernel_main (H := Release) (T := list (option FlatDescriptor)) (M := FlatPaging) (Frame := Z)
    (G := Client) 66 sample_images (sample_boot one_page) = Panic.
Proof.
  destruct (x86_boot_needs_memory (H := Release) (T := list (option FlatDescriptor)) (M := FlatPaging)
    (Frame := Z) (G := Client) 66 sample_images (sample_boot one_page)) as [Hmap _].
  - apply sample_boot_ok, one_page_ok.
  - eapply Hmap. vm_compute. reflexivity.
Defined.
