(* ===== verification/BuildScript.v ===== *)
(** * The build script ([src/build.rs])

    Which kernel binary the script wraps into bootable disk images, where the
    images go, and everything it tells cargo.  Environment, file system and the image
    builder of the [bootloader] crate are inputs. *)
From stdpp Require Import strings.
From S2P Require Import Prelude.

(** A path is its components. *)
Definition Path : Type := list string.

(** [PathBuf::pop] does nothing on an empty path. *)
Definition pop (p : Path) : Path := take (length p - 1) p.
Definition push (p : Path) (name : string) : Path := p ++ [name].

Record Host := mkHost {
  TARGET : option string;
  CARGO_BIN_FILE : option Path;
  OUT_DIR : option Path;
  bootloader_build : bool;             (* the feature *)
  exists_ : Path → bool;
  create_uefi_image : Path → Path → bool;  (* of the kernel at, into *)
  create_bios_image : Path → Path → bool;
  metadata : Path → option Z            (* the size of the file, once it is made *)
}.

(** What the script tells cargo and leaves on disk: the lines it prints, a
    [Remark] being a warning without data. *)
Inductive Output :=
  | NoKernel
  | Building (kernel : Path)
  | ImageCreated (image : Path)
  | ImageSize (bytes : Z)
  | ImageFailed (image : Path)
  | Remark (text : string)
  | RerunIfChanged (p : Path).

(** [kernel_path]; [None] is the early return. *)
Definition kernel_path (h : Host) : outcome (option Path) :=
  match CARGO_BIN_FILE h with
  | Some path => Ok (Some path)
  | None =>
      target_dir ← unwrap (OUT_DIR h);
      let kernel_path := push (pop (pop (pop target_dir))) "jericho_os" in
      if exists_ h kernel_path then Ok (Some kernel_path)
      else
        let release_path := push (push (pop (pop kernel_path)) "release") "jericho_os" in
        if exists_ h release_path then Ok (Some release_path) else Ok None
  end.

(** The two images; a failure is reported and the script goes on, but an image that was
    made must be there. *)
Definition uefi_image (h : Host) (kernel image : Path) : outcome (list Output) :=
  if create_uefi_image h kernel image then
    len ← unwrap (metadata h image);
    Ok [ImageCreated image; ImageSize len; Remark "Use OVMF firmware to boot UEFI image"; RerunIfChanged kernel]
  else Ok [ImageFailed image].

Definition bios_image (h : Host) (kernel image : Path) : outcome (list Output) :=
  if create_bios_image h kernel image then
    len ← unwrap (metadata h image);
    Ok [ImageCreated image; ImageSize len; RerunIfChanged kernel]
  else Ok [ImageFailed image;
           Remark "This is non-fatal - kernel binary still usable with manual bootloader"].

Definition starts_with (p s : string) : bool := String.prefix p s.

Definition main (h : Host) : outcome (list Output) :=
  target ← unwrap (TARGET h);
  if negb (starts_with "x86_64" target) then Ok []
  else if negb (bootloader_build h) then Ok []
  else
    path ← kernel_path h;
    match path with
    | None => Ok [NoKernel]
    | Some kernel =>
        out_dir ← unwrap (OUT_DIR h);
        uefi ← uefi_image h kernel (push out_dir "boot-uefi.img");
        bios ← bios_image h kernel (push out_dir "boot-bios.img");
        Ok (Building kernel :: uefi ++ bios ++ [RerunIfChanged ["build.rs"]])
    end.

(** ** What the script promises *)

Lemma pop_app root l : l ≠ [] → pop (root ++ l) = root ++ pop l.
Proof.
  intros Hl. unfold pop. destruct l as [|x l]; [done|]. rewrite length_app.
  replace (length root + length (x :: l) - 1)%nat with (length root + (length (x :: l) - 1))%nat
    by (simpl; lia).
  by rewrite take_app_add.
Qed.

(** An image that the builder makes can be read back. *)
Definition images_readable (h : Host) : Prop :=
  ∀ kernel image, create_uefi_image h kernel image = true ∨ create_bios_image h kernel image = true →
    is_Some (metadata h image).

Lemma uefi_image_run h kernel image :
  images_readable h → ∃ out, uefi_image h kernel image = Ok out ∧
    (∀ k, Building k ∉ out) ∧ ∀ i, ImageCreated i ∈ out ↔ create_uefi_image h kernel image = true ∧ i = image.
Proof.
  intros Hread. unfold uefi_image. destruct (create_uefi_image h kernel image) eqn:Hc.
  - destruct (Hread kernel image (or_introl Hc)) as [len ->]. eexists. split; [reflexivity|]. split; set_solver.
  - eexists. split; [reflexivity|]. split; set_solver.
Qed.

Lemma bios_image_run h kernel image :
  images_readable h → ∃ out, bios_image h kernel image = Ok out ∧
    (∀ k, Building k ∉ out) ∧ ∀ i, ImageCreated i ∈ out ↔ create_bios_image h kernel image = true ∧ i = image.
Proof.
  intros Hread. unfold bios_image. destruct (create_bios_image h kernel image) eqn:Hc.
  - destruct (Hread kernel image (or_intror Hc)) as [len ->]. eexists. split; [reflexivity|]. split; set_solver.
  - eexists. split; [reflexivity|]. split; set_solver.
Qed.

(** Both images of a kernel. *)
Lemma make_images h kernel out_dir (chosen : Path → Prop) :
  images_readable h → (∀ k, k = kernel ↔ chosen k) → ∃ out,
    (uefi ← uefi_image h kernel (push out_dir "boot-uefi.img");
     bios ← bios_image h kernel (push out_dir "boot-bios.img");
     Ok (Building kernel :: uefi ++ bios ++ [RerunIfChanged ["build.rs"%string]])) = Ok out ∧
    (∀ k, Building k ∈ out ↔ chosen k) ∧
    ∀ i, ImageCreated i ∈ out ↔ ∃ k, Building k ∈ out ∧
      (create_uefi_image h k i = true ∧ i = push out_dir "boot-uefi.img" ∨
       create_bios_image h k i = true ∧ i = push out_dir "boot-bios.img").
Proof.
  intros Hread Hkernel.
  destruct (uefi_image_run h kernel (push out_dir "boot-uefi.img") Hread) as (uefi & -> & Hu & Hui).
  destruct (bios_image_run h kernel (push out_dir "boot-bios.img") Hread) as (bios & -> & Hb & Hbi).
  eexists. split; [reflexivity|].
  assert (∀ k, Building k ∈ Building kernel :: uefi ++ bios ++ [RerunIfChanged ["build.rs"%string]] ↔ k = kernel) as Hk.
  { intros k. rewrite elem_of_cons, !elem_of_app, list_elem_of_singleton. naive_solver. }
  split; [intros k; by rewrite Hk|]. intros i.
  rewrite elem_of_cons, !elem_of_app, list_elem_of_singleton, Hui, Hbi. split.
  - intros Hi. exists kernel. rewrite Hk. naive_solver.
  - intros (k & ->%Hk & Hi). naive_solver.
Qed.

(** The images are of the kernel that was built.  Cargo's own path wins; without
    it, in cargo's layout [root/profile/build/package-hash/out], the script takes the
    binary of the same profile, then the release binary of the same target, and
    otherwise makes no image.  Either image may fail without the other.  Other targets
    and builds without the feature do nothing. *)
Theorem build_script_spec h root profile package :
  let out_dir := root ++ [profile; "build"; package; "out"]%string in
  OUT_DIR h = Some out_dir →
  TARGET h = Some "x86_64-jericho"%string → bootloader_build h = true → images_readable h →
  let same := root ++ [profile; "jericho_os"]%string in
  let release := root ++ ["release"; "jericho_os"]%string in
  ∃ out, main h = Ok out ∧
    (∀ k, Building k ∈ out ↔
      match CARGO_BIN_FILE h with
      | Some p => k = p
      | None => exists_ h same = true ∧ k = same ∨
                exists_ h same = false ∧ exists_ h release = true ∧ k = release
      end) ∧
    ∀ i, ImageCreated i ∈ out ↔ ∃ k, Building k ∈ out ∧
      (create_uefi_image h k i = true ∧ i = push out_dir "boot-uefi.img" ∨
       create_bios_image h k i = true ∧ i = push out_dir "boot-bios.img").
Proof.
  intros out_dir Hout Htarget Hfeature Hread same release.
  assert (push (pop (pop (pop out_dir))) "jericho_os" = same) as Hsame.
  { unfold out_dir. rewrite !pop_app by done. unfold push. by rewrite <- app_assoc. }
  assert (push (push (pop (pop same)) "release") "jericho_os" = release) as Hrel.
  { unfold same. rewrite !pop_app by done. unfold push. by rewrite <- !app_assoc. }
  unfold main, kernel_path. rewrite Hout, Htarget, Hfeature. cbn [unwrap mbind outcome_bind].
  rewrite Hsame, Hrel. cbn [starts_with negb].
  destruct (CARGO_BIN_FILE h) as [p|]; [by apply (make_images h p)|].
  destruct (exists_ h same); [apply (make_images h same); naive_solver|].
  destruct (exists_ h release); [apply (make_images h release); naive_solver|].
  eexists. split; [reflexivity|]. split; [intros k; set_solver|]. intros i. set_solver.
Qed.
